(* ===== verification/_CoqProject ===== *)
-Q . S2P
Prelude.v
Effects.v
Errors.v
RingBuffer.v
World.v
Sequence.v
Gating.v
Single.v
Multi.v
Availability.v
MultiClaim.v
Sequencer.v
Waiting.v
WaitStrategy.v
Strategies.v
Parking.v
Barrier.v
ConsumerEngine.v
Delivery.v
Progress.v
Threads.v
Core.v
Processor.v
Builder.v
WorkerPool.v
Workers.v
Producer.v
ProducerSpec.v
MultiPublish.v
EndToEnd.v
Chain.v
Handle.v
Pipeline.v
Dsl.v
DslSpec.v
DslProgress.v
ThreadManagement.v
Elegant.v
Handlers.v
Poller.v
Text.v
Float64.v
Json.v
Diagnostics.v
CommandLine.v
Checksums.v
TailWorkload.v
TailWorkloadSpec.v
TailArgs.v
TailArgsSpec.v
TailReport.v
TailReportSpec.v
TailJson.v
H2h.v
H2hSpec.v
H2hReport.v
H2hDiagnostics.v
Baseline.v
PipelineBreakdown.v
PipelineBreakdownSpec.v
PipelineReport.v
UnicastBreakdown.v
UnicastBreakdownSpec.v
UnicastConsumer.v
UnicastReport.v
Witnesses.v
RuntimeWitnesses.v
TailWitnesses.v
HarnessWitnesses.v
BreakdownWitnesses.v
UnicastWitnesses.v
