(* ===== verification/Prelude.v ===== *)
(** * BadBatch: a verified model of the disruptor core

    BadBatch (src/src/disruptor) is a Rust implementation of the LMAX disruptor:
    producers claim sequence numbers from a sequencer, write the events of the
    claimed sequences into a ring of a power-of-two number of slots and publish
    them; consumers wait at barriers for published sequences, hand the events
    to handlers and advance their own sequences, which gate the producers.
    Its binaries (src/src/bin) are measurement harnesses that run the library
    and decide, from what their handlers have counted, whether a round is valid.

    ** The program's parts and the files that model them

    - [Prelude]: machine integers ([i64], [usize] as [Z] with the wrap-around of
      the release profile written out), powers of two, trailing zeros, and the
      arithmetic tactics [i64_lia] and [nowrap].
    - [Effects]: the state monad in which all shared-memory code is written.  A
      computation runs against an environment, a schedule that says what the
      other threads do before each of its atomic actions; it ends with a value,
      a panic, or out of fuel.  Contracts: [wp] (against every environment of a
      rely relation: no panic, and the postcondition), [wpx] (the same with a
      second postcondition for the panic), [twp] and [ends] (this schedule: a
      result within the fuel).  Rules for each, and the tactics
      [wp_steps], [twp_steps], [keeps], [halts], [advances].
    - [Errors]: [DisruptorError] (mod.rs), [FailureRecord], [FailurePhase]
      (failure.rs).
    - [RingBuffer]: ring_buffer.rs: slot storage in its three paddings, indexing,
      capacity arithmetic, the mutable batch iterator.
    - [World]: the shared memory of a pipeline.  [Sequence]s and [AtomicBool]s
      are addresses ([loc]) of two maps, so that barriers, consumers and
      producers alias them as the [Arc]s do; one single-producer and one
      multi-producer sequencer, the blocking strategy's mutex state, the clock,
      the ring.
    - [Sequence]: sequence.rs.  [Gating]: [add_gating_sequences_rcu] and
      [remove_gating_sequence_cas] of sequencer.rs.
    - [Single]: [SingleProducerSequencer] and [UniqueProducerCapability].
    - [Multi]: [MultiProducerSequencer]: cursor claims by compare-and-swap, the
      gating cache, the availability bitmap (and the per-slot buffer that
      replaces it below 64 slots), range publication, the contiguous scan.
      [Availability] and [MultiClaim] hold its theorems.
    - [Sequencer]: the [Sequencer] trait as a record of operations, the dispatch
      of [SequencerEnum], and the interface [SequencerView] that the barriers
      are proved against; both sequencers are instances.
    - [Waiting]: wait_strategy.rs and simple_wait_strategy.rs: the traits
      [WaitStrategy] and [SimpleWaitStrategy] as type classes with every [impl]
      of the crate as an instance, method by method; the adapter, the boxed
      strategy, the clock and the deadlines computed from it.  [WaitStrategy]:
      the waits by the strategy a pipeline was built with, and their contracts.
      [Strategies]: the two yielding strategies against each other, and the
      contract of the adapter for a strategy an application adds.  [Parking]:
      the parked phase of the blocking strategy as a transition system with its
      mutex and condition variable.
    - [Barrier]: [ProcessingSequenceBarrier] (sequence_barrier.rs).
    - [ConsumerEngine]: consumer_engine.rs, with the handler traits of
      event_handler.rs and exception_handler.rs as arguments: the sequential
      loop, the read-only loop, the worker loop.  [Delivery] and [Progress] hold
      the theorems on the sequential loop; [WorkerPool] the claim protocol of
      any number of workers as a transition system, which the worker loop is
      shown to refine in [Workers].
    - [Producer]: [SimpleProducer] (producer.rs): [publish], [batch_publish],
      [try_publish], [try_batch_publish], the panic guard, the classification of
      rejections.  [ProducerSpec] holds its theorems for the single-producer
      sequencer, [MultiPublish] those for the multi-producer one.  [EndToEnd]
      composes a producer with a consumer, [Chain] with a chain of them.
    - [Threads]: the bodies of the consumer threads and the run modes of the
      stages (builder/consumer.rs), and how such a thread may end.
    - [Core]: [DisruptorCore] (builder/core.rs): drain, halt, joining, release of
      the gating sequences.
    - [Processor]: [BatchEventProcessor] (event_processor.rs): [run], the probe
      [try_run_once], the lifecycle callbacks under the handler mutex.
    - [Builder]: the fluent builders (builder/fluent.rs) as a partial function
      on their type states, and [create_disruptor_core].
    - [Handle]: [DisruptorHandle] (builder/handle.rs), [CloneableProducer], the
      unique capability of the single producer.  [Pipeline]: the entry points
      (builder/entry.rs) and [build], from a chain of builder calls to a handle.
    - [Dsl]: the classic facade (disruptor.rs); [DslSpec] and
      [DslProgress] hold its theorems.
    - [ThreadManagement]: thread_management.rs.  [Elegant]: elegant_consumer.rs.
    - [Handlers]: the crate's own handlers, factories and translators, and the
      textual form of [ProducerType].
    - [Poller]: event_poller.rs.
    - [Diagnostics]: the texts of the failure records and of the rejections
      (failure.rs, producer.rs), and a reader of the former.
    - [Text], [Float64], [CommandLine], [Checksums], [Json]: what the harnesses
      share: the standard library's number parsing and printing, [f64] as
      binary64, the loop over the words of a command line, sums modulo 2^64, the
      pieces JSON reports are made of and the JSON reader they are compared with.
    - [TailWorkload], [TailArgs], [TailReport], [TailJson]:
      bin/h2h_tail_latency.rs: the workloads and handlers on the consumer
      thread, the command line, the runs, statistics, gates and exit status on
      the main thread, and the report; theorems on the first three in the files
      of the same names with [Spec].
    - [H2h], [H2hReport], [H2hDiagnostics]: bin/h2h_rust.rs, its report and its
      round diagnostics; [H2hSpec] the theorems.
    - [PipelineBreakdown], [PipelineReport]: bin/pipeline_breakdown.rs, the main
      thread reading the counters between any two atomic actions of the last
      stage; [PipelineBreakdownSpec] its theorems.
    - [UnicastBreakdown], [UnicastReport]: bin/unicast_breakdown.rs, as programs
      on the [World] of the library; [UnicastBreakdownSpec] and [UnicastConsumer]
      its theorems.
    - [Baseline]: bin/baseline_metrics.rs.
    - [Witnesses], [RuntimeWitnesses], [TailWitnesses], [HarnessWitnesses],
      [BreakdownWitnesses], [UnicastWitnesses]: the theorems with hypotheses
      applied to concrete pipelines, command lines and rounds.

    ** What the theorems show

    - Consumers: the sequential loop hands every sequence to its handler once,
      in order, with the payload that was published, and releases exactly what
      was handled; a fatal handler error freezes the sequence below the failed
      event and poisons the producers ([Delivery]); a consumer told to stop
      returns ([Progress]); the workers of a pool handle no sequence twice and
      the slowest advertised sequence never passes an unhandled one
      ([WorkerPool]); the loop of consumer_engine.rs on the shared memory takes
      only steps of that protocol, handles only what it has claimed, and returns
      when told to stop ([Workers]).  With a producer's own calls as the
      environment, what it publishes is what the handler is given ([EndToEnd]);
      with the loops of any number of stages in front of the consumer as well,
      the handler is given what the stages have made of it, in turn ([Chain]).
    - Barriers: what a wait returns is published and passed by every upstream
      consumer; waits fail only for an alert, a shutdown or a deadline
      ([Barrier], [WaitStrategy]); polling waits return once their cause is
      there; a parked waiter is always woken ([Parking]).  The full yielding
      strategy and the simple one behind the adapter, written independently of
      each other, wait alike; the adapter keeps the contract for any strategy
      an application adds ([Strategies]).
    - Claims: a claim is an exclusive range of free slots, contiguous with the
      claims before it; claims end once consumers catch up or the pipeline is
      closed or poisoned; the claim lock rejects a second driver ([Single],
      [MultiClaim], [Sequencer]).
    - Availability: the bitmap refines the set of published sequences of the
      current lap; range publication equals publishing one by one; the word-wise
      scan finds the longest published prefix, also while others publish
      ([Availability]).
    - Producers: the blocking publish writes the slot before moving the cursor
      and returns; a panicking update poisons the pipeline and exposes nothing;
      rejections of a terminal pipeline are reported as terminal
      ([ProducerSpec]).  Through the multi-producer sequencer the claimed
      sequences, and those only, are filled and then made available
      ([MultiPublish]).
    - Threads and processors: a consumer thread that is gone was told to stop,
      alerted, or has left the pipeline poisoned with a failure record
      ([Threads]); a processor runs once at a time, and its probe does to the
      events what the engine does and gives its claim back on every way out
      ([Processor]).
    - Pipelines: whatever chain of builder calls type-checks, the assembled
      pipeline has the stages, dependencies, run modes and gating it describes
      ([Builder]); shutting it down closes claims, drains what was published,
      joins every thread and releases the producers, and returns if time passes
      and the consumers obey; with a timeout whose deadline is not representable
      it panics instead, claims closed and nothing halted ([Core]); every way of stopping a handle leaves it
      inert, and at most one producer ever has the unchecked claim path
      ([Handle]); the whole life, from the entry point through any chain of
      calls and [build] to a handle that is down, is one theorem ([Pipeline]).
    - Facade: start waits for every processor's startup or takes down what it
      started; shutdown drains, joins and reports why it could not; a chain has
      the links its calls describe; a publication made inside a translator is
      refused and the claim guard is released on every exit ([DslSpec]); a
      shutdown with a timeout whose deadline is representable returns, because
      every processor is halted before the first thread is joined ([DslProgress]).
    - Elegant consumer: from its constructor on, its loop calls the handler on
      consecutive sequences and ends when told; a panic poisons the linked producers ([Elegant]).
    - Deviations the model shows: a restarted facade does not wait for its
      processors ([restart_does_not_wait]), a panicking [on_batch_start] of a
      probe does not poison ([probe_batch_start_panic]), the elegant consumer
      never waits for a publication ([elegant_never_waits]), a clearing handler
      does not start the handler it wraps ([clearing_skips_on_start]), a shutdown
      with an unrepresentable deadline does not stop what it has closed
      ([ex_shutdown_overflow], [ex_dsl_shutdown_overflow]).
    - Harnesses: accepted command lines satisfy the stated checks (not the
      bounds of products and allocations computed from them later), and
      CPU lists survive printing and parsing ([TailArgsSpec]); a run that lost
      nothing is assessed valid, the percentiles are nearest ranks, and a passed
      pause gate means that the pause was seen ([TailReportSpec]); a checksum is
      the expected one exactly if every event has arrived once ([H2hSpec]), and the
      diagnostics of a round are accepted exactly if every consumer was told of
      all its events ([H2hDiagnostics]); the verdict on a round of a breakdown is right for what the handlers counted
      ([PipelineBreakdownSpec], [UnicastBreakdownSpec]); once the last event is
      counted, the checksum that goes with it is visible ([UnicastConsumer]).
      Deviations: the last stage of the pipeline breakdown adds to two counters
      in turn, and a main thread that reads between the two takes a good round
      for a bad one ([breakdown_race]); the closed form for the checksum of the
      unicast breakdown halves after wrapping, and rejects good rounds of more
      than about three thousand million events ([direct_phases_verdict]); the
      throughput harness does not bound its event count ([events_unbounded]).
    - Texts: every report is a JSON text exactly if its numbers are finite, and
      reads back as the values it was made of, floating-point numbers to the
      digits shown ([PipelineReport], [UnicastReport], [H2hReport], [TailJson]);
      the labels of the throughput harness are not escaped and can break its
      report ([label_not_escaped]).  The text of a failure record reads back as
      the record, whatever its message ([failure_text_reads_back]).
    - Pollers: a poll returns, with readable events only; dropping a batch
      commits exactly the taken prefix; the bundle opens in a state in which
      the other theorems apply ([Poller]).
    - Storage: construction accepts exactly the powers of two; writes are read
      back and do not disturb the rest of the lap ([RingBuffer]).

    ** Rely relations, bounds and fuel

    The contracts assume of the other threads what the design asks of them:
    sequences move forward, the gating set of a running claim only shrinks,
    a consumer's slots are left alone until it releases them.  The sequence
    space of [i64] is not exhausted (a hypothesis of each theorem that needs
    it); below that bound the wrapping operations are the integer ones, which is
    proved and not assumed.  Loops carry fuel.  Loops over a batch, a range or a
    word need at most the number of slots, which is the bound the theorems ask
    for; loops that wait for other threads are given fuel beyond the action [k0]
    of the schedule at which their cause is there, and are then shown to return.
    In the harnesses, calibration has fuel above its number of events, a
    consumer loop above the size of its ring, and a spin above the action at
    which its flag is up; a claim with nobody to gate it needs one attempt.  The
    JSON parser has twice the number of tokens, which suffices for every value.
    The clock counts nanoseconds; an [Instant] of the platform has [i64] seconds
    and fewer than 10^9 nanoseconds, and adding a [Duration] that leaves this
    range panics ([Waiting.deadline_after]), in the library and the harnesses.

    ** What is not modelled

    Memory orderings: every atomic access is sequentially consistent.  [Debug]
    output and logging.  Mutexes are flags that a lock sets atomically and the
    guard's drop clears; a [JoinHandle] is the state of its thread; the
    core_affinity crate is what it reports and answers.  Application closures
    (handlers, factories, translators, updates, hooks) are arguments.
    [BatchEventProcessor::spawn] and plain getters.  Of the harnesses: file
    paths and the file system, pinning to CPUs and help texts.
    The Criterion benches, the build script, the tests and the TLA+ models of
    the repository.  Text that is not ASCII is kept byte by byte.

    ** Plan

    Left: the finiteness of the statistics in a report, which needs error bounds
    of binary64 arithmetic; a chain whose stages fail, or that multiple producers
    feed, as one end-to-end statement. *)
From stdpp Require Export base numbers option list gmap strings relations.
From Stdlib Require Export ZArith Lia.

#[global] Open Scope Z_scope.

(** ** Machine integers

    [i64], [u64] and [usize] values are [Z]; the operations the source performs
    on them write the wrap-around out.  The release profile of the crate leaves
    [overflow-checks] off, so [+], [-] wrap. *)

Definition two63 : Z := 9223372036854775808.
Definition two64 : Z := 18446744073709551616.
Definition i64_min : Z := - two63.
Definition i64_max : Z := two63 - 1.
Definition usize_max : Z := two64 - 1.
Definition u64_ones : Z := two64 - 1.

(** The [i64] with the same low 64 bits. *)
Definition wrap64 (z : Z) : Z := (z + two63) mod two64 - two63.

(** The cast [x as u64] / [x as usize] of an [i64]. *)
Definition as_u64 (z : Z) : Z := z mod two64.

Declare Scope i64_scope.
Delimit Scope i64_scope with i64.
Notation "a +! b" := (wrap64 (a + b)) (at level 50, left associativity) : i64_scope.
Notation "a -! b" := (wrap64 (a - b)) (at level 50, left associativity) : i64_scope.
#[global] Open Scope i64_scope.

(** [i64::saturating_sub]. *)
Definition saturating_sub (a b : Z) : Z := Z.max i64_min (Z.min (a - b) i64_max).

(** [i64::saturating_add]. *)
Definition saturating_add (a b : Z) : Z := Z.max i64_min (Z.min (a + b) i64_max).

(** [i64::try_from(x : usize)]. *)
Definition i64_try_from (n : Z) : option Z := if n <=? i64_max then Some n else None.

(** [usize::try_from(x : i64)]. *)
Definition usize_try_from (n : Z) : option Z := if 0 <=? n then Some n else None.

(** [usize::is_power_of_two]: exactly one bit is set. *)
Definition is_power_of_two (n : Z) : bool :=
  (0 <? n) && (Z.land n (n - 1) =? 0).

(** [trailing_zeros] of a non-zero word. *)
Fixpoint pos_trailing_zeros (p : positive) : Z :=
  match p with
  | xO q => 1 + pos_trailing_zeros q
  | _ => 0
  end.

Definition trailing_zeros (z : Z) : Z :=
  match z with
  | Zpos p => pos_trailing_zeros p
  | _ => 64
  end.

Definition in_i64 (z : Z) : Prop := i64_min <= z <= i64_max.

Ltac unfold_i64 :=
  unfold in_i64, i64_min, i64_max, usize_max, u64_ones, two63, two64 in *.

(** [i64_lia] closes linear goals about values that mention the bounds. *)
Ltac i64_lia := unfold_i64; lia.

Lemma wrap64_id z : in_i64 z -> wrap64 z = z.
Proof.
  intros H. unfold wrap64. rewrite Z.mod_small; unfold_i64; lia.
Qed.

Lemma wrap64_range z : in_i64 (wrap64 z).
Proof.
  unfold wrap64. pose proof (Z.mod_pos_bound (z + two63) two64). i64_lia.
Qed.

(** [nowrap] removes every wrap-around whose operand is in range. *)
Ltac nowrap :=
  repeat match goal with
  | |- context [wrap64 ?x] => rewrite (wrap64_id x) by i64_lia
  | H : context [wrap64 ?x] |- _ => rewrite (wrap64_id x) in H by i64_lia
  end.

Lemma saturating_sub_id a b : in_i64 (a - b) -> saturating_sub a b = a - b.
Proof. unfold saturating_sub. intros. i64_lia. Qed.

Lemma as_u64_small z : 0 <= z <= u64_ones -> as_u64 z = z.
Proof. intros. unfold as_u64. apply Z.mod_small. i64_lia. Qed.

(** ** Powers of two *)

Lemma is_power_of_two_spec n :
  is_power_of_two n = true <-> exists k, 0 <= k /\ n = 2 ^ k.
Proof.
  unfold is_power_of_two. rewrite andb_true_iff, Z.ltb_lt, Z.eqb_eq. split.
  - intros [Hpos Hland]. exists (Z.log2 n). split; [apply Z.log2_nonneg|].
    destruct (Z.log2_spec n Hpos) as [Hlo Hhi].
    destruct (Z.eq_dec n (2 ^ Z.log2 n)) as [|Hne]; [done|]. exfalso.
    assert (Hb1 : Z.testbit n (Z.log2 n) = true) by (apply Z.bit_log2; lia).
    assert (Hb2 : Z.testbit (n - 1) (Z.log2 n) = true).
    { destruct (Z.eq_dec n 1) as [->|]; [done|].
      replace (Z.log2 n) with (Z.log2 (n - 1)); [apply Z.bit_log2; lia|].
      apply Z.log2_unique; [apply Z.log2_nonneg | lia]. }
    assert (Hc : Z.testbit (Z.land n (n - 1)) (Z.log2 n) = true)
      by (rewrite Z.land_spec, Hb1, Hb2; done).
    rewrite Hland, Z.testbit_0_l in Hc. discriminate.
  - intros (k & Hk & ->). split; [apply Z.pow_pos_nonneg; lia|].
    rewrite Z.sub_1_r, <- Z.ones_equiv, Z.land_ones by lia.
    apply Z.mod_same. apply Z.pow_nonzero; lia.
Qed.

Lemma land_mask k s : 0 <= k -> Z.land s (2 ^ k - 1) = s mod 2 ^ k.
Proof. intros. rewrite Z.sub_1_r, <- Z.ones_equiv. by apply Z.land_ones. Qed.

Lemma pos_trailing_zeros_nonneg p : 0 <= pos_trailing_zeros p.
Proof. induction p; simpl; lia. Qed.

Lemma trailing_zeros_pow2 k : 0 <= k -> trailing_zeros (2 ^ k) = k.
Proof.
  intros Hk. pattern k. apply natlike_ind; [done | | done].
  intros x Hx IH. rewrite Z.pow_succ_r by done.
  assert (H : 0 < 2 ^ x) by (apply Z.pow_pos_nonneg; lia).
  revert IH H. destruct (2 ^ x) as [|p|p]; intros IH H; try lia.
  rewrite <- Pos2Z.inj_xO. cbn [trailing_zeros pos_trailing_zeros] in *. lia.
Qed.

(** The bit [trailing_zeros] names is set and every lower one is clear. *)
Lemma trailing_zeros_spec z :
  0 < z ->
  0 <= trailing_zeros z /\ Z.testbit z (trailing_zeros z) = true /\
  forall i, 0 <= i < trailing_zeros z -> Z.testbit z i = false.
Proof.
  destruct z as [|p|p]; try lia. intros _. simpl trailing_zeros.
  split; [apply pos_trailing_zeros_nonneg|].
  induction p as [p IH|p IH|].
  - simpl pos_trailing_zeros. split; [done | intros; lia].
  - simpl pos_trailing_zeros. pose proof (pos_trailing_zeros_nonneg p).
    destruct IH as [IH1 IH2]. rewrite Pos2Z.inj_xO. split.
    + rewrite Z.add_1_l, Z.double_bits_succ. done.
    + intros i Hi. destruct (Z.eq_dec i 0) as [->|]; [by rewrite Z.testbit_even_0|].
      replace i with (Z.succ (i - 1)) by lia. rewrite Z.double_bits_succ.
      apply IH2. lia.
  - simpl pos_trailing_zeros. split; [done | intros; lia].
Qed.

(** ** Sublists *)

Lemma sublist_elem {A} (l1 l2 : list A) x : l1 `sublist_of` l2 -> x ∈ l1 -> x ∈ l2.
Proof. induction 1; set_solver. Qed.

(** A proper sublist is shorter. *)
Lemma sublist_strict {A} (l1 l2 : list A) : l1 `sublist_of` l2 -> l1 <> l2 -> (length l1 < length l2)%nat.
Proof.
  induction 1 as [|x l1 l2 Hs IH|x l1 l2 Hs IH]; intros Hne; cbn [length]; [done | |].
  - assert (l1 <> l2) by congruence. specialize (IH ltac:(done)). lia.
  - apply sublist_length in Hs. lia.
Qed.
