(* ===== verification/Effects.v ===== *)
(** * Effects: shared-memory code under interference

    The code of the crate runs on threads that share atomics.  A piece of it is
    modelled as a function of an _environment_: a schedule [e : nat -> S -> S]
    that gives, at the [k]-th atomic action of the thread, what the other
    threads did to the shared state [S] just before it.  Running a computation
    ends with a value, with a Rust panic (whose message unwinds), or because
    the fuel of one of its loops ran out.

    [wp R m Q s] says that from [s], against every environment whose moves are
    in the rely relation [R], [m] does not panic and establishes [Q]. *)
From S2P Require Import Prelude.

Inductive outcome (S A : Type) : Type :=
| Done (a : A) (k : nat) (s : S)
| Panicked (msg : string) (k : nat) (s : S)
| NoFuel.
Arguments Done {S A} a k s.
Arguments Panicked {S A} msg k s.
Arguments NoFuel {S A}.

Definition env (S : Type) : Type := nat -> S -> S.

Definition M (S A : Type) : Type := env S -> nat -> S -> outcome S A.

(** The environment in which no other thread moves. *)
Definition idle {S : Type} : env S := fun _ s => s.

Section Combinators.
Context {S : Type}.

Definition ret {A} (a : A) : M S A := fun _ k s => Done a k s.

Definition bind {A B} (m : M S A) (f : A -> M S B) : M S B :=
  fun e k s =>
    match m e k s with
    | Done a k' s' => f a e k' s'
    | Panicked msg k' s' => Panicked msg k' s'
    | NoFuel => NoFuel
    end.

(** One atomic access to shared memory: the environment moves first. *)
Definition atomic {A} (f : S -> A * S) : M S A :=
  fun e k s => let r := f (e k s) in Done (fst r) (Datatypes.S k) (snd r).

Definition load {A} (f : S -> A) : M S A := atomic (fun s => (f s, s)).

Definition store (f : S -> S) : M S unit := atomic (fun s => (tt, f s)).

(** An access that is not a synchronisation point (a field no other thread
    writes, an immutable field). *)
Definition silent {A} (f : S -> A * S) : M S A :=
  fun _ k s => let r := f s in Done (fst r) k (snd r).

Definition read {A} (f : S -> A) : M S A := silent (fun s => (f s, s)).

Definition write (f : S -> S) : M S unit := silent (fun s => (tt, f s)).

(** [panic!] *)
Definition panic {A} (msg : string) : M S A := fun _ k s => Panicked msg k s.

(** [std::panic::catch_unwind] *)
Definition catch_unwind {A} (m : M S A) : M S (A + string) :=
  fun e k s =>
    match m e k s with
    | Done a k' s' => Done (inl a) k' s'
    | Panicked msg k' s' => Done (inr msg) k' s'
    | NoFuel => NoFuel
    end.

(** [std::panic::resume_unwind] is [panic] with the caught message. *)

(** A local whose [Drop] runs on every exit path. *)
Definition with_guard {A} (m : M S A) (drop : M S unit) : M S A :=
  bind (catch_unwind m) (fun r =>
  bind drop (fun _ =>
  match r with
  | inl a => ret a
  | inr msg => panic msg
  end)).

(** A local whose [Drop] runs while unwinding only (it is forgotten on the
    normal path with [std::mem::forget]). *)
Definition on_unwind {A} (m : M S A) (drop : M S unit) : M S A :=
  bind (catch_unwind m) (fun r =>
  match r with
  | inl a => ret a
  | inr msg => bind drop (fun _ => panic msg)
  end).

(** A [loop { ... }]: [inl x] is the next iteration with locals [x], [inr a] a
    [break] or [return] with [a]. *)
Fixpoint loop {X A} (fuel : nat) (body : X -> M S (X + A)) (x : X) : M S A :=
  match fuel with
  | O => fun _ _ _ => NoFuel
  | Datatypes.S fuel' =>
      bind (body x) (fun r =>
      match r with
      | inl x' => loop fuel' body x'
      | inr a => ret a
      end)
  end.

(** [for x in l { f x }] *)
Fixpoint for_each {X} (l : list X) (f : X -> M S unit) : M S unit :=
  match l with
  | [] => ret tt
  | x :: l' => bind (f x) (fun _ => for_each l' f)
  end.

End Combinators.

Declare Scope eff_scope.
Delimit Scope eff_scope with eff.
Notation "'let*' x ':=' m 'in' f" := (bind m (fun x => f))
  (at level 10, x pattern, m at level 100, f at level 200) : eff_scope.
#[global] Open Scope eff_scope.

(** ** Results

    [std::result::Result]. *)
Inductive result (A E : Type) : Type :=
| Ok (a : A)
| Err (e : E).
Arguments Ok {A E} a.
Arguments Err {A E} e.

(** The [?] operator. *)
Definition try_ {S A B E} (m : M S (result A E)) (f : A -> M S (result B E)) : M S (result B E) :=
  bind m (fun r => match r with Ok a => f a | Err e => ret (Err e) end).
Notation "'let?' x ':=' m 'in' f" := (try_ m (fun x => f))
  (at level 10, x pattern, m at level 100, f at level 200) : eff_scope.

(** ** Weakest preconditions under a rely *)
Section WP.
Context {S : Type}.

Definition respects (R : S -> S -> Prop) (e : env S) : Prop := forall k s, R s (e k s).

Definition wp (R : S -> S -> Prop) {A} (m : M S A) (Q : A -> S -> Prop) (s : S) : Prop :=
  forall e k, respects R e ->
  match m e k s with
  | Done a _ s' => Q a s'
  | Panicked _ _ _ => False
  | NoFuel => True
  end.

Context (R : S -> S -> Prop).

Lemma wp_ret {A} (a : A) Q s : Q a s -> wp R (ret a) Q s.
Proof. intros H e k _. exact H. Qed.

Lemma wp_bind {A B} (m : M S A) (f : A -> M S B) Q s :
  wp R m (fun a s' => wp R (f a) Q s') s -> wp R (bind m f) Q s.
Proof.
  intros H e k He. specialize (H e k He). unfold bind.
  destruct (m e k s); [apply H; done | done | done].
Qed.

Lemma wp_atomic {A} (f : S -> A * S) (Q : A -> S -> Prop) s :
  (forall s', R s s' -> Q (fst (f s')) (snd (f s'))) -> wp R (atomic f) Q s.
Proof. intros H e k He. apply H, He. Qed.

Lemma wp_load {A} (f : S -> A) (Q : A -> S -> Prop) s :
  (forall s', R s s' -> Q (f s') s') -> wp R (load f) Q s.
Proof. intros H. by apply wp_atomic. Qed.

Lemma wp_store (f : S -> S) (Q : unit -> S -> Prop) s :
  (forall s', R s s' -> Q tt (f s')) -> wp R (store f) Q s.
Proof. intros H. by apply wp_atomic. Qed.

Lemma wp_read {A} (f : S -> A) (Q : A -> S -> Prop) s :
  Q (f s) s -> wp R (read f) Q s.
Proof. intros H e k He. exact H. Qed.

Lemma wp_write (f : S -> S) (Q : unit -> S -> Prop) s :
  Q tt (f s) -> wp R (write f) Q s.
Proof. intros H e k He. exact H. Qed.

Lemma wp_try {A B E} (m : M S (result A E)) (f : A -> M S (result B E)) Q s :
  wp R m (fun r s' => match r with
                      | Ok a => wp R (f a) Q s'
                      | Err e => Q (Err e) s'
                      end) s ->
  wp R (try_ m f) Q s.
Proof.
  intros H. apply wp_bind. intros e k He. specialize (H e k He).
  destruct (m e k s) as [[a|err] k' s'| |]; try done. by apply wp_ret.
Qed.

Lemma wp_mono {A} (m : M S A) (Q Q' : A -> S -> Prop) s :
  wp R m Q s -> (forall a s', Q a s' -> Q' a s') -> wp R m Q' s.
Proof.
  intros H HQ e k He. specialize (H e k He). destruct (m e k s); auto.
Qed.

Lemma wp_with_guard {A} (m : M S A) (drop : M S unit) Q s :
  wp R m (fun a s' => wp R drop (fun _ s'' => Q a s'') s') s ->
  wp R (with_guard m drop) Q s.
Proof.
  intros H. apply wp_bind. intros e k He. specialize (H e k He). unfold catch_unwind.
  destruct (m e k s) as [a k' s'| |]; try done.
  apply wp_bind. eapply wp_mono; [exact H|]. intros [] s'' HQ. by apply wp_ret.
Qed.

Lemma wp_on_unwind {A} (m : M S A) (drop : M S unit) Q s : wp R m Q s -> wp R (on_unwind m drop) Q s.
Proof.
  intros H. apply wp_bind. intros e k He. specialize (H e k He). unfold catch_unwind.
  destruct (m e k s) as [a k' s'| |]; try done. by apply wp_ret.
Qed.

Lemma wp_catch {A} (m : M S A) (Q : A + string -> S -> Prop) s :
  wp R m (fun a s' => Q (inl a) s') s -> wp R (catch_unwind m) Q s.
Proof. intros H e k He. specialize (H e k He). unfold catch_unwind. by destruct (m e k s). Qed.

(** Only what a computation does against the rely matters. *)
Lemma wp_ext {A} (m m' : M S A) Q s : (forall e k, m e k s = m' e k s) -> wp R m' Q s -> wp R m Q s.
Proof. intros Heq H e k He. rewrite Heq. by apply H. Qed.

(** The loop rule: an invariant on the locals and the shared state. *)
Lemma wp_loop {X A} (I : X -> S -> Prop) (body : X -> M S (X + A)) Q :
  (forall x s, I x s ->
     wp R (body x) (fun r s' => match r with inl x' => I x' s' | inr a => Q a s' end) s) ->
  forall fuel x s, I x s -> wp R (loop fuel body x) Q s.
Proof.
  intros Hbody fuel. induction fuel as [|fuel IH]; intros x s HI; [by intros e k He|].
  cbn [loop]. apply wp_bind. eapply wp_mono; [by apply Hbody|].
  intros [x'|a] s' H; [by apply IH | by apply wp_ret].
Qed.

Lemma wp_for_each {X} (I : list X -> S -> Prop) (f : X -> M S unit) :
  (forall x l s, I (x :: l) s -> wp R (f x) (fun _ s' => I l s') s) ->
  forall l s, I l s -> wp R (for_each l f) (fun _ s' => I [] s') s.
Proof.
  intros Hf l. induction l as [|x l IH]; intros s HI; [by apply wp_ret|].
  cbn [for_each]. apply wp_bind. eapply wp_mono; [by apply Hf|]. intros [] s'. apply IH.
Qed.

End WP.

(** One step of symbolic execution of a computation. *)
Ltac wp_step :=
  lazymatch goal with
  | |- wp _ (bind _ _) _ _ => apply wp_bind
  | |- wp _ (try_ _ _) _ _ => apply wp_try
  | |- wp _ (ret _) _ _ => apply wp_ret
  | |- wp _ (read _) _ _ => apply wp_read
  | |- wp _ (write _) _ _ => apply wp_write
  | |- wp _ (load _) _ _ => apply wp_load; intros
  | |- wp _ (store _) _ _ => apply wp_store; intros
  | |- wp _ (atomic _) _ _ => apply wp_atomic; intros
  | |- wp _ (with_guard _ _) _ _ => apply wp_with_guard
  end.
Ltac wp_steps := repeat wp_step.

(** ** Preserved properties

    [keeps R P m]: whatever moves of [R] happen meanwhile, [m] keeps [P] (and
    does not panic).  Structural, so that the [keeps] tactic proves it by
    following the program. *)
Section Keeps.
Context {S : Type} (R : S -> S -> Prop) (P : S -> Prop).

Definition keeps {A} (m : M S A) : Prop := forall s, P s -> wp R m (fun _ s' => P s') s.

Definition stable : Prop := forall s s', P s -> R s s' -> P s'.

Lemma keeps_ret {A} (a : A) : keeps (ret a).
Proof. intros s Hs. by apply wp_ret. Qed.

Lemma keeps_bind {A B} (m : M S A) (f : A -> M S B) : keeps m -> (forall a, keeps (f a)) -> keeps (bind m f).
Proof. intros Hm Hf s Hs. apply wp_bind. eapply wp_mono; [by apply Hm|]. intros a s' Hs'. by apply Hf. Qed.

Lemma keeps_try {A B E} (m : M S (result A E)) (f : A -> M S (result B E)) :
  keeps m -> (forall a, keeps (f a)) -> keeps (try_ m f).
Proof.
  intros Hm Hf s Hs. apply wp_try. eapply wp_mono; [by apply Hm|]. intros [a|e] s' Hs'; [by apply Hf | done].
Qed.

Lemma keeps_atomic {A} (f : S -> A * S) : stable -> (forall s, P s -> P (snd (f s))) -> keeps (atomic f).
Proof. intros Hst Hf s Hs. apply wp_atomic. intros s' Hr. apply Hf. by eapply Hst. Qed.

Lemma keeps_load {A} (f : S -> A) : stable -> keeps (load f).
Proof. intros Hst. by apply keeps_atomic. Qed.

Lemma keeps_store (f : S -> S) : stable -> (forall s, P s -> P (f s)) -> keeps (store f).
Proof. intros Hst Hf. by apply keeps_atomic. Qed.

Lemma keeps_read {A} (f : S -> A) : keeps (read f).
Proof. intros s Hs. by apply wp_read. Qed.

Lemma keeps_write (f : S -> S) : (forall s, P s -> P (f s)) -> keeps (write f).
Proof. intros Hf s Hs. apply wp_write. by apply Hf. Qed.

Lemma keeps_loop {X A} fuel (body : X -> M S (X + A)) x : (forall x, keeps (body x)) -> keeps (loop fuel body x).
Proof.
  intros Hb s Hs. apply (wp_loop R (fun _ => P)); [|done]. intros x' s' Hs'.
  eapply wp_mono; [by apply Hb|]. intros [|]; done.
Qed.

Lemma keeps_for_each {X} (l : list X) (f : X -> M S unit) : (forall x, keeps (f x)) -> keeps (for_each l f).
Proof.
  intros Hf. induction l as [|x l IH]; cbn [for_each]; [apply keeps_ret|]. apply keeps_bind; [apply Hf | done].
Qed.

Lemma keeps_with_guard {A} (m : M S A) drop : keeps m -> keeps drop -> keeps (with_guard m drop).
Proof.
  intros Hm Hd s Hs. apply wp_with_guard. eapply wp_mono; [by apply Hm|]. intros a s' Hs'.
  eapply wp_mono; [by apply Hd|]. done.
Qed.

End Keeps.

(** Two contracts of one computation. *)
Lemma wp_and {S A} (R : S -> S -> Prop) (m : M S A) Q Q' s :
  wp R m Q s -> wp R m Q' s -> wp R m (fun a s' => Q a s' /\ Q' a s') s.
Proof. intros H1 H2 e k He. specialize (H1 e k He). specialize (H2 e k He). by destruct (m e k s). Qed.

(** A contract holds a fortiori against fewer environments. *)
Lemma wp_rely {S A} (R R' : S -> S -> Prop) (m : M S A) Q s :
  (forall x y, R' x y -> R x y) -> wp R m Q s -> wp R' m Q s.
Proof. intros Hsub H e k He. apply H. intros j x. by apply Hsub, He. Qed.

(** Follows the program; stores are left to [done]. *)
Ltac keeps_step :=
  lazymatch goal with
  | |- keeps _ _ (bind _ _) => apply keeps_bind; [|intros]
  | |- keeps _ _ (try_ _ _) => apply keeps_try; [|intros]
  | |- keeps _ _ (ret _) => apply keeps_ret
  | |- keeps _ _ (load _) => apply keeps_load; [assumption]
  | |- keeps _ _ (store _) => apply keeps_store; [assumption | done]
  | |- keeps _ _ (atomic _) => apply keeps_atomic; [assumption|]
  | |- keeps _ _ (read _) => apply keeps_read
  | |- keeps _ _ (write _) => apply keeps_write; done
  | |- keeps _ _ (loop _ _ _) => apply keeps_loop; intros
  | |- keeps _ _ (for_each _ _) => apply keeps_for_each; intros
  | |- keeps _ _ (with_guard _ _) => apply keeps_with_guard
  | |- keeps _ _ (match ?x with _ => _ end) => destruct x
  end.
Ltac keeps := repeat keeps_step.

(** ** Total runs against a fixed environment

    [twp e m Q k s]: run from [s] at action [k] of the schedule [e], [m] returns
    and establishes [Q]. *)
Definition twp {S A} (e : env S) (m : M S A) (Q : A -> nat -> S -> Prop) (k : nat) (s : S) : Prop :=
  match m e k s with
  | Done a k' s' => Q a k' s'
  | _ => False
  end.

Section TWP.
Context {S : Type} (e : env S).

Lemma twp_ret {A} (a : A) (Q : A -> nat -> S -> Prop) k s : Q a k s -> twp e (ret a) Q k s.
Proof. done. Qed.

Lemma twp_bind {A B} (m : M S A) (f : A -> M S B) Q k s :
  twp e m (fun a k' s' => twp e (f a) Q k' s') k s -> twp e (bind m f) Q k s.
Proof. unfold twp, bind. by destruct (m e k s). Qed.

Lemma twp_try {A B E} (m : M S (result A E)) (f : A -> M S (result B E)) Q k s :
  twp e m (fun r k' s' => match r with
                          | Ok a => twp e (f a) Q k' s'
                          | Err err => Q (Err err) k' s'
                          end) k s ->
  twp e (try_ m f) Q k s.
Proof. unfold twp, try_, bind. by destruct (m e k s) as [[]| |]. Qed.

Lemma twp_atomic {A} (f : S -> A * S) (Q : A -> nat -> S -> Prop) k s :
  Q (fst (f (e k s))) (Datatypes.S k) (snd (f (e k s))) -> twp e (atomic f) Q k s.
Proof. done. Qed.

Lemma twp_load {A} (f : S -> A) (Q : A -> nat -> S -> Prop) k s :
  Q (f (e k s)) (Datatypes.S k) (e k s) -> twp e (load f) Q k s.
Proof. done. Qed.

Lemma twp_store (f : S -> S) (Q : unit -> nat -> S -> Prop) k s :
  Q tt (Datatypes.S k) (f (e k s)) -> twp e (store f) Q k s.
Proof. done. Qed.

Lemma twp_read {A} (f : S -> A) (Q : A -> nat -> S -> Prop) k s :
  Q (f s) k s -> twp e (read f) Q k s.
Proof. done. Qed.

Lemma twp_write (f : S -> S) (Q : unit -> nat -> S -> Prop) k s :
  Q tt k (f s) -> twp e (write f) Q k s.
Proof. done. Qed.

Lemma twp_mono {A} (m : M S A) (Q Q' : A -> nat -> S -> Prop) k s :
  twp e m Q k s -> (forall a k' s', Q a k' s' -> Q' a k' s') -> twp e m Q' k s.
Proof. unfold twp. destruct (m e k s); auto. Qed.

Lemma twp_with_guard {A} (m : M S A) (drop : M S unit) Q k s :
  twp e m (fun a k' s' => twp e drop (fun _ k'' s'' => Q a k'' s'') k' s') k s ->
  twp e (with_guard m drop) Q k s.
Proof.
  unfold twp, with_guard, bind, catch_unwind.
  destruct (m e k s) as [a k' s'| |]; try done. by destruct (drop e k' s') as [[]| |].
Qed.

(** A loop returns when, from action [k0] of the schedule on, its body leaves
    it: [I] is kept by the iterations and the environment, every iteration
    performs at least one atomic action, and an iteration begun at action [k0]
    or later leaves the loop with a value in [Q]. *)
Lemma twp_loop {X A} (body : X -> M S (X + A)) (I : X -> nat -> S -> Prop)
    (Q : A -> nat -> S -> Prop) (k0 : nat) :
  (forall x s k, I x k s ->
     twp e (body x) (fun r k' s' => match r with
                                    | inl x' => (k < k')%nat /\ (k < k0)%nat /\ I x' k' s'
                                    | inr a => Q a k' s'
                                    end) k s) ->
  forall fuel x s k, I x k s -> (k0 - k < fuel)%nat -> twp e (loop fuel body x) Q k s.
Proof.
  intros Hbody fuel. induction fuel as [|fuel IH]; intros x s k HI Hf; [lia|].
  cbn [loop]. apply twp_bind. eapply twp_mono; [by apply Hbody|].
  intros [x'|a] k' s'; [|by intros; apply twp_ret].
  intros (Hlt & Hk & HI'). apply IH; [done | lia].
Qed.

(** A loop whose iterations decrease a measure of its locals and the state
    returns. *)
Lemma twp_loop_measure {X A} (mu : X -> S -> nat) (body : X -> M S (X + A)) (I : X -> nat -> S -> Prop)
    (Q : A -> nat -> S -> Prop) :
  (forall x s k, I x k s ->
     twp e (body x) (fun r k' s' => match r with
                                    | inl x' => (mu x' s' < mu x s)%nat /\ I x' k' s'
                                    | inr a => Q a k' s'
                                    end) k s) ->
  forall fuel x s k, I x k s -> (mu x s < fuel)%nat -> twp e (loop fuel body x) Q k s.
Proof.
  intros Hbody fuel. induction fuel as [|fuel IH]; intros x s k HI Hf; [lia|].
  cbn [loop]. apply twp_bind. eapply twp_mono; [by apply Hbody|].
  intros [x'|a] k' s'; [|by intros; apply twp_ret].
  intros [Hmu HI']. apply IH; [done | lia].
Qed.

Lemma twp_for_each {X} (I : list X -> nat -> S -> Prop) (f : X -> M S unit) :
  (forall x l s k, I (x :: l) k s -> twp e (f x) (fun _ k' s' => I l k' s') k s) ->
  forall l s k, I l k s -> twp e (for_each l f) (fun _ k' s' => I [] k' s') k s.
Proof.
  intros Hf l. induction l as [|x l IH]; intros s k HI; [by apply twp_ret|].
  cbn [for_each]. apply twp_bind. eapply twp_mono; [by apply Hf|]. intros [] k' s'. apply IH.
Qed.

End TWP.

Ltac twp_step :=
  lazymatch goal with
  | |- twp _ (bind _ _) _ _ _ => apply twp_bind
  | |- twp _ (try_ _ _) _ _ _ => apply twp_try
  | |- twp _ (ret _) _ _ _ => apply twp_ret
  | |- twp _ (read _) _ _ _ => apply twp_read
  | |- twp _ (write _) _ _ _ => apply twp_write
  | |- twp _ (load _) _ _ _ => apply twp_load
  | |- twp _ (store _) _ _ _ => apply twp_store
  | |- twp _ (atomic _) _ _ _ => apply twp_atomic
  | |- twp _ (with_guard _ _) _ _ _ => apply twp_with_guard
  end.
Ltac twp_steps := repeat twp_step.

(** A partial-correctness contract and a total run combine. *)
Lemma wp_twp {S A} (R : S -> S -> Prop) (e : env S) (m : M S A) Q k s :
  respects R e -> wp R m Q s -> twp e m (fun _ _ _ => True) k s ->
  exists a k' s', m e k s = Done a k' s' /\ Q a s'.
Proof.
  intros He Hwp Ht. specialize (Hwp e k He). unfold twp in Ht.
  destruct (m e k s) as [a k' s'| |]; try done. by exists a, k', s'.
Qed.

Lemma twp_wp {S A} (R : S -> S -> Prop) (e : env S) (m : M S A) Q Q' k s :
  respects R e -> wp R m Q' s -> twp e m Q k s -> twp e m (fun a k' s' => Q a k' s' /\ Q' a s') k s.
Proof.
  intros He Hwp Ht. specialize (Hwp e k He). unfold twp in *. by destruct (m e k s).
Qed.

Lemma wp_of_twp {S A} (R : S -> S -> Prop) (m : M S A) Q s :
  (forall e k, respects R e -> twp e m (fun a _ s' => Q a s') k s) -> wp R m Q s.
Proof. intros H e k He. specialize (H e k He). unfold twp in H. by destruct (m e k s). Qed.

(** More fuel does not change the outcome of a loop that ended. *)
Lemma loop_fuel_mono {S X A} (e : env S) (body : X -> M S (X + A)) fuel fuel' x k s r :
  loop fuel body x e k s = r -> r <> NoFuel -> (fuel <= fuel')%nat ->
  loop fuel' body x e k s = r.
Proof.
  revert fuel' x k s. induction fuel as [|fuel IH]; intros fuel' x k s Hr Hn Hle; [by subst r|].
  destruct fuel' as [|fuel']; [lia|]. cbn [loop] in *. unfold bind in *.
  destruct (body x e k s) as [[x'|a] k' s'| |]; try done.
  apply IH; [done | done | lia].
Qed.

(** Running one step, and unwinding through a guard. *)
Lemma bind_done {S A B} (m : M S A) (f : A -> M S B) e k s a k' s' :
  m e k s = Done a k' s' -> bind m f e k s = f a e k' s'.
Proof. intros H. unfold bind. by rewrite H. Qed.

Lemma with_guard_panic {S A} (m : M S A) drop e k s msg k' s' k'' s'' :
  m e k s = Panicked msg k' s' -> drop e k' s' = Done tt k'' s'' -> with_guard m drop e k s = Panicked msg k'' s''.
Proof. intros H1 H2. unfold with_guard, catch_unwind, bind. by rewrite H1, H2. Qed.

(** A loop that does more on its way out is the loop, and then the rest. *)
Lemma loop_then {S X A B} (e : env S) (body : X -> M S (X + A)) (body' : X -> M S (X + B)) (f : A -> M S B) :
  (forall x k s, body' x e k s =
     bind (body x) (fun r => match r with inl x' => ret (inl x') | inr a => bind (f a) (fun b => ret (inr b)) end) e k s) ->
  forall fuel x k s, loop fuel body' x e k s = bind (loop fuel body x) f e k s.
Proof.
  intros Hb fuel. induction fuel as [|fuel IH]; intros x k s; [done|]. cbn [loop]. unfold bind at 1. rewrite Hb.
  unfold bind, ret. destruct (body x e k s) as [[x'|a] k1 s1| |]; [exact (IH x' k1 s1) | | done | done].
  by destruct (f a e k1 s1).
Qed.

(** ** Computations that end

    [ends e m Q k s]: against the schedule [e], [m] does not run out of fuel,
    and if it returns it establishes [Q] (it may panic: that is excluded by a
    contract, not by termination). *)
Definition ends {S A} (e : env S) (m : M S A) (Q : A -> nat -> S -> Prop) (k : nat) (s : S) : Prop :=
  match m e k s with
  | Done a k' s' => Q a k' s'
  | Panicked _ _ _ => True
  | NoFuel => False
  end.

(** [halts m]: [m] ends against every schedule, wherever it starts (a program
    without loops); [advances m]: the schedule does not go back (every
    program).  The tactics of these names follow the program. *)
Definition halts {S A} (m : M S A) : Prop := forall e k s, ends e m (fun _ _ _ => True) k s.

Definition advances {S A} (m : M S A) : Prop :=
  forall e k s, match m e k s with Done _ k' _ => (k <= k')%nat | _ => True end.

Section Ends.
Context {S : Type}.

Lemma ends_ret {A} (e : env S) (a : A) (Q : A -> nat -> S -> Prop) k s : Q a k s -> ends e (ret a) Q k s.
Proof. done. Qed.

Lemma ends_mono {A} (e : env S) (m : M S A) (Q Q' : A -> nat -> S -> Prop) k s :
  ends e m Q k s -> (forall a k' s', Q a k' s' -> Q' a k' s') -> ends e m Q' k s.
Proof. unfold ends. destruct (m e k s); auto. Qed.

Lemma ends_bind {A B} (e : env S) (m : M S A) (f : A -> M S B) Q k s :
  ends e m (fun a k' s' => ends e (f a) Q k' s') k s -> ends e (bind m f) Q k s.
Proof. unfold ends, bind. by destruct (m e k s) as [a k' s'| |]. Qed.

Lemma ends_try {A B E} (e : env S) (m : M S (result A E)) (f : A -> M S (result B E)) Q k s :
  ends e m (fun r k' s' => match r with Ok a => ends e (f a) Q k' s' | Err err => Q (Err err) k' s' end) k s ->
  ends e (try_ m f) Q k s.
Proof. intros H. apply ends_bind. eapply ends_mono; [exact H|]. by intros [a|err] k' s'. Qed.

Lemma ends_load {A} (e : env S) (f : S -> A) (Q : A -> nat -> S -> Prop) k s :
  Q (f (e k s)) (Datatypes.S k) (e k s) -> ends e (load f) Q k s.
Proof. done. Qed.

Lemma ends_wp {A} (R : S -> S -> Prop) (e : env S) (m : M S A) Q Q' k s :
  respects R e -> wp R m Q' s -> ends e m Q k s -> ends e m (fun a k' s' => Q a k' s' /\ Q' a s') k s.
Proof. intros He Hwp Ht. specialize (Hwp e k He). unfold ends in *. by destruct (m e k s). Qed.

Lemma ends_advances {A} (e : env S) (m : M S A) (Q : A -> nat -> S -> Prop) k s :
  advances m -> ends e m Q k s -> ends e m (fun a k' s' => (k <= k')%nat /\ Q a k' s') k s.
Proof. intros Ha Ht. specialize (Ha e k s). unfold ends in *. by destruct (m e k s). Qed.

(** A contract and an end make a total run. *)
Lemma wp_ends {A} (R : S -> S -> Prop) (e : env S) (m : M S A) Q k s :
  respects R e -> wp R m Q s -> ends e m (fun _ _ _ => True) k s ->
  exists a k' s', m e k s = Done a k' s' /\ Q a s'.
Proof.
  intros He Hwp Ht. specialize (Hwp e k He). unfold ends in Ht.
  destruct (m e k s) as [a k' s'| |]; try done. by exists a, k', s'.
Qed.

Lemma twp_ends {A} (e : env S) (m : M S A) Q k s : twp e m Q k s -> ends e m Q k s.
Proof. unfold twp, ends. by destruct (m e k s). Qed.

(** The rules of [twp_loop] and [twp_loop_measure]. *)
Lemma ends_loop {X A} (e : env S) (body : X -> M S (X + A)) (I : X -> nat -> S -> Prop)
    (Q : A -> nat -> S -> Prop) (k0 : nat) :
  (forall x s k, I x k s ->
     ends e (body x) (fun r k' s' => match r with
                                     | inl x' => (k < k')%nat /\ (k < k0)%nat /\ I x' k' s'
                                     | inr a => Q a k' s'
                                     end) k s) ->
  forall fuel x s k, I x k s -> (k0 - k < fuel)%nat -> ends e (loop fuel body x) Q k s.
Proof.
  intros Hbody fuel. induction fuel as [|fuel IH]; intros x s k HI Hf; [lia|].
  cbn [loop]. apply ends_bind. eapply ends_mono; [by apply Hbody|].
  intros [x'|a] k' s'; [|done]. intros (Hlt & Hk & HI'). apply IH; [done | lia].
Qed.

Lemma ends_loop_measure {X A} (e : env S) (mu : X -> nat) (body : X -> M S (X + A)) (I : X -> Prop) :
  (forall x s k, I x ->
     ends e (body x) (fun r _ _ => match r with inl x' => (mu x' < mu x)%nat /\ I x' | inr _ => True end) k s) ->
  forall fuel x s k, I x -> (mu x < fuel)%nat -> ends e (loop fuel body x) (fun _ _ _ => True) k s.
Proof.
  intros Hbody fuel. induction fuel as [|fuel IH]; intros x s k HI Hf; [lia|].
  cbn [loop]. apply ends_bind. eapply ends_mono; [by apply Hbody|].
  intros [x'|a] k' s'; [|done]. intros (Hmu & HI'). apply IH; [done | lia].
Qed.

Lemma halts_ret {A} (a : A) : halts (ret (S := S) a).
Proof. done. Qed.

Lemma halts_panic {A} msg : halts (panic (S := S) (A := A) msg).
Proof. done. Qed.

Lemma halts_atomic {A} (f : S -> A * S) : halts (atomic f).
Proof. done. Qed.

Lemma halts_silent {A} (f : S -> A * S) : halts (silent f).
Proof. done. Qed.

Lemma halts_bind {A B} (m : M S A) (f : A -> M S B) : halts m -> (forall a, halts (f a)) -> halts (bind m f).
Proof. intros Hm Hf e k s. apply ends_bind. eapply ends_mono; [apply Hm|]. intros a k' s' _. apply Hf. Qed.

Lemma halts_try {A B E} (m : M S (result A E)) (f : A -> M S (result B E)) :
  halts m -> (forall a, halts (f a)) -> halts (try_ m f).
Proof. intros Hm Hf. apply halts_bind; [done|]. intros [a|err]; [apply Hf | apply halts_ret]. Qed.

Lemma advances_ret {A} (a : A) : advances (ret (S := S) a).
Proof. intros e k s. cbn. lia. Qed.

Lemma advances_panic {A} msg : advances (panic (S := S) (A := A) msg).
Proof. done. Qed.

Lemma advances_atomic {A} (f : S -> A * S) : advances (atomic f).
Proof. intros e k s. cbn. lia. Qed.

Lemma advances_silent {A} (f : S -> A * S) : advances (silent f).
Proof. intros e k s. cbn. lia. Qed.

Lemma advances_bind {A B} (m : M S A) (f : A -> M S B) :
  advances m -> (forall a, advances (f a)) -> advances (bind m f).
Proof.
  intros Hm Hf e k s. unfold bind. specialize (Hm e k s). destruct (m e k s) as [a k' s'| |]; try done.
  specialize (Hf a e k' s'). destruct (f a e k' s'); [lia | done | done].
Qed.

Lemma advances_try {A B E} (m : M S (result A E)) (f : A -> M S (result B E)) :
  advances m -> (forall a, advances (f a)) -> advances (try_ m f).
Proof. intros Hm Hf. apply advances_bind; [done|]. intros [a|err]; [apply Hf | apply advances_ret]. Qed.

Lemma advances_loop {X A} fuel (body : X -> M S (X + A)) x :
  (forall x, advances (body x)) -> advances (loop fuel body x).
Proof.
  intros Hb. revert x. induction fuel as [|fuel IH]; intros x; [done|]. cbn [loop].
  apply advances_bind; [apply Hb|]. intros [x'|a]; [apply IH | apply advances_ret].
Qed.

End Ends.

Create HintDb effects.

Ltac halts_step :=
  lazymatch goal with
  | |- halts (bind _ _) => apply halts_bind; [|intros]
  | |- halts (try_ _ _) => apply halts_try; [|intros]
  | |- halts (ret _) => apply halts_ret
  | |- halts (panic _) => apply halts_panic
  | |- halts (load _) => apply halts_atomic
  | |- halts (store _) => apply halts_atomic
  | |- halts (atomic _) => apply halts_atomic
  | |- halts (read _) => apply halts_silent
  | |- halts (write _) => apply halts_silent
  | |- halts (match ?x with _ => _ end) => destruct x
  | |- halts _ => solve [auto with effects nocore]
  end.
Ltac halts := repeat halts_step.

Ltac advances_step :=
  lazymatch goal with
  | |- advances (bind _ _) => apply advances_bind; [|intros]
  | |- advances (try_ _ _) => apply advances_try; [|intros]
  | |- advances (ret _) => apply advances_ret
  | |- advances (panic _) => apply advances_panic
  | |- advances (load _) => apply advances_atomic
  | |- advances (store _) => apply advances_atomic
  | |- advances (atomic _) => apply advances_atomic
  | |- advances (read _) => apply advances_silent
  | |- advances (write _) => apply advances_silent
  | |- advances (loop _ _ _) => apply advances_loop; intros
  | |- advances (match ?x with _ => _ end) => destruct x
  | |- advances _ => solve [auto with effects nocore]
  end.
Ltac advances := repeat advances_step.

(** ** Partial contracts

    [wlp R m Q s]: if [m] returns, it has established [Q]; it may panic.  For
    code whose panics are caught further out. *)
Definition wlp {S A} (R : S -> S -> Prop) (m : M S A) (Q : A -> S -> Prop) (s : S) : Prop :=
  forall e k, respects R e -> match m e k s with Done a _ s' => Q a s' | _ => True end.

Section WLP.
Context {S : Type} (R : S -> S -> Prop).

Lemma wlp_wp {A} (m : M S A) Q s : wp R m Q s -> wlp R m Q s.
Proof. intros H e k He. specialize (H e k He). by destruct (m e k s). Qed.

Lemma wlp_any {A} (m : M S A) s : wlp R m (fun _ _ => True) s.
Proof. intros e k _. by destruct (m e k s). Qed.

Lemma wlp_mono {A} (m : M S A) (Q Q' : A -> S -> Prop) s :
  wlp R m Q s -> (forall a s', Q a s' -> Q' a s') -> wlp R m Q' s.
Proof. intros H HQ e k He. specialize (H e k He). destruct (m e k s); auto. Qed.

Lemma wlp_ret {A} (a : A) (Q : A -> S -> Prop) s : Q a s -> wlp R (ret a) Q s.
Proof. by intros ? e k _. Qed.

Lemma wlp_panic {A} msg (Q : A -> S -> Prop) s : wlp R (panic msg) Q s.
Proof. by intros e k _. Qed.

Lemma wlp_bind {A B} (m : M S A) (f : A -> M S B) Q s :
  wlp R m (fun a s' => wlp R (f a) Q s') s -> wlp R (bind m f) Q s.
Proof.
  intros H e k He. specialize (H e k He). unfold bind. destruct (m e k s) as [a k' s'| |]; [|done|done].
  by apply H.
Qed.

(** Only what comes after [m] matters. *)
Lemma wlp_after {A B} (m : M S A) (f : A -> M S B) Q s :
  (forall a s', wlp R (f a) Q s') -> wlp R (bind m f) Q s.
Proof. intros H. apply wlp_bind. eapply wlp_mono; [apply wlp_any|]. intros. apply H. Qed.

Lemma wlp_try {A B E} (m : M S (result A E)) (f : A -> M S (result B E)) Q s :
  wlp R m (fun r s' => match r with Ok a => wlp R (f a) Q s' | Err err => Q (Err err) s' end) s ->
  wlp R (try_ m f) Q s.
Proof. intros H. apply wlp_bind. eapply wlp_mono; [exact H|]. intros [a|err] s'; [done | by apply wlp_ret]. Qed.

Lemma wlp_load {A} (f : S -> A) (Q : A -> S -> Prop) s :
  (forall s', R s s' -> Q (f s') s') -> wlp R (load f) Q s.
Proof. intros HQ e k He. cbn. apply HQ, He. Qed.

Lemma wlp_atomic {A} (f : S -> A * S) (Q : A -> S -> Prop) s :
  (forall s', R s s' -> Q (fst (f s')) (snd (f s'))) -> wlp R (atomic f) Q s.
Proof. intros HQ e k He. cbn. apply HQ, He. Qed.

Lemma wlp_with_guard {A} (m : M S A) drop (Q : A -> S -> Prop) s :
  wlp R m (fun a s' => wlp R drop (fun _ s'' => Q a s'') s') s -> wlp R (with_guard m drop) Q s.
Proof.
  intros H e k He. specialize (H e k He). unfold with_guard, bind, catch_unwind.
  destruct (m e k s) as [a k' s'|msg k' s'|]; [| by destruct (drop e k' s') | done].
  specialize (H e k' He). by destruct (drop e k' s').
Qed.

(** Every exit of a loop satisfies [Q] if every exit of its body does. *)
Lemma wlp_loop {X A} fuel (body : X -> M S (X + A)) (Q : A -> S -> Prop) x s :
  (forall x s, wlp R (body x) (fun r s' => match r with inl _ => True | inr a => Q a s' end) s) ->
  wlp R (loop fuel body x) Q s.
Proof.
  intros Hb. revert x s. induction fuel as [|fuel IH]; intros x s; [by intros e k _|]. cbn [loop].
  apply wlp_bind. eapply wlp_mono; [apply Hb|]. intros [x'|a] s'; [intros _; apply IH | by apply wlp_ret].
Qed.

End WLP.

(** [stays R P m]: [m] keeps [P] if it returns; the partial form of [keeps]. *)
Section Stays.
Context {S : Type} (R : S -> S -> Prop) (P : S -> Prop) (Hst : stable R P).

Definition stays {A} (m : M S A) : Prop := forall s, P s -> wlp R m (fun _ s' => P s') s.

Lemma stays_ret {A} (a : A) : stays (ret a).
Proof. by intros s Hs e k He. Qed.

Lemma stays_panic {A} msg : stays (panic (A := A) msg).
Proof. by intros s Hs e k He. Qed.

Lemma stays_bind {A B} (m : M S A) (f : A -> M S B) : stays m -> (forall a, stays (f a)) -> stays (bind m f).
Proof. intros Hm Hf s Hs. apply wlp_bind. eapply wlp_mono; [by apply Hm|]. intros a s' Hs'. by apply Hf. Qed.

Lemma stays_read {A} (f : S -> A) : stays (read f).
Proof. by intros s Hs e k He. Qed.

Lemma stays_atomic {A} (f : S -> A * S) : (forall s, P s -> P (snd (f s))) -> stays (atomic f).
Proof using Hst. intros Hf s Hs. apply wlp_atomic. intros s' Hr. by eapply Hf, Hst. Qed.

Lemma stays_loop {X A} fuel (body : X -> M S (X + A)) x : (forall x, stays (body x)) -> stays (loop fuel body x).
Proof.
  intros Hb. revert x. induction fuel as [|fuel IH]; intros x; [by intros s Hs e k He|]. cbn [loop].
  apply stays_bind; [done|]. intros [x'|a]; [apply IH | apply stays_ret].
Qed.

Lemma stays_for_each {X} (l : list X) (f : X -> M S unit) : (forall x, stays (f x)) -> stays (for_each l f).
Proof. intros Hf. induction l as [|x l IH]; [apply stays_ret|]. apply stays_bind; [done | intros; apply IH]. Qed.

End Stays.

Ltac stays_step :=
  lazymatch goal with
  | |- stays _ _ (bind _ _) => apply stays_bind; [|intros]
  | |- stays _ _ (ret _) => apply stays_ret
  | |- stays _ _ (panic _) => apply stays_panic
  | |- stays _ _ (read _) => apply stays_read
  | |- stays _ _ (load _) => apply stays_atomic; [assumption | done]
  | |- stays _ _ (store _) => apply stays_atomic; [assumption | done]
  | |- stays _ _ (atomic _) => apply stays_atomic; [assumption|]
  | |- stays _ _ (loop _ _ _) => apply stays_loop; intros
  | |- stays _ _ (for_each _ _) => apply stays_for_each; intros
  | |- stays _ _ (match ?x with _ => _ end) => destruct x
  end.
Ltac stays := repeat stays_step.

(** A total run keeps what the program keeps. *)
Lemma twp_stays {S A} (R : S -> S -> Prop) (P : S -> Prop) (e : env S) (m : M S A) Q k s :
  respects R e -> stays R P m -> P s -> twp e m Q k s -> twp e m (fun a k' s' => Q a k' s' /\ P s') k s.
Proof. intros He Hm Hs Ht. specialize (Hm s Hs e k He). unfold twp in *. by destruct (m e k s). Qed.

(** ** Contracts for both ways out

    [wpx R m Q E s]: if [m] returns it has established [Q], if it panics [E]. *)
Definition wpx {S A} (R : S -> S -> Prop) (m : M S A) (Q : A -> S -> Prop) (E : string -> S -> Prop) (s : S) : Prop :=
  forall e k, respects R e ->
  match m e k s with
  | Done a _ s' => Q a s'
  | Panicked msg _ s' => E msg s'
  | NoFuel => True
  end.

Section WPX.
Context {S : Type} (R : S -> S -> Prop).

Lemma wpx_wp {A} (m : M S A) Q E s : wp R m Q s -> wpx R m Q E s.
Proof. intros H e k He. specialize (H e k He). by destruct (m e k s). Qed.

Lemma wpx_ret {A} (a : A) (Q : A -> S -> Prop) E s : Q a s -> wpx R (ret a) Q E s.
Proof. by intros H e k He. Qed.

Lemma wpx_panic {A} msg (Q : A -> S -> Prop) (E : string -> S -> Prop) s : E msg s -> wpx R (panic msg) Q E s.
Proof. by intros H e k He. Qed.

Lemma wpx_mono {A} (m : M S A) (Q Q' : A -> S -> Prop) E s :
  wpx R m Q E s -> (forall a s', Q a s' -> Q' a s') -> wpx R m Q' E s.
Proof. intros H HQ e k He. specialize (H e k He). destruct (m e k s); auto. Qed.

Lemma wpx_bind {A B} (m : M S A) (f : A -> M S B) Q E s :
  wpx R m (fun a s' => wpx R (f a) Q E s') E s -> wpx R (bind m f) Q E s.
Proof. intros H e k He. specialize (H e k He). unfold bind. destruct (m e k s); [by apply H | done | done]. Qed.

(** A call that does not panic, then the rest. *)
Lemma wpx_seq {A B} (m : M S A) (f : A -> M S B) Q E s :
  wp R m (fun a s' => wpx R (f a) Q E s') s -> wpx R (bind m f) Q E s.
Proof. intros H. by apply wpx_bind, wpx_wp. Qed.

Lemma wpx_loop {X A} (I : X -> S -> Prop) (body : X -> M S (X + A)) Q E :
  (forall x s, I x s -> wpx R (body x) (fun r s' => match r with inl x' => I x' s' | inr a => Q a s' end) E s) ->
  forall fuel x s, I x s -> wpx R (loop fuel body x) Q E s.
Proof.
  intros Hb fuel. induction fuel as [|fuel IH]; intros x s HI; [by intros e k He|]. cbn [loop].
  apply wpx_bind. eapply wpx_mono; [by apply Hb|]. intros [x'|a] s' H; [by apply IH | by apply wpx_ret].
Qed.

(** With an invariant that counts the iterations. *)
Lemma wpx_loop_count {X A} (N : nat) (I : nat -> X -> S -> Prop) (body : X -> M S (X + A)) Q E :
  (forall n x s, (n < N)%nat -> I n x s ->
     wpx R (body x) (fun r s' => match r with inl x' => I (Datatypes.S n) x' s' | inr a => Q a s' end) E s) ->
  forall fuel n x s, (n + fuel <= N)%nat -> I n x s -> wpx R (loop fuel body x) Q E s.
Proof.
  intros Hb fuel. induction fuel as [|fuel IH]; intros n x s Hn HI; [by intros e k He|]. cbn [loop].
  apply wpx_bind. eapply wpx_mono; [apply (Hb n); [lia | done]|].
  intros [x'|a] s' H; [apply (IH (Datatypes.S n)); [lia | done] | by apply wpx_ret].
Qed.

(** Weakening both ways out. *)
Lemma wpx_conseq {A} (m : M S A) (Q Q' : A -> S -> Prop) (E E' : string -> S -> Prop) s :
  wpx R m Q E s -> (forall a s', Q a s' -> Q' a s') -> (forall msg s', E msg s' -> E' msg s') -> wpx R m Q' E' s.
Proof. intros H HQ HE e k He. specialize (H e k He). destruct (m e k s); auto. Qed.

Lemma wpx_wlp {A} (m : M S A) (Q : A -> S -> Prop) E s : wpx R m Q E s -> wlp R m Q s.
Proof. intros H e k He. specialize (H e k He). by destruct (m e k s). Qed.

End WPX.

Lemma wpx_rely {S A} (R R' : S -> S -> Prop) (m : M S A) Q E s :
  (forall x y, R' x y -> R x y) -> wpx R m Q E s -> wpx R' m Q E s.
Proof. intros Hsub H e k He. apply H. intros j x. by apply Hsub, He. Qed.

(** What holds if [m] returns, of a run that does not run out of fuel. *)
Lemma ends_wlp {S A} (R : S -> S -> Prop) (e : env S) (m : M S A) Q Q' k s :
  respects R e -> wlp R m Q' s -> ends e m Q k s -> ends e m (fun a k' s' => Q a k' s' /\ Q' a s') k s.
Proof. intros He Hw Ht. specialize (Hw e k He). unfold ends in *. by destruct (m e k s). Qed.

(** A contract for both ways out and an end: the run takes one of the two. *)
Lemma wpx_ends {S A} (R : S -> S -> Prop) (e : env S) (m : M S A) Q E k s :
  respects R e -> wpx R m Q E s -> ends e m (fun _ _ _ => True) k s ->
  match m e k s with
  | Done a _ s' => Q a s'
  | Panicked msg _ s' => E msg s'
  | NoFuel => False
  end.
Proof. intros He Hw Ht. specialize (Hw e k He). unfold ends in Ht. by destruct (m e k s). Qed.

(** Sequences with the same rest, and loops with the same body, do the same. *)
Lemma bind_ext {S A B} (m m' : M S A) (f g : A -> M S B) (e : env S) k s :
  m e k s = m' e k s -> (forall a k' s', f a e k' s' = g a e k' s') -> bind m f e k s = bind m' g e k s.
Proof. intros Hm Hf. unfold bind. rewrite Hm. by destruct (m' e k s). Qed.

Lemma loop_ext {S X A} (body body' : X -> M S (X + A)) (e : env S) :
  (forall x k s, body x e k s = body' x e k s) -> forall fuel x k s, loop fuel body x e k s = loop fuel body' x e k s.
Proof.
  intros Heq fuel. induction fuel as [|fuel IH]; intros x k s; [done|]. cbn [loop]. unfold bind. rewrite Heq.
  destruct (body' x e k s) as [[x'|a] k' s'| |]; [apply IH | done..].
Qed.

(** ** Equality of behaviour

    Two computations that do the same against every schedule.  Coarser than
    equality of the functions; the contracts respect it. *)
Definition meq {S A} (m m' : M S A) : Prop := forall e k s, m e k s = m' e k s.
Infix "≈" := meq (at level 70, no associativity) : eff_scope.

#[global] Instance meq_equivalence {S A} : Equivalence (@meq S A).
Proof.
  split; [done | intros m m' H e k s; by rewrite H |].
  intros m1 m2 m3 H1 H2 e k s. by rewrite H1.
Qed.

#[global] Instance wp_meq {S A} (R : S -> S -> Prop) : Proper (meq ==> eq ==> eq ==> iff) (@wp S R A).
Proof.
  intros m m' Hm Q ? <- s ? <-. split; intros H e k He; specialize (H e k He); [by rewrite <- Hm | by rewrite Hm].
Qed.

#[global] Instance twp_meq {S A} (e : env S) : Proper (meq ==> eq ==> eq ==> eq ==> iff) (@twp S A e).
Proof. intros m m' Hm Q ? <- k ? <- s ? <-. unfold twp. by rewrite Hm. Qed.

(** Loops whose locals differ: related results at the same action in the same
    state. *)
Definition sim {S A B} (P : A -> B -> Prop) (m : M S A) (m' : M S B) : Prop :=
  forall e k s,
  match m e k s, m' e k s with
  | Done a k1 s1, Done b k2 s2 => P a b /\ k1 = k2 /\ s1 = s2
  | Panicked msg k1 s1, Panicked msg' k2 s2 => msg = msg' /\ k1 = k2 /\ s1 = s2
  | NoFuel, NoFuel => True
  | _, _ => False
  end.

Definition sum_rel {X Y A B} (P : X -> Y -> Prop) (Q : A -> B -> Prop) (r : X + A) (r' : Y + B) : Prop :=
  match r, r' with
  | inl x, inl y => P x y
  | inr a, inr b => Q a b
  | _, _ => False
  end.

Section Sim.
Context {S : Type}.

Lemma sim_ret {A B} (P : A -> B -> Prop) a b : P a b -> sim P (ret (S := S) a) (ret b).
Proof. by intros H e k s. Qed.

Lemma sim_refl {A} (m : M S A) : sim eq m m.
Proof. intros e k s. by destruct (m e k s). Qed.

Lemma sim_bind {A B A' B'} (P : A -> A' -> Prop) (Q : B -> B' -> Prop) (m : M S A) m' (f : A -> M S B) g :
  sim P m m' -> (forall a a', P a a' -> sim Q (f a) (g a')) -> sim Q (bind m f) (bind m' g).
Proof.
  intros Hm Hf e k s. specialize (Hm e k s). unfold bind. destruct (m e k s), (m' e k s); try done.
  destruct Hm as (HP & <- & <-). by apply Hf.
Qed.

Lemma sim_loop {X Y A B} (P : X -> Y -> Prop) (Q : A -> B -> Prop) (body : X -> M S (X + A)) body' :
  (forall x y, P x y -> sim (sum_rel P Q) (body x) (body' y)) ->
  forall fuel x y, P x y -> sim Q (loop fuel body x) (loop fuel body' y).
Proof.
  intros Hb fuel. induction fuel as [|fuel IH]; intros x y Hxy; [done|]. cbn [loop].
  eapply sim_bind; [by apply Hb|]. intros [x'|a] [y'|b] Hr; [by apply IH | done | done | by apply sim_ret].
Qed.

Lemma sim_meq {A} (m m' : M S A) : sim eq m m' -> m ≈ m'.
Proof.
  intros H e k s. specialize (H e k s). destruct (m e k s), (m' e k s); try done; destruct H as (-> & -> & ->); done.
Qed.

End Sim.

(** Follows two programs that make the same accesses. *)
Ltac sim_step :=
  lazymatch goal with
  | |- sim _ (ret _) (ret _) => apply sim_ret
  | |- sim _ (bind ?m _) (bind ?m _) => apply (sim_bind eq); [apply sim_refl | intros ? ? <-]
  | |- sim _ (if ?b then _ else _) (if ?b then _ else _) => destruct b
  end.
Ltac sim_steps := repeat sim_step; try done.
