(* ===== verification/Errors.v ===== *)
(** * Errors: [DisruptorError] (disruptor/mod.rs) and the structured failure
    records of disruptor/failure.rs. *)
From S2P Require Import Prelude.

(** The initial cursor value of every sequence. *)
Definition INITIAL_CURSOR_VALUE : Z := -1.

(** Errors that can occur in the Disruptor. *)
Inductive DisruptorError : Type :=
| BufferFull
| InvalidSequence (sequence : Z)
| InvalidBufferSize (size : Z)
| Timeout
| Shutdown
| InsufficientCapacity
| Alert
| AlreadyRunning
| ShutdownError (msg : string)
| Poisoned
| ConcurrentClaimDriver
| ReentrantPublish.

#[export] Instance DisruptorError_eq_dec : EqDecision DisruptorError.
Proof. solve_decision. Defined.

(** Lifecycle or processing phase in which a managed pipeline failed. *)
Inductive FailurePhase : Type :=
| ThreadAffinity
| HandlerStart
| BatchStart
| EventProcessing
| HandlerShutdown
| ConsumerPanic
| ProducerPanic
| ProcessorThread.

#[export] Instance FailurePhase_eq_dec : EqDecision FailurePhase.
Proof. solve_decision. Defined.

(** [FailurePhase::as_str] *)
Definition as_str (phase : FailurePhase) : string :=
  match phase with
  | ThreadAffinity => "thread_affinity"
  | HandlerStart => "handler_start"
  | BatchStart => "batch_start"
  | EventProcessing => "event_processing"
  | HandlerShutdown => "handler_shutdown"
  | ConsumerPanic => "consumer_panic"
  | ProducerPanic => "producer_panic"
  | ProcessorThread => "processor_thread"
  end.

(** The first structured failure observed by a managed pipeline. *)
Record FailureRecord : Type := mkFailureRecord {
  phase : FailurePhase;
  message : string;
  thread_name : option string;
  stage_index : option Z;
  sequence : option Z
}.

#[export] Instance FailureRecord_eq_dec : EqDecision FailureRecord.
Proof. solve_decision. Defined.

(** [FailureRecord::new] *)
Definition failure_new (ph : FailurePhase) (msg : string) : FailureRecord :=
  mkFailureRecord ph msg None None None.

Definition with_thread_name (name : string) (f : FailureRecord) : FailureRecord :=
  mkFailureRecord (phase f) (message f) (Some name) (stage_index f) (sequence f).

Definition with_stage_index (stage : Z) (f : FailureRecord) : FailureRecord :=
  mkFailureRecord (phase f) (message f) (thread_name f) (Some stage) (sequence f).

Definition with_sequence (s : Z) (f : FailureRecord) : FailureRecord :=
  mkFailureRecord (phase f) (message f) (thread_name f) (stage_index f) (Some s).

(** The decision a logged failure carries. *)
Inductive FailureDecision : Type := Poison | Record.

(** [e.to_string()]: the messages of the [#[error]] attributes; [show] prints
    the integers. *)
Definition error_to_string (show : Z -> string) (e : DisruptorError) : string :=
  match e with
  | BufferFull => "Ring buffer is full"
  | InvalidSequence s => "Invalid sequence: " +:+ show s
  | InvalidBufferSize n => "Buffer size must be a power of 2, got: " +:+ show n
  | Timeout => "Timeout waiting for sequence"
  | Shutdown => "Disruptor has been shut down"
  | InsufficientCapacity => "Insufficient capacity"
  | Alert => "Alert exception"
  | AlreadyRunning => "Already running"
  | ShutdownError msg => "Shutdown error: " +:+ msg
  | Poisoned => "Pipeline poisoned by a fatal producer or consumer failure"
  | ConcurrentClaimDriver => "Concurrent claim on a single-producer sequencer"
  | ReentrantPublish => "Reentrant publish on a single-producer DSL disruptor"
  end.
