(* ===== verification/RingBuffer.v ===== *)
(** * RingBuffer: the pre-allocated circular event store (disruptor/ring_buffer.rs)

    A slot reference is the index of its slot; an access through an index that
    is out of range would be undefined behaviour in the source
    ([get_unchecked]) and is [None] here.  The theorems show that no access of
    the buffer is out of range and that two sequences of one lap never share a
    slot. *)
From S2P Require Import Prelude Effects Errors.

Inductive SlotPadding : Type := PadNone | CacheLine64 | CacheLine128.

Inductive SlotStorage (T : Type) : Type :=
| StInline (slots : list T)
| StCacheLine64 (slots : list T)
| StCacheLine128 (slots : list T).
Arguments StInline {T} slots.
Arguments StCacheLine64 {T} slots.
Arguments StCacheLine128 {T} slots.

Record RingBuffer (T : Type) : Type := mkRingBuffer {
  storage : SlotStorage T;
  index_mask : Z
}.
Arguments mkRingBuffer {T} storage index_mask.
Arguments storage {T} _.
Arguments index_mask {T} _.

Section RingBuffer.
Context {T : Type}.
Implicit Types (rb : RingBuffer T) (st : SlotStorage T) (sequence : Z).

(** The slots, whatever the padding. *)
Definition slots_of st : list T :=
  match st with StInline l | StCacheLine64 l | StCacheLine128 l => l end.

Definition with_slots st (l : list T) : SlotStorage T :=
  match st with
  | StInline _ => StInline l
  | StCacheLine64 _ => StCacheLine64 l
  | StCacheLine128 _ => StCacheLine128 l
  end.

(** [SlotStorage::len] *)
Definition storage_len st : Z :=
  match st with
  | StInline slots => Z.of_nat (length slots)
  | StCacheLine64 slots => Z.of_nat (length slots)
  | StCacheLine128 slots => Z.of_nat (length slots)
  end.

(** [SlotStorage::padding] *)
Definition padding st : SlotPadding :=
  match st with
  | StInline _ => PadNone
  | StCacheLine64 _ => CacheLine64
  | StCacheLine128 _ => CacheLine128
  end.

(** [size_of] of a [repr(C, align(a))] struct with the one field [T]: the size
    of [T] rounded up to the struct's alignment. *)
Definition padded_size (size_T align_T a : Z) : Z :=
  let align := Z.max a align_T in (size_T + align - 1) / align * align.

(** [SlotStorage::slot_stride_bytes] *)
Definition slot_stride_bytes (size_T align_T : Z) st : Z :=
  match st with
  | StInline _ => size_T
  | StCacheLine64 _ => padded_size size_T align_T 64
  | StCacheLine128 _ => padded_size size_T align_T 128
  end.

(** [SlotStorage::get_ref_unchecked] *)
Definition get_ref_unchecked st (index : Z) : option T :=
  if index <? 0 then None else
  match st with
  | StInline slots => slots !! Z.to_nat index
  | StCacheLine64 slots => slots !! Z.to_nat index
  | StCacheLine128 slots => slots !! Z.to_nat index
  end.

(** A write through the pointer of [SlotStorage::get_mut_ptr_unchecked]. *)
Definition write_unchecked st (index : Z) (v : T) : option (SlotStorage T) :=
  if (index <? 0) || (storage_len st <=? index) then None
  else Some (with_slots st (<[Z.to_nat index := v]> (slots_of st))).

(** [RingBuffer::slot_index]: [(sequence & self.index_mask) as usize] *)
Definition slot_index rb sequence : Z := as_u64 (Z.land sequence (index_mask rb)).

(** [RingBuffer::new_with_padding]; [event_factory i] is what the factory
    returns at its [i]-th call. *)
Definition new_with_padding (buffer_size : Z) (event_factory : nat -> T)
    (slot_padding : SlotPadding) : result (RingBuffer T) DisruptorError :=
  if negb (is_power_of_two buffer_size) then Err (InvalidBufferSize buffer_size)
  else match i64_try_from buffer_size with
  | None => Err (InvalidBufferSize buffer_size)
  | Some buffer_size_i64 =>
      let events := map event_factory (seq 0 (Z.to_nat buffer_size)) in
      let st := match slot_padding with
                | PadNone => StInline events
                | CacheLine64 => StCacheLine64 events
                | CacheLine128 => StCacheLine128 events
                end in
      Ok (mkRingBuffer st (buffer_size_i64 -! 1))
  end.

(** [RingBuffer::new] *)
Definition new (buffer_size : Z) (event_factory : nat -> T) :
    result (RingBuffer T) DisruptorError :=
  new_with_padding buffer_size event_factory PadNone.

(** [RingBuffer::get] *)
Definition get rb sequence : option T :=
  get_ref_unchecked (storage rb) (slot_index rb sequence).

(** A write through [RingBuffer::get_mut] / [get_mut_unchecked]. *)
Definition set rb sequence (v : T) : option (RingBuffer T) :=
  match write_unchecked (storage rb) (slot_index rb sequence) v with
  | Some st => Some (mkRingBuffer st (index_mask rb))
  | None => None
  end.

(** [RingBuffer::buffer_size] *)
Definition buffer_size rb : Z := storage_len (storage rb).

(** [RingBuffer::size]; [None] is the panic of [expect]. *)
Definition size rb : option Z := i64_try_from (storage_len (storage rb)).

(** [RingBuffer::has_available_capacity] *)
Definition has_available_capacity rb (required_capacity available_capacity : Z) : bool :=
  required_capacity <=? available_capacity.

(** [RingBuffer::remaining_capacity] *)
Definition remaining_capacity rb (current_sequence next_sequence : Z) : option Z :=
  match size rb with
  | Some sz => Some (sz -! (next_sequence -! current_sequence))
  | None => None
  end.

(** [RingBuffer::free_slots] *)
Definition free_slots rb (producer_sequence consumer_sequence : Z) : option Z :=
  match size rb with
  | Some sz => Some (sz -! (producer_sequence -! consumer_sequence))
  | None => None
  end.

(** ** The batch iterator *)

Record BatchIterMut : Type := mkBatchIterMut { current : Z; last : Z }.

(** [RingBuffer::batch_iter_mut] / [BatchIterMut::new] *)
Definition batch_iter_mut (start end_ : Z) : BatchIterMut := mkBatchIterMut start end_.

(** [BatchIterMut::remaining] *)
Definition remaining (it : BatchIterMut) : Z :=
  if last it <? current it then 0 else (last it -! current it) +! 1.

(** [BatchIterMut::next]: the sequence whose slot is handed out. *)
Definition next (it : BatchIterMut) : option Z * BatchIterMut :=
  if last it <? current it then (None, it)
  else (Some (current it), mkBatchIterMut (current it +! 1) (last it)).

(** [Iterator::size_hint] *)
Definition size_hint (it : BatchIterMut) : Z * option Z :=
  let r := remaining it in (r, Some r).

(** The iterator run to its end: the sequences handed out, in order. *)
Fixpoint drain (fuel : nat) (it : BatchIterMut) : list Z :=
  match fuel with
  | O => []
  | S fuel' => match next it with
               | (Some s, it') => s :: drain fuel' it'
               | (None, _) => []
               end
  end.

(** ** Well-formedness *)

(** What [new_with_padding] establishes: a power-of-two number of slots that
    fits an [i64], and the mask that goes with it. *)
Definition wf rb : Prop :=
  exists k, 0 <= k <= 62 /\ buffer_size rb = 2 ^ k /\ index_mask rb = 2 ^ k - 1.

Lemma storage_len_slots st : storage_len st = Z.of_nat (length (slots_of st)).
Proof. by destruct st. Qed.

Lemma get_ref_slots st i : 0 <= i -> get_ref_unchecked st i = slots_of st !! Z.to_nat i.
Proof.
  intros Hi. unfold get_ref_unchecked. destruct (Z.ltb_spec i 0); [lia|]. by destruct st.
Qed.

Lemma slots_with_slots st l : slots_of (with_slots st l) = l.
Proof. by destruct st. Qed.

Lemma pow2_le_62 k : 0 <= k <= 62 -> 1 <= 2 ^ k <= 4611686018427387904.
Proof.
  intros. split; [pose proof (Z.pow_pos_nonneg 2 k); lia|].
  change 4611686018427387904 with (2 ^ 62). apply Z.pow_le_mono_r; lia.
Qed.

Lemma wf_size rb : wf rb -> 1 <= buffer_size rb <= 4611686018427387904.
Proof. intros (k & Hk & -> & _). by apply pow2_le_62. Qed.

(** The mask computes the Euclidean remainder, for negative sequences too. *)
Lemma slot_index_mod rb sequence :
  wf rb -> slot_index rb sequence = sequence mod buffer_size rb.
Proof.
  intros (k & Hk & Hs & Hm). unfold slot_index. rewrite Hm, Hs, land_mask by lia.
  pose proof (pow2_le_62 k Hk). pose proof (Z.mod_pos_bound sequence (2 ^ k)).
  apply as_u64_small. i64_lia.
Qed.

Lemma slot_index_bounds rb sequence : wf rb -> 0 <= slot_index rb sequence < buffer_size rb.
Proof.
  intros Hwf. rewrite slot_index_mod by done. pose proof (wf_size rb Hwf).
  apply Z.mod_pos_bound. lia.
Qed.

(** Sequences less than a lap apart that share a slot are equal. *)
Lemma mod_window_inj N a b : 0 < N -> a mod N = b mod N -> Z.abs (a - b) < N -> a = b.
Proof.
  intros HN Hm Habs. pose proof (Z.div_mod a N) as Ha. pose proof (Z.div_mod b N) as Hb.
  rewrite Hm in Ha. assert (a - b = N * (a / N - b / N)) as Hd by lia.
  destruct (Z.eq_dec (a / N - b / N) 0) as [H0|H0]; [rewrite H0 in Hd; lia | nia].
Qed.

Lemma set_some rb sequence v :
  wf rb -> exists rb', set rb sequence v = Some rb'.
Proof.
  intros Hwf. pose proof (slot_index_bounds rb sequence Hwf) as Hb.
  unfold set, write_unchecked. unfold buffer_size in Hb.
  destruct (Z.ltb_spec (slot_index rb sequence) 0); [lia|].
  destruct (Z.leb_spec (storage_len (storage rb)) (slot_index rb sequence)); [lia|].
  eauto.
Qed.

Lemma set_inv rb sequence v rb' :
  set rb sequence v = Some rb' ->
  index_mask rb' = index_mask rb /\ buffer_size rb' = buffer_size rb /\
  0 <= slot_index rb sequence < buffer_size rb /\
  slots_of (storage rb') = <[Z.to_nat (slot_index rb sequence) := v]> (slots_of (storage rb)).
Proof.
  unfold set, write_unchecked, buffer_size.
  destruct (Z.ltb_spec (slot_index rb sequence) 0); [done|].
  destruct (Z.leb_spec (storage_len (storage rb)) (slot_index rb sequence)); [done|].
  intros [= <-]. simpl. rewrite !storage_len_slots, slots_with_slots, length_insert.
  rewrite storage_len_slots in *. repeat split; lia.
Qed.

Lemma set_wf rb sequence v rb' : wf rb -> set rb sequence v = Some rb' -> wf rb'.
Proof.
  intros (k & Hk & Hs & Hm) H. apply set_inv in H as (H1 & H2 & _ & _).
  exists k. rewrite H1, H2. done.
Qed.

Lemma slot_index_set rb sequence v rb' s :
  set rb sequence v = Some rb' -> slot_index rb' s = slot_index rb s.
Proof. intros H. apply set_inv in H as (H1 & _). unfold slot_index. by rewrite H1. Qed.

Lemma get_set_same rb sequence v rb' s :
  set rb sequence v = Some rb' -> slot_index rb s = slot_index rb sequence ->
  get rb' s = Some v.
Proof.
  intros H He. pose proof (set_inv _ _ _ _ H) as (_ & Hb & Hr & Hl).
  unfold get. rewrite (slot_index_set _ _ _ _ s H), He, get_ref_slots, Hl by lia.
  unfold buffer_size in Hr. rewrite storage_len_slots in Hr.
  apply list_lookup_insert_eq. lia.
Qed.

Lemma get_set_other rb sequence v rb' s :
  wf rb -> set rb sequence v = Some rb' -> slot_index rb s <> slot_index rb sequence ->
  get rb' s = get rb s.
Proof.
  intros Hwf H Hne. pose proof (set_inv _ _ _ _ H) as (_ & Hb & Hr & Hl).
  pose proof (slot_index_bounds rb s Hwf).
  unfold get. rewrite (slot_index_set _ _ _ _ s H), !get_ref_slots, Hl by lia.
  apply list_lookup_insert_ne. lia.
Qed.

(** A write is seen at its sequence and nowhere else within a lap. *)
Lemma set_frame rb sequence v :
  wf rb ->
  exists rb', set rb sequence v = Some rb' /\ wf rb' /\ buffer_size rb' = buffer_size rb /\
    get rb' sequence = Some v /\
    forall s, s <> sequence -> Z.abs (s - sequence) < buffer_size rb -> get rb' s = get rb s.
Proof.
  intros Hwf. destruct (set_some rb sequence v Hwf) as [rb' Hset].
  exists rb'. pose proof (set_inv _ _ _ _ Hset) as (_ & Hb & _ & _).
  split_and!; eauto using set_wf, get_set_same.
  intros s Hne Habs. eapply get_set_other; eauto. rewrite !slot_index_mod by done.
  pose proof (wf_size rb Hwf). intros Heq. apply mod_window_inj in Heq; lia.
Qed.

Lemma get_some rb sequence : wf rb -> is_Some (get rb sequence).
Proof.
  intros Hwf. pose proof (slot_index_bounds rb sequence Hwf) as Hb.
  unfold get. rewrite get_ref_slots by lia. apply lookup_lt_is_Some_2.
  unfold buffer_size in Hb. rewrite storage_len_slots in Hb. lia.
Qed.

(** ** Theorems *)

Lemma ring_new_spec buffer_size_ event_factory slot_padding :
  0 <= buffer_size_ <= usize_max ->
  match new_with_padding buffer_size_ event_factory slot_padding with
  | Ok rb => (exists k, 0 <= k <= 62 /\ buffer_size_ = 2 ^ k) /\ wf rb /\
             buffer_size rb = buffer_size_ /\ padding (storage rb) = slot_padding /\
             forall i, 0 <= i < buffer_size_ -> get rb i = Some (event_factory (Z.to_nat i))
  | Err e => e = InvalidBufferSize buffer_size_ /\
             (forall k, 0 <= k <= 62 -> buffer_size_ <> 2 ^ k)
  end.
Proof.
  intros Hrange. unfold new_with_padding.
  destruct (is_power_of_two buffer_size_) eqn:Hp; cbn [negb].
  2:{ split; [done|]. intros k Hk ->. apply not_true_iff_false in Hp. apply Hp.
      apply is_power_of_two_spec. exists k. split; lia. }
  apply is_power_of_two_spec in Hp as (k & Hk & ->).
  unfold i64_try_from. destruct (Z.leb_spec (2 ^ k) i64_max) as [Hle|Hgt].
  2:{ split; [done|]. intros k' Hk' Heq. pose proof (pow2_le_62 k' Hk'). i64_lia. }
  assert (Hk62 : 0 <= k <= 62).
  { split; [done|]. destruct (Z.le_gt_cases k 62); [done|].
    pose proof (Z.pow_le_mono_r 2 63 k). change (2 ^ 63) with two63 in *. i64_lia. }
  pose proof (pow2_le_62 k Hk62). nowrap.
  set (rb := mkRingBuffer _ _).
  assert (Hslots : slots_of (storage rb) = map event_factory (seq 0 (Z.to_nat (2 ^ k))))
    by (by destruct slot_padding).
  assert (Hsize : buffer_size rb = 2 ^ k).
  { unfold buffer_size. rewrite storage_len_slots, Hslots, length_map, length_seq. lia. }
  assert (Hwf : wf rb) by (exists k; done).
  split_and!; eauto; [by destruct slot_padding|].
  intros i Hi. unfold get. rewrite slot_index_mod, Hsize, Z.mod_small by (done || lia).
  rewrite get_ref_slots, Hslots by lia.
  rewrite list_lookup_fmap, lookup_seq_lt by lia. done.
Qed.

(** A ring buffer is built exactly for the power-of-two sizes that fit an
    [i64]; it is then well formed, slot [i] holds the factory's [i]-th event,
    and the requested padding is the one used. Any other size is reported. *)
Lemma new_with_padding_spec buffer_size_ event_factory slot_padding :
  0 <= buffer_size_ <= usize_max ->
  match new_with_padding buffer_size_ event_factory slot_padding with
  | Ok rb => (exists k, 0 <= k <= 62 /\ buffer_size_ = 2 ^ k) /\ wf rb /\
             buffer_size rb = buffer_size_ /\ padding (storage rb) = slot_padding /\
             forall i, 0 <= i < buffer_size_ -> get rb i = Some (event_factory (Z.to_nat i))
  | Err e => e = InvalidBufferSize buffer_size_ /\
             (forall k, 0 <= k <= 62 -> buffer_size_ <> 2 ^ k)
  end.
Proof. apply ring_new_spec. Qed.

(** Every access the buffer performs is in range, so no slot access of
    [get]/[get_mut] is undefined behaviour. *)
Lemma get_in_bounds rb sequence : wf rb -> is_Some (get rb sequence).
Proof. apply get_some. Qed.

(** Write/read round trip with framing: after a write at [sequence], reading
    [sequence] gives the written event, and reading any other sequence less
    than one lap away gives what it gave before. *)
Theorem set_get rb sequence v :
  wf rb ->
  exists rb', set rb sequence v = Some rb' /\ wf rb' /\ buffer_size rb' = buffer_size rb /\
    get rb' sequence = Some v /\
    forall s, s <> sequence -> Z.abs (s - sequence) < buffer_size rb -> get rb' s = get rb s.
Proof. apply set_frame. Qed.

(** A lap later, the same slot. *)
Lemma get_wraps rb sequence : wf rb -> get rb (sequence + buffer_size rb) = get rb sequence.
Proof.
  intros Hwf. unfold get. rewrite !slot_index_mod by done. f_equal.
  pose proof (wf_size rb Hwf). rewrite <- (Z.mul_1_l (buffer_size rb)) at 1.
  apply Z.mod_add. lia.
Qed.

Lemma drain_seqZ fuel start end_ :
  in_i64 start -> in_i64 (end_ + 1) -> Z.to_nat (end_ - start + 1) = fuel ->
  drain (S fuel) (batch_iter_mut start end_) = seqZ start (end_ - start + 1).
Proof.
  unfold batch_iter_mut. revert start. induction fuel as [|fuel IH]; intros start Hs He Hf.
  - cbn [drain]. unfold next. cbn [current last].
    destruct (Z.ltb_spec end_ start); [by rewrite seqZ_nil by lia | lia].
  - remember (S fuel) as f eqn:Ef. cbn [drain]. unfold next at 1. cbn [current last].
    destruct (Z.ltb_spec end_ start); [lia|]. nowrap. subst f.
    rewrite IH by i64_lia. rewrite (seqZ_cons start) by lia. do 2 f_equal; lia.
Qed.

(** The batch iterator over [[start, end_]] hands out exactly the sequences
    [start, start+1, ..., end_], in order and once each, and [size_hint] (hence
    [len], [count]) announces their number. *)
Lemma batch_iter_mut_spec start end_ :
  in_i64 start -> in_i64 (end_ + 1) -> end_ - start + 1 <= i64_max ->
  let it := batch_iter_mut start end_ in
  let n := Z.max 0 (end_ - start + 1) in
  size_hint it = (n, Some n) /\
  drain (S (Z.to_nat n)) it = seqZ start n.
Proof.
  intros Hs He Hn it n. split.
  - unfold size_hint, remaining, it. cbn [batch_iter_mut current last].
    destruct (Z.ltb_spec end_ start); [subst n; do 2 f_equal; lia|].
    nowrap. subst n. do 2 f_equal; lia.
  - subst it n. destruct (Z.le_gt_cases start end_).
    + rewrite Z.max_r by lia. rewrite drain_seqZ by (done || lia). done.
    + rewrite Z.max_l by lia. rewrite drain_seqZ by (done || lia).
      by rewrite !seqZ_nil by lia.
Qed.

(** Padded slots are at least as large as the event, keep the slots on
    boundaries of the requested cache line, and do not waste a whole line. *)
Lemma slot_stride_spec size_T align_T st :
  0 <= size_T -> 0 < align_T -> (exists k, 0 <= k /\ align_T = 2 ^ k) ->
  let stride := slot_stride_bytes size_T align_T st in
  let a := match padding st with PadNone => 1 | CacheLine64 => 64 | CacheLine128 => 128 end in
  size_T <= stride /\ stride mod a = 0 /\ stride < size_T + Z.max a align_T.
Proof.
  intros Hs Ha (k & Hk & Hak).
  assert (Hround : forall a j, 0 <= j -> a = 2 ^ j ->
    let p := padded_size size_T align_T a in
    size_T <= p /\ p mod a = 0 /\ p < size_T + Z.max a align_T).
  { intros a j Hj Haj. unfold padded_size. cbn zeta.
    assert (Hpos : 0 < a) by (subst a; apply Z.pow_pos_nonneg; lia).
    set (al := Z.max a align_T). assert (0 < al) by lia.
    pose proof (Z.div_mod (size_T + al - 1) al) as Hd.
    pose proof (Z.mod_pos_bound (size_T + al - 1) al) as Hb.
    split_and!; [nia | | nia].
    assert (Hdiv : (a | al)).
    { subst al. destruct (Z.max_spec a align_T) as [[Hlt ->]|[_ ->]]; [|apply Z.divide_refl].
      subst a align_T. destruct (Z.le_gt_cases j k).
      - exists (2 ^ (k - j)). rewrite <- Z.pow_add_r by lia. f_equal; lia.
      - pose proof (Z.pow_lt_mono_r 2 k j ltac:(lia) ltac:(lia) ltac:(lia)). lia. }
    apply Z.mod_divide; [lia|]. by apply Z.divide_mul_r. }
  destruct st; cbn [slot_stride_bytes padding].
  - rewrite Z.mod_1_r. lia.
  - apply (Hround 64 6); done.
  - apply (Hround 128 7); done.
Qed.

End RingBuffer.
