(* ===== verification/World.v ===== *)
(** * World: the shared memory of one pipeline

    The structs of disruptor/sequencer.rs, the wait-strategy values of
    disruptor/wait_strategy.rs and simple_wait_strategy.rs, and the memory the
    threads of a pipeline share.  An [Arc<Sequence>] is an address in
    [w_seqs], so that two holders of one [Arc] see the same value and
    [Arc::ptr_eq] is equality of addresses. *)
From S2P Require Import Prelude Effects Errors RingBuffer.

(** The address of an [Arc<Sequence>] or of an [Arc<AtomicBool>]. *)
Abbreviation loc := positive.

(** The simplified strategies of simple_wait_strategy.rs. *)
Inductive SimpleStrategy : Type :=
| BusySpin
| BusySpinWithHint
| Yielding (spin_tries : Z)
| Sleeping (sleep_nanos : Z).

(** The implementations of [WaitStrategy]. *)
Inductive WaitStrategy : Type :=
| BlockingWaitStrategy
| YieldingWaitStrategy
| BusySpinWaitStrategy
| SleepingWaitStrategy (sleep_duration : Z)
| SimpleWaitStrategyAdapter (strategy : SimpleStrategy).

(** The mutex-protected state of [BlockingWaitStrategy], and the number of
    [notify_all] calls made on its condition variable. *)
Record BlockingState : Type := mkBlockingState {
  bs_alerted : bool;
  bs_notified : Z
}.

(** [SingleProducerSequencer] (the counters of the [bench-round-diagnostics]
    feature are left out). *)
Record SingleProducerSequencer : Type := mkSingle {
  sp_buffer_size : Z;
  sp_buffer_size_i64 : Z;
  sp_wait_strategy : WaitStrategy;
  sp_needs_signal : bool;
  sp_cursor : loc;
  sp_gating_sequences : list loc;
  sp_next_value : Z;
  sp_cached_value : Z;
  sp_claim_lock : bool;
  sp_poisoned : bool;
  sp_closed : bool;
  sp_first_failure : option FailureRecord
}.

(** [MultiProducerSequencer] *)
Record MultiProducerSequencer : Type := mkMulti {
  mp_buffer_size : Z;
  mp_buffer_size_i64 : Z;
  mp_wait_strategy : WaitStrategy;
  mp_needs_signal : bool;
  mp_cursor : loc;
  mp_gating_sequences : list loc;
  mp_available_bitmap : list Z;
  mp_index_mask : Z;
  mp_index_shift : Z;
  mp_cached_gating_sequence : Z;
  mp_available_buffer : list Z;
  mp_poisoned : bool;
  mp_closed : bool;
  mp_first_failure : option FailureRecord
}.

(** [SequencerEnum]: which of the two sequencer objects of the pipeline the
    holder's [Arc] points to. *)
Inductive SequencerEnum : Type := Single | Multi.

(** What joining a thread gives: its closure returned [()] or [Ok(())], or
    returned an error, or panicked with a message. *)
Inductive thread_exit : Type :=
| ExitOk
| ExitErr (e : DisruptorError)
| ExitPanic (payload : string).

(** A thread, as its [JoinHandle] shows it. *)
Inductive thread_state : Type :=
| ThreadRunning
| ThreadFinished (exit : thread_exit).

#[global] Instance thread_state_inhabited : Inhabited thread_state := populate ThreadRunning.

(** The memory of one pipeline: every [Sequence] by address, the atomic flags
    allocated outside the sequencers (alerts, shutdown and running flags) by
    address, a clock for [Instant::now], the wait strategy's mutex, the two
    sequencer objects (a pipeline uses one of them), the event store and the
    consumer threads by address. *)
Record World (T : Type) : Type := mkWorld {
  w_seqs : gmap loc Z;
  w_flags : gmap loc bool;
  w_clock : Z;
  w_wait : BlockingState;
  w_single : SingleProducerSequencer;
  w_multi : MultiProducerSequencer;
  w_ring : RingBuffer T;
  w_threads : gmap loc thread_state
}.
Arguments mkWorld {T}.
Arguments w_seqs {T} _.
Arguments w_flags {T} _.
Arguments w_clock {T} _.
Arguments w_wait {T} _.
Arguments w_single {T} _.
Arguments w_multi {T} _.
Arguments w_ring {T} _.
Arguments w_threads {T} _.

(** ** Field updates *)

Definition sp_set_gating (v : list loc) (s : SingleProducerSequencer) :=
  mkSingle (sp_buffer_size s) (sp_buffer_size_i64 s) (sp_wait_strategy s) (sp_needs_signal s)
    (sp_cursor s) v (sp_next_value s) (sp_cached_value s) (sp_claim_lock s)
    (sp_poisoned s) (sp_closed s) (sp_first_failure s).
Definition sp_set_next (v : Z) (s : SingleProducerSequencer) :=
  mkSingle (sp_buffer_size s) (sp_buffer_size_i64 s) (sp_wait_strategy s) (sp_needs_signal s)
    (sp_cursor s) (sp_gating_sequences s) v (sp_cached_value s) (sp_claim_lock s)
    (sp_poisoned s) (sp_closed s) (sp_first_failure s).
Definition sp_set_cached (v : Z) (s : SingleProducerSequencer) :=
  mkSingle (sp_buffer_size s) (sp_buffer_size_i64 s) (sp_wait_strategy s) (sp_needs_signal s)
    (sp_cursor s) (sp_gating_sequences s) (sp_next_value s) v (sp_claim_lock s)
    (sp_poisoned s) (sp_closed s) (sp_first_failure s).
Definition sp_set_lock (v : bool) (s : SingleProducerSequencer) :=
  mkSingle (sp_buffer_size s) (sp_buffer_size_i64 s) (sp_wait_strategy s) (sp_needs_signal s)
    (sp_cursor s) (sp_gating_sequences s) (sp_next_value s) (sp_cached_value s) v
    (sp_poisoned s) (sp_closed s) (sp_first_failure s).
Definition sp_set_poisoned (v : bool) (s : SingleProducerSequencer) :=
  mkSingle (sp_buffer_size s) (sp_buffer_size_i64 s) (sp_wait_strategy s) (sp_needs_signal s)
    (sp_cursor s) (sp_gating_sequences s) (sp_next_value s) (sp_cached_value s)
    (sp_claim_lock s) v (sp_closed s) (sp_first_failure s).
Definition sp_set_closed (v : bool) (s : SingleProducerSequencer) :=
  mkSingle (sp_buffer_size s) (sp_buffer_size_i64 s) (sp_wait_strategy s) (sp_needs_signal s)
    (sp_cursor s) (sp_gating_sequences s) (sp_next_value s) (sp_cached_value s)
    (sp_claim_lock s) (sp_poisoned s) v (sp_first_failure s).
Definition sp_set_failure (v : option FailureRecord) (s : SingleProducerSequencer) :=
  mkSingle (sp_buffer_size s) (sp_buffer_size_i64 s) (sp_wait_strategy s) (sp_needs_signal s)
    (sp_cursor s) (sp_gating_sequences s) (sp_next_value s) (sp_cached_value s)
    (sp_claim_lock s) (sp_poisoned s) (sp_closed s) v.

Definition mp_set_gating (v : list loc) (s : MultiProducerSequencer) :=
  mkMulti (mp_buffer_size s) (mp_buffer_size_i64 s) (mp_wait_strategy s) (mp_needs_signal s)
    (mp_cursor s) v (mp_available_bitmap s) (mp_index_mask s)
    (mp_index_shift s) (mp_cached_gating_sequence s) (mp_available_buffer s)
    (mp_poisoned s) (mp_closed s) (mp_first_failure s).
Definition mp_set_bitmap (v : list Z) (s : MultiProducerSequencer) :=
  mkMulti (mp_buffer_size s) (mp_buffer_size_i64 s) (mp_wait_strategy s) (mp_needs_signal s)
    (mp_cursor s) (mp_gating_sequences s) v (mp_index_mask s)
    (mp_index_shift s) (mp_cached_gating_sequence s) (mp_available_buffer s)
    (mp_poisoned s) (mp_closed s) (mp_first_failure s).
Definition mp_set_cached (v : Z) (s : MultiProducerSequencer) :=
  mkMulti (mp_buffer_size s) (mp_buffer_size_i64 s) (mp_wait_strategy s) (mp_needs_signal s)
    (mp_cursor s) (mp_gating_sequences s) (mp_available_bitmap s) (mp_index_mask s)
    (mp_index_shift s) v (mp_available_buffer s)
    (mp_poisoned s) (mp_closed s) (mp_first_failure s).
Definition mp_set_buffer (v : list Z) (s : MultiProducerSequencer) :=
  mkMulti (mp_buffer_size s) (mp_buffer_size_i64 s) (mp_wait_strategy s) (mp_needs_signal s)
    (mp_cursor s) (mp_gating_sequences s) (mp_available_bitmap s) (mp_index_mask s)
    (mp_index_shift s) (mp_cached_gating_sequence s) v
    (mp_poisoned s) (mp_closed s) (mp_first_failure s).
Definition mp_set_poisoned (v : bool) (s : MultiProducerSequencer) :=
  mkMulti (mp_buffer_size s) (mp_buffer_size_i64 s) (mp_wait_strategy s) (mp_needs_signal s)
    (mp_cursor s) (mp_gating_sequences s) (mp_available_bitmap s) (mp_index_mask s)
    (mp_index_shift s) (mp_cached_gating_sequence s) (mp_available_buffer s)
    v (mp_closed s) (mp_first_failure s).
Definition mp_set_closed (v : bool) (s : MultiProducerSequencer) :=
  mkMulti (mp_buffer_size s) (mp_buffer_size_i64 s) (mp_wait_strategy s) (mp_needs_signal s)
    (mp_cursor s) (mp_gating_sequences s) (mp_available_bitmap s) (mp_index_mask s)
    (mp_index_shift s) (mp_cached_gating_sequence s) (mp_available_buffer s)
    (mp_poisoned s) v (mp_first_failure s).
Definition mp_set_failure (v : option FailureRecord) (s : MultiProducerSequencer) :=
  mkMulti (mp_buffer_size s) (mp_buffer_size_i64 s) (mp_wait_strategy s) (mp_needs_signal s)
    (mp_cursor s) (mp_gating_sequences s) (mp_available_bitmap s) (mp_index_mask s)
    (mp_index_shift s) (mp_cached_gating_sequence s) (mp_available_buffer s)
    (mp_poisoned s) (mp_closed s) v.

Section Updates.
Context {T : Type}.
Implicit Types w : World T.

Definition upd_seqs (f : gmap loc Z -> gmap loc Z) w : World T :=
  mkWorld (f (w_seqs w)) (w_flags w) (w_clock w) (w_wait w) (w_single w) (w_multi w) (w_ring w) (w_threads w).
Definition upd_flags (f : gmap loc bool -> gmap loc bool) w : World T :=
  mkWorld (w_seqs w) (f (w_flags w)) (w_clock w) (w_wait w) (w_single w) (w_multi w) (w_ring w) (w_threads w).
Definition upd_wait (f : BlockingState -> BlockingState) w : World T :=
  mkWorld (w_seqs w) (w_flags w) (w_clock w) (f (w_wait w)) (w_single w) (w_multi w) (w_ring w) (w_threads w).
Definition upd_single (f : SingleProducerSequencer -> SingleProducerSequencer) w : World T :=
  mkWorld (w_seqs w) (w_flags w) (w_clock w) (w_wait w) (f (w_single w)) (w_multi w) (w_ring w) (w_threads w).
Definition upd_multi (f : MultiProducerSequencer -> MultiProducerSequencer) w : World T :=
  mkWorld (w_seqs w) (w_flags w) (w_clock w) (w_wait w) (w_single w) (f (w_multi w)) (w_ring w) (w_threads w).
Definition upd_ring (f : RingBuffer T -> RingBuffer T) w : World T :=
  mkWorld (w_seqs w) (w_flags w) (w_clock w) (w_wait w) (w_single w) (w_multi w) (f (w_ring w)) (w_threads w).

(** The value of the sequence at an address. *)
Definition seq_at w (l : loc) : Z := w_seqs w !!! l.

(** The value of the flag at an address. *)
Definition flag_at w (l : loc) : bool := w_flags w !!! l.

Definition set_seq (l : loc) (v : Z) w : World T := upd_seqs (<[l := v]>) w.
(** The state of the thread at an address. *)
Definition thread_at w (l : loc) : thread_state := w_threads w !!! l.

Definition set_thread (l : loc) (st : thread_state) w : World T :=
  mkWorld (w_seqs w) (w_flags w) (w_clock w) (w_wait w) (w_single w) (w_multi w) (w_ring w) (<[l := st]> (w_threads w)).

Definition set_flag (l : loc) (v : bool) w : World T := upd_flags (<[l := v]>) w.

Lemma seq_at_set_eq l v w : seq_at (set_seq l v w) l = v.
Proof. apply lookup_total_insert_eq. Qed.

Lemma seq_at_set_ne l l' v w : l <> l' -> seq_at (set_seq l v w) l' = seq_at w l'.
Proof. apply lookup_total_insert_ne. Qed.

Lemma flag_at_set_eq l v w : flag_at (set_flag l v w) l = v.
Proof. apply lookup_total_insert_eq. Qed.

Lemma flag_at_set_ne l l' v w : l <> l' -> flag_at (set_flag l v w) l' = flag_at w l'.
Proof. apply lookup_total_insert_ne. Qed.

End Updates.

(** ** Signalling *)

(** [WaitStrategy::needs_signal]: the default [true] is kept by
    [BlockingWaitStrategy] only. *)
Definition needs_signal (ws : WaitStrategy) : bool :=
  match ws with
  | BlockingWaitStrategy => true
  | YieldingWaitStrategy => false
  | BusySpinWaitStrategy => false
  | SleepingWaitStrategy _ => false
  | SimpleWaitStrategyAdapter _ => false
  end.

(** [WaitStrategy::signal_all_when_blocking]: [BlockingWaitStrategy] takes its
    mutex and calls [notify_all]; the others have nobody to wake. *)
Definition signal_all_when_blocking {T} (ws : WaitStrategy) : M (World T) unit :=
  match ws with
  | BlockingWaitStrategy =>
      store (upd_wait (fun b => mkBlockingState (bs_alerted b) (bs_notified b + 1)))
  | YieldingWaitStrategy => ret tt
  | BusySpinWaitStrategy => ret tt
  | SleepingWaitStrategy _ => ret tt
  | SimpleWaitStrategyAdapter _ => ret tt
  end.
