(* ===== verification/Sequence.v ===== *)
(** * Sequence: the coordination counter (disruptor/sequence.rs)

    Each method is one atomic action on the value at the sequence's address.
    [get_minimum_sequence] reads its sequences one after the other, with the
    other threads moving in between. *)
From S2P Require Import Prelude Effects Errors RingBuffer World.

Section Sequence.
Context {T : Type}.
Implicit Types (l : loc) (ls : list loc) (w : World T).

(** [Sequence::new]: [l] is the fresh address. *)
Definition new l (initial_value : Z) : M (World T) unit := write (set_seq l initial_value).

(** [Sequence::new_with_initial_value] *)
Definition new_with_initial_value l : M (World T) unit := new l INITIAL_CURSOR_VALUE.

(** [Sequence::get] *)
Definition get l : M (World T) Z := load (fun w => seq_at w l).

(** [Sequence::set] *)
Definition set l (value : Z) : M (World T) unit := store (set_seq l value).

(** [Sequence::set_volatile] *)
Definition set_volatile l (value : Z) : M (World T) unit := store (set_seq l value).

(** [Sequence::compare_and_set] *)
Definition compare_and_set l (expected new_value : Z) : M (World T) bool :=
  atomic (fun w => if seq_at w l =? expected then (true, set_seq l new_value w)
                   else (false, w)).

(** [Sequence::get_and_add] ([AtomicI64::fetch_add] wraps). *)
Definition get_and_add l (increment : Z) : M (World T) Z :=
  atomic (fun w => (seq_at w l, set_seq l (seq_at w l +! increment) w)).

(** [Sequence::increment_and_get] *)
Definition increment_and_get l : M (World T) Z :=
  let* v := get_and_add l 1 in ret (v +! 1).

(** [Sequence::add_and_get] *)
Definition add_and_get l (increment : Z) : M (World T) Z :=
  let* v := get_and_add l increment in ret (v +! increment).

(** [Clone for Sequence]: a new sequence at [l'] with the current value. *)
Definition clone l l' : M (World T) unit := let* v := get l in new l' v.

(** The loop of [get_minimum_sequence] and [get_minimum_sequence_with_default]. *)
Fixpoint minimum_loop ls (minimum : Z) : M (World T) Z :=
  match ls with
  | [] => ret minimum
  | l :: ls' =>
      let* value := get l in
      minimum_loop ls' (if value <? minimum then value else minimum)
  end.

(** [Sequence::get_minimum_sequence_with_default] *)
Definition get_minimum_sequence_with_default ls (minimum : Z) : M (World T) Z :=
  minimum_loop ls minimum.

(** [Sequence::get_minimum_sequence] *)
Definition get_minimum_sequence ls : M (World T) Z :=
  match ls with
  | [] => ret i64_max
  | l :: ls' => let* minimum := get l in minimum_loop ls' minimum
  end.

(** ** Specification: the minimum of the current values *)

Definition min_value w ls (d : Z) : Z := foldr (fun l acc => Z.min (seq_at w l) acc) d ls.

Lemma min_value_le_default w ls d : min_value w ls d <= d.
Proof. induction ls; simpl; lia. Qed.

Lemma min_value_le w ls d l : l ∈ ls -> min_value w ls d <= seq_at w l.
Proof.
  induction ls as [|l' ls IH]; [by intros ?%not_elem_of_nil|].
  intros [->|H]%elem_of_cons; simpl; [lia|]. specialize (IH H). lia.
Qed.

Lemma min_value_glb w ls d z :
  z <= d -> (forall l, l ∈ ls -> z <= seq_at w l) -> z <= min_value w ls d.
Proof.
  intros Hd. induction ls as [|l ls IH]; simpl; intros H; [done|].
  apply Z.min_glb; [apply H, elem_of_cons; by left|].
  apply IH. intros l' Hl'. apply H, elem_of_cons. by right.
Qed.

(** The environment only raises the sequences of [ls]. *)
Definition mono_on ls (w w' : World T) : Prop := forall l, l ∈ ls -> seq_at w l <= seq_at w' l.

Lemma minimum_loop_idle ls minimum k w :
  exists k', minimum_loop ls minimum idle k w = Done (min_value w ls minimum) k' w.
Proof.
  revert minimum k. induction ls as [|l ls IH]; intros minimum k; [by exists k|].
  cbn [minimum_loop]. unfold bind, get, load, atomic. cbn [fst snd]. change (idle k w) with w.
  destruct (IH (if seq_at w l <? minimum then seq_at w l else minimum) (S k)) as [k' ->].
  exists k'. f_equal. cbn [min_value foldr]. fold (min_value w ls).
  assert (Hf : forall a b, min_value w ls (Z.min a b) = Z.min a (min_value w ls b)).
  { clear. intros a b. induction ls as [|l ls IH]; simpl; [done|]. unfold min_value in *. lia. }
  replace (if seq_at w l <? minimum then seq_at w l else minimum)
    with (Z.min (seq_at w l) minimum) by (destruct (Z.ltb_spec (seq_at w l) minimum); lia).
  apply Hf.
Qed.

Lemma get_minimum_idle ls k w :
  exists k', get_minimum_sequence ls idle k w = Done (min_value w ls i64_max) k' w \/
             (exists l, l ∈ ls /\ i64_max < seq_at w l).
Proof.
  destruct ls as [|l ls]; [exists k; by left|].
  destruct (Z.le_gt_cases (seq_at w l) i64_max) as [Hle|Hgt].
  2:{ exists k. right. exists l. split; [apply elem_of_cons; by left | done]. }
  cbn [get_minimum_sequence]. unfold bind, get, load, atomic. cbn [fst snd]. change (idle k w) with w.
  destruct (minimum_loop_idle ls (seq_at w l) (S k) w) as [k' ->]. exists k'. left. f_equal.
  clear k k'. cbn [min_value foldr]. revert Hle. generalize (seq_at w l) as v. clear l.
  intros v Hle. induction ls as [|l ls IH]; unfold min_value in *; simpl; lia.
Qed.

(** Read under interference that only raises the sequences, the minimum is a
    lower bound of every sequence and of the default at the end of the scan. *)
Lemma wp_minimum_loop (R : World T -> World T -> Prop) ls all minimum Q w :
  (forall x, R x x) -> (forall x y z, R x y -> R y z -> R x z) ->
  (forall x y, R x y -> mono_on all x y) -> (forall l, l ∈ ls -> l ∈ all) ->
  (forall m w', R w w' -> m <= minimum -> (m = minimum \/ exists l w1, l ∈ ls /\ R w w1 /\ m = seq_at w1 l) ->
     (forall l, l ∈ ls -> m <= seq_at w' l) -> Q m w') ->
  wp R (minimum_loop ls minimum) Q w.
Proof.
  intros Hrefl Htrans Hmono. revert minimum w.
  induction ls as [|l ls IH]; intros minimum w Hin HQ.
  - apply wp_ret. apply HQ; [done | lia | by left | by intros ? ?%not_elem_of_nil].
  - cbn [minimum_loop]. apply wp_bind, wp_load. intros w1 HR1.
    apply IH; [intros l' Hl'; apply Hin, elem_of_cons; by right|].
    intros m w' HR2 Hm Hor Hall.
    assert (Hl1 : seq_at w1 l <= seq_at w' l)
      by (eapply Hmono; [exact HR2|]; apply Hin, elem_of_cons; by left).
    apply HQ; [by eapply Htrans | destruct (Z.ltb_spec (seq_at w1 l) minimum); lia | |].
    + destruct Hor as [-> | (l2 & w2 & Hl2 & HR3 & ->)].
      * destruct (Z.ltb_spec (seq_at w1 l) minimum); [right | by left].
        exists l, w1. split_and!; [apply elem_of_cons; by left | done | done].
      * right. exists l2, w2. split_and!; [apply elem_of_cons; by right | by eapply Htrans | done].
    + intros l' [->|Hl']%elem_of_cons; [|by apply Hall].
      destruct (Z.ltb_spec (seq_at w1 l) minimum); lia.
Qed.

(** The scan always returns; its result is no lower than a bound that held of
    the default and of every sequence when it began. *)
Lemma twp_minimum_loop (R : World T -> World T -> Prop) (e : env (World T)) ls minimum k w :
  PreOrder R -> respects R e -> (forall x y l, R x y -> seq_at x l <= seq_at y l) ->
  twp e (minimum_loop ls minimum)
    (fun m k' w' => (k <= k')%nat /\ R w w' /\
       forall b, b <= minimum -> (forall l, l ∈ ls -> b <= seq_at w l) -> b <= m) k w.
Proof.
  intros Hpo He Hmono. revert minimum k w.
  induction ls as [|l ls IH]; intros minimum k w; cbn [minimum_loop].
  - apply twp_ret. split_and!; [done | reflexivity | done].
  - apply twp_bind, twp_load. eapply twp_mono; [apply IH|]. intros m k' w' (Hk & HR & Hb).
    split_and!; [lia | etrans; [apply He | done] |]. intros b Hbm Hbl. apply Hb.
    + assert (b <= seq_at (e k w) l).
      { etrans; [apply (Hbl l); set_solver|]. apply Hmono, He. }
      destruct (Z.ltb_spec (seq_at (e k w) l) minimum); lia.
    + intros l' Hl'. etrans; [apply (Hbl l'); set_solver|]. apply Hmono, He.
Qed.

(** Scanned while nobody moves, [get_minimum_sequence_with_default] returns
    the least of the default and the current values, attained by one of them. *)
Lemma get_minimum_sequence_with_default_spec ls minimum k w :
  exists m k', get_minimum_sequence_with_default ls minimum idle k w = Done m k' w /\
    m <= minimum /\ (forall l, l ∈ ls -> m <= seq_at w l) /\
    (m = minimum \/ exists l, l ∈ ls /\ m = seq_at w l).
Proof.
  destruct (minimum_loop_idle ls minimum k w) as [k' Hrun].
  exists (min_value w ls minimum), k'.
  split_and!; [done | apply min_value_le_default | intros; by apply min_value_le |].
  clear Hrun. induction ls as [|l ls IH]; [by left|].
  change (min_value w (l :: ls) minimum) with (Z.min (seq_at w l) (min_value w ls minimum)).
  destruct (Z.min_spec (seq_at w l) (min_value w ls minimum)) as [[_ ->]|[_ ->]].
  - right. exists l. split; [apply elem_of_cons; by left | done].
  - destruct IH as [->|(l' & Hl' & ->)]; [by left|]. right. exists l'.
    split; [apply elem_of_cons; by right | done].
Qed.

(** The scan ends, and the schedule does not go back. *)
Lemma advances_minimum_loop ls minimum : advances (minimum_loop ls minimum).
Proof. revert minimum. induction ls as [|l ls IH]; intros; cbn [minimum_loop]; unfold get; advances; apply IH. Qed.

Lemma halts_minimum_loop ls minimum : halts (minimum_loop ls minimum).
Proof. revert minimum. induction ls as [|l ls IH]; intros; cbn [minimum_loop]; unfold get; halts; apply IH. Qed.

End Sequence.

#[export] Hint Resolve advances_minimum_loop halts_minimum_loop : effects.
