(* ===== verification/Gating.v ===== *)
(** * Gating: the gating-sequence sets of the sequencers
    (disruptor/sequencer.rs, [add_gating_sequences_rcu] and
    [remove_gating_sequence_cas])

    The [ArcSwap<Vec<Arc<Sequence>>>] holds a list of addresses.  [rcu] re-runs
    its closure until its compare-and-swap of the list succeeds, so its effect
    is one atomic read-modify-write; the removal loop is written out. *)
From S2P Require Import Prelude Effects Errors RingBuffer World.

(** One iteration of the [push]-if-absent loops of the closure. *)
Definition push_new (updated : list loc) (s : loc) : list loc :=
  if decide (s ∈ updated) then updated else updated ++ [s].

(** The closure of [add_gating_sequences_rcu]. *)
Definition rcu_closure (to_add current : list loc) : list loc :=
  foldl push_new (foldl push_new [] current) to_add.

(** The list [remove_gating_sequence_cas] swaps in. *)
Definition without (s : loc) (cur : list loc) : list loc :=
  filter (fun x => x <> s) cur.

Section Gating.
Context {T : Type} (gating : World T -> list loc) (set_gating : list loc -> World T -> World T).

Definition add_gating_sequences_rcu (to_add : list loc) : M (World T) unit :=
  match to_add with
  | [] => ret tt
  | _ => store (fun w => set_gating (rcu_closure to_add (gating w)) w)
  end.

(** [compare_and_swap(&cur, updated)]: the list found there. *)
Definition compare_and_swap (cur updated : list loc) : M (World T) (list loc) :=
  atomic (fun w => (gating w, if decide (gating w = cur) then set_gating updated w else w)).

Definition remove_gating_sequence_cas (fuel : nat) (s : loc) : M (World T) bool :=
  let* cur := load gating in
  loop fuel (fun cur =>
    if decide (s ∈ cur) then
      let* prev := compare_and_swap cur (without s cur) in
      ret (if decide (prev = cur) then inr true else inl prev)
    else ret (inr false)) cur.

End Gating.

Lemma foldl_push_new_spec xs acc :
  NoDup acc ->
  NoDup (foldl push_new acc xs) /\ (forall l, l ∈ foldl push_new acc xs <-> l ∈ acc \/ l ∈ xs) /\
  acc `prefix_of` foldl push_new acc xs.
Proof.
  revert acc. induction xs as [|x xs IH]; intros acc Hnd; simpl.
  - split_and!; [done | set_solver | done].
  - assert (Hnd' : NoDup (push_new acc x)).
    { unfold push_new. case_decide; [done|]. apply NoDup_app. split_and!; [done | | apply NoDup_singleton].
      intros y Hy ->%list_elem_of_singleton. done. }
    assert (Hpre : acc `prefix_of` push_new acc x).
    { unfold push_new. case_decide; [done | by apply prefix_app_r]. }
    destruct (IH _ Hnd') as (H1 & H2 & H3). split_and!; [done | | by etrans].
    intros l. rewrite H2, elem_of_cons. unfold push_new. case_decide; [|rewrite elem_of_app, list_elem_of_singleton];
      naive_solver.
Qed.

Lemma foldl_push_new_id xs acc : NoDup (acc ++ xs) -> foldl push_new acc xs = acc ++ xs.
Proof.
  revert acc. induction xs as [|x xs IH]; intros acc Hnd; simpl; [by rewrite app_nil_r|].
  assert (Hx : x ∉ acc).
  { apply NoDup_app in Hnd as (_ & H & _). intros Hx. apply (H x Hx). set_solver. }
  unfold push_new. rewrite decide_False, IH by (done || by rewrite <- app_assoc).
  by rewrite <- app_assoc.
Qed.

(** Registering gating sequences makes a duplicate-free list whose members are
    the old ones and the new ones, the old ones first and in their order. *)
Lemma rcu_closure_spec (to_add current : list loc) :
  NoDup (rcu_closure to_add current) /\
  (forall l, l ∈ rcu_closure to_add current <-> l ∈ current \/ l ∈ to_add) /\
  (NoDup current -> current `prefix_of` rcu_closure to_add current).
Proof.
  unfold rcu_closure.
  destruct (foldl_push_new_spec current [] ltac:(constructor)) as (Hn & Hm & _).
  destruct (foldl_push_new_spec to_add _ Hn) as (Hn' & Hm' & Hp).
  split_and!; [done | intros l; rewrite Hm', Hm; set_solver |].
  intros Hnd. by rewrite (foldl_push_new_id current []) in Hp |- *.
Qed.

Lemma without_spec s cur l : l ∈ without s cur <-> l ∈ cur /\ l <> s.
Proof. unfold without. rewrite list_elem_of_filter. tauto. Qed.

Section Removal.
Context {T : Type} (gating : World T -> list loc) (set_gating : list loc -> World T -> World T).
Hypothesis gating_set : forall ls w, gating (set_gating ls w) = ls.

(** Whatever the other threads do to the list meanwhile, a removal that answers
    [true] has just taken every occurrence of the sequence out. *)
Lemma remove_gating_sequence_sound R fuel s w :
  wp R (remove_gating_sequence_cas gating set_gating fuel s)
     (fun b w' => b = true -> s ∉ gating w') w.
Proof.
  unfold remove_gating_sequence_cas, compare_and_swap. wp_steps.
  apply (wp_loop R (fun _ _ => True)); [|done]. clear s' H. intros cur w' _.
  case_decide as Hin; wp_steps; [|done]. simpl.
  case_decide as Hcur; [|done]. intros _.
  rewrite gating_set, without_spec. tauto.
Qed.

(** Undisturbed, a removal ends after at most one swap, answers whether the
    sequence was registered, and leaves the other sequences as they were. *)
Lemma remove_gating_sequence_idle fuel s k w :
  exists k' w',
    remove_gating_sequence_cas gating set_gating (S fuel) s idle k w =
      Done (bool_decide (s ∈ gating w)) k' w' /\
    w' = if bool_decide (s ∈ gating w) then set_gating (without s (gating w)) w else w.
Proof.
  unfold remove_gating_sequence_cas, bind, load, atomic. cbn [loop fst snd].
  change (idle k w) with w. unfold bind. case_bool_decide as Hb.
  - rewrite decide_True by done. unfold compare_and_swap, atomic, ret. cbn [fst snd].
    change (idle (S k) w) with w. rewrite !decide_True by done. eauto.
  - rewrite decide_False by done. unfold ret. eauto.
Qed.

End Removal.
