(* ===== verification/Single.v ===== *)
(** * Single: the single-producer sequencer (disruptor/sequencer.rs)

    The claim state ([next_value], [cached_value]) is accessed without
    synchronisation, by the holder of [claim_lock] only; everything else is an
    atomic access with interference before it.  The operations act on the
    [w_single] object of the world. *)
From S2P Require Import Prelude Effects Errors RingBuffer World Sequence Gating.

Section Single.
Context {T : Type}.
Abbreviation W := (World T).
Implicit Types w : W.

(** [SingleProducerSequencer::new]; [cursor] is the fresh address of its cursor. *)
Definition new (buffer_size : Z) (wait_strategy : WaitStrategy) (cursor : loc) : M W unit :=
  match i64_try_from buffer_size with
  | None => panic "buffer size must fit into i64"
  | Some buffer_size_i64 =>
      let ns := needs_signal wait_strategy in
      let* _ := Sequence.new_with_initial_value cursor in
      write (upd_single (fun _ =>
        mkSingle buffer_size buffer_size_i64 wait_strategy ns cursor [] (-1) (-1)
          false false false None))
  end.

(** [SingleProducerSequencer::new_unique]: the capability is the fact that
    [claim_lock] was reserved for its holder. *)
Definition new_unique (buffer_size : Z) (wait_strategy : WaitStrategy) (cursor : loc) : M W unit :=
  let* _ := new buffer_size wait_strategy cursor in
  store (upd_single (sp_set_lock true)).

(** [SingleProducerSequencer::acquire_claim] *)
Definition acquire_claim : M W (result unit DisruptorError) :=
  let* held := atomic (fun w => (sp_claim_lock (w_single w), upd_single (sp_set_lock true) w)) in
  if held then ret (Err ConcurrentClaimDriver) else ret (Ok tt).

(** [SingleProducerSequencer::try_acquire_claim] *)
Definition try_acquire_claim : M W (option unit) :=
  let* held := atomic (fun w => (sp_claim_lock (w_single w), upd_single (sp_set_lock true) w)) in
  if held then ret None else ret (Some tt).

(** [Drop for SingleClaimGuard] (and [Drop for UniqueProducerCapability]). *)
Definition release_claim : M W unit := store (upd_single (sp_set_lock false)).

(** [SingleProducerSequencer::claim_state_error] *)
Definition claim_state_error : M W (option DisruptorError) :=
  let* closed := load (fun w => sp_closed (w_single w)) in
  if closed then ret (Some Shutdown) else
  let* poisoned := load (fun w => sp_poisoned (w_single w)) in
  if poisoned then ret (Some Poisoned) else ret None.

(** [SingleProducerSequencer::gating_minimum] *)
Definition gating_minimum (minimum : Z) : M W Z :=
  let* guard := load (fun w => sp_gating_sequences (w_single w)) in
  Sequence.get_minimum_sequence_with_default guard minimum.

Definition next_value : M W Z := read (fun w => sp_next_value (w_single w)).
Definition set_next_value (v : Z) : M W unit := write (upd_single (sp_set_next v)).
Definition cached_value : M W Z := read (fun w => sp_cached_value (w_single w)).
Definition set_cached_value (v : Z) : M W unit := write (upd_single (sp_set_cached v)).
Definition buffer_size_i64 : M W Z := read (fun w => sp_buffer_size_i64 (w_single w)).
Definition cursor : M W loc := read (fun w => sp_cursor (w_single w)).

(** [SingleProducerSequencer::has_available_capacity_internal] *)
Definition has_available_capacity_internal (required_capacity : Z) (do_store : bool) : M W bool :=
  let* next := next_value in
  match i64_try_from required_capacity with
  | None => panic "required capacity must fit into i64"
  | Some required_capacity_i64 =>
      let* bsz := buffer_size_i64 in
      let wrap_point := (next +! required_capacity_i64) -! bsz in
      let* cached_gating_sequence := cached_value in
      if (cached_gating_sequence <? wrap_point) || (next <? cached_gating_sequence) then
        let* c := cursor in
        let* _ := (if do_store then Sequence.set_volatile c next else ret tt) in
        let* min_sequence := gating_minimum next in
        let* _ := set_cached_value min_sequence in
        if min_sequence <? wrap_point then ret false else ret true
      else ret true
  end.

(** [SingleProducerSequencer::remaining_capacity_inner] *)
Definition remaining_capacity_inner : M W Z :=
  let* next := next_value in
  let* consumed := gating_minimum next in
  let used_capacity := saturating_sub next consumed in
  let* bsz := buffer_size_i64 in
  ret (saturating_sub bsz used_capacity).

(** The [while] loop of [next_n_inner]: wait for consumers to catch up. *)
Definition capacity_wait (fuel : nat) (next wrap_point : Z) : M W (result Z DisruptorError) :=
  loop fuel (fun _ : unit =>
    let* min_sequence := gating_minimum next in
    if min_sequence <? wrap_point then
      let* error := claim_state_error in
      match error with
      | Some err => ret (inr (Err err))
      | None => ret (inl tt)
      end
    else ret (inr (Ok min_sequence))) tt.

(** [SingleProducerSequencer::next_n_inner] *)
Definition next_n_inner (fuel : nat) (n : Z) : M W (result Z DisruptorError) :=
  let* next := next_value in
  let next_sequence := next +! n in
  let* bsz := buffer_size_i64 in
  let wrap_point := next_sequence -! bsz in
  let* cached_gating_sequence := cached_value in
  let? _ :=
    (if (cached_gating_sequence <? wrap_point) || (next <? cached_gating_sequence) then
       let* c := cursor in
       let* _ := Sequence.set_volatile c next in
       let? min_sequence := capacity_wait fuel next wrap_point in
       let* _ := set_cached_value min_sequence in
       ret (Ok tt)
     else ret (Ok tt)) in
  let* _ := set_next_value next_sequence in
  ret (Ok next_sequence).

(** [SingleProducerSequencer::try_next_n_inner] *)
Definition try_next_n_inner (n : Z) : M W (option Z) :=
  match usize_try_from n with
  | None => ret None
  | Some required =>
      let* ok := has_available_capacity_internal required true in
      if negb ok then ret None else
      let* next := next_value in
      let next_sequence := next +! n in
      let* _ := set_next_value next_sequence in
      ret (Some next_sequence)
  end.

(** ** [UniqueProducerCapability] *)

(** [UniqueProducerCapability::next_n] *)
Definition cap_next_n (fuel : nat) (n : Z) : M W (result Z DisruptorError) :=
  let* bsz := buffer_size_i64 in
  if (n <? 1) || (bsz <? n) then ret (Err (InvalidSequence n)) else
  let* error := claim_state_error in
  match error with
  | Some err => ret (Err err)
  | None => next_n_inner fuel n
  end.

(** [UniqueProducerCapability::next] *)
Definition cap_next (fuel : nat) : M W (result Z DisruptorError) := cap_next_n fuel 1.

(** [UniqueProducerCapability::try_next_n] *)
Definition cap_try_next_n (n : Z) : M W (option Z) :=
  let* bsz := buffer_size_i64 in
  if (n <? 1) || (bsz <? n) then ret None else
  let* error := claim_state_error in
  match error with
  | Some _ => ret None
  | None => try_next_n_inner n
  end.

(** [UniqueProducerCapability::try_next] *)
Definition cap_try_next : M W (option Z) := cap_try_next_n 1.

(** [UniqueProducerCapability::remaining_capacity] *)
Definition cap_remaining_capacity : M W Z := remaining_capacity_inner.

(** ** [Sequencer for SingleProducerSequencer] *)

Definition get_cursor : M W loc := cursor.

Definition get_buffer_size : M W Z := read (fun w => sp_buffer_size (w_single w)).

Definition next_n (fuel : nat) (n : Z) : M W (result Z DisruptorError) :=
  let* bsz := buffer_size_i64 in
  if (n <? 1) || (bsz <? n) then ret (Err (InvalidSequence n)) else
  let* error := claim_state_error in
  match error with
  | Some err => ret (Err err)
  | None =>
      let? _ := acquire_claim in
      with_guard (next_n_inner fuel n) release_claim
  end.

Definition next (fuel : nat) : M W (result Z DisruptorError) := next_n fuel 1.

Definition try_next_n (n : Z) : M W (option Z) :=
  let* bsz := buffer_size_i64 in
  if (n <? 1) || (bsz <? n) then ret None else
  let* error := claim_state_error in
  match error with
  | Some _ => ret None
  | None =>
      let* claim := try_acquire_claim in
      match claim with
      | None => ret None
      | Some _ => with_guard (try_next_n_inner n) release_claim
      end
  end.

Definition try_next : M W (option Z) := try_next_n 1.

Definition publish (sequence : Z) : M W unit :=
  let* c := cursor in
  let* _ := Sequence.set c sequence in
  let* s := read w_single in
  if sp_needs_signal s then signal_all_when_blocking (sp_wait_strategy s) else ret tt.

Definition publish_range (low high : Z) : M W unit := publish high.

Definition is_available (sequence : Z) : M W bool :=
  let* c := cursor in
  let* v := Sequence.get c in
  ret (sequence <=? v).

Definition get_highest_published_sequence (next_sequence available_sequence : Z) : M W Z :=
  ret available_sequence.

Definition add_gating_sequences (gating_sequences : list loc) : M W unit :=
  add_gating_sequences_rcu (fun w => sp_gating_sequences (w_single w))
    (fun ls => upd_single (sp_set_gating ls)) gating_sequences.

Definition remove_gating_sequence (fuel : nat) (sequence : loc) : M W bool :=
  remove_gating_sequence_cas (fun w => sp_gating_sequences (w_single w))
    (fun ls => upd_single (sp_set_gating ls)) fuel sequence.

Definition get_minimum_sequence : M W Z :=
  let* guard := load (fun w => sp_gating_sequences (w_single w)) in
  Sequence.get_minimum_sequence guard.

Definition remaining_capacity : M W Z :=
  let* claim := try_acquire_claim in
  match claim with
  | None => ret 0
  | Some _ => with_guard remaining_capacity_inner release_claim
  end.

Definition has_available_capacity (required_capacity : Z) : M W bool :=
  let* claim := try_acquire_claim in
  match claim with
  | None => ret false
  | Some _ => with_guard (has_available_capacity_internal required_capacity false) release_claim
  end.

Definition poison : M W unit :=
  let* _ := store (upd_single (sp_set_poisoned true)) in
  let* s := read w_single in
  signal_all_when_blocking (sp_wait_strategy s).

Definition is_poisoned : M W bool := load (fun w => sp_poisoned (w_single w)).

Definition record_failure (failure : FailureRecord) : M W unit :=
  store (upd_single (fun s =>
    match sp_first_failure s with
    | None => sp_set_failure (Some failure) s
    | Some _ => s
    end)).

Definition first_failure : M W (option FailureRecord) :=
  load (fun w => sp_first_failure (w_single w)).

(** [Sequencer::poison_with_failure] (the trait's default body). *)
Definition poison_with_failure (failure : FailureRecord) : M W unit :=
  let* _ := record_failure failure in poison.

Definition close : M W unit :=
  let* _ := store (upd_single (sp_set_closed true)) in
  let* s := read w_single in
  signal_all_when_blocking (sp_wait_strategy s).

Definition is_closed : M W bool := load (fun w => sp_closed (w_single w)).

Definition reopen : M W unit := store (upd_single (sp_set_closed false)).

(** ** The rely of a claim driver

    What the other threads may do while one thread drives the claim methods:
    advance any sequence but the cursor, take gating sequences out, raise or
    clear the terminal flags, signal.  They leave the claim state, the lock and
    the cursor alone. *)
Record claim_rely (w w' : W) : Prop := {
  cr_bsz : sp_buffer_size_i64 (w_single w') = sp_buffer_size_i64 (w_single w);
  cr_cursor : sp_cursor (w_single w') = sp_cursor (w_single w);
  cr_next : sp_next_value (w_single w') = sp_next_value (w_single w);
  cr_cached : sp_cached_value (w_single w') = sp_cached_value (w_single w);
  cr_lock : sp_claim_lock (w_single w') = sp_claim_lock (w_single w);
  cr_gating : forall l, l ∈ sp_gating_sequences (w_single w') -> l ∈ sp_gating_sequences (w_single w);
  cr_mono : forall l, seq_at w l <= seq_at w' l;
  cr_cursor_value : seq_at w' (sp_cursor (w_single w)) = seq_at w (sp_cursor (w_single w))
}.

#[global] Instance claim_rely_preorder : PreOrder claim_rely.
Proof.
  split.
  - intros w. by constructor.
  - intros w1 w2 w3 H1 H2. pose proof (cr_cursor _ _ H1) as Hc.
    destruct H1, H2. rewrite Hc in *.
    constructor; eauto using Z.le_trans; congruence.
Qed.

(** The claim state is sound: the cached gating value is a lower bound of the
    producer's position and of every gating sequence. *)
Record inv w : Prop := {
  inv_bsz : 1 <= sp_buffer_size_i64 (w_single w) <= 4611686018427387904;
  inv_next : -1 <= sp_next_value (w_single w) <= i64_max;
  inv_cached_low : -1 <= sp_cached_value (w_single w);
  inv_cached : sp_cached_value (w_single w) <= sp_next_value (w_single w);
  inv_gating : forall l, l ∈ sp_gating_sequences (w_single w) ->
                 sp_cached_value (w_single w) <= seq_at w l;
  inv_cursor : sp_cursor (w_single w) ∉ sp_gating_sequences (w_single w)
}.

Lemma inv_rely w w' : inv w -> claim_rely w w' -> inv w'.
Proof.
  intros [] []. constructor; rewrite ?cr_bsz0, ?cr_next0, ?cr_cached0, ?cr_cursor0; auto.
  intros l Hl. etrans; [by apply inv_gating0, cr_gating0 | apply cr_mono0].
Qed.

(** Moving the cursor, the claim lock or the claim state keeps the rest. *)
Lemma inv_set_cursor w v : inv w -> inv (set_seq (sp_cursor (w_single w)) v w).
Proof.
  intros []. constructor; try done. intros l Hl.
  rewrite seq_at_set_ne by (intros <-; done). by apply inv_gating0.
Qed.

Lemma inv_set_lock w b : inv w -> inv (upd_single (sp_set_lock b) w).
Proof. intros []. by constructor. Qed.

Lemma inv_set_cached w m :
  inv w -> -1 <= m <= sp_next_value (w_single w) ->
  (forall l, l ∈ sp_gating_sequences (w_single w) -> m <= seq_at w l) ->
  inv (upd_single (sp_set_cached m) w).
Proof. intros [] ? ?. constructor; cbn; try done; lia. Qed.

Lemma inv_set_next w v :
  inv w -> sp_next_value (w_single w) <= v <= i64_max -> inv (upd_single (sp_set_next v) w).
Proof. intros [] ?. constructor; cbn; try done; lia. Qed.

(** The slots of the claim [(next - n, next]] are free: no gating consumer
    still has to read the event a lap below. *)
Definition claim_free w (sequence : Z) : Prop :=
  forall l, l ∈ sp_gating_sequences (w_single w) ->
    sequence - sp_buffer_size_i64 (w_single w) <= seq_at w l.

Lemma claim_free_rely w w' s : claim_free w s -> claim_rely w w' -> claim_free w' s.
Proof. intros H [] l Hl. rewrite cr_bsz0. etrans; [by apply H, cr_gating0 | apply cr_mono0]. Qed.

(** The gating minimum read under interference bounds the producer's position
    and every gating sequence, and is no lower than what they were before. *)
Lemma wp_gating_minimum minimum (Q : Z -> W -> Prop) w :
  (forall m w', claim_rely w w' -> m <= minimum ->
     (forall l, l ∈ sp_gating_sequences (w_single w') -> m <= seq_at w' l) ->
     (forall c, c <= minimum -> (forall l, l ∈ sp_gating_sequences (w_single w) -> c <= seq_at w l) -> c <= m) ->
     Q m w') ->
  wp claim_rely (gating_minimum minimum) Q w.
Proof.
  intros HQ. apply wp_bind, wp_load. intros w1 HR1.
  apply (wp_minimum_loop claim_rely _ (sp_gating_sequences (w_single w1)));
    [reflexivity | intros x y z; apply transitivity | intros x y [] l _; done | done |].
  intros m w' HR2 Hm Hor Hall. apply HQ; [by etrans | done | |].
  - intros l Hl. apply Hall. by apply (cr_gating _ _ HR2).
  - intros c Hc Hl. destruct Hor as [->|(l & w2 & Hin & HR & ->)]; [done|].
    etrans; [apply Hl, (cr_gating _ _ HR1); done|]. apply (cr_mono w w2). by etrans.
Qed.

Lemma wp_claim_state_error (Q : option DisruptorError -> W -> Prop) w :
  (forall w' r, claim_rely w w' -> (r = None \/ r = Some Shutdown \/ r = Some Poisoned) -> Q r w') ->
  wp claim_rely claim_state_error Q w.
Proof.
  intros HQ. unfold claim_state_error. wp_steps. destruct (sp_closed _); wp_steps; [by eauto|].
  assert (claim_rely w s'0) by (by etrans).
  destruct (sp_poisoned _); wp_steps; by eauto.
Qed.

Lemma wp_capacity_wait fuel next wrap_point (Q : result Z DisruptorError -> W -> Prop) w :
  inv w -> sp_next_value (w_single w) = next ->
  (forall m w', claim_rely w w' -> wrap_point <= m <= next -> -1 <= m ->
     (forall l, l ∈ sp_gating_sequences (w_single w') -> m <= seq_at w' l) -> Q (Ok m) w') ->
  (forall err w', claim_rely w w' -> err = Shutdown \/ err = Poisoned -> Q (Err err) w') ->
  wp claim_rely (capacity_wait fuel next wrap_point) Q w.
Proof.
  intros Hinv Hnext HOk HErr. unfold capacity_wait.
  apply (wp_loop claim_rely (fun _ w' => claim_rely w w')); [|reflexivity].
  intros _ w1 HR1. apply wp_bind, wp_gating_minimum. intros m w2 HR2 Hm Hall Hlow.
  assert (HR : claim_rely w w2) by (by etrans).
  pose proof (inv_rely _ _ Hinv HR1) as Hinv1.
  destruct (Z.ltb_spec m wrap_point).
  - apply wp_bind, wp_claim_state_error. intros w3 r HR3 Hr.
    assert (claim_rely w w3) by (by etrans).
    destruct Hr as [->|[-> | ->]]; apply wp_ret; auto.
  - apply wp_ret. apply HOk; auto.
    etrans; [apply (inv_cached_low _ Hinv1)|].
    apply Hlow; [|apply (inv_gating _ Hinv1)].
    rewrite <- Hnext, <- (cr_next _ _ HR1). apply (inv_cached _ Hinv1).
Qed.

(** What a claim leaves alone, whatever its result: the lock, and the cursor
    but for the [set_volatile(next_value)] of the slow path. *)
Record claim_frame (w w' : W) : Prop := {
  cf_bsz : sp_buffer_size_i64 (w_single w') = sp_buffer_size_i64 (w_single w);
  cf_cursor : sp_cursor (w_single w') = sp_cursor (w_single w);
  cf_lock : sp_claim_lock (w_single w') = sp_claim_lock (w_single w);
  cf_cursor_value : seq_at w' (sp_cursor (w_single w)) = seq_at w (sp_cursor (w_single w)) \/
                    seq_at w' (sp_cursor (w_single w)) = sp_next_value (w_single w)
}.

(** The contract of a blocking claim of [n] sequences. *)
Definition claim_post (w : W) (n : Z) (r : result Z DisruptorError) (w' : W) : Prop :=
  inv w' /\ claim_frame w w' /\
  match r with
  | Ok s => s = sp_next_value (w_single w) + n /\ sp_next_value (w_single w') = s /\ claim_free w' s
  | Err e => (e = Shutdown \/ e = Poisoned) /\
             sp_next_value (w_single w') = sp_next_value (w_single w) /\
             sp_cached_value (w_single w') = sp_cached_value (w_single w)
  end.

Lemma claim_rely_frame w w1 w' :
  claim_rely w w1 -> claim_frame w1 w' -> claim_frame w w'.
Proof.
  intros [] []. rewrite cr_cursor0 in *. constructor; congruence.
Qed.

(** The cursor store of the slow path, and then the others' moves. *)
Lemma set_cursor_rely_frame w w' :
  claim_rely (set_seq (sp_cursor (w_single w)) (sp_next_value (w_single w)) w) w' ->
  claim_frame w w'.
Proof.
  intros []. constructor; try done. right. cbn in cr_cursor_value0.
  rewrite cr_cursor_value0. apply seq_at_set_eq.
Qed.

Lemma wp_next_n_inner fuel n w :
  inv w -> 1 <= n <= sp_buffer_size_i64 (w_single w) ->
  sp_next_value (w_single w) + n <= i64_max ->
  wp claim_rely (next_n_inner fuel n) (claim_post w n) w.
Proof.
  intros Hinv Hn Hmax. pose proof (inv_bsz _ Hinv). pose proof (inv_next _ Hinv).
  unfold next_n_inner, next_value, buffer_size_i64, cached_value, cursor, set_next_value,
    set_cached_value, Sequence.set_volatile.
  wp_steps. nowrap.
  destruct (Z.ltb_spec (sp_cached_value (w_single w))
              (sp_next_value (w_single w) + n - sp_buffer_size_i64 (w_single w))) as [Hslow|Hfast].
  - cbn [orb]. wp_steps. rename s' into w1. rename H1 into HR1.
    assert (Hi1 : inv (set_seq (sp_cursor (w_single w)) (sp_next_value (w_single w)) w1)).
    { rewrite <- (cr_cursor _ _ HR1). apply inv_set_cursor. by eapply inv_rely. }
    rewrite <- (cr_cursor _ _ HR1) in *.
    pose proof (cr_next _ _ HR1) as Hn1. rewrite <- Hn1 in *.
    pose proof (cr_bsz _ _ HR1) as Hb1. rewrite <- Hb1 in *.
    apply wp_capacity_wait; [done | done | |].
    + intros m w2 HR2 Hm Hm1 Hall. wp_steps.
      assert (Hf : claim_frame w w2) by (eapply claim_rely_frame, set_cursor_rely_frame; eauto).
      pose proof (cr_next _ _ HR2) as Hn2. cbn in Hn2.
      pose proof (cr_bsz _ _ HR2) as Hb2. cbn in Hb2.
      split_and!; cbn; try lia; [| destruct Hf; by constructor |].
      * apply inv_set_next; [|cbn; lia]. apply inv_set_cached; [by eapply inv_rely | lia | done].
      * intros l Hl. cbn in *. rewrite Hb2. specialize (Hall l Hl).
        unfold seq_at in *. cbn. lia.
    + intros err w2 HR2 He.
      assert (Hf : claim_frame w w2) by (eapply claim_rely_frame, set_cursor_rely_frame; eauto).
      split_and!; [by eapply inv_rely | done | done | |].
      * rewrite (cr_next _ _ HR2). cbn. lia.
      * rewrite (cr_cached _ _ HR2). cbn. apply (cr_cached _ _ HR1).
  - destruct (Z.ltb_spec (sp_next_value (w_single w)) (sp_cached_value (w_single w)));
      [pose proof (inv_cached _ Hinv); lia|].
    cbn [orb]. wp_steps. split_and!; cbn; try done.
    + apply inv_set_next; [done|lia].
    + constructor; cbn; try done. by left.
    + intros l Hl. cbn in *. pose proof (inv_gating _ Hinv l Hl). unfold seq_at in *. cbn. lia.
Qed.

Lemma claim_post_rely w n r w1 w2 :
  claim_post w n r w1 -> claim_rely w1 w2 -> claim_post w n r w2.
Proof.
  intros (Hi & Hf & Hr) HR. split_and!; [by eapply inv_rely | |].
  - destruct Hf, HR. rewrite cf_cursor0 in *. constructor; congruence.
  - destruct r as [s|err].
    + destruct Hr as (-> & Hn & Hfree). rewrite (cr_next _ _ HR).
      split_and!; [done | done | by eapply claim_free_rely].
    + rewrite (cr_next _ _ HR), (cr_cached _ _ HR). done.
Qed.

(** The body of a claim guarded by the lock: acquired, run, released. *)
Lemma claim_post_lock w n r w1 w2 :
  sp_claim_lock (w_single w) = false -> claim_rely w w1 ->
  claim_post (upd_single (sp_set_lock true) w1) n r w2 ->
  claim_post w n r (upd_single (sp_set_lock false) w2).
Proof.
  intros Hl HR (Hi & Hf & Hr). split_and!.
  - by apply inv_set_lock.
  - apply (claim_rely_frame w w1); [done|]. destruct Hf. constructor; cbn in *; try done.
    by rewrite (cr_lock _ _ HR).
  - destruct HR. cbn in *. destruct r as [s|err]; [|destruct Hr as (? & ? & ?); split_and!; congruence].
    destruct Hr as (? & ? & ?). split_and!; congruence || done.
Qed.

(** ** Theorems *)

Lemma wp_cap_next_n fuel n w :
  inv w -> sp_next_value (w_single w) + n <= i64_max ->
  wp claim_rely (cap_next_n fuel n)
    (fun r w' =>
       if bool_decide (1 <= n <= sp_buffer_size_i64 (w_single w))
       then claim_post w n r w'
       else r = Err (InvalidSequence n) /\ w' = w) w.
Proof.
  intros Hinv Hmax. unfold cap_next_n, buffer_size_i64. wp_steps.
  destruct (Z.ltb_spec n 1); [cbn; wp_steps; by rewrite bool_decide_eq_false_2 by lia|].
  destruct (Z.ltb_spec (sp_buffer_size_i64 (w_single w)) n);
    [cbn; wp_steps; by rewrite bool_decide_eq_false_2 by lia|].
  cbn [orb]. rewrite bool_decide_eq_true_2 by lia. wp_steps.
  apply wp_claim_state_error. intros w1 r HR Hr.
  assert (Hi1 : inv w1) by (by eapply inv_rely).
  assert (Hf1 : claim_frame w w1) by (apply (claim_rely_frame w w1); [done|]; constructor; auto).
  destruct r as [err|].
  - wp_steps. split_and!; [done | done | naive_solver | apply (cr_next _ _ HR) | apply (cr_cached _ _ HR)].
  - eapply wp_mono; [apply wp_next_n_inner; [done | rewrite (cr_bsz _ _ HR); lia | rewrite (cr_next _ _ HR); lia]|].
    intros r w' (Hi & Hf & Hpost). split_and!; [done | by eapply claim_rely_frame|].
    rewrite <- (cr_next _ _ HR), <- (cr_cached _ _ HR). done.
Qed.

(** Blocking claims through the unique capability, against any interference of
    the consumers: an [n] outside [1..=buffer_size] is rejected and nothing
    moves; otherwise the claim either fails because the sequencer was closed or
    poisoned, leaving the claim state as it was, or returns exactly the next
    [n] sequences, and then no gating consumer is more than a lap behind them,
    so none of the claimed slots holds an event still to be read. *)
Lemma cap_next_n_safe fuel n w :
  inv w -> sp_next_value (w_single w) + n <= i64_max ->
  wp claim_rely (cap_next_n fuel n)
    (fun r w' =>
       if bool_decide (1 <= n <= sp_buffer_size_i64 (w_single w))
       then claim_post w n r w'
       else r = Err (InvalidSequence n) /\ w' = w) w.
Proof. apply wp_cap_next_n. Qed.

(** Blocking claims on the shared sequencer: with the claim lock held by
    another driver the call fails without touching the claim state; with the
    lock free it meets the contract of a claim and releases the lock. *)
Lemma next_n_safe fuel n w :
  inv w -> 1 <= n <= sp_buffer_size_i64 (w_single w) ->
  sp_next_value (w_single w) + n <= i64_max ->
  wp claim_rely (next_n fuel n)
    (fun r w' =>
       if sp_claim_lock (w_single w)
       then claim_rely w w' /\ r ∈ [Err Shutdown; Err Poisoned; Err ConcurrentClaimDriver]
       else claim_post w n r w') w.
Proof.
  intros Hinv Hn Hmax. unfold next_n, buffer_size_i64. wp_steps.
  destruct (Z.ltb_spec n 1); [lia|].
  destruct (Z.ltb_spec (sp_buffer_size_i64 (w_single w)) n); [lia|]. cbn [orb]. wp_steps.
  apply wp_claim_state_error. intros w1 r HR1 Hr.
  assert (Hi1 : inv w1) by (by eapply inv_rely).
  destruct r as [err|].
  { wp_steps. destruct (sp_claim_lock (w_single w)).
    - split; [done|]. destruct Hr as [?|[[= ->]|[= ->]]]; [done | set_solver | set_solver].
    - split_and!; [done | apply (claim_rely_frame w w1); [done | constructor; auto] | naive_solver |
        apply (cr_next _ _ HR1) | apply (cr_cached _ _ HR1)]. }
  unfold acquire_claim. wp_steps. rename s' into w2.
  assert (HR2 : claim_rely w w2) by (by etrans). cbn [fst snd].
  rewrite (cr_lock _ _ HR2). destruct (sp_claim_lock (w_single w)) eqn:Hl; wp_steps.
  - split; [|set_solver]. etrans; [exact HR2|]. constructor; cbn; try done.
    by rewrite (cr_lock _ _ HR2).
  - eapply wp_mono; [apply wp_next_n_inner|].
    + apply inv_set_lock. by eapply inv_rely.
    + cbn. rewrite (cr_bsz _ _ HR2). lia.
    + cbn. rewrite (cr_next _ _ HR2). lia.
    + intros r w3 Hpost. unfold release_claim. wp_steps.
      eapply claim_post_lock; [done | exact HR2 | by eapply claim_post_rely].
Qed.

(** ** Progress *)

(** From action [k0] of the schedule on, either the gating consumers have
    reached [wrap_point] or a terminal flag is up. *)
Definition unblocked_from (e : env W) (wrap_point : Z) (k0 : nat) : Prop :=
  (forall k w, (k0 <= k)%nat -> inv w -> forall l, l ∈ sp_gating_sequences (w_single (e k w)) ->
     wrap_point <= seq_at (e k w) l) \/
  (forall k w, (k0 <= k)%nat -> sp_closed (w_single (e k w)) = true) \/
  (forall k w, (k0 <= k)%nat -> sp_poisoned (w_single (e k w)) = true).

Lemma twp_gating_minimum (e : env W) minimum k w :
  respects claim_rely e ->
  twp e (gating_minimum minimum)
    (fun m k' w' => (k < k')%nat /\ claim_rely w w' /\
       forall b, b <= minimum ->
         (forall l, l ∈ sp_gating_sequences (w_single (e k w)) -> b <= seq_at (e k w) l) -> b <= m) k w.
Proof.
  intros He. unfold gating_minimum. twp_steps.
  eapply twp_mono; [apply (twp_minimum_loop claim_rely); [apply _ | done | intros x y l []; done]|].
  intros m k' w' (Hk & HR & Hb). split_and!; [lia | etrans; [apply He | done] | done].
Qed.

Lemma twp_claim_state_error (e : env W) k w :
  respects claim_rely e ->
  twp e claim_state_error
    (fun r k' w' => (k <= k')%nat /\ claim_rely w w' /\
       (sp_closed (w_single (e k w)) = true \/ (forall k1 w1, (k <= k1)%nat -> sp_poisoned (w_single (e k1 w1)) = true)
          -> r <> None)) k w.
Proof.
  intros He. unfold claim_state_error. twp_steps.
  destruct (sp_closed (w_single (e k w))) eqn:Hc; twp_steps; [split_and!; [lia | apply He | done]|].
  assert (claim_rely w (e (S k) (e k w))) by (etrans; apply He).
  destruct (sp_poisoned _) eqn:Hp; twp_steps; (split_and!; [lia | done |]); [done|].
  intros [?|Hall]; [done|]. rewrite Hall in Hp by lia. done.
Qed.

Lemma twp_capacity_wait (e : env W) k0 fuel next wrap_point k w :
  respects claim_rely e -> inv w -> wrap_point <= next -> unblocked_from e wrap_point k0 -> (k0 - k < fuel)%nat ->
  twp e (capacity_wait fuel next wrap_point) (fun _ _ _ => True) k w.
Proof.
  intros He Hinv Hwrap Hun Hfuel. unfold capacity_wait.
  apply (twp_loop e _ (fun _ _ w' => inv w') _ k0); [|done|done].
  intros _ w1 k1 Hi1. apply twp_bind. eapply twp_mono; [by apply twp_gating_minimum|].
  intros m k2 w2 (Hk2 & HR2 & Hm). destruct (Z.ltb_spec m wrap_point) as [Hlt|]; [|by twp_steps].
  apply twp_bind. eapply twp_mono; [by apply twp_claim_state_error|].
  intros r k3 w3 (Hk3 & HR3 & Hr). destruct r as [err|]; twp_steps; [done|].
  split_and!; [lia | | by do 2 (eapply inv_rely; [|done])]. destruct (Nat.lt_ge_cases k1 k0); [done|]. exfalso.
  destruct Hun as [Hg|[Hc|Hp]].
  - specialize (Hm wrap_point Hwrap (Hg k1 w1 ltac:(lia) Hi1)). lia.
  - apply Hr; [left; apply Hc; lia | done].
  - apply Hr; [right; intros; apply Hp; lia | done].
Qed.

Lemma twp_cap_next_n (e : env W) k0 n w :
  inv w -> 1 <= n <= sp_buffer_size_i64 (w_single w) ->
  sp_next_value (w_single w) + n <= i64_max -> respects claim_rely e ->
  unblocked_from e (sp_next_value (w_single w) + n - sp_buffer_size_i64 (w_single w)) k0 ->
  twp e (cap_next_n (S k0) n) (fun _ _ _ => True) 0%nat w.
Proof.
  intros Hinv Hn Hmax He Hun. pose proof (inv_bsz _ Hinv). pose proof (inv_next _ Hinv).
  unfold cap_next_n, buffer_size_i64. twp_steps.
  destruct (Z.ltb_spec n 1); [lia|].
  destruct (Z.ltb_spec (sp_buffer_size_i64 (w_single w)) n); [lia|]. cbn [orb]. twp_steps.
  eapply twp_mono; [by apply twp_claim_state_error|]. intros err k1 w1 (_ & HR & _).
  destruct err as [err|]; [by twp_steps|].
  unfold next_n_inner, next_value, buffer_size_i64, cached_value, cursor, set_next_value,
    set_cached_value, Sequence.set_volatile. twp_steps.
  rewrite (cr_next _ _ HR), (cr_bsz _ _ HR). nowrap.
  destruct (_ || _); twp_steps; [|done].
  eapply twp_mono; [apply (twp_capacity_wait e k0); [done | | lia | done | lia]|].
  { rewrite <- (cr_cursor _ _ (He k1 w1)). apply inv_set_cursor. eapply inv_rely; [|apply He]. by eapply inv_rely. }
  intros [m|err] k2 w2 _; by twp_steps.
Qed.

(** A blocking claim ends: if from some point on the consumers have caught up
    with the claim or the sequencer is closed or poisoned, enough fuel gives a
    result, which meets the claim contract. *)
Lemma cap_next_n_live (e : env W) k0 n w :
  inv w -> 1 <= n <= sp_buffer_size_i64 (w_single w) ->
  sp_next_value (w_single w) + n <= i64_max -> respects claim_rely e ->
  unblocked_from e (sp_next_value (w_single w) + n - sp_buffer_size_i64 (w_single w)) k0 ->
  exists r k' w', cap_next_n (S k0) n e 0%nat w = Done r k' w' /\ claim_post w n r w'.
Proof.
  intros Hinv Hn Hmax He Hun.
  destruct (wp_twp claim_rely e (cap_next_n (S k0) n) _ 0%nat w He (wp_cap_next_n _ n w Hinv Hmax))
    as (r & k' & w' & Hrun & Hpost); [by apply twp_cap_next_n|].
  exists r, k', w'. split; [done|]. by rewrite bool_decide_eq_true_2 in Hpost.
Qed.

(** ** Non-blocking claims *)

Lemma claim_free_min w n :
  n <= sp_buffer_size_i64 (w_single w) ->
  claim_free w (sp_next_value (w_single w) + n) <->
  sp_next_value (w_single w) + n - sp_buffer_size_i64 (w_single w) <=
    min_value w (sp_gating_sequences (w_single w)) (sp_next_value (w_single w)).
Proof.
  intros Hn. split.
  - intros H. apply min_value_glb; [lia | done].
  - intros H l Hl. etrans; [exact H|]. by apply min_value_le.
Qed.

Lemma wp_has_available_capacity_internal required do_store w :
  inv w -> 0 <= required <= i64_max -> sp_next_value (w_single w) + required <= i64_max ->
  wp claim_rely (has_available_capacity_internal required do_store)
    (fun b w' => inv w' /\ claim_frame w w' /\
       sp_next_value (w_single w') = sp_next_value (w_single w) /\
       (b = true -> claim_free w' (sp_next_value (w_single w) + required))) w.
Proof.
  intros Hinv Hreq Hmax. pose proof (inv_bsz _ Hinv). pose proof (inv_next _ Hinv).
  unfold has_available_capacity_internal, next_value, buffer_size_i64, cached_value, cursor,
    set_cached_value. wp_steps. unfold i64_try_from.
  destruct (Z.leb_spec required i64_max); [|lia]. wp_steps. nowrap.
  destruct (Z.ltb_spec (sp_cached_value (w_single w))
              (sp_next_value (w_single w) + required - sp_buffer_size_i64 (w_single w))) as [Hslow|Hfast].
  - cbn [orb]. wp_steps.
    apply (wp_mono _ _ (fun _ w1 => inv w1 /\ claim_frame w w1 /\
             sp_next_value (w_single w1) = sp_next_value (w_single w))).
    { destruct do_store; unfold Sequence.set_volatile; wp_steps.
      - rename s' into w1. rename H2 into HR. rewrite <- (cr_cursor _ _ HR).
        split_and!; [apply inv_set_cursor; by eapply inv_rely | |apply (cr_next _ _ HR)].
        eapply claim_rely_frame; [exact HR|]. rewrite <- (cr_next _ _ HR).
        by apply set_cursor_rely_frame.
      - split_and!; [done | constructor; auto | done]. }
    intros [] w1 (Hi1 & Hf1 & Hn1). apply wp_bind, wp_gating_minimum.
    intros m w2 HR2 Hm Hall Hlow. wp_steps.
    assert (Hi2 : inv w2) by (by eapply inv_rely).
    assert (Hn2 : sp_next_value (w_single w2) = sp_next_value (w_single w))
      by (rewrite (cr_next _ _ HR2); done).
    assert (Hf2 : claim_frame w (upd_single (sp_set_cached m) w2)).
    { enough (Hf2 : claim_frame w w2) by (destruct Hf2; by constructor).
      destruct Hf1, HR2. rewrite cf_cursor0 in *. constructor; congruence. }
    assert (-1 <= m).
    { etrans; [apply (inv_cached_low _ Hi1)|]. apply Hlow; [|apply (inv_gating _ Hi1)].
      rewrite <- Hn1. apply (inv_cached _ Hi1). }
    assert (Hi3 : inv (upd_single (sp_set_cached m) w2)) by (apply inv_set_cached; [done | lia | done]).
    destruct (Z.ltb_spec m (sp_next_value (w_single w) + required - sp_buffer_size_i64 (w_single w)));
      wp_steps; (split_and!; [done | done | done |]); [done|].
    intros _ l Hl. cbn in *. rewrite (cf_bsz _ _ Hf2 : sp_buffer_size_i64 (w_single w2) = _).
    specialize (Hall l Hl). unfold seq_at in *. cbn. lia.
  - destruct (Z.ltb_spec (sp_next_value (w_single w)) (sp_cached_value (w_single w)));
      [pose proof (inv_cached _ Hinv); lia|].
    cbn [orb]. wp_steps. split_and!; [done | constructor; auto | done |].
    intros _ l Hl. pose proof (inv_gating _ Hinv l Hl). lia.
Qed.

(** A non-blocking claim never returns slots that are not free: on [Some] the
    sequence is the [n]-th next one and no gating consumer is a lap behind it;
    on [None] the claim state is where it was. *)
Lemma cap_try_next_n_safe n w :
  inv w -> sp_next_value (w_single w) + n <= i64_max ->
  wp claim_rely (cap_try_next_n n)
    (fun r w' => inv w' /\ claim_frame w w' /\
       match r with
       | Some s => s = sp_next_value (w_single w) + n /\ 1 <= n <= sp_buffer_size_i64 (w_single w) /\
                   sp_next_value (w_single w') = s /\ claim_free w' s
       | None => sp_next_value (w_single w') = sp_next_value (w_single w)
       end) w.
Proof.
  intros Hinv Hmax. pose proof (inv_bsz _ Hinv). pose proof (inv_next _ Hinv).
  assert (Hf0 : claim_frame w w) by (constructor; auto).
  unfold cap_try_next_n, buffer_size_i64. wp_steps.
  destruct (Z.ltb_spec n 1); [by cbn; wp_steps|].
  destruct (Z.ltb_spec (sp_buffer_size_i64 (w_single w)) n); [by cbn; wp_steps|].
  cbn [orb]. wp_steps. apply wp_claim_state_error. intros w1 r HR Hr.
  assert (Hi1 : inv w1) by (by eapply inv_rely).
  assert (Hf1 : claim_frame w w1) by (apply (claim_rely_frame w w1); [done|]; constructor; auto).
  pose proof (cr_next _ _ HR) as Hn1. pose proof (cr_bsz _ _ HR) as Hb1.
  destruct r as [err|]; [by wp_steps|].
  unfold try_next_n_inner, usize_try_from. destruct (Z.leb_spec 0 n); [|lia].
  apply wp_bind. eapply wp_mono; [apply wp_has_available_capacity_internal; [done | i64_lia | lia]|].
  intros b w2 (Hi2 & Hf2 & Hn2 & Hfree). assert (Hf : claim_frame w w2) by (by eapply claim_rely_frame).
  destruct b; cbn [negb]; unfold next_value, set_next_value; wp_steps; [|split_and!; [done | done | congruence]].
  nowrap. split_and!; cbn; try lia; [apply inv_set_next; [done | lia] | destruct Hf; by constructor |].
  rewrite Hn2. by apply Hfree.
Qed.

Lemma twp_has_available_capacity_internal (e : env W) required do_store k w :
  respects claim_rely e -> inv w -> 0 <= required <= sp_buffer_size_i64 (w_single w) ->
  sp_next_value (w_single w) + required <= i64_max ->
  claim_free w (sp_next_value (w_single w) + required) ->
  twp e (has_available_capacity_internal required do_store) (fun b _ _ => b = true) k w.
Proof.
  intros He Hinv Hreq Hmax Hfree. pose proof (inv_bsz _ Hinv). pose proof (inv_next _ Hinv).
  unfold has_available_capacity_internal, next_value, buffer_size_i64, cached_value, cursor,
    set_cached_value. twp_steps. unfold i64_try_from.
  destruct (Z.leb_spec required i64_max); [|i64_lia]. twp_steps. nowrap.
  destruct (_ || _); [|by twp_steps]. twp_steps.
  apply (twp_mono e _ (fun _ _ w1 => claim_free w1 (sp_next_value (w_single w) + required) /\
           sp_buffer_size_i64 (w_single w1) = sp_buffer_size_i64 (w_single w))).
  { destruct do_store; unfold Sequence.set_volatile; twp_steps; [|done].
    split; [|apply (cr_bsz _ _ (He k w))]. intros l Hl. cbn in Hl |- *.
    rewrite seq_at_set_ne.
    - by apply (claim_free_rely _ _ _ Hfree (He k w)).
    - intros <-. apply (inv_cursor _ Hinv). apply (cr_gating _ _ (He k w)). done. }
  intros [] k1 w1 [Hfree1 Hb1]. apply twp_bind. eapply twp_mono; [by apply twp_gating_minimum|].
  intros m k2 w2 (_ & _ & Hm). twp_steps.
  specialize (Hm (sp_next_value (w_single w) + required - sp_buffer_size_i64 (w_single w)) ltac:(lia)).
  destruct (Z.ltb_spec m (sp_next_value (w_single w) + required - sp_buffer_size_i64 (w_single w)));
    [|by twp_steps].
  enough (sp_next_value (w_single w) + required - sp_buffer_size_i64 (w_single w) <= m) by lia.
  apply Hm. rewrite <- Hb1, <- (cr_bsz _ _ (He k1 w1)).
  exact (claim_free_rely _ _ _ Hfree1 (He k1 w1)).
Qed.

(** Neither closed nor poisoned. *)
Definition claims_open w : Prop := sp_closed (w_single w) = false /\ sp_poisoned (w_single w) = false.

(** The cached fast path never turns a possible claim away: if the claimed
    slots are free when [try_next_n] is called on an open, healthy, unlocked
    sequencer, it succeeds, whatever the consumers do meanwhile. *)
Lemma try_next_n_complete (e : env W) n k w :
  respects claim_rely e ->
  (forall k w, claims_open w -> claims_open (e k w)) -> claims_open w ->
  inv w -> 1 <= n <= sp_buffer_size_i64 (w_single w) ->
  sp_next_value (w_single w) + n <= i64_max -> sp_claim_lock (w_single w) = false ->
  claim_free w (sp_next_value (w_single w) + n) ->
  exists k' w', try_next_n n e k w = Done (Some (sp_next_value (w_single w) + n)) k' w' /\
    sp_claim_lock (w_single w') = false.
Proof.
  intros He Hflags Hopen Hinv Hn Hmax Hl Hfree.
  pose proof (Hflags k w Hopen) as Ho1. pose proof (Hflags (S k) _ Ho1) as Ho2.
  enough (twp e (try_next_n n) (fun r _ w' => r = Some (sp_next_value (w_single w) + n) /\
            sp_claim_lock (w_single w') = false) k w) as Ht.
  { unfold twp in Ht. destruct (try_next_n n e k w) as [r k' w'| |]; try done.
    destruct Ht as [-> ?]. eauto. }
  unfold try_next_n, buffer_size_i64. twp_steps.
  destruct (Z.ltb_spec n 1); [lia|].
  destruct (Z.ltb_spec (sp_buffer_size_i64 (w_single w)) n); [lia|]. cbn [orb].
  unfold claim_state_error, try_acquire_claim. twp_steps.
  rewrite (proj1 Ho1). twp_steps.
  rewrite (proj2 Ho2). twp_steps. cbn [fst snd].
  set (w1 := e (S (S k)) (e (S k) (e k w))).
  assert (HR : claim_rely w w1) by (etrans; [apply He|]; etrans; apply He).
  rewrite (cr_lock _ _ HR), Hl. twp_steps.
  set (w2 := upd_single (sp_set_lock true) w1).
  assert (Hi2 : inv w2) by (apply inv_set_lock; by eapply inv_rely).
  pose proof (cr_next _ _ HR) as Hn1. pose proof (cr_bsz _ _ HR) as Hb1.
  assert (Hfree2 : claim_free w2 (sp_next_value (w_single w2) + n)).
  { cbn. rewrite Hn1. exact (claim_free_rely _ _ _ Hfree HR). }
  unfold try_next_n_inner, usize_try_from. destruct (Z.leb_spec 0 n); [|lia].
  pose proof (wp_has_available_capacity_internal n true w2 Hi2 ltac:(pose proof (inv_bsz _ Hinv); i64_lia) ltac:(cbn; lia) e (S (S (S k))) He) as Hwp.
  pose proof (twp_has_available_capacity_internal e n true (S (S (S k))) w2 He Hi2
    ltac:(cbn; lia) ltac:(cbn; lia) Hfree2) as Hcap.
  apply twp_bind. unfold twp in Hcap |- * at 1.
  destruct (has_available_capacity_internal n true e (S (S (S k))) w2) as [b k3 w3| |]; try done.
  subst b. destruct Hwp as (Hi3 & _ & Hn3 & _). cbn [negb]. unfold next_value, set_next_value, release_claim.
  twp_steps. rewrite Hn3. cbn. rewrite Hn1. pose proof (inv_next _ Hinv). nowrap. done.
Qed.

End Single.
