(* ===== verification/Multi.v ===== *)
(** * Multi: the multi-producer sequencer (disruptor/sequencer.rs)

    Producers claim ranges with a compare-and-swap on the cursor and publish
    them out of order in an availability store: one round-parity bit per slot
    (buffers of 64 slots and more) or one [i32] per slot (smaller buffers).
    The pure functions on [MultiProducerSequencer] are the single atomic
    actions; the monadic operations compose them with interference in
    between. *)
From S2P Require Import Prelude Effects Errors RingBuffer World Sequence Gating.

Implicit Types s : MultiProducerSequencer.

(** ** Index arithmetic *)

(** [calculate_index] *)
Definition calculate_index s (sequence : Z) : Z :=
  Z.land (as_u64 sequence) (mp_index_mask s).

(** [calculate_availability_flag] *)
Definition calculate_availability_flag s (sequence : Z) : Z :=
  Z.land (Z.shiftr sequence (mp_index_shift s)) 1.

(** [calculate_round_flag] *)
Definition calculate_round_flag s (sequence : Z) : Z :=
  as_u64 (Z.land (Z.shiftr sequence (mp_index_shift s)) 1).

(** [calculate_availability_indices] *)
Definition calculate_availability_indices s (sequence : Z) : Z * Z :=
  let slot_index := Z.land (as_u64 sequence) (mp_index_mask s) in
  let availability_index := Z.shiftr slot_index 6 in
  let bit_index := Z.land slot_index 63 in
  (availability_index, bit_index).

Definition bitmap_len s : Z := Z.of_nat (length (mp_available_bitmap s)).

(** [self.available_bitmap.is_empty()] *)
Definition legacy s : bool := bitmap_len s =? 0.

(** [availability_at(index)]: the word at a checked index. *)
Definition availability_at s (index : Z) : Z := mp_available_bitmap s !!! Z.to_nat index.

(** [fetch_xor(mask)] on the word at [index]. *)
Definition fetch_xor (index mask : Z) s : MultiProducerSequencer :=
  mp_set_bitmap (alter (fun word => Z.lxor word mask) (Z.to_nat index) (mp_available_bitmap s)) s.

(** [publish_bitmap]: one [fetch_xor]. *)
Definition publish_bitmap (sequence : Z) s : MultiProducerSequencer :=
  let '(availability_index, bit_index) := calculate_availability_indices s sequence in
  if availability_index <? bitmap_len s then
    let mask := as_u64 (Z.shiftl 1 bit_index) in
    fetch_xor availability_index mask s
  else s.

(** The store of [set_available], in both modes. *)
Definition mark_available (sequence : Z) s : MultiProducerSequencer :=
  if legacy s then
    let index := calculate_index s sequence in
    let flag := calculate_availability_flag s sequence in
    mp_set_buffer (<[Z.to_nat index := flag]> (mp_available_buffer s)) s
  else publish_bitmap sequence s.

(** [is_bitmap_available] *)
Definition is_bitmap_available s (sequence : Z) : bool :=
  let '(availability_index, bit_index) := calculate_availability_indices s sequence in
  if availability_index <? bitmap_len s then
    let current_value := availability_at s availability_index in
    let expected_flag := calculate_round_flag s sequence in
    let actual_flag := Z.land (Z.shiftr current_value bit_index) 1 in
    actual_flag =? expected_flag
  else false.

(** [is_available_internal]: one atomic load. *)
Definition is_available_internal s (sequence : Z) : bool :=
  if legacy s then
    let index := calculate_index s sequence in
    let flag := calculate_availability_flag s sequence in
    (mp_available_buffer s !!! Z.to_nat index) =? flag
  else is_bitmap_available s sequence.

(** The part of the range [[sequence, last]] that lies in the bitmap word of
    [sequence]: the word's index, the first bit, the number of bits. *)
Definition word_chunk s (sequence last : Z) : Z * Z * Z :=
  let '(word_index, start_bit) := calculate_availability_indices s sequence in
  let bits_remaining_in_word := 64 - start_bit in
  let sequences_remaining := as_u64 ((last -! sequence) +! 1) in
  (word_index, start_bit, Z.min bits_remaining_in_word sequences_remaining).

(** The mask of [bits] bits from [start_bit]. *)
Definition range_mask (start_bit bits : Z) : Z :=
  if 64 <=? bits then u64_ones
  else as_u64 (Z.shiftl (Z.shiftl 1 bits - 1) start_bit).

(** One iteration of the loop of [publish_range] in bitmap mode. *)
Definition publish_word s (sequence high : Z) : Z * MultiProducerSequencer :=
  let '(word_index, start_bit, bits_to_set) := word_chunk s sequence high in
  let mask := range_mask start_bit bits_to_set in
  (sequence +! bits_to_set,
   if word_index <? bitmap_len s then fetch_xor word_index mask s else s).

(** One iteration of the loop of [get_highest_published_sequence_bitmap]:
    continue at a sequence, or return a result. *)
Definition scan_word s (sequence available_sequence : Z) : Z + Z :=
  let '(word_index, start_bit, bits_to_check) := word_chunk s sequence available_sequence in
  if bitmap_len s <=? word_index then inr (sequence -! 1) else
  let word := availability_at s word_index in
  let expected_flag := calculate_round_flag s sequence in
  let expected_word := if expected_flag =? 0 then 0 else u64_ones in
  let mismatches := Z.land (Z.lxor word expected_word) (range_mask start_bit bits_to_check) in
  if negb (mismatches =? 0) then
    let first_mismatch := trailing_zeros mismatches in
    let offset := first_mismatch - start_bit in
    inr ((sequence +! offset) -! 1)
  else inl (sequence +! bits_to_check).

(** One iteration of the loop of [get_highest_published_sequence_legacy]. *)
Definition scan_slot s (sequence : Z) : Z + Z :=
  if negb (is_available_internal s sequence) then inr (sequence -! 1)
  else inl (sequence +! 1).

Section Multi.
Context {T : Type}.
Abbreviation W := (World T).
Implicit Types w : W.

(** [MultiProducerSequencer::new]; [cursor] is the fresh address of its cursor. *)
Definition new (buffer_size : Z) (wait_strategy : WaitStrategy) (cursor : loc) : M W unit :=
  if negb (is_power_of_two buffer_size) then panic "Buffer size must be a power of 2" else
  let ns := needs_signal wait_strategy in
  let available_bitmap :=
    if 64 <=? buffer_size then replicate (Z.to_nat (buffer_size / 64)) u64_ones else [] in
  let available_buffer :=
    if buffer_size <? 64 then replicate (Z.to_nat buffer_size) (-1) else [] in
  match i64_try_from buffer_size with
  | None => panic "buffer size must fit into i64"
  | Some buffer_size_i64 =>
      let* _ := Sequence.new_with_initial_value cursor in
      write (upd_multi (fun _ =>
        mkMulti buffer_size buffer_size_i64 wait_strategy ns cursor [] available_bitmap
          (buffer_size - 1) (trailing_zeros buffer_size) (-1) available_buffer
          false false None))
  end.

Definition cursor : M W loc := read (fun w => mp_cursor (w_multi w)).
Definition buffer_size_i64 : M W Z := read (fun w => mp_buffer_size_i64 (w_multi w)).
Definition cached_gating_sequence : M W Z := load (fun w => mp_cached_gating_sequence (w_multi w)).
Definition set_cached_gating_sequence (v : Z) : M W unit := store (upd_multi (mp_set_cached v)).
Definition gating_sequences : M W (list loc) := load (fun w => mp_gating_sequences (w_multi w)).

(** [available_buffer[index]] in legacy mode panics out of range. *)
Definition check_index (sequence : Z) : M W unit :=
  let* s := read w_multi in
  if legacy s && (Z.of_nat (length (mp_available_buffer s)) <=? calculate_index s sequence)
  then panic "index out of bounds" else ret tt.

(** [set_available] *)
Definition set_available (sequence : Z) : M W unit :=
  let* _ := check_index sequence in
  store (upd_multi (mark_available sequence)).

(** [get_highest_published_sequence_bitmap] *)
Definition get_highest_published_sequence_bitmap (fuel : nat)
    (next_sequence available_sequence : Z) : M W Z :=
  if available_sequence <? next_sequence then ret available_sequence else
  loop fuel (fun sequence =>
    if sequence <=? available_sequence
    then load (fun w => scan_word (w_multi w) sequence available_sequence)
    else ret (inr available_sequence)) next_sequence.

(** [get_highest_published_sequence_legacy] *)
Definition get_highest_published_sequence_legacy (fuel : nat)
    (next_sequence available_sequence : Z) : M W Z :=
  loop fuel (fun sequence =>
    if sequence <=? available_sequence then
      let* _ := check_index sequence in
      load (fun w => scan_slot (w_multi w) sequence)
    else ret (inr available_sequence)) next_sequence.

(** [has_available_capacity_internal] *)
Definition has_available_capacity_internal (guard : list loc) (required_capacity cursor_value : Z) :
    M W bool :=
  match i64_try_from required_capacity with
  | None => panic "required capacity must fit into i64"
  | Some required_capacity_i64 =>
      let* bsz := buffer_size_i64 in
      let wrap_point := (cursor_value +! required_capacity_i64) -! bsz in
      let* cached := cached_gating_sequence in
      if (cached <? wrap_point) || (cursor_value <? cached) then
        let* min_sequence := Sequence.get_minimum_sequence_with_default guard cursor_value in
        let* _ := set_cached_gating_sequence min_sequence in
        if min_sequence <? wrap_point then ret false else ret true
      else ret true
  end.

(** ** [Sequencer for MultiProducerSequencer] *)

Definition get_cursor : M W loc := cursor.

Definition get_buffer_size : M W Z := read (fun w => mp_buffer_size (w_multi w)).

(** The capacity check of one iteration of [next_n]'s loop: whether the claim
    [(current, next]] may be tried. *)
Definition claim_capacity (current next : Z) : M W bool :=
  let* bsz := buffer_size_i64 in
  let wrap_point := next -! bsz in
  let* cached := cached_gating_sequence in
  if (cached <? wrap_point) || (current <? cached) then
    let* guard := gating_sequences in
    let* min_sequence := Sequence.get_minimum_sequence_with_default guard current in
    if min_sequence <? wrap_point then ret false
    else let* _ := set_cached_gating_sequence min_sequence in ret true
  else ret true.

(** One iteration of [next_n]'s loop. *)
Definition claim_attempt (n : Z) (_ : unit) : M W (unit + result Z DisruptorError) :=
  let* closed := load (fun w => mp_closed (w_multi w)) in
  if closed then ret (inr (Err Shutdown)) else
  let* poisoned := load (fun w => mp_poisoned (w_multi w)) in
  if poisoned then ret (inr (Err Poisoned)) else
  let* c := cursor in
  let* current := Sequence.get c in
  let next := current +! n in
  let* ok := claim_capacity current next in
  if negb ok then ret (inl tt) else
  let* won := Sequence.compare_and_set c current next in
  if won then ret (inr (Ok next)) else ret (inl tt).

Definition next_n (fuel : nat) (n : Z) : M W (result Z DisruptorError) :=
  let* bsz := buffer_size_i64 in
  if (n <? 1) || (bsz <? n) then ret (Err (InvalidSequence n)) else
  loop fuel (claim_attempt n) tt.

Definition next (fuel : nat) : M W (result Z DisruptorError) := next_n fuel 1.

Definition try_next_n (n : Z) : M W (option Z) :=
  let* bsz := buffer_size_i64 in
  if (n <? 1) || (bsz <? n) then ret None else
  let* closed := load (fun w => mp_closed (w_multi w)) in
  if closed then ret None else
  let* poisoned := load (fun w => mp_poisoned (w_multi w)) in
  if poisoned then ret None else
  let* c := cursor in
  let* current := Sequence.get c in
  let next := current +! n in
  match usize_try_from n with
  | None => ret None
  | Some required =>
      let* guard := gating_sequences in
      let* ok := has_available_capacity_internal guard required current in
      if negb ok then ret None else
      let* won := Sequence.compare_and_set c current next in
      if won then ret (Some next) else ret None
  end.

Definition try_next : M W (option Z) := try_next_n 1.

(** [if self.needs_signal { self.wait_strategy.signal_all_when_blocking() }] *)
Definition signal : M W unit :=
  let* s := read w_multi in
  if mp_needs_signal s then signal_all_when_blocking (mp_wait_strategy s) else ret tt.

Definition publish (sequence : Z) : M W unit :=
  let* _ := set_available sequence in signal.

Definition publish_range (fuel : nat) (low high : Z) : M W unit :=
  if high <? low then ret tt else
  let* s := read w_multi in
  let* _ :=
    (if legacy s then for_each (seqZ low (high - low + 1)) set_available
     else loop fuel (fun sequence =>
       if sequence <=? high then
         atomic (fun w => let '(next, s') := publish_word (w_multi w) sequence high in
                          (inl next, upd_multi (fun _ => s') w))
       else ret (inr tt)) low) in
  signal.

Definition is_available (sequence : Z) : M W bool :=
  let* _ := check_index sequence in
  load (fun w => is_available_internal (w_multi w) sequence).

Definition get_highest_published_sequence (fuel : nat) (next_sequence available_sequence : Z) : M W Z :=
  let* s := read w_multi in
  if legacy s then get_highest_published_sequence_legacy fuel next_sequence available_sequence
  else get_highest_published_sequence_bitmap fuel next_sequence available_sequence.

Definition add_gating_sequences (gating : list loc) : M W unit :=
  add_gating_sequences_rcu (fun w => mp_gating_sequences (w_multi w))
    (fun ls => upd_multi (mp_set_gating ls)) gating.

Definition remove_gating_sequence (fuel : nat) (sequence : loc) : M W bool :=
  remove_gating_sequence_cas (fun w => mp_gating_sequences (w_multi w))
    (fun ls => upd_multi (mp_set_gating ls)) fuel sequence.

Definition get_minimum_sequence : M W Z :=
  let* guard := gating_sequences in
  Sequence.get_minimum_sequence guard.

Definition remaining_capacity : M W Z :=
  let* c := cursor in
  let* next_value := Sequence.get c in
  let* guard := gating_sequences in
  let* consumed := Sequence.get_minimum_sequence_with_default guard next_value in
  let used_capacity := saturating_sub next_value consumed in
  let* bsz := buffer_size_i64 in
  ret (saturating_sub bsz used_capacity).

Definition has_available_capacity (required_capacity : Z) : M W bool :=
  let* guard := gating_sequences in
  let* c := cursor in
  let* cursor_value := Sequence.get c in
  has_available_capacity_internal guard required_capacity cursor_value.

Definition poison : M W unit :=
  let* _ := store (upd_multi (mp_set_poisoned true)) in
  let* s := read w_multi in
  signal_all_when_blocking (mp_wait_strategy s).

Definition is_poisoned : M W bool := load (fun w => mp_poisoned (w_multi w)).

Definition record_failure (failure : FailureRecord) : M W unit :=
  store (upd_multi (fun s =>
    match mp_first_failure s with
    | None => mp_set_failure (Some failure) s
    | Some _ => s
    end)).

Definition first_failure : M W (option FailureRecord) :=
  load (fun w => mp_first_failure (w_multi w)).

(** [Sequencer::poison_with_failure] (the trait's default body). *)
Definition poison_with_failure (failure : FailureRecord) : M W unit :=
  let* _ := record_failure failure in poison.

Definition close : M W unit :=
  let* _ := store (upd_multi (mp_set_closed true)) in
  let* s := read w_multi in
  signal_all_when_blocking (mp_wait_strategy s).

Definition is_closed : M W bool := load (fun w => mp_closed (w_multi w)).

Definition reopen : M W unit := store (upd_multi (mp_set_closed false)).

End Multi.
