(* ===== verification/Availability.v ===== *)
(** * Availability: what the round-parity store of the multi-producer
    sequencer means

    The availability store keeps one parity per slot.  It is shown to represent
    a set of published sequences over a window of one lap, [publish] and the
    consumer's progress move that representation the way they move the set, the
    word-at-a-time [publish_range] does what publishing one by one does, and
    the word-at-a-time scan returns what the slot-at-a-time scan returns. *)
From S2P Require Import Prelude Effects Errors RingBuffer World Sequence Gating Multi.

Implicit Types s : MultiProducerSequencer.

(** The number of slots. *)
Definition slots s : Z := mp_buffer_size_i64 s.

(** What [MultiProducerSequencer::new] establishes about the immutable fields
    and the shape of the availability store. *)
Record mp_wf s : Prop := {
  wf_pow : exists k, 0 <= k <= 62 /\ slots s = 2 ^ k /\ mp_index_mask s = 2 ^ k - 1 /\ mp_index_shift s = k;
  wf_size : mp_buffer_size s = slots s;
  wf_bitmap : bitmap_len s = if 64 <=? slots s then slots s / 64 else 0;
  wf_buffer : Z.of_nat (length (mp_available_buffer s)) = if 64 <=? slots s then 0 else slots s
}.

Lemma wf_slots s : mp_wf s -> 1 <= slots s <= 4611686018427387904.
Proof. intros [(k & Hk & -> & _) _ _ _]. by apply pow2_le_62. Qed.

Lemma mod_pow2_64 k q : 0 <= k <= 62 -> as_u64 q mod 2 ^ k = q mod 2 ^ k.
Proof.
  intros Hk. unfold as_u64. change two64 with (2 ^ 64).
  symmetry. apply Znumtheory.Zmod_div_mod; [apply Z.pow_pos_nonneg; lia | done |].
  exists (2 ^ (64 - k)). rewrite <- Z.pow_add_r by lia. f_equal. lia.
Qed.

Lemma index_mod s q : mp_wf s -> calculate_index s q = q mod slots s.
Proof.
  intros [(k & Hk & HN & Hm & _) _ _ _]. unfold calculate_index.
  rewrite Hm, HN, land_mask by lia. by apply mod_pow2_64.
Qed.

(** The round parity of a sequence. *)
Definition parity s (q : Z) : Z := (q / slots s) mod 2.

Lemma parity_cases s q : parity s q = 0 \/ parity s q = 1.
Proof. unfold parity. pose proof (Z.mod_pos_bound (q / slots s) 2). lia. Qed.

Lemma flag_parity s q : mp_wf s -> calculate_availability_flag s q = parity s q.
Proof.
  intros [(k & Hk & HN & _ & Hs) _ _ _]. unfold calculate_availability_flag, parity.
  rewrite Hs, HN, Z.shiftr_div_pow2 by lia. change 1 with (Z.ones 1). by rewrite Z.land_ones by lia.
Qed.

Lemma round_flag_parity s q : mp_wf s -> calculate_round_flag s q = parity s q.
Proof.
  intros Hwf. pose proof (flag_parity s q Hwf) as H. unfold calculate_availability_flag in H.
  unfold calculate_round_flag. rewrite H. apply as_u64_small.
  destruct (parity_cases s q); i64_lia.
Qed.

(** A lap later, the other parity. *)
Lemma parity_lap s q : mp_wf s -> parity s (q + slots s) = 1 - parity s q.
Proof.
  intros Hwf. pose proof (wf_slots s Hwf). unfold parity.
  replace (q + slots s) with (q + 1 * slots s) by lia. rewrite Z.div_add by lia.
  pose proof (Z.mod_pos_bound (q / slots s) 2).
  rewrite Z.add_mod by lia. destruct (Z.eq_dec ((q / slots s) mod 2) 0) as [->|];
    [done|]. replace ((q / slots s) mod 2) with 1 by lia. done.
Qed.

Lemma large_slots s : mp_wf s -> legacy s = false -> slots s mod 64 = 0 /\ 64 <= slots s.
Proof.
  intros [(k & Hk & HN & _) _ Hb _] Hl. unfold legacy in Hl. rewrite Hb in Hl.
  destruct (Z.leb_spec 64 (slots s)) as [Hge|]; [|done]. split; [|done].
  rewrite HN in *. assert (6 <= k).
  { destruct (Z.le_gt_cases 6 k); [done|]. pose proof (Z.pow_lt_mono_r 2 k 6 ltac:(lia) ltac:(lia) ltac:(lia)).
    change (2 ^ 6) with 64 in *. lia. }
  replace k with (k - 6 + 6) by lia. rewrite Z.pow_add_r by lia. change (2 ^ 6) with 64.
  apply Z.mod_mul. lia.
Qed.

Lemma indices_div s q :
  mp_wf s -> calculate_availability_indices s q = (q mod slots s / 64, q mod slots s mod 64).
Proof.
  intros Hwf. unfold calculate_availability_indices.
  fold (calculate_index s q). rewrite index_mod by done.
  rewrite Z.shiftr_div_pow2 by lia. change (2 ^ 6) with 64. change 63 with (Z.ones 6).
  by rewrite Z.land_ones by lia.
Qed.

Lemma mod_bounds s q : mp_wf s -> 0 <= q mod slots s < slots s.
Proof. intros Hwf. pose proof (wf_slots s Hwf). apply Z.mod_pos_bound. lia. Qed.

Lemma word_in_range s q : mp_wf s -> legacy s = false -> 0 <= q mod slots s / 64 < bitmap_len s.
Proof.
  intros Hwf Hl. pose proof (mod_bounds s q Hwf). destruct (large_slots s Hwf Hl) as [Hm Hge].
  rewrite (wf_bitmap s Hwf). destruct (Z.leb_spec 64 (slots s)); [|lia].
  split; [apply Z.div_pos; lia|]. apply Z.div_lt_upper_bound; [lia|].
  pose proof (Z.div_mod (slots s) 64). lia.
Qed.

Lemma index_in_range s q :
  mp_wf s -> legacy s = true -> 0 <= q mod slots s < Z.of_nat (length (mp_available_buffer s)).
Proof.
  intros Hwf Hl. pose proof (mod_bounds s q Hwf). unfold legacy in Hl.
  rewrite (wf_bitmap s Hwf) in Hl. rewrite (wf_buffer s Hwf).
  destruct (Z.leb_spec 64 (slots s)) as [Hge|]; [|done].
  assert (1 <= slots s / 64) by (apply Z.div_le_lower_bound; lia). lia.
Qed.

(** ** The value of a slot *)

Definition bit_at s (i : Z) : bool :=
  Z.testbit (mp_available_bitmap s !!! Z.to_nat (i / 64)) (i mod 64).

(** The value that decides the availability of [q]: the slot's [i32], or its
    bit as an integer. *)
Definition slot_value s (q : Z) : Z :=
  if legacy s then mp_available_buffer s !!! Z.to_nat (q mod slots s)
  else Z.b2z (bit_at s (q mod slots s)).

Lemma is_available_slot s q : mp_wf s -> is_available_internal s q = (slot_value s q =? parity s q).
Proof.
  intros Hwf. unfold is_available_internal, slot_value. destruct (legacy s) eqn:Hl.
  - by rewrite index_mod, flag_parity by done.
  - unfold is_bitmap_available. rewrite indices_div by done.
    pose proof (word_in_range s q Hwf Hl). destruct (Z.ltb_spec (q mod slots s / 64) (bitmap_len s)); [|lia].
    rewrite round_flag_parity by done. f_equal. unfold bit_at, availability_at.
    pose proof (Z.mod_pos_bound (q mod slots s) 64).
    change 1 with (Z.ones 1). rewrite Z.land_ones by lia. change (2 ^ 1) with 2.
    by rewrite <- Z.bit0_mod, Z.shiftr_spec, Z.add_0_l by lia.
Qed.

Lemma bit_at_fetch_xor s wi mask i :
  0 <= i -> 0 <= wi < bitmap_len s ->
  bit_at (fetch_xor wi mask s) i =
  if i / 64 =? wi then xorb (bit_at s i) (Z.testbit mask (i mod 64)) else bit_at s i.
Proof.
  intros Hi Hwi. unfold bit_at, fetch_xor, bitmap_len in *. cbn.
  assert (0 <= i / 64) by (apply Z.div_pos; lia).
  destruct (Z.eqb_spec (i / 64) wi) as [<-|Hne].
  - rewrite list_lookup_total_alter, decide_True by lia. apply Z.lxor_spec.
  - rewrite list_lookup_total_alter_ne by lia. done.
Qed.

Lemma slot_mod_64 s q : mp_wf s -> legacy s = false -> q mod slots s mod 64 = q mod 64.
Proof.
  intros Hwf Hl. destruct (large_slots s Hwf Hl) as [Hm Hge].
  rewrite <- Znumtheory.Zmod_div_mod; [done | lia | lia |]. by apply Z.mod_divide.
Qed.

(** ** The effect of [set_available] *)

Lemma mark_wf s q : mp_wf s -> mp_wf (mark_available q s).
Proof.
  intros Hwf. unfold mark_available. destruct (legacy s) eqn:Hl.
  - destruct Hwf. constructor; cbn; try done. by rewrite length_insert.
  - unfold publish_bitmap. destruct (calculate_availability_indices s q) as [wi b].
    case_match; [|done]. destruct Hwf. constructor; cbn; try done.
    unfold bitmap_len in *. cbn. by rewrite length_alter.
Qed.

Lemma mark_same s q :
  slots (mark_available q s) = slots s /\ legacy (mark_available q s) = legacy s.
Proof.
  unfold mark_available, publish_bitmap. destruct (legacy s) eqn:Hl; [done|].
  destruct (calculate_availability_indices s q) as [wi b]. case_match; [|done].
  split; [done|]. unfold legacy, bitmap_len, fetch_xor in *. cbn. by rewrite length_alter.
Qed.

Lemma parity_mark s q x : parity (mark_available q s) x = parity s x.
Proof. unfold parity. by rewrite (proj1 (mark_same s q)). Qed.

(** Marking [q] writes the parity of [q] (small buffers) or flips the bit
    (large ones) in the slot of [q] and leaves the other slots alone. *)
Lemma slot_value_mark s q x :
  mp_wf s ->
  slot_value (mark_available q s) x =
  if x mod slots s =? q mod slots s
  then (if legacy s then parity s q else 1 - slot_value s q)
  else slot_value s x.
Proof.
  intros Hwf. unfold slot_value. destruct (mark_same s q) as [-> ->].
  unfold mark_available. destruct (legacy s) eqn:Hl.
  - cbn. pose proof (index_in_range s q Hwf Hl). pose proof (index_in_range s x Hwf Hl).
    rewrite index_mod, flag_parity by done. destruct (Z.eqb_spec (x mod slots s) (q mod slots s)) as [->|Hne].
    + rewrite list_lookup_total_insert_eq by lia. done.
    + rewrite list_lookup_total_insert_ne by lia. done.
  - unfold publish_bitmap. rewrite indices_div by done.
    pose proof (word_in_range s q Hwf Hl). pose proof (mod_bounds s x Hwf). pose proof (mod_bounds s q Hwf).
    destruct (Z.ltb_spec (q mod slots s / 64) (bitmap_len s)); [|lia].
    rewrite bit_at_fetch_xor by lia.
    pose proof (Z.mod_pos_bound (q mod slots s) 64). pose proof (Z.mod_pos_bound (x mod slots s) 64).
    rewrite as_u64_small.
    2:{ rewrite Z.shiftl_1_l. pose proof (Z.pow_le_mono_r 2 (q mod slots s mod 64) 63).
        pose proof (Z.pow_pos_nonneg 2 (q mod slots s mod 64)). change (2 ^ 63) with two63 in *. i64_lia. }
    rewrite Z.shiftl_1_l, Z.pow2_bits_eqb by lia.
    destruct (Z.eqb_spec (x mod slots s) (q mod slots s)) as [->|Hne].
    + rewrite Z.eqb_refl, Z.eqb_refl, xorb_true_r. by destruct (bit_at s _).
    + destruct (Z.eqb_spec (x mod slots s / 64) (q mod slots s / 64)) as [He|]; [|done].
      destruct (Z.eqb_spec (q mod slots s mod 64) (x mod slots s mod 64)) as [He'|];
        [|by rewrite xorb_false_r].
      pose proof (Z.div_mod (x mod slots s) 64). pose proof (Z.div_mod (q mod slots s) 64). lia.
Qed.

(** ** Representation of the published set *)

(** What the slot of [q] holds while [q] is the sequence of the current lap
    that uses the slot and is not published. *)
Definition unpublished_value s (q : Z) : Z :=
  if legacy s && (q <? slots s) then -1 else 1 - parity s q.

(** Over the window of one lap from [lo], the store represents [published]. *)
Definition rep s (lo : Z) (published : gset Z) : Prop :=
  forall q, lo <= q < lo + slots s ->
    slot_value s q = if bool_decide (q ∈ published) then parity s q else unpublished_value s q.

Lemma unpublished_ne s q : mp_wf s -> unpublished_value s q <> parity s q.
Proof.
  intros. unfold unpublished_value. destruct (parity_cases s q); destruct (legacy s && _); lia.
Qed.

(** [is_available] decides membership in the published set, for every sequence
    of the window. *)
Lemma available_rep s lo published q :
  mp_wf s -> rep s lo published -> lo <= q < lo + slots s ->
  is_available_internal s q = bool_decide (q ∈ published).
Proof.
  intros Hwf Hrep Hq. rewrite is_available_slot by done. rewrite (Hrep q Hq).
  case_bool_decide; [apply Z.eqb_refl|]. apply Z.eqb_neq. by apply unpublished_ne.
Qed.

Lemma rep_mark s lo published q :
  mp_wf s -> rep s lo published -> lo <= q < lo + slots s -> q ∉ published ->
  rep (mark_available q s) lo ({[q]} ∪ published).
Proof.
  intros Hwf Hrep Hq Hn x Hx. rewrite (proj1 (mark_same s q)) in Hx.
  rewrite slot_value_mark, parity_mark by done. unfold unpublished_value.
  rewrite parity_mark, (proj1 (mark_same s q)), (proj2 (mark_same s q)). fold (unpublished_value s x).
  pose proof (wf_slots s Hwf).
  destruct (Z.eqb_spec (x mod slots s) (q mod slots s)) as [He|Hne].
  - assert (x = q) as -> by (eapply mod_window_inj; eauto; lia).
    rewrite bool_decide_eq_true_2 by set_solver. destruct (legacy s) eqn:Hl; [done|].
    rewrite (Hrep q Hq), bool_decide_eq_false_2 by done. unfold unpublished_value. rewrite Hl. cbn. lia.
  - rewrite (Hrep x Hx). assert (x <> q) by congruence.
    rewrite (bool_decide_ext (x ∈ {[q]} ∪ published) (x ∈ published)) by set_solver. done.
Qed.

(** The window moves up past a published sequence: its slot now stands for the
    sequence a lap later, not yet published. *)
Lemma rep_advance s lo published :
  mp_wf s -> 0 <= lo -> rep s lo published -> lo ∈ published -> lo + slots s ∉ published ->
  rep s (lo + 1) published.
Proof.
  intros Hwf Hlo Hrep Hin Hout q Hq. pose proof (wf_slots s Hwf).
  destruct (Z.eq_dec q (lo + slots s)) as [->|]; [|apply Hrep; lia].
  rewrite bool_decide_eq_false_2 by done.
  assert (slot_value s (lo + slots s) = slot_value s lo) as ->.
  { unfold slot_value. replace (lo + slots s) with (lo + 1 * slots s) by lia. by rewrite Z.mod_add by lia. }
  rewrite (Hrep lo) by lia. rewrite bool_decide_eq_true_2 by done.
  unfold unpublished_value. destruct (Z.ltb_spec (lo + slots s) (slots s)); [lia|].
  rewrite andb_false_r, parity_lap by done. lia.
Qed.

(** ** Refinement: the store against a set of sequences

    The contract of the availability store: a window of one lap over a set of
    published sequences, with two operations, a producer's publish of a
    sequence of the window and the consumers' release of the lowest one. *)
Inductive store_op : Type :=
| OpPublish (q : Z)
| OpRelease.

(** The abstract state: the bottom of the window and the published set. *)
Definition spec_state : Type := Z * gset Z.

(** What the protocol guarantees about each operation. *)
Definition op_allowed (N : Z) (a : spec_state) (op : store_op) : Prop :=
  match op with
  | OpPublish q => fst a <= q < fst a + N /\ q ∉ snd a
  | OpRelease => fst a ∈ snd a
  end.

Definition spec_step (a : spec_state) (op : store_op) : spec_state :=
  match op with
  | OpPublish q => (fst a, {[q]} ∪ snd a)
  | OpRelease => (fst a + 1, snd a)
  end.

(** What the code does: [set_available], and nothing. *)
Definition store_step s (op : store_op) : MultiProducerSequencer :=
  match op with
  | OpPublish q => mark_available q s
  | OpRelease => s
  end.

Fixpoint ops_allowed (N : Z) (a : spec_state) (ops : list store_op) : Prop :=
  match ops with
  | [] => True
  | op :: ops' => op_allowed N a op /\ ops_allowed N (spec_step a op) ops'
  end.

(** The simulation relation. *)
Definition simulates s (a : spec_state) : Prop :=
  mp_wf s /\ 0 <= fst a /\ rep s (fst a) (snd a) /\ forall q, q ∈ snd a -> q < fst a + slots s.

Lemma simulates_step s a op :
  simulates s a -> op_allowed (slots s) a op -> simulates (store_step s op) (spec_step a op).
Proof.
  intros (Hwf & H0 & Hrep & Hup) Hok. destruct op as [q|]; cbn in *.
  - destruct (mark_same s q) as [Hs _]. destruct Hok as [Hq Hn].
    split_and!; [by apply mark_wf | done | by apply rep_mark|]. rewrite Hs. cbn [fst snd].
    intros x [->%elem_of_singleton|Hx]%elem_of_union; [lia | by apply Hup].
  - split_and!; [done | cbn [fst]; lia | | cbn [fst snd]; intros q Hq; specialize (Hup q Hq); lia].
    apply rep_advance; [done | done | done | done|]. intros Hin%Hup. lia.
Qed.

Lemma simulates_run s a ops :
  simulates s a -> ops_allowed (slots s) a ops -> simulates (foldl store_step s ops) (foldl spec_step a ops).
Proof.
  revert s a. induction ops as [|op ops IH]; intros s a Hsim; [done|]. intros [Hok Hops]. cbn [foldl]. apply IH.
  - by apply simulates_step.
  - destruct op; cbn [store_step]; [by rewrite (proj1 (mark_same s q)) | done].
Qed.

(** C24: The parity store refines the set: from a fresh store, after any sequence
    of publishes and releases the protocol allows, over any number of laps,
    [is_available] answers for every sequence of the window whether it has
    been published. *)
Theorem store_refines_set s ops q :
  mp_wf s -> rep s 0 ∅ -> ops_allowed (slots s) (0, ∅) ops ->
  let a := foldl spec_step (0, ∅) ops in
  fst a <= q < fst a + slots s ->
  is_available_internal (foldl store_step s ops) q = bool_decide (q ∈ snd a).
Proof.
  intros Hwf Hrep Hops a Hq.
  assert (Hs : forall ops, slots (foldl store_step s ops) = slots s).
  { clear. intros ops. revert s. induction ops as [|op ops IH]; intros s; [done|]. cbn [foldl]. rewrite IH.
    destruct op; [apply (proj1 (mark_same s q)) | done]. }
  destruct (simulates_run s (0, ∅) ops) as (Hwf' & _ & Hrep' & _); [split_and!; [done | done | done | set_solver] | done|].
  apply (available_rep _ (fst a)); [done | done | by rewrite Hs].
Qed.

(** ** The limits of parity *)

(** The availability test has a period of two laps, so it cannot tell a
    sequence from the one two laps away: it is meaningful only inside the
    window of [store_refines_set]. *)
Lemma is_available_aliases s q :
  mp_wf s -> is_available_internal s (q + 2 * slots s) = is_available_internal s q.
Proof.
  intros Hwf. pose proof (wf_slots s Hwf). rewrite !is_available_slot by done. f_equal.
  - unfold slot_value. by rewrite Z.mod_add by lia.
  - unfold parity. rewrite Z.div_add by lia. rewrite Z.add_mod by lia. cbn.
    rewrite Z.add_0_r. apply Z.mod_mod. lia.
Qed.

(** ** Words and slots *)

Lemma range_mask_bits start bits i :
  0 <= start -> 0 <= bits -> start + bits <= 64 -> 0 <= i ->
  Z.testbit (range_mask start bits) i = (start <=? i) && (i <? start + bits).
Proof.
  intros Hs Hb Hsum Hi. unfold range_mask. destruct (Z.leb_spec 64 bits).
  - assert (start = 0) as -> by lia. assert (bits = 64) as -> by lia.
    change u64_ones with (Z.ones 64). rewrite Z.testbit_ones_nonneg by lia.
    destruct (Z.leb_spec 0 i); [done | lia].
  - rewrite Z.shiftl_1_l, Z.sub_1_r, <- Z.ones_equiv.
    unfold as_u64. change two64 with (2 ^ 64).
    destruct (Z.lt_ge_cases i 64).
    + rewrite Z.mod_pow2_bits_low, Z.shiftl_spec by lia. destruct (Z.leb_spec start i).
      * rewrite Z.testbit_ones_nonneg by lia. cbn. destruct (Z.ltb_spec (i - start) bits);
          destruct (Z.ltb_spec i (start + bits)); done || lia.
      * rewrite Z.testbit_neg_r by lia. done.
    + rewrite Z.mod_pow2_bits_high by lia. symmetry. apply andb_false_iff. right. apply Z.ltb_ge. lia.
Qed.

Lemma fetch_xor_0 wi s : fetch_xor wi 0 s = s.
Proof.
  unfold fetch_xor. rewrite list_alter_id; [by destruct s|]. intros x. apply Z.lxor_0_r.
Qed.

Lemma fetch_xor_twice wi m1 m2 s : fetch_xor wi m2 (fetch_xor wi m1 s) = fetch_xor wi (Z.lxor m1 m2) s.
Proof.
  unfold fetch_xor, mp_set_bitmap. destruct s; cbn. f_equal. apply list_eq. intros i.
  destruct (decide (Z.to_nat wi = i)) as [<-|Hne]; [|by rewrite !list_lookup_alter_ne].
  rewrite !list_lookup_alter_eq, <- option_fmap_compose. apply option_fmap_ext. intros x. apply Z.lxor_assoc.
Qed.

Lemma fetch_xor_indices wi m s q :
  calculate_availability_indices (fetch_xor wi m s) q = calculate_availability_indices s q /\
  legacy (fetch_xor wi m s) = legacy s /\ bitmap_len (fetch_xor wi m s) = bitmap_len s.
Proof.
  split; [done|]. unfold legacy, bitmap_len, fetch_xor. cbn. by rewrite length_alter.
Qed.

(** The number of sequences of [[sequence, last]] in the word of [sequence]. *)
Definition chunk_len (sequence last : Z) : Z := Z.min (64 - sequence mod 64) (last - sequence + 1).

Lemma word_chunk_eq s sequence last :
  mp_wf s -> legacy s = false -> 0 <= sequence <= last -> last < i64_max ->
  word_chunk s sequence last = (sequence mod slots s / 64, sequence mod 64, chunk_len sequence last).
Proof.
  intros Hwf Hl Hseq Hlast. unfold word_chunk. rewrite indices_div by done. nowrap.
  rewrite as_u64_small by i64_lia. rewrite slot_mod_64 by done. done.
Qed.

Lemma chunk_len_pos sequence last :
  sequence <= last -> 0 < chunk_len sequence last <= 64 - sequence mod 64 /\ chunk_len sequence last <= last - sequence + 1.
Proof. intros H. unfold chunk_len. pose proof (Z.mod_pos_bound sequence 64). lia. Qed.

(** The sequences of a chunk follow each other in one word and one lap. *)
Lemma chunk_member s sequence j :
  mp_wf s -> legacy s = false -> 0 <= j < 64 - sequence mod 64 ->
  (sequence + j) mod slots s = sequence mod slots s + j /\
  (sequence + j) mod slots s / 64 = sequence mod slots s / 64 /\
  (sequence + j) mod slots s mod 64 = sequence mod 64 + j /\
  parity s (sequence + j) = parity s sequence.
Proof.
  intros Hwf Hl Hj. destruct (large_slots s Hwf Hl) as [Hm Hge].
  pose proof (mod_bounds s sequence Hwf) as Hb. pose proof (slot_mod_64 s sequence Hwf Hl) as H64.
  pose proof (Z.div_mod (slots s) 64 ltac:(lia)) as HdN.
  pose proof (Z.div_mod (sequence mod slots s) 64 ltac:(lia)) as Hds.
  pose proof (word_in_range s sequence Hwf Hl) as Hw. rewrite (wf_bitmap s Hwf) in Hw.
  destruct (Z.leb_spec 64 (slots s)); [|lia].
  assert (Hfit : sequence mod slots s + j < slots s) by nia.
  assert (Hdec : sequence + j = slots s * (sequence / slots s) + (sequence mod slots s + j))
    by (pose proof (Z.div_mod sequence (slots s)); lia).
  assert (Hmod : (sequence + j) mod slots s = sequence mod slots s + j)
    by (symmetry; eapply Z.mod_unique_pos; [|exact Hdec]; lia).
  assert (Hdiv : (sequence + j) / slots s = sequence / slots s)
    by (symmetry; eapply Z.div_unique_pos; [|exact Hdec]; lia).
  pose proof (Z.mod_pos_bound sequence 64 ltac:(lia)). rewrite H64 in Hds.
  split_and!; [done | | | unfold parity; by rewrite Hdiv].
  - rewrite Hmod. symmetry. apply (Z.div_unique_pos _ 64 _ (sequence mod 64 + j)); lia.
  - rewrite Hmod. symmetry. apply (Z.mod_unique_pos _ 64 (sequence mod slots s / 64)); lia.
Qed.

Definition mark_all (qs : list Z) s : MultiProducerSequencer :=
  foldl (fun s q => mark_available q s) s qs.

(** One [fetch_xor] of [publish_range] publishes the chunk's sequences. *)
Lemma fetch_xor_marks s sequence j :
  mp_wf s -> legacy s = false -> (Z.of_nat j <= 64 - sequence mod 64) ->
  mark_all (seqZ sequence (Z.of_nat j)) s =
  fetch_xor (sequence mod slots s / 64) (range_mask (sequence mod 64) (Z.of_nat j)) s.
Proof.
  intros Hwf Hl. pose proof (Z.mod_pos_bound sequence 64 ltac:(lia)).
  induction j as [|j IH]; intros Hj.
  - change (Z.of_nat 0) with 0. rewrite seqZ_nil by lia. unfold mark_all; cbn [foldl].
    assert (range_mask (sequence mod 64) 0 = 0) as ->; [|by rewrite fetch_xor_0].
    unfold range_mask. cbn [Z.leb]. change (64 <=? 0) with false. cbn.
    change (Z.shiftl 1 0 - 1) with 0. by rewrite Z.shiftl_0_l.
  - rewrite seqZ_S. unfold mark_all. rewrite foldl_app. fold (mark_all (seqZ sequence (Z.of_nat j)) s).
    rewrite IH by lia. cbn [foldl].
    destruct (chunk_member s sequence (Z.of_nat j) Hwf Hl ltac:(lia)) as (_ & Hw & Hbit & _).
    set (m := range_mask (sequence mod 64) (Z.of_nat j)).
    destruct (fetch_xor_indices (sequence mod slots s / 64) m s (sequence + Z.of_nat j)) as (Hi & Hl' & Hlen).
    unfold mark_available. rewrite Hl', Hl. unfold publish_bitmap. rewrite Hi, Hlen, indices_div by done.
    pose proof (word_in_range s sequence Hwf Hl). rewrite Hw.
    destruct (Z.ltb_spec (sequence mod slots s / 64) (bitmap_len s)); [|lia].
    rewrite fetch_xor_twice. f_equal. rewrite Hbit. apply Z.bits_inj'. intros i Hi0.
    rewrite Z.lxor_spec. unfold m. rewrite !range_mask_bits by lia.
    rewrite as_u64_small.
    2:{ rewrite Z.shiftl_1_l. pose proof (Z.pow_le_mono_r 2 (sequence mod 64 + Z.of_nat j) 63).
        pose proof (Z.pow_pos_nonneg 2 (sequence mod 64 + Z.of_nat j)). change (2 ^ 63) with two63 in *. i64_lia. }
    rewrite Z.shiftl_1_l, Z.pow2_bits_eqb by lia.
    destruct (Z.eqb_spec (sequence mod 64 + Z.of_nat j) i); destruct (Z.leb_spec (sequence mod 64) i);
      destruct (Z.ltb_spec i (sequence mod 64 + Z.of_nat j));
      destruct (Z.ltb_spec i (sequence mod 64 + Z.of_nat (S j))); cbn; done || lia.
Qed.

Lemma publish_word_marks s sequence high :
  mp_wf s -> legacy s = false -> 0 <= sequence <= high -> high < i64_max ->
  publish_word s sequence high =
  (sequence + chunk_len sequence high, mark_all (seqZ sequence (chunk_len sequence high)) s).
Proof.
  intros Hwf Hl Hs Hh. unfold publish_word. rewrite word_chunk_eq by done.
  pose proof (word_in_range s sequence Hwf Hl). pose proof (chunk_len_pos sequence high ltac:(lia)).
  pose proof (Z.mod_pos_bound sequence 64).
  destruct (Z.ltb_spec (sequence mod slots s / 64) (bitmap_len s)); [|lia]. nowrap. f_equal.
  rewrite <- (Z2Nat.id (chunk_len sequence high)) by lia. by rewrite fetch_xor_marks by (done || lia).
Qed.

(** One load of the word-wise scan decides a whole chunk: it goes on past it
    when all of it is available, and otherwise stops just before the first
    sequence that is not. *)
Lemma scan_word_spec s sequence last :
  mp_wf s -> legacy s = false -> 0 <= sequence <= last -> last < i64_max ->
  match scan_word s sequence last with
  | inl n => n = sequence + chunk_len sequence last /\
             forall q, sequence <= q < n -> is_available_internal s q = true
  | inr r => sequence - 1 <= r < last /\ is_available_internal s (r + 1) = false /\
             forall q, sequence <= q <= r -> is_available_internal s q = true
  end.
Proof.
  intros Hwf Hl Hs Hlast. unfold scan_word. rewrite word_chunk_eq by done.
  pose proof (word_in_range s sequence Hwf Hl) as Hw.
  destruct (chunk_len_pos sequence last ltac:(lia)) as [Hc Hc'].
  set (c := chunk_len sequence last) in *. pose proof (Z.mod_pos_bound sequence 64 ltac:(lia)) as Hm.
  destruct (Z.leb_spec (bitmap_len s) (sequence mod slots s / 64)); [lia|].
  rewrite round_flag_parity by done. unfold availability_at.
  set (word := mp_available_bitmap s !!! _).
  set (mism := Z.land _ _).
  assert (Hbit : forall j, 0 <= j < c ->
            Z.testbit mism (sequence mod 64 + j) = negb (is_available_internal s (sequence + j))).
  { intros j Hj. destruct (chunk_member s sequence j Hwf Hl ltac:(lia)) as (_ & Hwj & Hbj & Hpj).
    rewrite is_available_slot by done. unfold slot_value. rewrite Hl. unfold bit_at. rewrite Hwj, Hbj, Hpj.
    fold word. unfold mism. rewrite Z.land_spec, Z.lxor_spec, range_mask_bits by lia.
    destruct (Z.leb_spec (sequence mod 64) (sequence mod 64 + j)); [|lia].
    destruct (Z.ltb_spec (sequence mod 64 + j) (sequence mod 64 + c)); [|lia]. cbn [andb].
    rewrite andb_true_r. destruct (parity_cases s sequence) as [-> | ->].
    - cbn. rewrite Z.testbit_0_l, xorb_false_r. by destruct (Z.testbit word _).
    - cbn. change u64_ones with (Z.ones 64). rewrite Z.ones_spec_low, xorb_true_r by lia.
      by destruct (Z.testbit word _). }
  destruct (Z.eqb_spec mism 0) as [Hz|Hnz]; cbn [negb].
  - nowrap. split; [done|]. intros q Hq. specialize (Hbit (q - sequence) ltac:(lia)).
    rewrite Hz, Z.testbit_0_l in Hbit. replace (sequence + (q - sequence)) with q in Hbit by lia.
    by destruct (is_available_internal s q).
  - assert (Hpos : 0 < mism).
    { assert (0 <= mism); [|lia]. apply Z.land_nonneg. right. unfold range_mask.
      destruct (64 <=? c); [i64_lia|]. apply Z.mod_pos_bound. i64_lia. }
    destruct (trailing_zeros_spec mism Hpos) as (Ht0 & Ht1 & Hlow). set (t := trailing_zeros mism) in *.
    assert (Hin : sequence mod 64 <= t < sequence mod 64 + c).
    { unfold mism in Ht1. rewrite Z.land_spec, range_mask_bits in Ht1 by lia.
      apply andb_true_iff in Ht1 as [_ Ht1]. apply andb_true_iff in Ht1 as [H1 H2].
      apply Z.leb_le in H1. apply Z.ltb_lt in H2. done. }
    nowrap. split_and!; [lia | lia | |].
    + replace (sequence + (t - sequence mod 64) - 1 + 1) with (sequence + (t - sequence mod 64)) by lia.
      specialize (Hbit (t - sequence mod 64) ltac:(lia)).
      replace (sequence mod 64 + (t - sequence mod 64)) with t in Hbit by lia. rewrite Ht1 in Hbit.
      by destruct (is_available_internal s _).
    + intros q Hq. specialize (Hbit (q - sequence) ltac:(lia)). rewrite Hlow in Hbit by lia.
      replace (sequence + (q - sequence)) with q in Hbit by lia. by destruct (is_available_internal s q).
Qed.

(** ** Reading: the scan for the highest published sequence *)

(** The reference: walk up from [next] while sequences are available, at most
    [n] of them. *)
Fixpoint contiguous (available : Z -> bool) (next : Z) (n : nat) : Z :=
  match n with
  | O => next - 1
  | S n' => if available next then contiguous available (next + 1) n' else next - 1
  end.

Lemma contiguous_bounds f next n : next - 1 <= contiguous f next n <= next - 1 + Z.of_nat n.
Proof.
  revert next. induction n as [|n IH]; intros next; cbn [contiguous]; [lia|].
  case_match; [|lia]. specialize (IH (next + 1)). lia.
Qed.

Lemma contiguous_prefix f next n q : next <= q <= contiguous f next n -> f q = true.
Proof.
  revert next. induction n as [|n IH]; intros next Hq; cbn [contiguous] in Hq; [lia|].
  destruct (f next) eqn:Hf; [|lia]. destruct (Z.eq_dec q next) as [->|]; [done|]. apply (IH (next + 1)). lia.
Qed.

Lemma contiguous_stop f next n :
  contiguous f next n < next - 1 + Z.of_nat n -> f (contiguous f next n + 1) = false.
Proof.
  revert next. induction n as [|n IH]; intros next Hq; cbn [contiguous] in *; [lia|].
  destruct (f next) eqn:Hf; [apply IH; lia|]. by replace (next - 1 + 1) with next by lia.
Qed.

(** The prefix and the stop determine the result. *)
Lemma contiguous_unique f next n r :
  next - 1 <= r <= next - 1 + Z.of_nat n ->
  (forall q, next <= q <= r -> f q = true) ->
  (r < next - 1 + Z.of_nat n -> f (r + 1) = false) ->
  r = contiguous f next n.
Proof.
  intros Hr Hp Hs. pose proof (contiguous_bounds f next n) as Hb.
  destruct (Z.lt_trichotomy r (contiguous f next n)) as [Hlt|[|Hgt]]; [|done|].
  - specialize (Hs ltac:(lia)). rewrite (contiguous_prefix f next n) in Hs by lia. done.
  - pose proof (contiguous_stop f next n ltac:(lia)) as Hst. rewrite Hp in Hst by lia. done.
Qed.

(** What may happen to the availability store while a consumer scans
    [[lo, hi]]: its shape stays and what is available stays available (no
    producer can lap a consumer that has not advanced). *)
Definition same_shape s s' : Prop :=
  (mp_wf s -> mp_wf s') /\ slots s' = slots s /\ legacy s' = legacy s.

Definition scan_rely {T} (lo hi : Z) (w w' : World T) : Prop :=
  same_shape (w_multi w) (w_multi w') /\
  forall q, lo <= q <= hi ->
    is_available_internal (w_multi w) q = true -> is_available_internal (w_multi w') q = true.

Section Scan.
Context {T : Type} (e : env (World T)) (lo hi : Z) (P : World T -> Prop).
Context (He : forall k w, P w -> P (e k w) /\ scan_rely lo hi w (e k w)).
Context (Hlo : 0 <= lo) (Hhi : hi < i64_max).

(** One iteration of either scan, on the state it loads from. *)
Lemma scan_step (w : World T) q :
  mp_wf (w_multi w) -> lo <= q <= hi ->
  match (if legacy (w_multi w) then scan_slot (w_multi w) q else scan_word (w_multi w) q hi) with
  | inl n => q < n <= hi + 1 /\ forall x, q <= x < n -> is_available_internal (w_multi w) x = true
  | inr r => q - 1 <= r < hi /\ is_available_internal (w_multi w) (r + 1) = false /\
             forall x, q <= x <= r -> is_available_internal (w_multi w) x = true
  end.
Proof.
  intros Hwf Hq. destruct (legacy (w_multi w)) eqn:Hl.
  - unfold scan_slot. nowrap. destruct (is_available_internal (w_multi w) q) eqn:Ha; cbn [negb].
    + split; [lia|]. intros x Hx. by replace x with q by lia.
    + replace (q - 1 + 1) with q by lia. split_and!; [lia | lia | done | lia].
  - pose proof (scan_word_spec (w_multi w) q hi Hwf Hl ltac:(lia) Hhi) as H.
    pose proof (chunk_len_pos q hi ltac:(lia)). case_match; [|done]. destruct H as [-> H]. split; [lia | done].
Qed.

(** The scan against any such environment: it returns, its result covers only
    available sequences, and the sequence after it was seen unavailable. *)
Definition scan_inv (next q : Z) (w : World T) : Prop :=
  P w /\ mp_wf (w_multi w) /\ lo <= next <= q /\ q <= hi + 1 /\
  forall x, next <= x < q -> is_available_internal (w_multi w) x = true.

Definition scan_post (next r : Z) (w : World T) : Prop :=
  P w /\ mp_wf (w_multi w) /\ next - 1 <= r <= hi /\
  (forall x, next <= x <= r -> is_available_internal (w_multi w) x = true) /\
  (r < hi -> is_available_internal (w_multi w) (r + 1) = false).

Lemma scan_load (next q : Z) (b : bool) k (w : World T) :
  scan_inv next q w -> q <= hi -> legacy (w_multi w) = b ->
  twp e (load (fun w => if b then scan_slot (w_multi w) q else scan_word (w_multi w) q hi))
    (fun r _ w' => match r with
                   | inl n => q < n /\ scan_inv next n w' /\ legacy (w_multi w') = b
                   | inr r => scan_post next r w'
                   end) k w.
Proof.
  intros (HP & Hwf & Hn & Hq & Hall) Hle <-. apply twp_load.
  destruct (He k w HP) as [HP' [(Hwf' & _ & Hl') Hst]]. specialize (Hwf' Hwf). rewrite <- Hl'.
  pose proof (scan_step (e k w) q Hwf' ltac:(lia)) as H. rewrite Hl' in *.
  assert (Hold : forall x, next <= x < q -> is_available_internal (w_multi (e k w)) x = true)
    by (intros x Hx; apply Hst; [lia | by apply Hall]).
  case_match.
  - destruct H as [H1 H2]. split_and!; [lia | split_and!; [done | done | lia | lia | lia |] | done].
    intros x Hx. destruct (Z.lt_ge_cases x q); [apply Hold | apply H2]; lia.
  - destruct H as (H1 & H2 & H3). split_and!; [done | done | lia | lia | | done].
    intros x Hx. destruct (Z.lt_ge_cases x q); [apply Hold | apply H3]; lia.
Qed.

Lemma scan_done next q (w : World T) : scan_inv next q w -> hi < q -> scan_post next hi w.
Proof. intros (HP & Hwf & Hn & Hq & Hall) Hgt. split_and!; [done | done | lia | lia | | lia]. intros x Hx. apply Hall. lia. Qed.

Lemma check_index_ok {T'} (e' : env (World T')) q Q k w :
  mp_wf (w_multi w) -> Q tt k w -> twp e' (check_index q) Q k w.
Proof.
  intros Hwf HQ. unfold check_index. twp_steps. destruct (legacy (w_multi w)) eqn:Hl; [|done].
  pose proof (index_in_range _ q Hwf Hl). rewrite index_mod by done.
  destruct (Z.leb_spec (Z.of_nat (length (mp_available_buffer (w_multi w)))) (q mod slots (w_multi w))); [lia|]. done.
Qed.

Lemma scan_total fuel next k (w : World T) :
  P w -> mp_wf (w_multi w) -> lo <= next <= hi + 1 -> (Z.to_nat (hi + 1 - next) < fuel)%nat ->
  twp e (get_highest_published_sequence fuel next hi) (fun r _ w' => scan_post next r w') k w.
Proof.
  intros HP Hwf Hn Hf. unfold get_highest_published_sequence. twp_steps.
  assert (Hi0 : scan_inv next next w) by (split_and!; [done | done | lia | lia | lia | intros; lia]).
  destruct (legacy (w_multi w)) eqn:Hl.
  - eapply (twp_loop_measure e (fun q _ => Z.to_nat (hi + 1 - q)) _
              (fun q _ w' => scan_inv next q w' /\ legacy (w_multi w') = true)); [|done|done].
    intros q w' k' [HI Hl']. destruct (Z.leb_spec q hi); [|twp_steps; by eapply scan_done].
    twp_steps. apply check_index_ok; [apply HI|].
    eapply twp_mono; [by apply (scan_load next q true)|]. intros [x'|a] k'' w''; [|done].
    intros (? & ? & ?). split; [lia | done].
  - unfold get_highest_published_sequence_bitmap. destruct (Z.ltb_spec hi next).
    { twp_steps. eapply scan_done; [done | lia]. }
    eapply (twp_loop_measure e (fun q _ => Z.to_nat (hi + 1 - q)) _
              (fun q _ w' => scan_inv next q w' /\ legacy (w_multi w') = false)); [|done|done].
    intros q w' k' [HI Hl']. destruct (Z.leb_spec q hi); [|twp_steps; by eapply scan_done].
    eapply twp_mono; [by apply (scan_load next q false)|]. intros [x'|a] k'' w''; [|done].
    intros (? & ? & ?). split; [lia | done].
Qed.

End Scan.

(** C25: [get_highest_published_sequence] under interference: against every
    environment in which producers only add published sequences, the scan
    returns, every sequence up to its result is published, and the result is
    the end of the contiguous published prefix at the moment of its last
    load. *)
Theorem highest_published_contiguous {T} (e : env (World T)) fuel next available k (w : World T) :
  mp_wf (w_multi w) -> respects (scan_rely next available) e ->
  0 <= next <= available + 1 -> available < i64_max ->
  (Z.to_nat (available + 1 - next) < fuel)%nat ->
  exists k' w',
    get_highest_published_sequence fuel next available e k w =
      Done (contiguous (is_available_internal (w_multi w')) next (Z.to_nat (available + 1 - next))) k' w'.
Proof.
  intros Hwf He Hn Ha Hf.
  pose proof (scan_total e next available (fun _ => True) (fun k w _ => conj I (He k w)) ltac:(lia) Ha fuel next k w I Hwf ltac:(lia) Hf) as H.
  unfold twp in H. destruct (get_highest_published_sequence fuel next available e k w) as [r k' w'| |]; try done.
  exists k', w'. f_equal. destruct H as (_ & _ & Hb & Hp & Hs).
  apply contiguous_unique; [lia | done |]. intros. apply Hs. lia.
Qed.

(** ** Writing: [publish_range] *)

(** What the other threads may do to the store while [[low, high]] is being
    published: anything that keeps its shape and the slots of that range. *)
Definition publish_rely {T} (low high : Z) (w w' : World T) : Prop :=
  same_shape (w_multi w) (w_multi w') /\ mp_needs_signal (w_multi w') = mp_needs_signal (w_multi w) /\
  forall q, low <= q <= high -> slot_value (w_multi w') q = slot_value (w_multi w) q.

Lemma slot_value_mark_all s qs x :
  mp_wf s -> (forall q, q ∈ qs -> x mod slots s <> q mod slots s) ->
  slot_value (mark_all qs s) x = slot_value s x.
Proof.
  revert s. induction qs as [|q qs IH]; intros s Hwf Hn; [done|]. cbn.
  change (slot_value (mark_all qs (mark_available q s)) x = slot_value s x).
  rewrite IH.
  - rewrite slot_value_mark by done. specialize (Hn q ltac:(set_solver)). by destruct (Z.eqb_spec (x mod slots s) (q mod slots s)).
  - by apply mark_wf.
  - intros q' Hq'. rewrite (proj1 (mark_same s q)). apply Hn. set_solver.
Qed.

Lemma mark_all_shape s qs : mp_wf s ->
  mp_wf (mark_all qs s) /\ slots (mark_all qs s) = slots s /\ legacy (mark_all qs s) = legacy s.
Proof.
  revert s. induction qs as [|q qs IH]; intros s Hwf; [done|].
  destruct (mark_same s q) as [Hs Hl]. destruct (IH (mark_available q s) (mark_wf s q Hwf)) as (? & ? & ?).
  unfold mark_all in *. cbn. split_and!; [done | congruence | congruence].
Qed.

Lemma mark_all_app s qs qs' : mark_all (qs ++ qs') s = mark_all qs' (mark_all qs s).
Proof. apply foldl_app. Qed.

Lemma unpublished_shape s s' q : slots s' = slots s -> legacy s' = legacy s -> unpublished_value s' q = unpublished_value s q.
Proof. intros Hs Hl. unfold unpublished_value, parity. by rewrite Hs, Hl. Qed.

Lemma available_shape s s' q :
  mp_wf s -> mp_wf s' -> slots s' = slots s -> slot_value s' q = slot_value s q ->
  is_available_internal s' q = is_available_internal s q.
Proof. intros. rewrite !is_available_slot by done. unfold parity. congruence. Qed.

(** Publishing distinct sequences of one lap makes them available. *)
Lemma mark_all_available s low n q :
  mp_wf s -> low <= q < low + Z.of_nat n -> Z.of_nat n <= slots s ->
  slot_value s q = unpublished_value s q ->
  is_available_internal (mark_all (seqZ low (Z.of_nat n)) s) q = true.
Proof.
  intros Hwf. induction n as [|n IH]; intros Hq Hn Hu; [lia|].
  rewrite seqZ_S, mark_all_app. set (t := mark_all _ s) in *.
  destruct (mark_all_shape s (seqZ low (Z.of_nat n)) Hwf) as (Hwt & Hst & Hlt). fold t in Hwt, Hst, Hlt.
  cbn [mark_all foldl]. unfold mark_all. cbn [foldl].
  rewrite is_available_slot, slot_value_mark, parity_mark by (done || by apply mark_wf). rewrite Hst.
  destruct (Z.eq_dec q (low + Z.of_nat n)) as [->|Hne].
  - rewrite Z.eqb_refl. apply Z.eqb_eq. destruct (legacy t) eqn:Hl; [done|].
    unfold t. rewrite slot_value_mark_all.
    + rewrite Hu. unfold unpublished_value. rewrite <- Hlt. cbn. unfold parity. rewrite <- Hst. fold t. lia.
    + done.
    + intros q' Hq'. apply elem_of_seqZ in Hq'. intros He.
      assert (low + Z.of_nat n = q'); [|lia]. eapply (mod_window_inj (slots s)); eauto; lia.
  - destruct (Z.eqb_spec (q mod slots s) ((low + Z.of_nat n) mod slots s)) as [He|].
    + exfalso. apply Hne. eapply (mod_window_inj (slots s)); eauto; lia.
    + rewrite <- is_available_slot by done. apply IH; [lia | lia | done].
Qed.

Section PublishRange.
Context {T : Type} (e : env (World T)) (low high : Z).
Context (He : respects (publish_rely low high) e) (Hlow : 0 <= low) (Hhigh : high < i64_max).

(** Half-way through the range: published below [q], untouched from [q] on. *)
Definition pub_inv (q : Z) (w : World T) : Prop :=
  let s := w_multi w in
  mp_wf s /\ high - low < slots s /\ low <= q <= high + 1 /\
  (forall x, low <= x < q -> is_available_internal s x = true) /\
  (forall x, q <= x <= high -> slot_value s x = unpublished_value s x).

Lemma pub_inv_env q k w : pub_inv q w -> pub_inv q (e k w).
Proof.
  intros (Hwf & Hlen & Hq & Hp & Hu). destruct (He k w) as [(Hwf' & Hs & Hl) [_ Hv]]. specialize (Hwf' Hwf).
  unfold pub_inv. rewrite Hs. split_and!; [done | lia | lia | lia | |]; intros x Hx.
  - erewrite available_shape; [apply Hp; lia | done | done | done | apply Hv; lia].
  - rewrite Hv by lia. rewrite (Hu x Hx). symmetry. by apply unpublished_shape.
Qed.

(** The marking of a whole chunk moves the invariant. *)
Lemma pub_inv_chunk q c w :
  pub_inv q w -> 0 <= c -> q + c <= high + 1 ->
  pub_inv (q + c) (upd_multi (fun s => mark_all (seqZ q c) s) w).
Proof.
  intros (Hwf & Hlen & Hq & Hp & Hu) Hc Hle. unfold pub_inv. cbn.
  destruct (mark_all_shape (w_multi w) (seqZ q c) Hwf) as (Hwf' & Hs & Hl).
  assert (Hfar : forall x, low <= x <= high -> ~ q <= x < q + c ->
            slot_value (mark_all (seqZ q c) (w_multi w)) x = slot_value (w_multi w) x).
  { intros x Hx Hn. apply slot_value_mark_all; [done|]. intros q' Hq'%elem_of_seqZ Heq.
    apply mod_window_inj in Heq; lia. }
  split_and!; [done | lia | lia | lia | |]; intros x Hx.
  - destruct (Z.lt_ge_cases x q).
    + erewrite available_shape; [apply Hp; lia | done | done | done | apply Hfar; lia].
    + rewrite <- (Z2Nat.id c) by lia. apply mark_all_available; [done | lia | lia | apply Hu; lia].
  - rewrite Hfar by lia. rewrite (unpublished_shape (w_multi w)) by done. apply Hu. lia.
Qed.

Lemma legacy_env b k w : legacy (w_multi w) = b -> legacy (w_multi (e k w)) = b.
Proof. intros <-. by destruct (He k w) as [(_ & _ & ->) _]. Qed.

Lemma publish_word_step q k (w : World T) :
  pub_inv q w -> q <= high -> legacy (w_multi w) = false ->
  twp e (atomic (fun w => let '(next, s') := publish_word (w_multi w) q high in
                          (inl next, upd_multi (fun _ => s') w)))
    (fun r _ w' => match r with
                   | inl n => q < n /\ pub_inv n w' /\ legacy (w_multi w') = false
                   | inr tt => False
                   end) k w.
Proof.
  intros HI Hle Hl. apply twp_atomic. apply (pub_inv_env q k) in HI. apply (legacy_env false k) in Hl.
  pose proof (proj1 HI) as Hwf. pose proof HI as (_ & _ & Hq & _).
  rewrite publish_word_marks by (done || lia). cbn [fst snd].
  pose proof (chunk_len_pos q high Hle). split_and!; [lia | apply (pub_inv_chunk q); [done | lia | lia] |].
  cbn. rewrite <- Hl. apply (mark_all_shape _ _ Hwf).
Qed.

Lemma set_available_step q k (w : World T) :
  pub_inv q w -> q <= high -> twp e (set_available q) (fun _ _ w' => pub_inv (q + 1) w') k w.
Proof.
  intros HI Hle. unfold set_available. twp_step. apply check_index_ok; [apply HI|]. apply twp_store.
  apply (pub_inv_env q k) in HI.
  apply (pub_inv_chunk q 1) in HI; [|lia|pose proof HI as (_&_&?&_); lia]. done.
Qed.

Lemma publish_all fuel k (w : World T) :
  pub_inv low w -> low <= high -> (Z.to_nat (high + 1 - low) < fuel)%nat ->
  twp e (if legacy (w_multi w) then for_each (seqZ low (high - low + 1)) set_available
         else loop fuel (fun sequence =>
           if sequence <=? high then
             atomic (fun w => let '(next, s') := publish_word (w_multi w) sequence high in
                              (inl next, upd_multi (fun _ => s') w))
           else ret (inr tt)) low)
    (fun _ _ w' => pub_inv (high + 1) w') k w.
Proof.
  intros HI Hle Hf. destruct (legacy (w_multi w)) eqn:Hl.
  - eapply twp_mono.
    + apply (twp_for_each e (fun l _ w' => exists q, l = seqZ q (high + 1 - q) /\ pub_inv q w')).
      * intros x l w' k' (q & Hq & HI'). pose proof HI' as (_ & _ & Hb & _).
        destruct (Z.eq_dec q (high + 1)) as [->|]; [rewrite Z.sub_diag in Hq; done|].
        rewrite seqZ_cons in Hq by lia. injection Hq as -> ->.
        eapply twp_mono; [apply set_available_step; [done | lia]|]. intros [] k'' w'' HI''.
        exists (q + 1). split; [f_equal; lia | done].
      * exists low. split; [f_equal; lia | done].
    + intros [] k' w' (q & Hq & HI'). pose proof HI' as (_ & _ & Hb & _).
      destruct (Z.eq_dec q (high + 1)) as [->|]; [done|]. rewrite seqZ_cons in Hq by lia. done.
  - eapply (twp_loop_measure e (fun q _ => Z.to_nat (high + 1 - q)) _
              (fun q _ w' => pub_inv q w' /\ legacy (w_multi w') = false)); [|done|done].
    intros q w' k' [HI' Hl']. pose proof HI' as (_ & _ & Hb & _).
    destruct (Z.leb_spec q high).
    + eapply twp_mono; [by apply publish_word_step|]. intros [n|[]] k'' w'' Hr; [|done].
      destruct Hr as (? & ? & ?). split; [lia | done].
    + apply twp_ret. by replace (high + 1) with q by lia.
Qed.

Lemma signal_step q k (w : World T) : pub_inv q w -> twp e signal (fun _ _ w' => pub_inv q w') k w.
Proof.
  intros HI. unfold signal. twp_steps. destruct (mp_needs_signal _); [|done].
  destruct (mp_wait_strategy _); try done. apply twp_store. by apply (pub_inv_env q k) in HI.
Qed.

End PublishRange.

Lemma twp_publish_range {T} (e : env (World T)) fuel low high k (w : World T) :
  mp_wf (w_multi w) -> respects (publish_rely low high) e ->
  0 <= low <= high -> high < i64_max -> high - low < slots (w_multi w) ->
  (forall q, low <= q <= high -> slot_value (w_multi w) q = unpublished_value (w_multi w) q) ->
  (Z.to_nat (high + 1 - low) < fuel)%nat ->
  twp e (publish_range fuel low high)
    (fun _ _ w' => forall q, low <= q <= high -> is_available_internal (w_multi w') q = true) k w.
Proof.
  intros Hwf He Hl Hh Hn Hu Hf.
  assert (HI : pub_inv low high low w) by (split_and!; [done | lia | lia | lia | intros; lia | done]).
  eapply (twp_mono e _ (fun _ _ w' => pub_inv low high (high + 1) w')); [|intros _ k' w' HI' q Hq; apply HI'; lia].
  unfold publish_range. destruct (Z.ltb_spec high low); [lia|]. twp_steps.
  eapply twp_mono; [apply publish_all; (done || lia)|]. intros [] k' w' HI'. by apply signal_step.
Qed.

Lemma twp_publish_one {T} (e : env (World T)) (s : Z) k (w : World T) :
  mp_wf (w_multi w) -> respects (publish_rely s s) e -> 0 <= s < i64_max ->
  slot_value (w_multi w) s = unpublished_value (w_multi w) s ->
  twp e (publish s) (fun _ _ w' => is_available_internal (w_multi w') s = true) k w.
Proof.
  intros Hwf He Hs Hu. pose proof (wf_slots _ Hwf).
  assert (HI : pub_inv s s s w) by (split_and!; [done | lia | lia | lia | intros; lia | by intros q Hq; replace q with s by lia]).
  unfold publish. apply twp_bind. eapply twp_mono; [apply (set_available_step e s s); (done || lia)|].
  intros [] k1 w1 H1. eapply twp_mono; [apply (signal_step e s s); (done || lia)|].
  intros _ k2 w2 (_ & _ & _ & Hp & _). apply Hp. lia.
Qed.

(** [publish_range] against every environment that keeps away from the range's
    slots (claimed ranges are disjoint): it returns, and from then on every
    sequence of the range is available, whichever of the word-wise and the
    slot-wise stores is in use. *)
Theorem publish_range_total {T} (e : env (World T)) fuel low high k (w : World T) :
  mp_wf (w_multi w) -> respects (publish_rely low high) e ->
  0 <= low <= high -> high < i64_max -> high - low < slots (w_multi w) ->
  (forall q, low <= q <= high -> slot_value (w_multi w) q = unpublished_value (w_multi w) q) ->
  (Z.to_nat (high + 1 - low) < fuel)%nat ->
  exists k' w', publish_range fuel low high e k w = Done tt k' w' /\
    forall q, low <= q <= high -> is_available_internal (w_multi w') q = true.
Proof.
  intros Hwf He Hl Hh Hn Hu Hf.
  pose proof (twp_publish_range e fuel low high k w Hwf He Hl Hh Hn Hu Hf) as H.
  unfold twp in H. destruct (publish_range fuel low high e k w) as [[] k' w'| |]; try done. by exists k', w'.
Qed.

(** The word-wise [publish_range], alone, leaves the store exactly as
    publishing the sequences one by one does. *)
Lemma publish_word_loop {T} fuel low high k (w : World T) :
  mp_wf (w_multi w) -> legacy (w_multi w) = false -> 0 <= low <= high + 1 -> high < i64_max ->
  (Z.to_nat (high + 1 - low) < fuel)%nat ->
  exists k', loop fuel (fun sequence =>
    if sequence <=? high then
      atomic (fun w => let '(next, s') := publish_word (w_multi w) sequence high in
                       (inl next, upd_multi (fun _ => s') w))
    else ret (inr tt)) low idle k w =
  Done tt k' (upd_multi (mark_all (seqZ low (high + 1 - low))) w).
Proof.
  revert low k w. induction fuel as [|fuel IH]; intros low k w Hwf Hl Hb Hh Hf; [lia|].
  cbn [loop]. unfold bind at 1. destruct (Z.leb_spec low high).
  - unfold atomic, idle. rewrite publish_word_marks by (done || lia). cbn [fst snd].
    pose proof (chunk_len_pos low high ltac:(lia)) as Hc. set (c := chunk_len low high) in *.
    destruct (mark_all_shape (w_multi w) (seqZ low c) Hwf) as (Hwf' & _ & Hl').
    edestruct (IH (low + c)) as [k' Hk']; [| | | | |exists k'; rewrite Hk'].
    + done. + cbn. congruence. + lia. + done. + lia.
    + f_equal. cbn. unfold upd_multi. cbn. f_equal. rewrite <- mark_all_app.
      rewrite <- seqZ_app by lia. do 2 f_equal. lia.
  - cbn. exists k. rewrite seqZ_nil by lia. by destruct w.
Qed.

Lemma set_available_idle {T} q k (w : World T) :
  mp_wf (w_multi w) -> set_available q idle k w = Done tt (S k) (upd_multi (mark_available q) w).
Proof.
  intros Hwf. assert (H : twp idle (set_available q) (fun _ k' w' => k' = S k /\ w' = upd_multi (mark_available q) w) k w).
  { unfold set_available. twp_step. apply check_index_ok; [done|]. by apply twp_store. }
  unfold twp in H. destruct (set_available q idle k w) as [[] ? ?| |]; try done. by destruct H as [-> ->].
Qed.

Lemma set_available_each {T} qs k (w : World T) :
  mp_wf (w_multi w) ->
  exists k', for_each qs set_available idle k w = Done tt k' (upd_multi (mark_all qs) w).
Proof.
  revert k w. induction qs as [|q qs IH]; intros k w Hwf; [exists k; by destruct w|].
  cbn [for_each]. unfold bind. rewrite set_available_idle by done.
  destruct (IH (S k) (upd_multi (mark_available q) w)) as [k' ->]; [by apply mark_wf|]. by exists k'.
Qed.

(** [publish_range] does to the store what publishing each sequence of the
    range in turn does, then signals once. *)
Lemma publish_range_each {T} fuel low high k (w : World T) :
  mp_wf (w_multi w) -> 0 <= low <= high -> high < i64_max ->
  (Z.to_nat (high + 1 - low) < fuel)%nat ->
  exists k' k'',
    for_each (seqZ low (high + 1 - low)) set_available idle k w =
      Done tt k' (upd_multi (mark_all (seqZ low (high + 1 - low))) w) /\
    publish_range fuel low high idle k w =
      signal idle k'' (upd_multi (mark_all (seqZ low (high + 1 - low))) w).
Proof.
  intros Hwf Hb Hh Hf. destruct (set_available_each (seqZ low (high + 1 - low)) k w Hwf) as [k' Hk'].
  unfold publish_range. destruct (Z.ltb_spec high low); [lia|].
  unfold bind at 1, read, silent. cbn [fst snd]. destruct (legacy (w_multi w)) eqn:Hl; unfold bind at 1.
  - replace (high - low + 1) with (high + 1 - low) by lia. exists k', k'. by rewrite Hk'.
  - destruct (publish_word_loop fuel low high k w Hwf Hl ltac:(lia) Hh Hf) as [k'' Hk''].
    exists k', k''. by rewrite Hk', Hk''.
Qed.

(** ** Construction *)

Lemma replicate_lookup_total {A} `{Inhabited A} (x : A) n i : (i < n)%nat -> replicate n x !!! i = x.
Proof. intros. by apply list_lookup_total_correct, lookup_replicate. Qed.

Lemma div_64_pow2 k : 64 <= 2 ^ k -> 0 <= k -> 2 ^ k / 64 * 64 = 2 ^ k /\ 1 <= 2 ^ k / 64.
Proof.
  intros H Hk. assert (6 <= k).
  { destruct (Z.le_gt_cases 6 k); [done|]. pose proof (Z.pow_lt_mono_r 2 k 6). change (2 ^ 6) with 64 in *. lia. }
  replace k with (k - 6 + 6) by lia. rewrite Z.pow_add_r by lia. change (2 ^ 6) with 64.
  rewrite Z.div_mul by lia. pose proof (Z.pow_pos_nonneg 2 (k - 6)). lia.
Qed.

(** [MultiProducerSequencer::new]: a size that is not a power of two panics; a
    valid one gives a well-formed store that represents the empty set, with the
    cursor at the initial value. *)
Lemma multi_new_spec {T} size ws c e k (w : World T) :
  0 <= size <= i64_max ->
  (is_power_of_two size = false /\ new size ws c e k w = Panicked "Buffer size must be a power of 2" k w) \/
  (is_power_of_two size = true /\ exists k' w', new size ws c e k w = Done tt k' w' /\
     seq_at w' c = INITIAL_CURSOR_VALUE /\ mp_cursor (w_multi w') = c /\
     slots (w_multi w') = size /\ mp_wf (w_multi w') /\ rep (w_multi w') 0 ∅).
Proof.
  intros Hsize. unfold new. destruct (is_power_of_two size) eqn:Hp; cbn [negb]; [right | by left].
  split; [done|]. apply is_power_of_two_spec in Hp as (b & Hb & Heq).
  assert (Hb62 : 0 <= b <= 62).
  { split; [done|]. destruct (Z.le_gt_cases b 62); [done|]. pose proof (Z.pow_le_mono_r 2 63 b).
    change (2 ^ 63) with two63 in *. i64_lia. }
  unfold i64_try_from. destruct (Z.leb_spec size i64_max); [|lia].
  eexists _, _. split; [reflexivity|]. cbn [w_multi upd_multi mp_cursor fst snd].
  assert (Hlen : Z.of_nat (length (if 64 <=? size then replicate (Z.to_nat (size / 64)) u64_ones else [])) =
                 if 64 <=? size then size / 64 else 0).
  { destruct (Z.leb_spec 64 size); [|done]. rewrite length_replicate. subst size.
    pose proof (div_64_pow2 b ltac:(lia) ltac:(lia)). lia. }
  split_and!; [apply seq_at_set_eq | done | done | |].
  - constructor; cbn; [| done | done |].
    + exists b. subst size. split_and!; [lia | lia | done | done | by apply trailing_zeros_pow2].
    + destruct (Z.ltb_spec size 64), (Z.leb_spec 64 size); try lia; [|done]. rewrite length_replicate. lia.
  - intros q Hq. cbn in Hq. rewrite bool_decide_eq_false_2 by set_solver.
    unfold slot_value, unpublished_value, parity, legacy, bitmap_len, slots. cbn [mp_available_bitmap mp_available_buffer mp_buffer_size_i64 w_multi upd_multi fst snd].
    rewrite Hlen. rewrite (Z.div_small q size), (Z.mod_small q size) by lia. destruct (Z.leb_spec 64 size) as [Hge|Hlt].
    + pose proof (div_64_pow2 b). subst size. destruct (Z.eqb_spec (2 ^ b / 64) 0); [lia|]. cbn [andb].
      unfold bit_at. cbn [mp_available_bitmap].
      assert (0 <= q / 64 < 2 ^ b / 64) by (split; [apply Z.div_pos; lia | apply Z.div_lt_upper_bound; lia]).
      rewrite replicate_lookup_total by lia. change u64_ones with (Z.ones 64).
      pose proof (Z.mod_pos_bound q 64). rewrite Z.ones_spec_low by lia. done.
    + cbn. destruct (Z.ltb_spec size 64); [|lia]. destruct (Z.ltb_spec q size); [|lia].
      by rewrite replicate_lookup_total by lia.
Qed.
