(* ===== verification/MultiClaim.v ===== *)
(** * MultiClaim: claims of the multi-producer sequencer

    Producers race for the cursor with compare-and-swap.  Against every
    interference of the other producers and the consumers, a successful claim
    is one atomic step of the cursor over a range of free slots. *)
From S2P Require Import Prelude Effects Errors RingBuffer World Sequence Gating Multi.

Section MultiClaim.
Context {T : Type}.
Abbreviation W := (World T).
Implicit Types w : W.

Definition cursor_value w : Z := seq_at w (mp_cursor (w_multi w)).

(** The state the claim methods rely on: the cached gating value is a lower
    bound of every gating sequence, and the cursor is not one of them. *)
Record minv w : Prop := {
  minv_bsz : 1 <= mp_buffer_size_i64 (w_multi w) <= 4611686018427387904;
  minv_cursor : -1 <= cursor_value w;
  minv_cached : forall l, l ∈ mp_gating_sequences (w_multi w) ->
                  mp_cached_gating_sequence (w_multi w) <= seq_at w l;
  minv_gating : mp_cursor (w_multi w) ∉ mp_gating_sequences (w_multi w)
}.

(** What the other threads may do while one claims: other producers move the
    cursor forward and refresh the cached value with a lower bound, consumers
    move forward or leave the gating set, anyone raises or clears the terminal
    flags, publishes, signals.  The sequence space is not exhausted. *)
Record mclaim_rely (w w' : W) : Prop := {
  mr_bsz : mp_buffer_size_i64 (w_multi w') = mp_buffer_size_i64 (w_multi w);
  mr_cursor : mp_cursor (w_multi w') = mp_cursor (w_multi w);
  mr_gating : forall l, l ∈ mp_gating_sequences (w_multi w') -> l ∈ mp_gating_sequences (w_multi w);
  mr_mono : forall l, seq_at w l <= seq_at w' l;
  mr_inv : minv w -> minv w';
  mr_room : cursor_value w + mp_buffer_size_i64 (w_multi w) <= i64_max ->
            cursor_value w' + mp_buffer_size_i64 (w_multi w') <= i64_max
}.

#[global] Instance mclaim_rely_preorder : PreOrder mclaim_rely.
Proof.
  split.
  - intros w. by constructor.
  - intros w1 w2 w3 H1 H2. destruct H1, H2. constructor; eauto using Z.le_trans; congruence.
Qed.

(** The slots up to [sequence] are free: no gating consumer still has to read
    the event a lap below one of them. *)
Definition mclaim_free w (sequence : Z) : Prop :=
  forall l, l ∈ mp_gating_sequences (w_multi w) ->
    sequence - mp_buffer_size_i64 (w_multi w) <= seq_at w l.

Lemma mclaim_free_rely w w' s : mclaim_free w s -> mclaim_rely w w' -> mclaim_free w' s.
Proof. intros H [] l Hl. rewrite mr_bsz0. etrans; [by apply H, mr_gating0 | apply mr_mono0]. Qed.

Lemma minv_set_cached w m :
  minv w -> (forall l, l ∈ mp_gating_sequences (w_multi w) -> m <= seq_at w l) ->
  minv (upd_multi (mp_set_cached m) w).
Proof. intros [] ?. by constructor. Qed.

(** Our own refresh of the cached value is a move the others tolerate. *)
Lemma set_cached_rely w m :
  (forall l, l ∈ mp_gating_sequences (w_multi w) -> m <= seq_at w l) ->
  mclaim_rely w (upd_multi (mp_set_cached m) w).
Proof. intros Hm. constructor; try done. intros. by apply minv_set_cached. Qed.

(** The gating minimum over the sequences read at [w1] and scanned later. *)
Lemma wp_gating_scan guard minimum (Q : Z -> W -> Prop) w :
  (forall l, l ∈ mp_gating_sequences (w_multi w) -> l ∈ guard) ->
  (forall m w', mclaim_rely w w' -> m <= minimum ->
     (forall l, l ∈ mp_gating_sequences (w_multi w') -> m <= seq_at w' l) -> Q m w') ->
  wp mclaim_rely (Sequence.get_minimum_sequence_with_default guard minimum) Q w.
Proof.
  intros Hg HQ. unfold get_minimum_sequence_with_default.
  apply (wp_minimum_loop mclaim_rely _ guard);
    [reflexivity | intros x y z; apply transitivity | intros x y [] l _; done | done |].
  intros m w' HR Hm _ Hall. apply HQ; [done | done |]. intros l Hl. apply Hall, Hg, (mr_gating _ _ HR), Hl.
Qed.

(** A capacity check that says yes saw free slots. *)
Definition capacity_post (w : W) (next : Z) (ok : bool) (w' : W) : Prop :=
  mclaim_rely w w' /\ (ok = true -> mclaim_free w' next).

Lemma wp_claim_capacity current n w :
  minv w -> -1 <= current -> 1 <= n -> current + mp_buffer_size_i64 (w_multi w) <= i64_max ->
  n <= mp_buffer_size_i64 (w_multi w) ->
  wp mclaim_rely (claim_capacity current (current + n)) (capacity_post w (current + n)) w.
Proof.
  intros Hinv Hcur Hn Hroom Hb. pose proof (minv_bsz _ Hinv).
  unfold claim_capacity, buffer_size_i64, cached_gating_sequence, gating_sequences, set_cached_gating_sequence.
  wp_steps. rename s' into w1. assert (HR1 : mclaim_rely w w1) by done. nowrap.
  pose proof (mr_bsz _ _ HR1) as Hb1. pose proof (mr_inv _ _ HR1 Hinv) as Hi1.
  destruct (Z.ltb_spec (mp_cached_gating_sequence (w_multi w1)) (current + n - mp_buffer_size_i64 (w_multi w))) as [Hs|Hs];
    [|destruct (Z.ltb_spec current (mp_cached_gating_sequence (w_multi w1)))].
  3:{ cbn [orb]. wp_steps. split; [done|]. intros _ l Hl. pose proof (minv_cached _ Hi1 l Hl). lia. }
  all: cbn [orb]; wp_steps; apply wp_gating_scan; [done|]; intros m w3 HR3 Hm Hall;
    assert (HR : mclaim_rely w w3) by (etrans; [exact HR1|]; etrans; [|exact HR3]; done);
    destruct (Z.ltb_spec m (current + n - mp_buffer_size_i64 (w_multi w))); wp_steps; [by split|];
    (split; [etrans; [exact HR|]; etrans; [done|]; apply set_cached_rely |]); cbn.
  all: try (intros l Hl; etrans; [apply Hall, (mr_gating _ _ ltac:(done)), Hl | by apply (mr_mono w3)]).
  all: intros _ l Hl; cbn in *; assert (HRx : mclaim_rely w3 s'0) by done.
  all: rewrite (mr_bsz _ _ HRx), (mr_bsz _ _ HR); pose proof (Hall l (mr_gating _ _ HRx l Hl));
    pose proof (mr_mono _ _ HRx l); unfold seq_at in *; cbn; lia.
Qed.

Lemma wp_has_available_capacity current n w :
  minv w -> -1 <= current -> 0 <= n -> current + mp_buffer_size_i64 (w_multi w) <= i64_max ->
  n <= mp_buffer_size_i64 (w_multi w) ->
  forall guard, (forall l, l ∈ mp_gating_sequences (w_multi w) -> l ∈ guard) ->
  wp mclaim_rely (has_available_capacity_internal guard n current) (capacity_post w (current + n)) w.
Proof.
  intros Hinv Hcur Hn Hroom Hb guard Hg. pose proof (minv_bsz _ Hinv).
  unfold has_available_capacity_internal, i64_try_from. destruct (Z.leb_spec n i64_max); [|i64_lia].
  unfold buffer_size_i64, cached_gating_sequence, set_cached_gating_sequence.
  wp_steps. rename s' into w1. assert (HR1 : mclaim_rely w w1) by done. nowrap.
  pose proof (mr_bsz _ _ HR1) as Hb1. pose proof (mr_inv _ _ HR1 Hinv) as Hi1.
  assert (Hg1 : forall l, l ∈ mp_gating_sequences (w_multi w1) -> l ∈ guard)
    by (intros l Hl; apply Hg, (mr_gating _ _ HR1), Hl).
  destruct (_ || _) eqn:Hor.
  - wp_steps. apply wp_gating_scan; [done|]. intros m w3 HR3 Hm Hall. wp_steps.
    rename s' into w4. assert (HR4 : mclaim_rely w3 w4) by done.
    assert (HR : mclaim_rely w w4) by (by do 2 (etrans; [done|])).
    assert (Hall4 : forall l, l ∈ mp_gating_sequences (w_multi w4) -> m <= seq_at w4 l).
    { intros l Hl. etrans; [by apply Hall, (mr_gating _ _ HR4) | apply (mr_mono _ _ HR4)]. }
    assert (HRc : mclaim_rely w (upd_multi (mp_set_cached m) w4)) by (etrans; [done | by apply set_cached_rely]).
    destruct (Z.ltb_spec m (current + n - mp_buffer_size_i64 (w_multi w))); wp_steps; (split; [done|]); [done|].
    intros _ l Hl. cbn. rewrite (mr_bsz _ _ HR). specialize (Hall4 l Hl). unfold seq_at in *. cbn. lia.
  - wp_steps. split; [done|]. intros _ l Hl. apply orb_false_iff in Hor as [Hw1 Hw2].
    apply Z.ltb_ge in Hw1. pose proof (minv_cached _ Hi1 l Hl). lia.
Qed.

(** The contract of a successful claim of [n] up to [next]: at one moment [w1]
    the cursor stood exactly at [next - n], it was moved to [next] there, and
    every slot of the range was free. *)
Definition mclaim_ok (w : W) (n next : Z) (w' : W) : Prop :=
  exists w1, mclaim_rely w w1 /\ cursor_value w1 = next - n /\
    w' = set_seq (mp_cursor (w_multi w1)) next w1 /\ mclaim_free w' next /\ minv w'.

Lemma mclaim_cas w w1 n current :
  minv w -> 1 <= n -> mclaim_rely w w1 -> mclaim_free w1 (current + n) ->
  cursor_value w1 = current ->
  mclaim_ok w n (current + n) (set_seq (mp_cursor (w_multi w1)) (current + n) w1).
Proof.
  intros Hinv Hn HR Hfree Hc. exists w1. pose proof (mr_inv _ _ HR Hinv) as Hi1.
  assert (Hne : forall l, l ∈ mp_gating_sequences (w_multi w1) ->
            seq_at (set_seq (mp_cursor (w_multi w1)) (current + n) w1) l = seq_at w1 l).
  { intros l Hl. apply seq_at_set_ne. intros <-. by apply (minv_gating _ Hi1). }
  split_and!; [done | lia | done | |].
  - intros l Hl. cbn in Hl |- *. rewrite Hne by done. by apply Hfree.
  - pose proof (minv_cursor _ Hi1). destruct Hi1. constructor; cbn; try done.
    + unfold cursor_value. cbn. rewrite seq_at_set_eq. lia.
    + intros l Hl. rewrite Hne by done. auto.
Qed.

(** The compare-and-swap that ends an attempt. *)
Lemma wp_claim_cas w w1 n current (Q : bool -> W -> Prop) :
  minv w -> 1 <= n -> mclaim_rely w w1 -> mclaim_free w1 (current + n) ->
  (forall w', mclaim_ok w n (current + n) w' -> Q true w') ->
  (forall w', mclaim_rely w w' -> Q false w') ->
  wp mclaim_rely (Sequence.compare_and_set (mp_cursor (w_multi w)) current (current + n)) Q w1.
Proof.
  intros Hinv Hn HR Hfree HT HF. apply wp_atomic. intros w2 HR2.
  assert (HR' : mclaim_rely w w2) by (by etrans).
  destruct (Z.eqb_spec (seq_at w2 (mp_cursor (w_multi w))) current) as [He|]; cbn [fst snd]; [|by apply HF].
  apply HT. rewrite <- (mr_cursor _ _ HR') in *. apply mclaim_cas; [done | done | done | | done].
  by eapply mclaim_free_rely.
Qed.

(** What a claim may return, and what each result means. *)
Definition mclaim_post (w : W) (n : Z) (r : result Z DisruptorError) (w' : W) : Prop :=
  if bool_decide (1 <= n <= mp_buffer_size_i64 (w_multi w)) then
    match r with
    | Ok next => mclaim_ok w n next w'
    | Err err => (err = Shutdown \/ err = Poisoned) /\ mclaim_rely w w'
    end
  else r = Err (InvalidSequence n) /\ w' = w.

(** One attempt: it claims, gives up for a terminal state, or is to be repeated. *)
Lemma wp_claim_attempt n w w0 :
  minv w -> cursor_value w + mp_buffer_size_i64 (w_multi w) <= i64_max ->
  1 <= n <= mp_buffer_size_i64 (w_multi w) -> mclaim_rely w w0 ->
  wp mclaim_rely (claim_attempt n tt)
    (fun r w' => match r with
                 | inl _ => mclaim_rely w w'
                 | inr (Ok next) => mclaim_ok w n next w'
                 | inr (Err err) => (err = Shutdown \/ err = Poisoned) /\ mclaim_rely w w'
                 end) w0.
Proof.
  intros Hinv Hroom Hn HR0. unfold claim_attempt. wp_step. wp_step. rename s' into w1. assert (HR1 : mclaim_rely w w1) by (by etrans).
  destruct (mp_closed _); [wp_steps; auto|]. wp_step. wp_step. rename s' into w2.
  assert (HR2 : mclaim_rely w w2) by (by etrans). destruct (mp_poisoned _); [wp_steps; auto|].
  unfold cursor, Sequence.get. wp_step. wp_step. wp_step. wp_step. rename s' into w3.
  assert (HR3 : mclaim_rely w w3) by (by etrans). rewrite (mr_cursor _ _ HR2).
  pose proof (mr_inv _ _ HR3 Hinv) as Hi3. pose proof (minv_bsz _ Hi3). pose proof (minv_cursor _ Hi3) as Hc3.
  pose proof (mr_room _ _ HR3 Hroom). pose proof (mr_bsz _ _ HR3) as Hb3.
  assert (Hcv : cursor_value w3 = seq_at w3 (mp_cursor (w_multi w))) by (unfold cursor_value; by rewrite (mr_cursor _ _ HR3)).
  rewrite Hcv in *. nowrap.
  wp_step. eapply wp_mono; [apply wp_claim_capacity; (done || lia)|].
  intros ok w4 [HR4 Hfree]. assert (HR : mclaim_rely w w4) by (by etrans).
  destruct ok; cbn [negb]; [|by wp_steps]. wp_step.
  apply (wp_claim_cas w w4); [done | lia | done | by apply Hfree | |]; intros w' Hw'; by wp_steps.
Qed.

Lemma wp_next_n fuel n w :
  minv w -> cursor_value w + mp_buffer_size_i64 (w_multi w) <= i64_max ->
  wp mclaim_rely (next_n fuel n) (mclaim_post w n) w.
Proof.
  intros Hinv Hroom. unfold next_n, buffer_size_i64, mclaim_post. wp_steps.
  destruct (Z.ltb_spec n 1); [cbn; wp_steps; by rewrite bool_decide_eq_false_2 by lia|].
  destruct (Z.ltb_spec (mp_buffer_size_i64 (w_multi w)) n);
    [cbn; wp_steps; by rewrite bool_decide_eq_false_2 by lia|].
  cbn [orb]. rewrite bool_decide_eq_true_2 by lia.
  apply (wp_loop mclaim_rely (fun _ w' => mclaim_rely w w')); [|done].
  intros [] w0 HR0. eapply wp_mono; [by apply (wp_claim_attempt n w)|]. by intros [[]|[next|err]] w'.
Qed.


(** [try_next_n]: one attempt of the same kind; [None] leaves the claims as
    they were. *)
Lemma multi_try_next_n_safe n w :
  minv w -> cursor_value w + mp_buffer_size_i64 (w_multi w) <= i64_max ->
  wp mclaim_rely (try_next_n n)
    (fun r w' => match r with
                 | Some next => 1 <= n <= mp_buffer_size_i64 (w_multi w) /\ mclaim_ok w n next w'
                 | None => mclaim_rely w w'
                 end) w.
Proof.
  intros Hinv Hroom. unfold try_next_n, buffer_size_i64. wp_steps.
  destruct (Z.ltb_spec n 1); [by cbn; wp_steps|].
  destruct (Z.ltb_spec (mp_buffer_size_i64 (w_multi w)) n); [by cbn; wp_steps|]. cbn [orb].
  wp_step. wp_step. rename s' into w1. assert (HR1 : mclaim_rely w w1) by done.
  destruct (mp_closed _); [by wp_steps|]. wp_step. wp_step. rename s' into w2.
  assert (HR2 : mclaim_rely w w2) by (by etrans). destruct (mp_poisoned _); [by wp_steps|].
  unfold cursor, Sequence.get, gating_sequences. wp_step. wp_step. wp_step. wp_step. rename s' into w3.
  assert (HR3 : mclaim_rely w w3) by (by etrans). rewrite (mr_cursor _ _ HR2).
  pose proof (mr_inv _ _ HR3 Hinv) as Hi3. pose proof (minv_bsz _ Hi3). pose proof (minv_cursor _ Hi3) as Hc3.
  pose proof (mr_room _ _ HR3 Hroom). pose proof (mr_bsz _ _ HR3) as Hb3.
  assert (Hcv : cursor_value w3 = seq_at w3 (mp_cursor (w_multi w))) by (unfold cursor_value; by rewrite (mr_cursor _ _ HR3)).
  rewrite Hcv in *. nowrap. unfold usize_try_from. destruct (Z.leb_spec 0 n); [|lia].
  wp_step. wp_step. rename s' into w4. assert (HR4 : mclaim_rely w w4) by (by etrans).
  pose proof (mr_bsz _ _ HR4). wp_step.
  eapply wp_mono; [apply wp_has_available_capacity; first [done | lia | by apply (mr_inv _ _ HR4)]|].
  intros ok w5 [HR5 Hfree]. assert (HR : mclaim_rely w w5) by (by etrans).
  destruct ok; cbn [negb]; [|by wp_steps]. wp_step.
  apply (wp_claim_cas w w5); [done | lia | done | by apply Hfree | |]; intros w' Hw'; by wp_steps.
Qed.

(** ** Progress *)

Section Progress.
Context (e : env W) (n : Z) (k0 : nat).

(** From action [k0] of the schedule on, a claimer of [n] meets no obstacle:
    the other producers leave the cursor alone and the consumers are within a
    lap of the claim. *)
Definition uncontended_from : Prop :=
  forall j w, (k0 <= j)%nat -> n <= mp_buffer_size_i64 (w_multi w) ->
    cursor_value (e j w) = cursor_value w /\ mclaim_free (e j w) (cursor_value (e j w) + n).

(** From action [k0] on the sequencer is closed, or it is poisoned. *)
Definition terminal_from : Prop :=
  (forall j w, (k0 <= j)%nat -> mp_closed (w_multi (e j w)) = true) \/
  (forall j w, (k0 <= j)%nat -> mp_poisoned (w_multi (e j w)) = true).

Context (He : respects mclaim_rely e).

(** What stays put while nobody contends. *)
Definition settled (c : loc) (B current : Z) w : Prop :=
  mp_cursor (w_multi w) = c /\ mp_buffer_size_i64 (w_multi w) = B /\ seq_at w c = current.

Lemma settled_env c B current k w :
  uncontended_from -> n <= B -> (k0 <= k)%nat -> settled c B current w ->
  settled c B current (e k w) /\ mclaim_free (e k w) (current + n).
Proof.
  intros Hu Hn Hk (Hc & Hb & Hv). pose proof (mr_cursor _ _ (He k w)) as Hc'. pose proof (mr_bsz _ _ (He k w)) as Hb'.
  destruct (Hu k w Hk ltac:(lia)) as [Hcv Hf]. unfold cursor_value in *. rewrite Hc', Hc, Hv in Hcv.
  split; [split_and!; congruence|]. by rewrite Hc', Hc, Hcv in Hf.
Qed.

Lemma ends_gating_scan c B current bound guard minimum k w :
  uncontended_from -> n <= B -> (k0 <= k)%nat -> settled c B current w -> bound <= minimum ->
  (forall l, l ∈ guard -> bound <= seq_at w l) ->
  ends e (Sequence.minimum_loop guard minimum)
    (fun m k' w' => (k <= k')%nat /\ bound <= m /\ settled c B current w') k w.
Proof.
  intros Hu Hn. revert minimum k w. induction guard as [|l guard IH]; intros minimum k w Hk Hs Hm Hall; [by apply ends_ret|].
  cbn [Sequence.minimum_loop]. apply ends_bind, ends_load.
  assert (Hmono : forall x, seq_at w x <= seq_at (e k w) x) by apply (mr_mono _ _ (He k w)).
  eapply ends_mono; [apply IH; [lia | by eapply settled_env | | ]|].
  - pose proof (Hall l ltac:(set_solver)). specialize (Hmono l). case_match; lia.
  - intros l' Hl'. etrans; [apply (Hall l'); set_solver | apply Hmono].
  - intros m k' w' (? & ? & ?). split_and!; [lia | done | done].
Qed.

(** Without obstacles the capacity check says yes. *)
Lemma ends_claim_capacity c B current k w :
  uncontended_from -> 1 <= n <= B -> B <= 4611686018427387904 -> -1 <= current -> current + B <= i64_max ->
  (k0 <= k)%nat -> settled c B current w ->
  ends e (claim_capacity current (current + n))
    (fun ok k' w' => (k <= k')%nat /\ ok = true /\ settled c B current w') k w.
Proof.
  intros Hu Hn HB Hcur Hroom Hk Hs. unfold claim_capacity, buffer_size_i64, cached_gating_sequence, gating_sequences,
    set_cached_gating_sequence, get_minimum_sequence_with_default.
  apply ends_bind, twp_ends, twp_read. replace (mp_buffer_size_i64 (w_multi w)) with B by (by symmetry; apply Hs).
  nowrap. apply ends_bind, ends_load. destruct (settled_env c B current k w) as [Hs1 _]; [done | lia | done | done|].
  destruct (_ || _); [|apply ends_ret; split_and!; [lia | done | done]].
  apply ends_bind, ends_load.
  destruct (settled_env c B current (S k) (e k w)) as [Hs2 Hf2]; [done | lia | lia | done|].
  apply ends_bind. eapply ends_mono; [apply (ends_gating_scan c B current (current + n - B)); [done | lia | lia | done | lia |]|].
  - intros l Hl. destruct Hs2 as (_ & HB2 & _). rewrite <- HB2. by apply Hf2.
  - intros m k3 w3 (Hk3 & Hm & Hs3). destruct (Z.ltb_spec m (current + n - B)); [lia|].
    apply ends_bind, twp_ends, twp_store, ends_ret. split_and!; [lia | done |].
    destruct (settled_env c B current k3 w3) as [(? & ? & ?) _]; [done | lia | lia | done|]. by split_and!.
Qed.

(** An attempt begun without obstacles, or in a terminal state, is the last. *)
Lemma ends_claim_attempt k w :
  uncontended_from \/ terminal_from -> minv w -> cursor_value w + mp_buffer_size_i64 (w_multi w) <= i64_max ->
  1 <= n <= mp_buffer_size_i64 (w_multi w) ->
  ends e (claim_attempt n tt)
    (fun r k' _ => match r with inl _ => (k < k')%nat /\ (k < k0)%nat | inr _ => True end) k w.
Proof.
  intros Hprog Hinv Hroom Hn. unfold claim_attempt. apply ends_bind, ends_load.
  destruct (mp_closed (w_multi (e k w))) eqn:Hcl; [done|].
  destruct (Nat.lt_ge_cases k k0) as [Hlt|Hge].
  { unfold cursor, claim_capacity, buffer_size_i64, cached_gating_sequence, gating_sequences,
      set_cached_gating_sequence, get_minimum_sequence_with_default, Sequence.get, Sequence.compare_and_set.
    lazymatch goal with |- ends _ ?m _ _ _ => assert (Hh : halts m) by halts; assert (Ha : advances m) by advances end.
    eapply ends_mono; [apply ends_advances; [exact Ha | apply Hh]|]. intros [[]|r] k' w' [Hk' _]; [lia | done]. }
  assert (Hu : uncontended_from \/ (forall j w, (k0 <= j)%nat -> mp_poisoned (w_multi (e j w)) = true)).
  { destruct Hprog as [?|[Hc|?]]; [by left | by rewrite Hc in Hcl by done | by right]. }
  apply ends_bind, ends_load. destruct (mp_poisoned _) eqn:Hpo; [done|].
  destruct Hu as [Hu|Hp]; [|by rewrite Hp in Hpo by lia].
  set (w2 := e (S k) (e k w)). assert (HR2 : mclaim_rely w w2) by (etrans; apply He).
  set (c := mp_cursor (w_multi w2)). set (B := mp_buffer_size_i64 (w_multi w2)).
  assert (HB : B = mp_buffer_size_i64 (w_multi w)) by apply (mr_bsz _ _ HR2).
  pose proof (minv_bsz _ Hinv). pose proof (minv_cursor _ (mr_inv _ _ HR2 Hinv)) as Hcur.
  pose proof (mr_room _ _ HR2 Hroom) as Hroom2. fold B in Hroom2.
  assert (Hs2 : settled c B (cursor_value w2) w2) by done.
  destruct (settled_env c B (cursor_value w2) (S (S k)) w2) as [Hs3 _]; [done | lia | lia | done|].
  unfold cursor, Sequence.get. apply ends_bind, twp_ends, twp_read. apply ends_bind, ends_load. fold c w2.
  replace (seq_at (e (S (S k)) w2) c) with (cursor_value w2) by (by symmetry; apply Hs3). nowrap.
  apply ends_bind. eapply ends_mono; [apply (ends_claim_capacity c B (cursor_value w2)); [done | lia | lia | lia | lia | lia | done]|].
  intros ok k4 w4 (Hk4 & -> & Hs4). cbn [negb].
  destruct (settled_env c B (cursor_value w2) k4 w4) as [(_ & _ & Hs5) _]; [done | lia | lia | done|].
  unfold Sequence.compare_and_set. apply ends_bind, twp_ends, twp_atomic. rewrite Hs5, Z.eqb_refl. done.
Qed.

(** C12: [next_n] of the multi-producer sequencer comes back: if from some action of
    the schedule on the other producers let the cursor rest and the consumers
    keep within a lap, or the sequencer is closed or poisoned, the claim
    returns, with what [mclaim_post] says. *)
Theorem multi_next_n_live w :
  minv w -> cursor_value w + mp_buffer_size_i64 (w_multi w) <= i64_max ->
  1 <= n <= mp_buffer_size_i64 (w_multi w) -> uncontended_from \/ terminal_from ->
  exists r k' w', next_n (S k0) n e 0%nat w = Done r k' w' /\ mclaim_post w n r w'.
Proof.
  intros Hinv Hroom Hn Hprog.
  apply (wp_ends mclaim_rely); [done | by apply wp_next_n |]. unfold next_n, buffer_size_i64.
  apply ends_bind, twp_ends, twp_read.
  destruct (Z.ltb_spec n 1); [lia|]. destruct (Z.ltb_spec (mp_buffer_size_i64 (w_multi w)) n); [lia|]. cbn [orb].
  apply (ends_loop e _ (fun _ _ w' => mclaim_rely w w') _ k0); [|done|lia]. intros [] w1 k HR.
  eapply ends_mono; [apply (ends_wp mclaim_rely); [done | by apply (wp_claim_attempt n w) |]|].
  - apply ends_claim_attempt; [done | by apply (mr_inv _ _ HR) | by apply (mr_room _ _ HR) | by rewrite (mr_bsz _ _ HR)].
  - intros [[]|r] k' w' [Hk HR']; [|done]. split_and!; [lia | lia | done].
Qed.

End Progress.

End MultiClaim.
