(* ===== verification/Sequencer.v ===== *)
(** * Sequencer: the interface both sequencers implement (disruptor/sequencer.rs)

    The [Sequencer] trait as a record of operations, its two implementations,
    the dispatch of [SequencerEnum], and what every holder of a sequencer may
    rely on whichever implementation is behind it: the terminal states
    (poisoned, closed) and the published view consumers read. *)
From S2P Require Import Prelude Effects Errors RingBuffer World Sequence Gating Single Multi Availability.


(** [trait Sequencer] *)
Record SequencerOps (T : Type) : Type := {
  get_cursor : M (World T) loc;
  get_buffer_size : M (World T) Z;
  next : nat -> M (World T) (result Z DisruptorError);
  next_n : nat -> Z -> M (World T) (result Z DisruptorError);
  try_next : M (World T) (option Z);
  try_next_n : Z -> M (World T) (option Z);
  publish : Z -> M (World T) unit;
  publish_range : nat -> Z -> Z -> M (World T) unit;
  is_available : Z -> M (World T) bool;
  get_highest_published_sequence : nat -> Z -> Z -> M (World T) Z;
  add_gating_sequences : list loc -> M (World T) unit;
  remove_gating_sequence : nat -> loc -> M (World T) bool;
  get_minimum_sequence : M (World T) Z;
  remaining_capacity : M (World T) Z;
  has_available_capacity : Z -> M (World T) bool;
  poison : M (World T) unit;
  is_poisoned : M (World T) bool;
  record_failure : FailureRecord -> M (World T) unit;
  first_failure : M (World T) (option FailureRecord);
  poison_with_failure : FailureRecord -> M (World T) unit;
  close : M (World T) unit;
  is_closed : M (World T) bool;
  reopen : M (World T) unit
}.
Arguments get_cursor {T} _.
Arguments get_buffer_size {T} _.
Arguments next {T} _ _.
Arguments next_n {T} _ _ _.
Arguments try_next {T} _.
Arguments try_next_n {T} _ _.
Arguments publish {T} _ _.
Arguments publish_range {T} _ _ _ _.
Arguments is_available {T} _ _.
Arguments get_highest_published_sequence {T} _ _ _ _.
Arguments add_gating_sequences {T} _ _.
Arguments remove_gating_sequence {T} _ _ _.
Arguments get_minimum_sequence {T} _.
Arguments remaining_capacity {T} _.
Arguments has_available_capacity {T} _ _.
Arguments poison {T} _.
Arguments is_poisoned {T} _.
Arguments record_failure {T} _ _.
Arguments first_failure {T} _.
Arguments poison_with_failure {T} _ _.
Arguments close {T} _.
Arguments is_closed {T} _.
Arguments reopen {T} _.

(** [impl Sequencer for SingleProducerSequencer] *)
Definition single_ops (T : Type) : SequencerOps T := {|
  get_cursor := Single.get_cursor;
  get_buffer_size := Single.get_buffer_size;
  next := Single.next;
  next_n := Single.next_n;
  try_next := Single.try_next;
  try_next_n := Single.try_next_n;
  publish := Single.publish;
  publish_range := fun _ => Single.publish_range;
  is_available := Single.is_available;
  get_highest_published_sequence := fun _ => Single.get_highest_published_sequence;
  add_gating_sequences := Single.add_gating_sequences;
  remove_gating_sequence := Single.remove_gating_sequence;
  get_minimum_sequence := Single.get_minimum_sequence;
  remaining_capacity := Single.remaining_capacity;
  has_available_capacity := Single.has_available_capacity;
  poison := Single.poison;
  is_poisoned := Single.is_poisoned;
  record_failure := Single.record_failure;
  first_failure := Single.first_failure;
  poison_with_failure := Single.poison_with_failure;
  close := Single.close;
  is_closed := Single.is_closed;
  reopen := Single.reopen
|}.

(** [impl Sequencer for MultiProducerSequencer] *)
Definition multi_ops (T : Type) : SequencerOps T := {|
  get_cursor := Multi.get_cursor;
  get_buffer_size := Multi.get_buffer_size;
  next := Multi.next;
  next_n := Multi.next_n;
  try_next := Multi.try_next;
  try_next_n := Multi.try_next_n;
  publish := Multi.publish;
  publish_range := Multi.publish_range;
  is_available := Multi.is_available;
  get_highest_published_sequence := Multi.get_highest_published_sequence;
  add_gating_sequences := Multi.add_gating_sequences;
  remove_gating_sequence := Multi.remove_gating_sequence;
  get_minimum_sequence := Multi.get_minimum_sequence;
  remaining_capacity := Multi.remaining_capacity;
  has_available_capacity := Multi.has_available_capacity;
  poison := Multi.poison;
  is_poisoned := Multi.is_poisoned;
  record_failure := Multi.record_failure;
  first_failure := Multi.first_failure;
  poison_with_failure := Multi.poison_with_failure;
  close := Multi.close;
  is_closed := Multi.is_closed;
  reopen := Multi.reopen
|}.

(** [dispatch_sequencer!] and [impl Sequencer for SequencerEnum]: each method is
    the method of the variant. *)
Definition dispatch {T} (sq : SequencerEnum) : SequencerOps T :=
  match sq with
  | World.Single => single_ops T
  | World.Multi => multi_ops T
  end.

Section Views.
Context {T : Type}.
Abbreviation W := (World T).
Implicit Types (w : W) (sq : SequencerEnum).

(** The observable parts of the dispatched sequencer. *)
Definition poisoned sq w : bool :=
  match sq with World.Single => sp_poisoned (w_single w) | World.Multi => mp_poisoned (w_multi w) end.
Definition closed sq w : bool :=
  match sq with World.Single => sp_closed (w_single w) | World.Multi => mp_closed (w_multi w) end.
Definition failure sq w : option FailureRecord :=
  match sq with World.Single => sp_first_failure (w_single w) | World.Multi => mp_first_failure (w_multi w) end.
Definition buffer_size sq w : Z :=
  match sq with World.Single => sp_buffer_size_i64 (w_single w) | World.Multi => mp_buffer_size_i64 (w_multi w) end.
Definition cursor_loc sq w : loc :=
  match sq with World.Single => sp_cursor (w_single w) | World.Multi => mp_cursor (w_multi w) end.

(** ** First failure wins *)

(** While a failure is being reported, others may report theirs: the stored
    record is never replaced and the poison flag never cleared. *)
Record failure_rely sq w w' : Prop := {
  fr_keep : forall f, failure sq w = Some f -> failure sq w' = Some f;
  fr_poison : poisoned sq w = true -> poisoned sq w' = true
}.

#[global] Instance failure_rely_preorder sq : PreOrder (failure_rely sq).
Proof.
  split; [by constructor|]. intros w1 w2 w3 [] []. constructor; eauto.
Qed.

(** Recording, then poisoning: the record is there before the flag. *)
Lemma wp_poison_with_failure sq f w :
  wp (failure_rely sq) (poison_with_failure (dispatch sq) f)
    (fun _ w' => poisoned sq w' = true /\
       exists f', failure sq w' = Some f' /\ forall f0, failure sq w = Some f0 -> f' = f0) w.
Proof.
  assert (Hkeep : forall w0 w1 f0, failure_rely sq w0 w1 -> failure sq w0 = Some f0 -> failure sq w1 = Some f0)
    by (intros ? ? ? []; eauto).
  destruct sq; cbn [dispatch single_ops multi_ops poison_with_failure].
  - unfold Single.poison_with_failure, Single.record_failure, Single.poison. wp_steps.
    set (w1 := upd_single _ s') in *. assert (Hf : exists f', failure World.Single w1 = Some f' /\
      forall f0, failure World.Single w = Some f0 -> f' = f0).
    { cbn. destruct (sp_first_failure (w_single s')) as [f1|] eqn:Hs; cbn.
      - exists f1. split; [done|]. intros f0 Hf0. specialize (Hkeep _ _ _ H Hf0). cbn in Hkeep. congruence.
      - exists f. split; [done|]. intros f0 Hf0. specialize (Hkeep _ _ _ H Hf0). cbn in Hkeep. congruence. }
    destruct Hf as (f' & Hf' & Hw). specialize (Hkeep _ _ _ H0 Hf').
    destruct (sp_wait_strategy _); cbn; wp_steps; try (split; [done | by exists f']).
    split; [apply H1; done|]. exists f'. split; [by apply (fr_keep _ _ _ H1)| done].
  - unfold Multi.poison_with_failure, Multi.record_failure, Multi.poison. wp_steps.
    set (w1 := upd_multi _ s') in *. assert (Hf : exists f', failure World.Multi w1 = Some f' /\
      forall f0, failure World.Multi w = Some f0 -> f' = f0).
    { cbn. destruct (mp_first_failure (w_multi s')) as [f1|] eqn:Hs; cbn.
      - exists f1. split; [done|]. intros f0 Hf0. specialize (Hkeep _ _ _ H Hf0). cbn in Hkeep. congruence.
      - exists f. split; [done|]. intros f0 Hf0. specialize (Hkeep _ _ _ H Hf0). cbn in Hkeep. congruence. }
    destruct Hf as (f' & Hf' & Hw). specialize (Hkeep _ _ _ H0 Hf').
    destruct (mp_wait_strategy _); cbn; wp_steps; try (split; [done | by exists f']).
    split; [apply H1; done|]. exists f'. split; [by apply (fr_keep _ _ _ H1)| done].
Qed.

(** [poison_with_failure]: whatever failures other threads report meanwhile,
    when it returns the sequencer is poisoned and a failure record is
    retrievable: the record that was there first, if there was one. *)
Lemma poison_with_failure_spec sq f w :
  wp (failure_rely sq) (poison_with_failure (dispatch sq) f)
    (fun _ w' => poisoned sq w' = true /\
       exists f', failure sq w' = Some f' /\ forall f0, failure sq w = Some f0 -> f' = f0) w.
Proof. apply wp_poison_with_failure. Qed.

(** ** Terminal states *)

(** The pipeline is terminal: closed ([c]), or open and poisoned. *)
Definition terminal sq (c : bool) w : Prop :=
  closed sq w = c /\ (c = false -> poisoned sq w = true).

Lemma twp_terminal_next_n sq (e : env W) (c : bool) fuel n k w :
  (forall k w, terminal sq c w -> terminal sq c (e k w)) -> terminal sq c w ->
  1 <= n <= buffer_size sq w -> (0 < fuel)%nat ->
  twp e (next_n (dispatch sq) fuel n)
    (fun r _ w' => r = Err (if c then Shutdown else Poisoned) /\ terminal sq c w') k w.
Proof.
  intros He Ht Hn Hf. destruct fuel as [|fuel]; [lia|].
  pose proof (He k w Ht) as Ht1. pose proof (He (S k) _ Ht1) as Ht2.
  destruct Ht1 as [Hc1 Hp1], Ht2 as [Hc2 Hp2].
  destruct sq; cbn [dispatch single_ops multi_ops next_n closed poisoned buffer_size] in *;
    unfold Single.next_n, Single.buffer_size_i64, Single.claim_state_error, Multi.next_n, Multi.buffer_size_i64; twp_steps;
    destruct (Z.ltb_spec n 1); try lia; match goal with |- context [?a <? n] => destruct (Z.ltb_spec a n); try lia end;
    cbn [orb loop]; unfold claim_attempt; twp_steps; rewrite Hc1; (destruct c; twp_steps; [done|]); rewrite (Hp2 eq_refl); by twp_steps.
Qed.

Lemma twp_terminal_try_next_n sq (e : env W) (c : bool) n k w :
  (forall k w, terminal sq c w -> terminal sq c (e k w)) -> terminal sq c w ->
  1 <= n <= buffer_size sq w ->
  twp e (try_next_n (dispatch sq) n) (fun r _ w' => r = None /\ terminal sq c w') k w.
Proof.
  intros He Ht Hn. pose proof (He k w Ht) as Ht1. pose proof (He (S k) _ Ht1) as Ht2.
  destruct Ht1 as [Hc1 Hp1], Ht2 as [Hc2 Hp2].
  destruct sq; cbn [dispatch single_ops multi_ops try_next_n closed poisoned buffer_size] in *;
    unfold Single.try_next_n, Single.buffer_size_i64, Single.claim_state_error, Multi.try_next_n, Multi.buffer_size_i64; twp_steps;
    destruct (Z.ltb_spec n 1); try lia; match goal with |- context [?a <? n] => destruct (Z.ltb_spec a n); try lia end;
    cbn [orb]; twp_steps; rewrite Hc1; (destruct c; twp_steps; [done|]); rewrite (Hp2 eq_refl); by twp_steps.
Qed.

(** Once the sequencer is closed, or poisoned, and stays so, no claim goes
    through: a blocking claim of any valid size fails with [Shutdown] (closed
    wins over poisoned) or [Poisoned] instead of waiting for capacity, and a
    non-blocking one gives [None]. *)
Lemma terminal_claims sq (e : env W) (c : bool) fuel n k w :
  (forall k w, terminal sq c w -> terminal sq c (e k w)) -> terminal sq c w ->
  1 <= n <= buffer_size sq w -> (0 < fuel)%nat ->
  exists k1 w1 k2 w2,
    next_n (dispatch sq) fuel n e k w = Done (Err (if c then Shutdown else Poisoned)) k1 w1 /\
    try_next_n (dispatch sq) n e k w = Done None k2 w2.
Proof.
  intros He Ht Hn Hf. pose proof (twp_terminal_next_n sq e c fuel n k w He Ht Hn Hf) as H1.
  pose proof (twp_terminal_try_next_n sq e c n k w He Ht Hn) as H2. unfold twp in *.
  destruct (next_n (dispatch sq) fuel n e k w), (try_next_n (dispatch sq) n e k w); naive_solver.
Qed.

(** ** The published view *)

(** What consumers may read: a single producer publishes in order, so all up
    to its cursor; several producers publish out of order, so what the
    availability store says. *)
Definition published sq w (q : Z) : Prop :=
  match sq with
  | World.Single => q <= seq_at w (sp_cursor (w_single w))
  | World.Multi => is_available_internal (w_multi w) q = true
  end.

(** Well-formedness of the sequencer object. *)
Definition view_wf sq w : Prop :=
  match sq with World.Single => True | World.Multi => mp_wf (w_multi w) end.

(** What a consumer whose next sequence is [next] relies on: the sequencer
    keeps its shape, sequences only grow, and a published sequence within a lap
    of [next] stays published, since a producer cannot lap the consumer. *)
Record view_rely sq (next : Z) w w' : Prop := {
  vr_wf : view_wf sq w -> view_wf sq w';
  vr_cursor : cursor_loc sq w' = cursor_loc sq w;
  vr_bsz : buffer_size sq w' = buffer_size sq w;
  vr_legacy : sq = World.Multi -> legacy (w_multi w') = legacy (w_multi w);
  vr_mono : forall l, seq_at w l <= seq_at w' l;
  vr_published : forall q, next <= q < next + buffer_size sq w -> published sq w q -> published sq w' q
}.

#[global] Instance view_rely_preorder sq next : PreOrder (view_rely sq next).
Proof.
  split; [by constructor|]. intros w1 w2 w3 H1 H2. constructor.
  - intros H. by apply (vr_wf _ _ _ _ H2), (vr_wf _ _ _ _ H1).
  - by rewrite (vr_cursor _ _ _ _ H2), (vr_cursor _ _ _ _ H1).
  - by rewrite (vr_bsz _ _ _ _ H2), (vr_bsz _ _ _ _ H1).
  - intros H. by rewrite (vr_legacy _ _ _ _ H2), (vr_legacy _ _ _ _ H1).
  - intros l. etrans; [apply (vr_mono _ _ _ _ H1) | apply (vr_mono _ _ _ _ H2)].
  - intros q Hq Hp. apply (vr_published _ _ _ _ H2); [rewrite (vr_bsz _ _ _ _ H1); lia|].
    by apply (vr_published _ _ _ _ H1).
Qed.

(** The promise of a sequencer to the barriers built on it: resolving a range
    that consumers may see (within a lap of [lo], which the asking consumer has
    not released) always returns, and what it returns is published throughout; [resolvable] is what the barrier owes for it. *)
Class SequencerView sq : Prop := {
  view_highest : forall (R : W -> W -> Prop) `{!PreOrder R} (P : W -> Prop) (e : env W) fuel lo next available k w,
    (forall x y, P x -> R x y -> P y /\ view_rely sq lo x y) -> respects R e -> P w -> view_wf sq w ->
    0 <= lo <= next -> next <= available + 1 -> available < lo + buffer_size sq w -> available < i64_max ->
    (sq = World.Single -> available <= seq_at w (cursor_loc sq w)) ->
    (Z.to_nat (available + 1 - next) < fuel)%nat ->
    twp e (get_highest_published_sequence (dispatch sq) fuel next available)
      (fun r _ w' => R w w' /\ next - 1 <= r <= available /\
         forall q, next <= q <= r -> published sq w' q) k w
}.

#[global] Instance single_view : SequencerView World.Single.
Proof.
  constructor. intros R HR P e fuel lo next available k w Hsub He HP Hwf Hlo Hn Ha Hm Hc Hf. apply twp_ret.
  split_and!; [reflexivity | lia | lia |]. intros q Hq. specialize (Hc eq_refl).
  unfold published, cursor_loc in *. lia.
Qed.

Lemma view_scan_rely next available w w' :
  mp_wf (w_multi w) -> available < next + buffer_size World.Multi w ->
  view_rely World.Multi next w w' -> scan_rely next available w w'.
Proof.
  intros Hwf Ha []. split; [split_and!; [by apply vr_wf0 | done | by apply vr_legacy0]|].
  intros q Hq. apply (vr_published0 q). lia.
Qed.

#[global] Instance multi_view : SequencerView World.Multi.
Proof.
  constructor. intros R HR P e fuel lo next available k w Hsub He HP Hwf Hlo Hn Ha Hm _ Hf.
  eapply twp_mono; [apply (scan_total e lo available (fun w' => R w w' /\ P w')); [|lia|done|done|done|lia|done]|].
  - intros k' w' [Hr Hp]. destruct (Hsub _ _ Hp (He k' w')) as [Hp' _]. destruct (Hsub _ _ HP Hr) as [_ HV].
    split; [split; [etrans; [done | apply He] | done]|].
    apply view_scan_rely; [by apply (vr_wf _ _ _ _ HV) | rewrite (vr_bsz _ _ _ _ HV); done | by apply Hsub].
  - intros r k' w' ([Hr0 _] & _ & Hr & Hall & _). split_and!; [done | lia | lia | done].
Qed.

#[global] Instance dispatch_view sq : SequencerView sq.
Proof. destruct sq; apply _. Qed.

End Views.
