(* ===== verification/Waiting.v ===== *)
(** * Waiting: the wait traits and their implementations
    (disruptor/wait_strategy.rs, disruptor/simple_wait_strategy.rs)

    The traits [SimpleWaitStrategy] and [WaitStrategy] are type classes, every
    [impl] of the crate is an instance with the body the source has, and an
    application may add its own.  What a wait is made of comes first: the alert
    flag, the clock, what a thread does between two polls, and the parked phase
    of [BlockingWaitStrategy]. *)
From S2P Require Import Prelude Effects Errors RingBuffer World Sequence.

(** [NEVER_ALERTED], or the address of a barrier's alert flag. *)
Inductive AlertFlag : Type :=
| NeverAlerted
| Flag (l : loc).

(** What a thread does between two polls. *)
Inductive Idle : Type :=
| Nothing
| SpinLoop
| YieldNow
| Sleep (nanos : Z).

(** ** The types *)

(** [BlockingWaitStrategy] (its mutex and condition variable are [w_wait]),
    [YieldingWaitStrategy], [BusySpinWaitStrategy], [SleepingWaitStrategy]. *)
Inductive BlockingWait : Type := mkBlockingWait.
Inductive YieldingWait : Type := mkYieldingWait.
Inductive BusySpinWait : Type := mkBusySpinWait.
Record SleepingWait : Type := mkSleepingWait { sleep_duration : Z }.

(** [SleepingWaitStrategy::new] (one millisecond), [new_with_duration]. *)
Definition sleeping_new : SleepingWait := mkSleepingWait 1000000.
Definition sleeping_new_with_duration (d : Z) : SleepingWait := mkSleepingWait d.

(** The simple strategies: [BusySpin], [BusySpinWithHint], [Yielding],
    [Sleeping]. *)
Inductive SimpleBusySpin : Type := mkSimpleBusySpin.
Inductive SimpleBusySpinWithHint : Type := mkSimpleBusySpinWithHint.
Record SimpleYielding : Type := mkSimpleYielding { spin_tries : Z }.
Record SimpleSleeping : Type := mkSimpleSleeping { sleep_nanos : Z }.

(** [Yielding::default], [Sleeping::default] *)
Definition yielding_default : SimpleYielding := mkSimpleYielding 100.
Definition simple_sleeping_default : SimpleSleeping := mkSimpleSleeping 1000.

Definition u32_max : Z := 4294967295.

(** [Yielding::is_spin_phase] *)
Definition is_spin_phase (miss spin_tries : Z) : bool := miss <? spin_tries.

(** What [Yielding::backoff_with_miss] does at the miss number [miss]. *)
Definition yielding_action (s : SimpleYielding) (miss : Z) : Idle :=
  if is_spin_phase miss (spin_tries s) then SpinLoop else YieldNow.

(** [YieldingWaitStrategy::apply_wait_method]: the new counter, and what is
    done. *)
Definition apply_wait_method (counter : Z) : Z * Idle :=
  if counter =? 0 then (counter, YieldNow) else (counter - 1, SpinLoop).

(** [u32::saturating_add(1)] *)
Definition miss_add1 (miss : Z) : Z := Z.min (miss + 1) u32_max.

(** [SimpleWaitStrategyAdapter] *)
Record Adapter (S : Type) : Type := mkAdapter { strategy : S }.
Arguments mkAdapter {S} _.
Arguments strategy {S} _.

Section Waiting.
Context {T : Type}.
Abbreviation W := (World T).
Implicit Types w : W.

Definition alert_value (f : AlertFlag) w : bool :=
  match f with NeverAlerted => false | Flag l => flag_at w l end.

(** [alerted.load(Ordering::Acquire)] *)
Definition flag_load (f : AlertFlag) : M W bool := load (alert_value f).

Definition upd_clock (f : Z -> Z) w : W :=
  mkWorld (w_seqs w) (w_flags w) (f (w_clock w)) (w_wait w) (w_single w) (w_multi w) (w_ring w) (w_threads w).

(** [Instant::now()] *)
Definition now : M W Z := load w_clock.

(** The last [Instant] there is: [i64] seconds and 999999999 nanoseconds. *)
Definition instant_max : Z := i64_max * 1000000000 + 999999999.

(** The panic of [Instant + Duration] when no [Instant] is that late. *)
Definition overflow_message : string := "overflow when adding duration to instant".

(** [Instant::now() + d] *)
Definition deadline_after (d : Z) : M W Z :=
  let* t := now in
  if t + d <=? instant_max then ret (t + d) else panic overflow_message.

(** [start.elapsed()] *)
Definition elapsed (start : Z) : M W Z := let* t := now in ret (Z.max 0 (t - start)).

(** The idle actions: the others run; a sleep lets its duration pass. *)
Definition pause (i : Idle) : M W unit :=
  match i with
  | Nothing => ret tt
  | Sleep nanos => store (upd_clock (Z.add nanos))
  | _ => load (fun _ => tt)
  end.

(** [wait_available_sequence] *)
Definition wait_available_sequence (cursor : loc) (dependent_sequences : list loc) : M W Z :=
  match dependent_sequences with
  | [] => Sequence.get cursor
  | _ => Sequence.get_minimum_sequence dependent_sequences
  end.

(** [YieldingWaitStrategy::SPIN_TRIES] *)
Definition SPIN_TRIES : Z := 100.

(** One millisecond. *)
Definition check_interval : Z := 1000000.

(** ** [BlockingWaitStrategy] *)

(** [self.mutex.lock()]: acquiring it lets the others run. *)
Definition mutex_lock : M W unit := load (fun _ => tt).

(** [BlockingWaitStrategy::alert], [clear_alert] and [is_alerted]. *)
Definition blocking_alert : M W unit :=
  store (upd_wait (fun b => mkBlockingState true (bs_notified b + 1))).
Definition blocking_clear_alert : M W unit :=
  store (upd_wait (fun b => mkBlockingState false (bs_notified b))).
Definition blocking_is_alerted : M W bool := load (fun w => bs_alerted (w_wait w)).

(** [guard.alerted || alerted.load(..)] with the guard held, and
    [is_alerted_with], which locks for the first operand. *)
Definition is_alerted_with (alerted : AlertFlag) : M W bool :=
  let* g := blocking_is_alerted in
  if g then ret true else flag_load alerted.

(** [condvar.wait(&mut guard)]: parked until a notification made after the
    guard was released. *)
Definition condvar_wait (fuel : nat) : M W unit :=
  let* n0 := read (fun w => bs_notified (w_wait w)) in
  loop fuel (fun _ : unit =>
    let* n := load (fun w => bs_notified (w_wait w)) in
    if n =? n0 then ret (inl tt) else ret (inr tt)) tt.

(** [condvar.wait_for(&mut guard, remaining).timed_out()]: parked until such a
    notification or until [remaining] has passed. *)
Definition condvar_wait_for (remaining : Z) : M W bool :=
  let* n0 := read (fun w => bs_notified (w_wait w)) in
  atomic (fun w => if bs_notified (w_wait w) =? n0 then (true, upd_clock (Z.add remaining) w)
                   else (false, w)).

(** [BlockingWaitStrategy::wait_for_with_alert] *)
Definition blocking_with_alert (fuel : nat) (sequence : Z) (cursor : loc)
    (dependent_sequences : list loc) (alerted : AlertFlag) : M W (result Z DisruptorError) :=
  let* c := Sequence.get cursor in
  let? _ :=
    (if c <? sequence then
       let* _ := mutex_lock in
       loop fuel (fun _ : unit =>
         let* c := Sequence.get cursor in
         if c <? sequence then
           let* a := is_alerted_with alerted in
           if a then ret (inr (Err Alert)) else
           let* _ := condvar_wait fuel in ret (inl tt)
         else ret (inr (Ok tt))) tt
     else ret (Ok tt)) in
  loop fuel (fun _ : unit =>
    let* available := wait_available_sequence cursor dependent_sequences in
    if sequence <=? available then ret (inr (Ok available)) else
    let* a := is_alerted_with alerted in
    if a then ret (inr (Err Alert)) else
    let* _ := pause SpinLoop in ret (inl tt)) tt.

(** [BlockingWaitStrategy::wait_for_with_timeout_and_alert] *)
Definition blocking_with_timeout (fuel : nat) (sequence : Z) (cursor : loc)
    (dependent_sequences : list loc) (timeout : Z) (alerted : AlertFlag) :
    M W (result Z DisruptorError) :=
  let* start_time := now in
  let* c := Sequence.get cursor in
  let? _ :=
    (if c <? sequence then
       let* _ := mutex_lock in
       loop fuel (fun _ : unit =>
         let* c := Sequence.get cursor in
         if c <? sequence then
           let* a := is_alerted_with alerted in
           if a then ret (inr (Err Alert)) else
           let* t := elapsed start_time in
           if timeout <=? t then ret (inr (Err Timeout)) else
           let* t := elapsed start_time in
           let remaining := Z.max 0 (timeout - t) in
           if remaining =? 0 then ret (inr (Err Timeout)) else
           let* timed_out := condvar_wait_for remaining in
           if timed_out then
             let* a := is_alerted_with alerted in
             if a then ret (inr (Err Alert)) else ret (inr (Err Timeout))
           else ret (inl tt)
         else ret (inr (Ok tt))) tt
     else ret (Ok tt)) in
  loop fuel (fun _ : unit =>
    let* available := wait_available_sequence cursor dependent_sequences in
    if sequence <=? available then ret (inr (Ok available)) else
    let* a := is_alerted_with alerted in
    if a then ret (inr (Err Alert)) else
    let* t := elapsed start_time in
    if timeout <=? t then ret (inr (Err Timeout)) else
    let* _ := pause SpinLoop in ret (inl tt)) tt.

(** ** [trait SimpleWaitStrategy] *)

Class SimpleWait (S : Type) : Type := {
  backoff : S -> M W unit;
  backoff_with_miss : S -> Z -> M W Z
}.

(** The default body of [backoff_with_miss]: the counter is left alone. *)
Definition default_backoff_with_miss {S} (backoff : S -> M W unit) (s : S) (miss : Z) : M W Z :=
  let* _ := backoff s in ret miss.

(** [BusySpin], [BusySpinWithHint], [Yielding], [Sleeping]: [backoff] and
    [backoff_with_miss]. *)
Definition busy_spin_backoff (_ : SimpleBusySpin) : M W unit := ret tt.
Definition busy_spin_backoff_with_miss (_ : SimpleBusySpin) (miss : Z) : M W Z := ret (miss_add1 miss).

Definition hint_backoff (_ : SimpleBusySpinWithHint) : M W unit := pause SpinLoop.
Definition hint_backoff_with_miss (_ : SimpleBusySpinWithHint) (miss : Z) : M W Z :=
  let* _ := pause SpinLoop in ret (miss_add1 miss).

Definition yielding_backoff (s : SimpleYielding) : M W unit :=
  let* _ := for_each (replicate (Z.to_nat (spin_tries s)) tt) (fun _ => pause SpinLoop) in pause YieldNow.
Definition yielding_backoff_with_miss (s : SimpleYielding) (miss : Z) : M W Z :=
  let* _ := pause (yielding_action s miss) in ret (miss_add1 miss).

Definition sleeping_backoff (s : SimpleSleeping) : M W unit := pause (Sleep (sleep_nanos s)).
Definition sleeping_backoff_with_miss (s : SimpleSleeping) (miss : Z) : M W Z :=
  let* _ := pause (Sleep (sleep_nanos s)) in ret (miss_add1 miss).

#[global] Instance busy_spin_simple : SimpleWait SimpleBusySpin := {
  backoff := busy_spin_backoff; backoff_with_miss := busy_spin_backoff_with_miss }.
#[global] Instance busy_spin_hint_simple : SimpleWait SimpleBusySpinWithHint := {
  backoff := hint_backoff; backoff_with_miss := hint_backoff_with_miss }.
#[global] Instance yielding_simple : SimpleWait SimpleYielding := {
  backoff := yielding_backoff; backoff_with_miss := yielding_backoff_with_miss }.
#[global] Instance sleeping_simple : SimpleWait SimpleSleeping := {
  backoff := sleeping_backoff; backoff_with_miss := sleeping_backoff_with_miss }.

(** ** [trait WaitStrategy] *)

Class WaitTrait (S : Type) : Type := {
  wait_with_alert : nat -> S -> Z -> loc -> list loc -> AlertFlag -> M W (result Z DisruptorError);
  wait_with_timeout : nat -> S -> Z -> loc -> list loc -> Z -> AlertFlag -> M W (result Z DisruptorError);
  wait_with_shutdown : nat -> S -> Z -> loc -> list loc -> loc -> AlertFlag -> M W (result Z DisruptorError);
  signal_all : S -> M W unit;
  trait_needs_signal : S -> bool
}.

(** The default body of [wait_for_with_timeout_and_alert]. *)
Definition default_with_timeout (fuel : nat) (sequence : Z) (cursor : loc) (deps : list loc) (timeout : Z)
    (alerted : AlertFlag) : M W (result Z DisruptorError) :=
  let* start := now in
  loop fuel (fun _ : unit =>
    let* a := flag_load alerted in
    if a then ret (inr (Err Alert)) else
    let* available := wait_available_sequence cursor deps in
    if sequence <=? available then ret (inr (Ok available)) else
    let* a := flag_load alerted in
    if a then ret (inr (Err Alert)) else
    let* t := elapsed start in
    if timeout <=? t then ret (inr (Err Timeout)) else
    let* _ := pause YieldNow in ret (inl tt)) tt.

(** The default body of [wait_for_with_shutdown_and_alert], over the timed wait
    of the implementing type. *)
Definition trait_default_with_shutdown (timed : Z -> M W (result Z DisruptorError)) (fuel : nat) (shutdown_flag : loc)
    (alerted : AlertFlag) : M W (result Z DisruptorError) :=
  loop fuel (fun _ : unit =>
    let* s := load (fun w => flag_at w shutdown_flag) in
    if s then ret (inr (Err Alert)) else
    let* a := flag_load alerted in
    if a then ret (inr (Err Alert)) else
    let* r := timed check_interval in
    match r with
    | Ok available_sequence => ret (inr (Ok available_sequence))
    | Err Timeout => ret (inl tt)
    | Err e => ret (inr (Err e))
    end) tt.

#[global] Instance blocking_trait : WaitTrait BlockingWait := {
  wait_with_alert fuel _ := blocking_with_alert fuel;
  wait_with_timeout fuel _ := blocking_with_timeout fuel;
  wait_with_shutdown fuel _ sequence cursor deps shutdown_flag alerted :=
    trait_default_with_shutdown (fun t => blocking_with_timeout fuel sequence cursor deps t alerted) fuel shutdown_flag alerted;
  signal_all _ := store (upd_wait (fun b => mkBlockingState (bs_alerted b) (bs_notified b + 1)));
  trait_needs_signal _ := true
}.

(** *** [YieldingWaitStrategy] *)

(** [Self::apply_wait_method(&mut counter)] *)
Definition yielding_idle (counter : Z) : M W Z :=
  let '(counter, action) := apply_wait_method counter in
  let* _ := pause action in ret counter.

Definition yielding_with_alert (fuel : nat) (_ : YieldingWait) (sequence : Z) (cursor : loc) (deps : list loc)
    (alerted : AlertFlag) : M W (result Z DisruptorError) :=
  loop fuel (fun counter =>
    let* a := flag_load alerted in
    if a then ret (inr (Err Alert)) else
    let* available := wait_available_sequence cursor deps in
    if sequence <=? available then ret (inr (Ok available)) else
    let* counter := yielding_idle counter in ret (inl counter)) SPIN_TRIES.

Definition yielding_with_timeout (fuel : nat) (_ : YieldingWait) (sequence : Z) (cursor : loc) (deps : list loc)
    (timeout : Z) (alerted : AlertFlag) : M W (result Z DisruptorError) :=
  let* start_time := now in
  loop fuel (fun counter =>
    let* a := flag_load alerted in
    if a then ret (inr (Err Alert)) else
    let* available := wait_available_sequence cursor deps in
    if sequence <=? available then ret (inr (Ok available)) else
    let* a := flag_load alerted in
    if a then ret (inr (Err Alert)) else
    let* t := elapsed start_time in
    if timeout <=? t then ret (inr (Err Timeout)) else
    let* counter := yielding_idle counter in ret (inl counter)) SPIN_TRIES.

Definition yielding_with_shutdown (fuel : nat) (_ : YieldingWait) (sequence : Z) (cursor : loc) (deps : list loc)
    (shutdown_flag : loc) (alerted : AlertFlag) : M W (result Z DisruptorError) :=
  loop fuel (fun counter =>
    let* s := load (fun w => flag_at w shutdown_flag) in
    if s then ret (inr (Err Alert)) else
    let* a := flag_load alerted in
    if a then ret (inr (Err Alert)) else
    let* available := wait_available_sequence cursor deps in
    if sequence <=? available then ret (inr (Ok available)) else
    let* counter := yielding_idle counter in ret (inl counter)) SPIN_TRIES.

#[global] Instance yielding_trait : WaitTrait YieldingWait := {
  wait_with_alert := yielding_with_alert;
  wait_with_timeout := yielding_with_timeout;
  wait_with_shutdown := yielding_with_shutdown;
  signal_all _ := ret tt;
  trait_needs_signal _ := false
}.

(** *** [BusySpinWaitStrategy] *)

Definition busy_spin_with_alert (fuel : nat) (_ : BusySpinWait) (sequence : Z) (cursor : loc) (deps : list loc)
    (alerted : AlertFlag) : M W (result Z DisruptorError) :=
  loop fuel (fun _ : unit =>
    let* a := flag_load alerted in
    if a then ret (inr (Err Alert)) else
    let* available := wait_available_sequence cursor deps in
    if sequence <=? available then ret (inr (Ok available)) else
    let* _ := pause SpinLoop in ret (inl tt)) tt.

Definition busy_spin_with_timeout (fuel : nat) (_ : BusySpinWait) (sequence : Z) (cursor : loc) (deps : list loc)
    (timeout : Z) (alerted : AlertFlag) : M W (result Z DisruptorError) :=
  let* start_time := now in
  loop fuel (fun _ : unit =>
    let* a := flag_load alerted in
    if a then ret (inr (Err Alert)) else
    let* available := wait_available_sequence cursor deps in
    if sequence <=? available then ret (inr (Ok available)) else
    let* a := flag_load alerted in
    if a then ret (inr (Err Alert)) else
    let* t := elapsed start_time in
    if timeout <=? t then ret (inr (Err Timeout)) else
    let* _ := pause SpinLoop in ret (inl tt)) tt.

Definition busy_spin_with_shutdown (fuel : nat) (_ : BusySpinWait) (sequence : Z) (cursor : loc) (deps : list loc)
    (shutdown_flag : loc) (alerted : AlertFlag) : M W (result Z DisruptorError) :=
  loop fuel (fun _ : unit =>
    let* s := load (fun w => flag_at w shutdown_flag) in
    if s then ret (inr (Err Alert)) else
    let* a := flag_load alerted in
    if a then ret (inr (Err Alert)) else
    let* available := wait_available_sequence cursor deps in
    if sequence <=? available then ret (inr (Ok available)) else
    let* _ := pause SpinLoop in ret (inl tt)) tt.

#[global] Instance busy_spin_trait : WaitTrait BusySpinWait := {
  wait_with_alert := busy_spin_with_alert;
  wait_with_timeout := busy_spin_with_timeout;
  wait_with_shutdown := busy_spin_with_shutdown;
  signal_all _ := ret tt;
  trait_needs_signal _ := false
}.

(** *** [SleepingWaitStrategy] *)

Definition sleeping_with_alert (fuel : nat) (ws : SleepingWait) (sequence : Z) (cursor : loc) (deps : list loc)
    (alerted : AlertFlag) : M W (result Z DisruptorError) :=
  loop fuel (fun _ : unit =>
    let* a := flag_load alerted in
    if a then ret (inr (Err Alert)) else
    let* available := wait_available_sequence cursor deps in
    if sequence <=? available then ret (inr (Ok available)) else
    let* _ := pause (Sleep (sleep_duration ws)) in ret (inl tt)) tt.

Definition sleeping_with_shutdown (fuel : nat) (ws : SleepingWait) (sequence : Z) (cursor : loc) (deps : list loc)
    (shutdown_flag : loc) (alerted : AlertFlag) : M W (result Z DisruptorError) :=
  loop fuel (fun _ : unit =>
    let* s := load (fun w => flag_at w shutdown_flag) in
    if s then ret (inr (Err Alert)) else
    let* a := flag_load alerted in
    if a then ret (inr (Err Alert)) else
    let* available := wait_available_sequence cursor deps in
    if sequence <=? available then ret (inr (Ok available)) else
    let* _ := pause (Sleep (sleep_duration ws)) in ret (inl tt)) tt.

Definition sleeping_with_timeout (fuel : nat) (ws : SleepingWait) (sequence : Z) (cursor : loc) (deps : list loc)
    (timeout : Z) (alerted : AlertFlag) : M W (result Z DisruptorError) :=
  let* start_time := now in
  loop fuel (fun _ : unit =>
    let* a := flag_load alerted in
    if a then ret (inr (Err Alert)) else
    let* available := wait_available_sequence cursor deps in
    if sequence <=? available then ret (inr (Ok available)) else
    let* a := flag_load alerted in
    if a then ret (inr (Err Alert)) else
    let* t := elapsed start_time in
    if timeout <=? t then ret (inr (Err Timeout)) else
    let* _ := pause (Sleep (sleep_duration ws)) in ret (inl tt)) tt.

#[global] Instance sleeping_trait : WaitTrait SleepingWait := {
  wait_with_alert := sleeping_with_alert;
  wait_with_timeout := sleeping_with_timeout;
  wait_with_shutdown := sleeping_with_shutdown;
  signal_all _ := ret tt;
  trait_needs_signal _ := false
}.

(** *** [SimpleWaitStrategyAdapter] *)

Section AdapterImpl.
Context {S : Type} `{!SimpleWait S}.

Definition adapter_with_alert (fuel : nat) (ad : Adapter S) (sequence : Z) (cursor : loc) (deps : list loc)
    (alerted : AlertFlag) : M W (result Z DisruptorError) :=
  loop fuel (fun miss =>
    let* a := flag_load alerted in
    if a then ret (inr (Err Alert)) else
    let* available := wait_available_sequence cursor deps in
    if sequence <=? available then ret (inr (Ok available)) else
    let* miss := backoff_with_miss (strategy ad) miss in ret (inl miss)) 0.

Definition adapter_with_timeout (fuel : nat) (ad : Adapter S) (sequence : Z) (cursor : loc) (deps : list loc)
    (timeout : Z) (alerted : AlertFlag) : M W (result Z DisruptorError) :=
  let* start := now in
  loop fuel (fun miss =>
    let* a := flag_load alerted in
    if a then ret (inr (Err Alert)) else
    let* available := wait_available_sequence cursor deps in
    if sequence <=? available then ret (inr (Ok available)) else
    let* a := flag_load alerted in
    if a then ret (inr (Err Alert)) else
    let* t := elapsed start in
    if timeout <=? t then ret (inr (Err Timeout)) else
    let* miss := backoff_with_miss (strategy ad) miss in ret (inl miss)) 0.

Definition adapter_with_shutdown (fuel : nat) (ad : Adapter S) (sequence : Z) (cursor : loc) (deps : list loc)
    (shutdown_flag : loc) (alerted : AlertFlag) : M W (result Z DisruptorError) :=
  loop fuel (fun miss =>
    let* s := load (fun w => flag_at w shutdown_flag) in
    if s then ret (inr (Err Alert)) else
    let* a := flag_load alerted in
    if a then ret (inr (Err Alert)) else
    let* available := wait_available_sequence cursor deps in
    if sequence <=? available then ret (inr (Ok available)) else
    let* miss := backoff_with_miss (strategy ad) miss in ret (inl miss)) 0.

#[global] Instance adapter_trait : WaitTrait (Adapter S) := {
  wait_with_alert := adapter_with_alert;
  wait_with_timeout := adapter_with_timeout;
  wait_with_shutdown := adapter_with_shutdown;
  signal_all _ := ret tt;
  trait_needs_signal _ := false
}.

(** The direct [impl]s of the simple strategies go through the adapter. *)
Definition via_adapter : WaitTrait S := {|
  wait_with_alert fuel s := wait_with_alert fuel (mkAdapter s);
  wait_with_timeout fuel s := wait_with_timeout fuel (mkAdapter s);
  wait_with_shutdown fuel s := wait_with_shutdown fuel (mkAdapter s);
  signal_all _ := ret tt;
  trait_needs_signal _ := false
|}.

End AdapterImpl.

(** [impl WaitStrategy for BusySpin], [BusySpinWithHint], [Yielding], [Sleeping] *)
Definition busy_spin_direct : WaitTrait SimpleBusySpin := via_adapter.
Definition busy_spin_hint_direct : WaitTrait SimpleBusySpinWithHint := via_adapter.
Definition yielding_direct : WaitTrait SimpleYielding := via_adapter.
Definition simple_sleeping_direct : WaitTrait SimpleSleeping := via_adapter.
#[global] Existing Instance busy_spin_direct.
#[global] Existing Instance busy_spin_hint_direct.
#[global] Existing Instance yielding_direct.
#[global] Existing Instance simple_sleeping_direct.

(** *** [Box<dyn WaitStrategy>] *)

Record BoxDyn : Type := mkBoxDyn { dyn_type : Type; dyn_impl : WaitTrait dyn_type; dyn_value : dyn_type }.

Definition box_impl : WaitTrait BoxDyn := {|
  wait_with_alert fuel b := @wait_with_alert _ (dyn_impl b) fuel (dyn_value b);
  wait_with_timeout fuel b := @wait_with_timeout _ (dyn_impl b) fuel (dyn_value b);
  wait_with_shutdown fuel b := @wait_with_shutdown _ (dyn_impl b) fuel (dyn_value b);
  signal_all b := @signal_all _ (dyn_impl b) (dyn_value b);
  trait_needs_signal b := @trait_needs_signal _ (dyn_impl b) (dyn_value b)
|}.
#[global] Existing Instance box_impl.

(** ** Deadlines *)

(** [timeout.map(|d| Instant::now() + d)] *)
Definition deadline_for (timeout : option Z) : M W (option Z) :=
  match timeout with
  | Some d => let* t := deadline_after d in ret (Some t)
  | None => ret None
  end.

(** A timeout that ends after the last [Instant]. *)
Definition unrepresentable (timeout : option Z) w : Prop :=
  exists d, timeout = Some d /\ instant_max < w_clock w + d.

(** A deadline is no earlier than the timeout says, and a timeout without one
    panics. *)
Lemma wpx_deadline_for (R : W -> W -> Prop) `{!PreOrder R} timeout w :
  (forall x y, R x y -> w_clock x <= w_clock y) ->
  wpx R (deadline_for timeout)
    (fun dl w' => R w w' /\ forall t, dl = Some t -> exists d, timeout = Some d /\ w_clock w + d <= t)
    (fun msg w' => msg = overflow_message /\ R w w' /\ unrepresentable timeout w') w.
Proof.
  intros Hc. destruct timeout as [d|]; cbn [deadline_for]; [|by apply wpx_ret].
  apply wpx_bind. unfold deadline_after, now. apply wpx_seq. wp_steps. pose proof (Hc _ _ H).
  destruct (Z.leb_spec (w_clock s' + d) instant_max).
  - apply wpx_ret, wpx_ret. split; [done|]. intros t [= <-]. exists d. split; [done | lia].
  - apply wpx_panic. split_and!; [done | done |]. by exists d.
Qed.

Lemma halts_deadline_for timeout : halts (deadline_for timeout).
Proof. unfold deadline_for, deadline_after, now. halts. Qed.

End Waiting.
