(* ===== verification/WaitStrategy.v ===== *)
(** * WaitStrategy: how consumers wait (disruptor/wait_strategy.rs,
    disruptor/simple_wait_strategy.rs)

    The waits of the crate's strategies as the barriers call them, by the
    strategy a pipeline was built with.  Every strategy polls the barrier's
    dependent sequences until one is reached, an alert is raised, or a deadline
    passes; [BlockingWaitStrategy] parks on a condition variable while the
    cursor is behind.  The contracts of all of them are proved here. *)
From S2P Require Import Prelude Effects Errors RingBuffer World Sequence Waiting.

#[global] Instance SimpleStrategy_eq_dec : EqDecision SimpleStrategy.
Proof. solve_decision. Defined.

#[global] Instance WaitStrategy_eq_dec : EqDecision WaitStrategy.
Proof. solve_decision. Defined.

Section WaitStrategy.
Context {T : Type}.
Abbreviation W := (World T).
Implicit Types (w : W) (ws : WaitStrategy).

(** ** The trait's methods, by strategy *)

(** The implementation a strategy names. *)
Definition impl_of ws : BoxDyn (T := T) :=
  match ws with
  | BlockingWaitStrategy => mkBoxDyn _ blocking_trait mkBlockingWait
  | YieldingWaitStrategy => mkBoxDyn _ yielding_trait mkYieldingWait
  | BusySpinWaitStrategy => mkBoxDyn _ busy_spin_trait mkBusySpinWait
  | SleepingWaitStrategy d => mkBoxDyn _ sleeping_trait (mkSleepingWait d)
  | SimpleWaitStrategyAdapter BusySpin => mkBoxDyn _ adapter_trait (mkAdapter mkSimpleBusySpin)
  | SimpleWaitStrategyAdapter BusySpinWithHint => mkBoxDyn _ adapter_trait (mkAdapter mkSimpleBusySpinWithHint)
  | SimpleWaitStrategyAdapter (Yielding n) => mkBoxDyn _ adapter_trait (mkAdapter (mkSimpleYielding n))
  | SimpleWaitStrategyAdapter (Sleeping n) => mkBoxDyn _ adapter_trait (mkAdapter (mkSimpleSleeping n))
  end.

Definition wait_for_with_alert (fuel : nat) ws : Z -> loc -> list loc -> AlertFlag -> M W (result Z DisruptorError) :=
  wait_with_alert fuel (impl_of ws).
Definition wait_for_with_timeout_and_alert (fuel : nat) ws :
    Z -> loc -> list loc -> Z -> AlertFlag -> M W (result Z DisruptorError) :=
  wait_with_timeout fuel (impl_of ws).
Definition wait_for_with_shutdown_and_alert (fuel : nat) ws :
    Z -> loc -> list loc -> loc -> AlertFlag -> M W (result Z DisruptorError) :=
  wait_with_shutdown fuel (impl_of ws).

(** [wait_for], [wait_for_with_timeout], [wait_for_with_shutdown]: nobody alerts. *)
Definition wait_for (fuel : nat) ws sequence cursor dependent_sequences :=
  wait_for_with_alert fuel ws sequence cursor dependent_sequences NeverAlerted.
Definition wait_for_with_timeout (fuel : nat) ws sequence cursor dependent_sequences timeout :=
  wait_for_with_timeout_and_alert fuel ws sequence cursor dependent_sequences timeout NeverAlerted.
Definition wait_for_with_shutdown (fuel : nat) ws sequence cursor dependent_sequences shutdown_flag :=
  wait_for_with_shutdown_and_alert fuel ws sequence cursor dependent_sequences shutdown_flag NeverAlerted.

(** ** Reference loops

    The polling strategies differ only in what they do after a miss.  Their
    waits are proved to be those of one loop per method over an idle policy,
    and the contracts below are proved of that loop. *)

(** The new counter and the action of the simple strategies at a miss. *)
Definition simple_idle (s : SimpleStrategy) (miss : Z) : Z * Idle :=
  let miss' := Z.min (miss + 1) u32_max in
  match s with
  | BusySpin => (miss', Nothing)
  | BusySpinWithHint => (miss', SpinLoop)
  | Yielding spin_tries => (miss', if miss <? spin_tries then SpinLoop else YieldNow)
  | Sleeping sleep_nanos => (miss', Sleep sleep_nanos)
  end.

(** The local counter a strategy starts a wait with, and its step at a miss. *)
Definition idle_init ws : Z :=
  match ws with YieldingWaitStrategy => SPIN_TRIES | _ => 0 end.

Definition idle_step ws (x : Z) : Z * Idle :=
  match ws with
  | BlockingWaitStrategy => (x, SpinLoop)
  | YieldingWaitStrategy => apply_wait_method x
  | BusySpinWaitStrategy => (x, SpinLoop)
  | SleepingWaitStrategy sleep_duration => (x, Sleep sleep_duration)
  | SimpleWaitStrategyAdapter strategy => simple_idle strategy x
  end.

Definition idle_between ws (x : Z) : M W Z :=
  let '(x', i) := idle_step ws x in let* _ := pause i in ret x'.

Definition poll_with_alert (fuel : nat) ws (sequence : Z) (cursor : loc)
    (dependent_sequences : list loc) (alerted : AlertFlag) : M W (result Z DisruptorError) :=
  loop fuel (fun x =>
    let* a := flag_load alerted in
    if a then ret (inr (Err Alert)) else
    let* available := wait_available_sequence cursor dependent_sequences in
    if sequence <=? available then ret (inr (Ok available)) else
    let* x' := idle_between ws x in ret (inl x')) (idle_init ws).

Definition poll_with_timeout (fuel : nat) ws (sequence : Z) (cursor : loc)
    (dependent_sequences : list loc) (timeout : Z) (alerted : AlertFlag) :
    M W (result Z DisruptorError) :=
  let* start := now in
  loop fuel (fun x =>
    let* a := flag_load alerted in
    if a then ret (inr (Err Alert)) else
    let* available := wait_available_sequence cursor dependent_sequences in
    if sequence <=? available then ret (inr (Ok available)) else
    let* a := flag_load alerted in
    if a then ret (inr (Err Alert)) else
    let* t := elapsed start in
    if timeout <=? t then ret (inr (Err Timeout)) else
    let* x' := idle_between ws x in ret (inl x')) (idle_init ws).

Definition poll_with_shutdown (fuel : nat) ws (sequence : Z) (cursor : loc)
    (dependent_sequences : list loc) (shutdown_flag : loc) (alerted : AlertFlag) :
    M W (result Z DisruptorError) :=
  loop fuel (fun x =>
    let* s := load (fun w => flag_at w shutdown_flag) in
    if s then ret (inr (Err Alert)) else
    let* a := flag_load alerted in
    if a then ret (inr (Err Alert)) else
    let* available := wait_available_sequence cursor dependent_sequences in
    if sequence <=? available then ret (inr (Ok available)) else
    let* x' := idle_between ws x in ret (inl x')) (idle_init ws).

(** Two polls that differ in what they do after a miss, and in its counter. *)
Section Polls.
Context {X Y : Type} (P : X -> Y -> Prop).
Context (f : X -> M W (X + result Z DisruptorError)) (g : Y -> M W (Y + result Z DisruptorError)).
Context (Hmiss : forall x y, P x y -> sim (sum_rel P eq) (f x) (g y)).
Context (sequence : Z) (cursor : loc) (deps : list loc) (alerted : AlertFlag).

Definition poll {X} (miss : X -> M W (X + result Z DisruptorError)) (x : X) : M W (X + result Z DisruptorError) :=
  let* a := flag_load alerted in
  if a then ret (inr (Err Alert)) else
  let* available := wait_available_sequence cursor deps in
  if sequence <=? available then ret (inr (Ok available)) else miss x.

Definition shutdown_poll {X} shutdown_flag (miss : X -> M W (X + result Z DisruptorError)) (x : X) :
    M W (X + result Z DisruptorError) :=
  let* s := load (fun w => flag_at w shutdown_flag) in
  if s then ret (inr (Err Alert)) else poll miss x.

Definition timed_poll {X} (timeout start : Z) (miss : X -> M W (X + result Z DisruptorError)) (x : X) :
    M W (X + result Z DisruptorError) :=
  poll (fun x =>
    let* a := flag_load alerted in
    if a then ret (inr (Err Alert)) else
    let* t := elapsed start in
    if timeout <=? t then ret (inr (Err Timeout)) else miss x) x.

Lemma sim_poll (f' : X -> M W (X + result Z DisruptorError)) (g' : Y -> M W (Y + result Z DisruptorError)) x y :
  sim (sum_rel P eq) (f' x) (g' y) -> sim (sum_rel P eq) (poll f' x) (poll g' y).
Proof. intros H. unfold poll. repeat sim_step; cbn; done. Qed.

Lemma sim_with_alert fuel x y : P x y -> sim eq (loop fuel (poll f) x) (loop fuel (poll g) y).
Proof. apply sim_loop. intros x' y' H. by apply sim_poll, Hmiss. Qed.

Lemma sim_with_shutdown fuel l x y :
  P x y -> sim eq (loop fuel (shutdown_poll l f) x) (loop fuel (shutdown_poll l g) y).
Proof.
  apply sim_loop. intros x' y' H. unfold shutdown_poll. repeat sim_step; cbn; try done. by apply sim_poll, Hmiss.
Qed.

Lemma sim_with_timeout fuel timeout x y :
  P x y ->
  sim eq (let* start := now in loop fuel (timed_poll timeout start f) x)
         (let* start := now in loop fuel (timed_poll timeout start g) y).
Proof.
  intros H. sim_step. revert H. apply sim_loop. intros x' y' H. apply sim_poll.
  repeat sim_step; cbn; try done. by apply Hmiss.
Qed.

End Polls.

(** What the reference loops do after a miss. *)
Definition reference_miss ws (y : Z) : M W (Z + result Z DisruptorError) :=
  let* y' := idle_between ws y in ret (inl y').

(** The three waits of a type that polls with the step [f] after a miss. *)
Record polls_with {S X} `{!WaitTrait S} (s : S) (f : X -> M W (X + result Z DisruptorError)) (x0 : X) : Prop := {
  pw_alert : forall fuel q c d a, wait_with_alert fuel s q c d a = loop fuel (poll q c d a f) x0;
  pw_timeout : forall fuel q c d t a,
    wait_with_timeout fuel s q c d t a = (let* start := now in loop fuel (timed_poll q c d a t start f) x0);
  pw_shutdown : forall fuel q c d l a, wait_with_shutdown fuel s q c d l a = loop fuel (shutdown_poll q c d a l f) x0
}.

(** The waits of [ws] are the reference loops. *)
Record polling ws : Prop := {
  po_alert : forall fuel q c d a, wait_for_with_alert fuel ws q c d a ≈ poll_with_alert fuel ws q c d a;
  po_timeout : forall fuel q c d t a, wait_for_with_timeout_and_alert fuel ws q c d t a ≈ poll_with_timeout fuel ws q c d t a;
  po_shutdown : forall fuel q c d f a, wait_for_with_shutdown_and_alert fuel ws q c d f a ≈ poll_with_shutdown fuel ws q c d f a
}.

Lemma polling_intro {X} ws (P : X -> Z -> Prop) f (x0 : X) :
  polls_with (impl_of ws) f x0 -> P x0 (idle_init ws) ->
  (forall x y, P x y -> sim (sum_rel P eq) (f x) (reference_miss ws y)) -> polling ws.
Proof.
  intros [Ha Ht Hs] H0 Hsim. constructor; intros.
  - unfold wait_for_with_alert. rewrite Ha. by apply sim_meq, (sim_with_alert P _ (reference_miss ws)).
  - unfold wait_for_with_timeout_and_alert. rewrite Ht. by apply sim_meq, (sim_with_timeout P _ (reference_miss ws)).
  - unfold wait_for_with_shutdown_and_alert. rewrite Hs. by apply sim_meq, (sim_with_shutdown P _ (reference_miss ws)).
Qed.

(** The adapter counts its misses as the reference does. *)
Lemma polling_adapter {S} `{!SimpleWait S} (s : S) st :
  impl_of (SimpleWaitStrategyAdapter st) = mkBoxDyn _ adapter_trait (mkAdapter s) ->
  (forall miss, backoff_with_miss s miss ≈ idle_between (SimpleWaitStrategyAdapter st) miss) ->
  polling (SimpleWaitStrategyAdapter st).
Proof.
  intros Heq Hs. apply (polling_intro _ eq (fun m => let* m := backoff_with_miss s m in ret (inl m)) 0); [by rewrite Heq | done |].
  intros x ? <-. unfold reference_miss. apply (sim_bind eq); [|intros ? ? <-; by apply sim_ret].
  intros e k w. rewrite Hs. apply sim_refl.
Qed.

(** The strategies but the blocking one run the polling loops. *)
Lemma blocking_or_polling ws : ws = BlockingWaitStrategy \/ polling ws.
Proof.
  destruct ws as [| | |d|[| |n|n]]; [by left | right..].
  - apply (polling_intro _ eq (fun c => let* c := yielding_idle c in ret (inl c)) SPIN_TRIES); try done.
    intros x ? <-. unfold reference_miss, idle_between, yielding_idle. cbn [idle_step]. unfold apply_wait_method.
    destruct (x =? 0); apply (sim_bind eq); try apply sim_refl; intros ? ? <-; by apply sim_ret.
  - by apply (polling_intro _ (fun _ _ => True) (fun _ => let* _ := pause SpinLoop in ret (inl tt)) tt).
  - by apply (polling_intro _ (fun _ _ => True) (fun _ => let* _ := pause (Sleep d) in ret (inl tt)) tt).
  - by apply (polling_adapter mkSimpleBusySpin).
  - by apply (polling_adapter mkSimpleBusySpinWithHint).
  - apply (polling_adapter (mkSimpleYielding n)); [done|]. intros miss e k w. unfold idle_between. cbn [idle_step simple_idle].
    cbn [backoff_with_miss yielding_simple]. unfold yielding_backoff_with_miss, yielding_action, is_spin_phase. cbn [spin_tries].
    by destruct (miss <? n).
  - by apply (polling_adapter (mkSimpleSleeping n)).
Qed.

(** ** What a wait promises *)

(** The durations of the strategies are unsigned in the code. *)
Definition durations_ok ws : Prop :=
  match ws with
  | SleepingWaitStrategy d => 0 <= d
  | SimpleWaitStrategyAdapter (Sleeping d) => 0 <= d
  | _ => True
  end.

(** A rely under which waits make sense: sequences and the clock only grow, and
    letting time pass is a move of the kind others make. *)
Class WaitRely (R : W -> W -> Prop) : Prop := {
  wr_preorder :: PreOrder R;
  wr_mono : forall w w' l, R w w' -> seq_at w l <= seq_at w' l;
  wr_clock : forall w w', R w w' -> w_clock w <= w_clock w';
  wr_sleep : forall w d, 0 <= d -> R w (upd_clock (Z.add d) w)
}.

(** What is visible through the barrier's dependent sequence group has reached
    [v]: the cursor without upstream consumers, all of them otherwise. *)
Definition reached (cursor : loc) (dependent_sequences : list loc) (v : Z) w : Prop :=
  match dependent_sequences with
  | [] => v <= seq_at w cursor
  | _ => forall d, d ∈ dependent_sequences -> v <= seq_at w d
  end.

(** An alert visible to a wait: the barrier's flag, or the strategy's own. *)
Definition alert_raised ws (alerted : AlertFlag) w : Prop :=
  alert_value alerted w = true \/ (ws = BlockingWaitStrategy /\ bs_alerted (w_wait w) = true).

(** The contract: an [Ok] covers the sequence waited for and is reached, an
    [Err] is one of the errors allowed. *)
Definition wait_post (R : W -> W -> Prop) sequence cursor deps (errs : DisruptorError -> W -> Prop)
    w (r : result Z DisruptorError) w' : Prop :=
  R w w' /\
  match r with
  | Ok v => sequence <= v /\ reached cursor deps v w'
  | Err e => errs e w'
  end.

Section Contracts.
Context (R : W -> W -> Prop) `{HR : !WaitRely R}.
Context (ws : WaitStrategy) (sequence : Z) (cursor : loc) (deps : list loc) (alerted : AlertFlag).
Context (Hws : durations_ok ws).

Lemma reached_rely v w w' : reached cursor deps v w -> R w w' -> reached cursor deps v w'.
Proof.
  intros H Hr. destruct deps as [|d ds]; cbn in *.
  - etrans; [exact H | by apply wr_mono].
  - intros d' Hd'. etrans; [by apply H | by apply wr_mono].
Qed.

Lemma wp_wait_available (Q : Z -> W -> Prop) w :
  (forall v w', R w w' -> reached cursor deps v w' -> Q v w') ->
  wp R (wait_available_sequence cursor deps) Q w.
Proof.
  clear dependent ws. intros HQ. unfold reached, wait_available_sequence in *. destruct deps as [|d ds].
  - apply wp_load. intros w' Hw'. by apply HQ.
  - cbn [Sequence.get_minimum_sequence]. apply wp_bind, wp_load. intros w1 Hx1.
    apply (wp_minimum_loop R ds (d :: ds)); [reflexivity | intros x y z; apply transitivity | | set_solver |].
    + intros x y Hxy l _. by apply wr_mono.
    + intros m w2 Hx2 Hm _ Hall. apply HQ; [by etrans|]. intros d' [->|Hd']%elem_of_cons; [|by apply Hall].
      etrans; [exact Hm | by apply wr_mono].
Qed.

Lemma wp_pause i (Q : unit -> W -> Prop) w :
  (forall d, i = Sleep d -> 0 <= d) -> (forall w', R w w' -> Q tt w') -> wp R (pause i) Q w.
Proof.
  intros Hd HQ. destruct i; cbn [pause]; try (apply wp_load; intros; by apply HQ); [by apply wp_ret, HQ|].
  apply wp_store. intros w' Hw'. apply HQ. etrans; [exact Hw' | by apply wr_sleep, Hd].
Qed.

Lemma wp_idle_between x (Q : Z -> W -> Prop) w :
  (forall x' w', R w w' -> Q x' w') -> wp R (idle_between ws x) Q w.
Proof.
  intros HQ. unfold idle_between. destruct (idle_step ws x) as [x' i] eqn:Hi. apply wp_bind, wp_pause.
  - intros d ->. unfold idle_step, apply_wait_method, simple_idle in Hi.
    destruct ws as [| | |d'|[| | |d']]; cbn in *; repeat case_match; simplify_eq; done.
  - intros w' Hw'. apply wp_ret. by apply HQ.
Qed.

(** The alert test of a blocking wait. *)
Lemma wp_is_alerted_with (Q : bool -> W -> Prop) w :
  (forall w', R w w' -> alert_value alerted w' = true \/ bs_alerted (w_wait w') = true -> Q true w') ->
  (forall w', R w w' -> Q false w') ->
  wp R (is_alerted_with alerted) Q w.
Proof.
  intros HT HF. apply wp_bind, wp_load. intros w1 Hx1. destruct (bs_alerted (w_wait w1)) eqn:Hb.
  - apply wp_ret. apply HT; auto.
  - apply wp_load. intros w2 Hx2. assert (R w w2) by (by etrans).
    destruct (alert_value alerted w2) eqn:Ha; auto.
Qed.

Lemma wp_condvar_wait fuel (Q : unit -> W -> Prop) w :
  (forall w', R w w' -> Q tt w') -> wp R (condvar_wait fuel) Q w.
Proof.
  intros HQ. apply wp_bind, wp_read. apply (wp_loop R (fun _ w' => R w w')); [|reflexivity].
  intros [] w1 Hx1. apply wp_bind, wp_load. intros w2 Hx2. assert (R w w2) by (by etrans).
  case_match; apply wp_ret; auto.
Qed.

Lemma wp_elapsed start (Q : Z -> W -> Prop) w :
  (forall w', R w w' -> Q (Z.max 0 (w_clock w' - start)) w') -> wp R (elapsed start) Q w.
Proof. intros HQ. apply wp_bind, wp_load. intros w' Hw'. apply wp_ret. by apply HQ. Qed.

(** The errors each kind of wait may end with. *)
Definition alert_only (e : DisruptorError) w : Prop := e = Alert /\ alert_raised ws alerted w.

Definition alert_or_timeout (w0 : W) (timeout : Z) (e : DisruptorError) w : Prop :=
  alert_only e w \/ (e = Timeout /\ w_clock w0 + timeout <= w_clock w).

Definition alert_or_shutdown (shutdown_flag : loc) (e : DisruptorError) w : Prop :=
  e = Alert /\ (flag_at w shutdown_flag = true \/ alert_raised ws alerted w).

Lemma wp_poll_with_alert fuel w :
  wp R (poll_with_alert fuel ws sequence cursor deps alerted) (wait_post R sequence cursor deps alert_only w) w.
Proof.
  apply (wp_loop R (fun _ w' => R w w')); [|reflexivity]. intros x w0 Hx0.
  apply wp_bind, wp_load. intros w1 Hx1. assert (R w w1) by (by etrans).
  destruct (alert_value alerted w1) eqn:Ha; [apply wp_ret; split; [done|]; split; [done | by left]|].
  apply wp_bind, wp_wait_available. intros v w2 Hx2 Hv. assert (R w w2) by (by etrans).
  destruct (Z.leb_spec sequence v); [by apply wp_ret|].
  apply wp_bind, wp_idle_between. intros x' w3 Hx3. apply wp_ret. by etrans.
Qed.

Lemma wp_poll_with_timeout fuel timeout w :
  0 <= timeout ->
  wp R (poll_with_timeout fuel ws sequence cursor deps timeout alerted)
    (wait_post R sequence cursor deps (alert_or_timeout w timeout) w) w.
Proof.
  intros Ht. apply wp_bind, wp_load. intros ws' Hs.
  apply (wp_loop R (fun _ w' => R ws' w')); [|reflexivity]. intros x w0 Hx0.
  pose proof (wr_clock _ _ Hs).
  apply wp_bind, wp_load. intros w1 Hx1. assert (R w w1) by (by do 2 (etrans; [done|])).
  destruct (alert_value alerted w1) eqn:Ha; [apply wp_ret; split; [done|]; left; split; [done | by left]|].
  apply wp_bind, wp_wait_available. intros v w2 Hx2 Hv. assert (R w w2) by (by etrans).
  destruct (Z.leb_spec sequence v); [by apply wp_ret|].
  apply wp_bind, wp_load. intros w3 Hx3. assert (R w w3) by (by etrans).
  destruct (alert_value alerted w3) eqn:Ha'; [apply wp_ret; split; [done|]; left; split; [done | by left]|].
  apply wp_bind, wp_elapsed. intros w4 Hx4. assert (R w w4) by (by etrans).
  assert (R ws' w4) by (etrans; [exact Hx0|]; etrans; [exact Hx1|]; etrans; [exact Hx2|]; by etrans).
  pose proof (wr_clock ws' w4 ltac:(done)).
  destruct (Z.leb_spec timeout (Z.max 0 (w_clock w4 - w_clock ws'))).
  - apply wp_ret. split; [done|]. right. split; [done|]. lia.
  - apply wp_bind, wp_idle_between. intros x' w5 Hx5. apply wp_ret. by etrans.
Qed.

Lemma wp_poll_with_shutdown fuel shutdown_flag w :
  wp R (poll_with_shutdown fuel ws sequence cursor deps shutdown_flag alerted)
    (wait_post R sequence cursor deps (alert_or_shutdown shutdown_flag) w) w.
Proof.
  apply (wp_loop R (fun _ w' => R w w')); [|reflexivity]. intros x w0 Hx0.
  apply wp_bind, wp_load. intros w1 Hx1. assert (R w w1) by (by etrans).
  destruct (flag_at w1 shutdown_flag) eqn:Hs; [apply wp_ret; split; [done|]; split; [done | by left]|].
  apply wp_bind, wp_load. intros w2 Hx2. assert (R w w2) by (by etrans).
  destruct (alert_value alerted w2) eqn:Ha; [apply wp_ret; split; [done|]; split; [done | right; by left]|].
  apply wp_bind, wp_wait_available. intros v w3 Hx3 Hv. assert (R w w3) by (by etrans).
  destruct (Z.leb_spec sequence v); [by apply wp_ret|].
  apply wp_bind, wp_idle_between. intros x' w4 Hx4. apply wp_ret. by etrans.
Qed.

(** ** The blocking strategy meets the same contract *)

(** The two spin phases that follow the parked phase. *)
Lemma wp_blocking_with_alert fuel w :
  ws = BlockingWaitStrategy ->
  wp R (blocking_with_alert fuel sequence cursor deps alerted) (wait_post R sequence cursor deps alert_only w) w.
Proof.
  intros Hb. apply wp_bind, wp_load. intros w1 Hx1. apply wp_try.
  apply (wp_mono R _ (fun r w' => R w w' /\ match r with Ok _ => True | Err e => alert_only e w' end)).
  - destruct (seq_at w1 cursor <? sequence); [|by apply wp_ret].
    apply wp_bind, wp_load. intros w2 Hx2.
    apply (wp_loop R (fun _ w' => R w w')); [|by etrans]. intros [] w3 Hx3.
    apply wp_bind, wp_load. intros w4 Hx4. assert (R w w4) by (by etrans).
    destruct (seq_at w4 cursor <? sequence); [|by apply wp_ret].
    apply wp_bind, wp_is_alerted_with.
    + intros w5 Hx5 Ha. apply wp_ret. split; [by etrans|]. split; [done|]. destruct Ha; [by left | by right].
    + intros w5 Hx5. apply wp_bind, wp_condvar_wait. intros w6 Hx6. apply wp_ret. etrans; [|exact Hx6]. by etrans.
  - intros [[]|e] w2 [Hx2 He]; [|done]. apply (wp_loop R (fun _ w' => R w w')); [|done]. intros [] w3 Hx3.
    apply wp_bind, wp_wait_available. intros v w4 Hx4 Hv. assert (R w w4) by (by etrans).
    destruct (Z.leb_spec sequence v); [by apply wp_ret|].
    apply wp_bind, wp_is_alerted_with.
    + intros w5 Hx5 Ha. apply wp_ret. split; [by etrans|]. split; [done|]. destruct Ha; [by left | by right].
    + intros w5 Hx5. apply wp_bind, wp_pause; [done|]. intros w6 Hx6. apply wp_ret. etrans; [|exact Hx6]. by etrans.
Qed.

(** The timed park of [blocking_with_timeout]: it does not end before the
    deadline unless it was notified. *)
Lemma wp_condvar_wait_for remaining (Q : bool -> W -> Prop) w :
  0 <= remaining ->
  (forall w', R w w' -> Q false w') ->
  (forall w', R w w' -> w_clock w + remaining <= w_clock w' -> Q true w') ->
  wp R (condvar_wait_for remaining) Q w.
Proof.
  intros Hr HF HT. apply wp_bind, wp_read, wp_atomic. intros w1 Hx1.
  destruct (bs_notified (w_wait w1) =? _); cbn [fst snd]; [|by apply HF].
  apply HT; [etrans; [exact Hx1 | by apply wr_sleep]|]. cbn. pose proof (wr_clock _ _ Hx1). lia.
Qed.

Lemma wp_blocking_park fuel timeout w0 w1 w2 :
  ws = BlockingWaitStrategy -> 0 <= timeout -> R w0 w1 -> R w1 w2 ->
  wp R (loop fuel (fun _ : unit =>
         let* c := Sequence.get cursor in
         if c <? sequence then
           let* a := is_alerted_with alerted in
           if a then ret (inr (Err Alert)) else
           let* t := elapsed (w_clock w1) in
           if timeout <=? t then ret (inr (Err Timeout)) else
           let* t := elapsed (w_clock w1) in
           let remaining := Z.max 0 (timeout - t) in
           if remaining =? 0 then ret (inr (Err Timeout)) else
           let* timed_out := condvar_wait_for remaining in
           if timed_out then
             let* a := is_alerted_with alerted in
             if a then ret (inr (Err Alert)) else ret (inr (Err Timeout))
           else ret (inl tt)
         else ret (inr (Ok tt))) tt)
    (fun r w' => R w1 w' /\ match r with Ok _ => True | Err e => alert_or_timeout w0 timeout e w' end) w2.
Proof.
  intros Hb Ht Hx0 Hx2. pose proof (wr_clock _ _ Hx0) as Hc0.
  apply (wp_loop R (fun _ w' => R w1 w')); [|done]. intros [] w3 Hx3.
  apply wp_bind, wp_load. intros w4 Hx4. assert (Hr4 : R w1 w4) by (by etrans).
  destruct (seq_at w4 cursor <? sequence); [|by apply wp_ret].
  apply wp_bind, wp_is_alerted_with.
  { intros w5 Hx5 Ha. apply wp_ret. split; [by etrans|]. left. split; [done|]. destruct Ha; [by left | by right]. }
  intros w5 Hx5. assert (Hr5 : R w1 w5) by (by etrans).
  apply wp_bind, wp_elapsed. intros w6 Hx6. assert (Hr6 : R w1 w6) by (by etrans).
  pose proof (wr_clock _ _ Hr6). destruct (Z.leb_spec timeout (Z.max 0 (w_clock w6 - w_clock w1))).
  { apply wp_ret. split; [done|]. right. split; [done | lia]. }
  apply wp_bind, wp_elapsed. intros w7 Hx7. assert (Hr7 : R w1 w7) by (by etrans).
  pose proof (wr_clock _ _ Hr7). cbv zeta.
  destruct (Z.eqb_spec (Z.max 0 (timeout - Z.max 0 (w_clock w7 - w_clock w1))) 0).
  { apply wp_ret. split; [done|]. right. split; [done | lia]. }
  apply wp_bind, wp_condvar_wait_for; [lia | intros w8 Hx8; apply wp_ret; by etrans|].
  intros w8 Hx8 Hc8. assert (Hr8 : R w1 w8) by (by etrans). apply wp_bind, wp_is_alerted_with.
  - intros w9 Hx9 Ha. apply wp_ret. split; [by etrans|]. left. split; [done|]. destruct Ha; [by left | by right].
  - intros w9 Hx9. apply wp_ret. split; [by etrans|]. right. split; [done|]. pose proof (wr_clock _ _ Hx9). lia.
Qed.

Lemma wp_blocking_with_timeout fuel timeout w :
  ws = BlockingWaitStrategy -> 0 <= timeout ->
  wp R (blocking_with_timeout fuel sequence cursor deps timeout alerted)
    (wait_post R sequence cursor deps (alert_or_timeout w timeout) w) w.
Proof.
  intros Hb Ht. apply wp_bind, wp_load. intros ws' Hs. apply wp_bind, wp_load. intros w1 Hx1. apply wp_try.
  pose proof (wr_clock _ _ Hs).
  apply (wp_mono R _ (fun r w' => R ws' w' /\ match r with Ok _ => True | Err e => alert_or_timeout w timeout e w' end)).
  - destruct (seq_at w1 cursor <? sequence); [|by apply wp_ret].
    apply wp_bind, wp_load. intros w2 Hx2. apply wp_blocking_park; [done | done | done | by etrans].
  - intros [[]|e] w2 [Hx2 He]; [|split; [by etrans | done]].
    apply (wp_loop R (fun _ w' => R ws' w')); [|done]. intros [] w3 Hx3.
    apply wp_bind, wp_wait_available. intros v w4 Hx4 Hv. assert (Hr4 : R ws' w4) by (by etrans).
    destruct (Z.leb_spec sequence v); [apply wp_ret; split; [by etrans | done]|].
    apply wp_bind, wp_is_alerted_with.
    + intros w5 Hx5 Ha. apply wp_ret. split; [etrans; [exact Hs|]; by etrans|]. left. split; [done|]. destruct Ha; [by left | by right].
    + intros w5 Hx5. apply wp_bind, wp_elapsed. intros w6 Hx6. assert (Hr6 : R ws' w6) by (etrans; [|exact Hx6]; by etrans).
      pose proof (wr_clock _ _ Hr6). destruct (Z.leb_spec timeout (Z.max 0 (w_clock w6 - w_clock ws'))).
      * apply wp_ret. split; [by etrans|]. right. split; [done | lia].
      * apply wp_bind, wp_pause; [done|]. intros w7 Hx7. apply wp_ret. by etrans.
Qed.

(** ** Every strategy *)

Lemma wp_wait_for_with_alert fuel w :
  wp R (wait_for_with_alert fuel ws sequence cursor deps alerted) (wait_post R sequence cursor deps alert_only w) w.
Proof.
  destruct (blocking_or_polling ws) as [Hb|Hp]; [|rewrite (po_alert _ Hp); by apply wp_poll_with_alert].
  assert (wait_for_with_alert fuel ws = blocking_with_alert fuel) as -> by (by rewrite Hb).
  by apply wp_blocking_with_alert.
Qed.

Lemma wp_wait_for_with_timeout_and_alert fuel timeout w :
  0 <= timeout ->
  wp R (wait_for_with_timeout_and_alert fuel ws sequence cursor deps timeout alerted)
    (wait_post R sequence cursor deps (alert_or_timeout w timeout) w) w.
Proof.
  intros Ht. destruct (blocking_or_polling ws) as [Hb|Hp]; [|rewrite (po_timeout _ Hp); by apply wp_poll_with_timeout].
  assert (wait_for_with_timeout_and_alert fuel ws = blocking_with_timeout fuel) as -> by (by rewrite Hb).
  by apply wp_blocking_with_timeout.
Qed.

Lemma wp_blocking_with_shutdown fuel shutdown_flag w :
  ws = BlockingWaitStrategy ->
  wp R (wait_for_with_shutdown_and_alert fuel ws sequence cursor deps shutdown_flag alerted)
    (wait_post R sequence cursor deps (alert_or_shutdown shutdown_flag) w) w.
Proof.
  intros Hb. assert (wait_for_with_shutdown_and_alert fuel ws sequence cursor deps shutdown_flag alerted =
    trait_default_with_shutdown (fun t => wait_for_with_timeout_and_alert fuel ws sequence cursor deps t alerted)
      fuel shutdown_flag alerted) as -> by (by rewrite Hb).
  apply (wp_loop R (fun _ w' => R w w')); [|reflexivity]. intros [] w0 Hx0.
  apply wp_bind, wp_load. intros w1 Hx1. assert (R w w1) by (by etrans).
  destruct (flag_at w1 shutdown_flag) eqn:Hs; [apply wp_ret; split; [done|]; split; [done | by left]|].
  apply wp_bind, wp_load. intros w2 Hx2. assert (R w w2) by (by etrans).
  destruct (alert_value alerted w2) eqn:Ha; [apply wp_ret; split; [done|]; split; [done | right; by left]|].
  apply wp_bind. eapply wp_mono; [apply wp_wait_for_with_timeout_and_alert; unfold check_interval; lia|].
  intros r w3 [Hx3 Hr]. assert (R w w3) by (by etrans). destruct r as [v|e]; [by apply wp_ret|].
  destruct Hr as [[-> Hr] | [-> _]]; apply wp_ret; [|done]. split; [done|]. split; [done | by right].
Qed.

Lemma wp_wait_for_with_shutdown_and_alert fuel shutdown_flag w :
  wp R (wait_for_with_shutdown_and_alert fuel ws sequence cursor deps shutdown_flag alerted)
    (wait_post R sequence cursor deps (alert_or_shutdown shutdown_flag) w) w.
Proof.
  destruct (blocking_or_polling ws) as [Hb|Hp]; [by apply wp_blocking_with_shutdown|].
  rewrite (po_shutdown _ Hp). by apply wp_poll_with_shutdown.
Qed.

(** C27: Every wait of every strategy, against any threads that only move sequences
    and the clock forward: an [Ok] is at least the sequence asked for and every
    upstream consumer (the cursor, without any) has reached it; the alert
    variant fails only for a raised alert, the timed one also for a deadline
    that has really passed, the shutdown one also for the shutdown flag. *)
Theorem wait_contracts fuel timeout shutdown_flag w :
  0 <= timeout ->
  wp R (wait_for_with_alert fuel ws sequence cursor deps alerted)
    (wait_post R sequence cursor deps alert_only w) w /\
  wp R (wait_for_with_timeout_and_alert fuel ws sequence cursor deps timeout alerted)
    (wait_post R sequence cursor deps (alert_or_timeout w timeout) w) w /\
  wp R (wait_for_with_shutdown_and_alert fuel ws sequence cursor deps shutdown_flag alerted)
    (wait_post R sequence cursor deps (alert_or_shutdown shutdown_flag) w) w.
Proof.
  intros Ht. split_and!; [apply wp_wait_for_with_alert | by apply wp_wait_for_with_timeout_and_alert |
    apply wp_wait_for_with_shutdown_and_alert].
Qed.

End Contracts.

(** ** Progress *)

Section Progress.
Context (e : env W) (ws : WaitStrategy) (sequence : Z) (cursor : loc) (deps : list loc) (alerted : AlertFlag).

(** The scan returns; loads made while every sequence is at least [b] give at
    least [b]. *)
Lemma twp_minimum_bound ls minimum k w :
  twp e (Sequence.minimum_loop ls minimum)
    (fun m k' _ => (k <= k')%nat /\ forall b, b <= minimum ->
       (forall j w l, (k <= j)%nat -> l ∈ ls -> b <= seq_at (e j w) l) -> b <= m) k w.
Proof.
  revert minimum k w. induction ls as [|l ls IH]; intros minimum k w; [by apply twp_ret|].
  cbn [Sequence.minimum_loop]. apply twp_bind, twp_load. eapply twp_mono; [apply IH|].
  intros m k' w' [Hk Hb]. split; [lia|]. intros b Hm Hall. apply Hb.
  - specialize (Hall k w l ltac:(lia) ltac:(set_solver)). case_match; lia.
  - intros j w'' l' Hj Hl'. apply Hall; [lia | set_solver].
Qed.

(** From action [k0] of the schedule on, what is waited for is there. *)
Definition reached_from (k0 : nat) : Prop :=
  forall j w, (k0 <= j)%nat -> reached cursor deps sequence (e j w).

(** From action [k0] on, the alert flag is up. *)
Definition alerted_from (k0 : nat) : Prop :=
  forall j w, (k0 <= j)%nat -> alert_value alerted (e j w) = true.

Lemma twp_wait_available k0 k w :
  twp e (wait_available_sequence cursor deps)
    (fun v k' _ => (k < k')%nat /\ ((k0 <= k)%nat -> reached_from k0 -> sequence <= v)) k w.
Proof.
  unfold wait_available_sequence, reached_from, reached. destruct deps as [|d ds].
  - apply twp_load. split; [lia|]. intros Hk Hall. by apply Hall.
  - cbn [Sequence.get_minimum_sequence]. apply twp_bind, twp_load.
    eapply twp_mono; [apply twp_minimum_bound|]. intros m k' w' [Hk' Hb]. split; [lia|].
    intros Hk Hall. apply Hb.
    + apply Hall; [lia | set_solver].
    + intros j w'' l Hj Hl. apply Hall; [lia | set_solver].
Qed.

Lemma twp_idle_between x k w (Q : Z -> nat -> W -> Prop) :
  (forall x' k' w', (k <= k')%nat -> Q x' k' w') -> twp e (idle_between ws x) Q k w.
Proof.
  intros HQ. unfold idle_between. destruct (idle_step ws x) as [x' i]. apply twp_bind.
  destruct i; cbn [pause]; first [apply twp_load | apply twp_store | apply twp_ret]; apply twp_ret, HQ; lia.
Qed.

Lemma twp_poll_with_alert k0 fuel k w :
  reached_from k0 \/ alerted_from k0 -> (k0 - k < fuel)%nat ->
  twp e (poll_with_alert fuel ws sequence cursor deps alerted) (fun _ k' _ => (k <= k')%nat) k w.
Proof.
  intros Hprog Hf. apply (twp_loop e _ (fun _ k' _ => (k <= k')%nat) _ k0); [|done|done].
  intros x w1 k1 Hk1. apply twp_bind, twp_load. destruct (alert_value alerted (e k1 w1)) eqn:Ha; [apply twp_ret; lia|].
  apply twp_bind. eapply twp_mono; [apply (twp_wait_available k0)|]. intros v k2 w2 [Hk Hv].
  destruct (Z.leb_spec sequence v); [apply twp_ret; lia|].
  apply twp_bind, twp_idle_between. intros x' k3 w3 Hk3. apply twp_ret. split; [lia|]. split; [|lia].
  destruct (Nat.lt_ge_cases k1 k0) as [|Hge]; [done|]. exfalso. destruct Hprog as [Hr|Hal].
  - specialize (Hv ltac:(lia) Hr). lia.
  - by rewrite Hal in Ha by done.
Qed.

Lemma twp_poll_with_shutdown shutdown_flag k0 fuel k w :
  (forall j w, (k0 <= j)%nat -> flag_at (e j w) shutdown_flag = true) -> (k0 - k < fuel)%nat ->
  twp e (poll_with_shutdown fuel ws sequence cursor deps shutdown_flag alerted) (fun _ k' _ => (k <= k')%nat) k w.
Proof.
  intros Hs Hf. apply (twp_loop e _ (fun _ k' _ => (k <= k')%nat) _ k0); [|done|done].
  intros x w1 k1 Hk1. apply twp_bind, twp_load. destruct (flag_at (e k1 w1) shutdown_flag) eqn:Hfl; [apply twp_ret; lia|].
  apply twp_bind, twp_load. destruct (alert_value alerted _); [apply twp_ret; lia|].
  apply twp_bind. eapply twp_mono; [apply (twp_wait_available k0)|]. intros v k2 w2 [Hk _].
  destruct (Z.leb_spec sequence v); [apply twp_ret; lia|].
  apply twp_bind, twp_idle_between. intros x' k3 w3 Hk3. apply twp_ret. split; [lia|]. split; [|lia].
  destruct (Nat.lt_ge_cases k1 k0) as [|Hge]; [done|]. by rewrite Hs in Hfl by done.
Qed.

End Progress.

(** A polling wait (every strategy but the blocking one) does not outlast its
    cause: if from some action on what it waits for has been reached, or the
    alert is up, then it returns, with an [Ok] that covers the sequence or the
    alert. *)
Lemma polling_wait_returns R `{!WaitRely R} (e : env W) ws sequence cursor deps alerted k0 fuel k w :
  ws <> BlockingWaitStrategy -> durations_ok ws -> respects R e ->
  reached_from e sequence cursor deps k0 \/ alerted_from e alerted k0 -> (k0 - k < fuel)%nat ->
  exists r k' w', wait_for_with_alert fuel ws sequence cursor deps alerted e k w = Done r k' w' /\
    match r with
    | Ok v => sequence <= v /\ reached cursor deps v w'
    | Err err => err = Alert /\ alert_value alerted w' = true
    end.
Proof.
  intros Hnb Hd He Hprog Hf. destruct (blocking_or_polling ws) as [|Hp]; [done|].
  edestruct (wp_twp R e (wait_for_with_alert fuel ws sequence cursor deps alerted)) as (r & k' & w' & Hrun & Hpost);
    [done | by apply (wp_wait_for_with_alert R) | rewrite (po_alert _ Hp); eapply twp_mono; [by apply (twp_poll_with_alert e ws sequence cursor deps alerted k0) | done]|].
  exists r, k', w'. split; [done|]. destruct Hpost as [_ Hpost]. destruct r as [v|err]; [done|].
  destruct Hpost as [-> [Ha|[? _]]]; done.
Qed.

(** ** Deadlines *)

(** How many more sleeps of [d] fit before the deadline. *)
Definition sleeps_left (deadline d : Z) w : nat := Z.to_nat ((deadline - w_clock w - 1) / d + 1).

Lemma sleeps_left_decr deadline d w w' :
  0 < d -> w_clock w < deadline -> w_clock w + d <= w_clock w' ->
  (sleeps_left deadline d w' < sleeps_left deadline d w)%nat.
Proof.
  intros Hd Hlt Hc. unfold sleeps_left.
  pose proof (Z.div_le_mono (deadline - w_clock w' - 1) (deadline - w_clock w - 1 + (-1) * d) d ltac:(lia) ltac:(lia)) as Hle.
  rewrite Z.div_add in Hle by lia. pose proof (Z.div_pos (deadline - w_clock w - 1) d ltac:(lia) ltac:(lia)). lia.
Qed.

(** A timed wait on [SleepingWaitStrategy] always returns: whatever the other
    threads do, it performs at most one sleep per [sleep_duration] of its
    timeout and one more. *)
Lemma sleeping_timeout_returns R `{!WaitRely R} (e : env W) d sequence cursor deps timeout alerted fuel k w :
  0 < d -> 0 <= timeout -> respects R e -> (Z.to_nat (timeout / d) + 1 < fuel)%nat ->
  exists r k' w',
    wait_for_with_timeout_and_alert fuel (SleepingWaitStrategy d) sequence cursor deps timeout alerted e k w = Done r k' w' /\
    match r with
    | Ok v => sequence <= v /\ reached cursor deps v w'
    | Err err => err = Alert \/ (err = Timeout /\ w_clock w + timeout <= w_clock w')
    end.
Proof.
  intros Hd Ht He Hf. destruct (blocking_or_polling (SleepingWaitStrategy d)) as [|Hp]; [done|].
  enough (twp e (poll_with_timeout fuel (SleepingWaitStrategy d) sequence cursor deps timeout alerted) (fun _ _ _ => True) k w) as Htw.
  { edestruct (wp_twp R e (wait_for_with_timeout_and_alert fuel (SleepingWaitStrategy d) sequence cursor deps timeout alerted))
      as (r & k' & w' & Hrun & Hpost); [done | apply (wp_wait_for_with_timeout_and_alert R); [cbn; lia | done] | by rewrite (po_timeout _ Hp) |].
    exists r, k', w'. split; [done|]. destruct Hpost as [_ Hpost]. destruct r as [v|err]; [done|].
    destruct Hpost as [[-> _]|Hpost]; auto. }
  unfold poll_with_timeout. apply twp_bind, twp_load. set (w0 := e k w).
  apply (twp_loop_measure e (fun _ w' => sleeps_left (w_clock w0 + timeout) d w') _ (fun _ _ w' => R w0 w')); [|reflexivity|].
  - intros x w1 k1 Hr1. apply twp_bind, twp_load. destruct (alert_value alerted (e k1 w1)); [by apply twp_ret|].
    apply twp_bind. set (w1' := e k1 w1). assert (Hr1' : R w1 w1') by apply He.
    eapply twp_mono; [eapply (twp_wp R e _ _ (fun _ w' => R w1' w')); [done | by apply (wp_wait_available R) | apply (twp_wait_available e sequence cursor deps 0)]|].
    intros v k2 w2 [_ Hr2]. destruct (sequence <=? v); [by apply twp_ret|].
    apply twp_bind, twp_load. destruct (alert_value alerted (e k2 w2)); [by apply twp_ret|].
    apply twp_bind. unfold elapsed, now. apply twp_bind, twp_load, twp_ret.
    set (w3 := e (S k2) (e k2 w2)). assert (Hr3 : R w2 w3) by (etrans; apply He).
    destruct (Z.leb_spec timeout (Z.max 0 (w_clock w3 - w_clock w0))); [by apply twp_ret|].
    unfold idle_between. cbn [idle_step pause]. do 2 apply twp_bind. apply twp_store, twp_ret, twp_ret.
    set (w4 := e (S (S k2)) w3). assert (Hr4 : R w3 w4) by apply He.
    assert (Hr : R w1 w4) by (etrans; [exact Hr1'|]; etrans; [exact Hr2|]; by etrans). pose proof (wr_clock _ _ Hr).
    assert (Hr13 : R w1 w3) by (etrans; [exact Hr1'|]; by etrans). pose proof (wr_clock _ _ Hr13).
    split.
    + apply sleeps_left_decr; cbn; lia.
    + etrans; [exact Hr1|]. etrans; [exact Hr|]. apply wr_sleep. lia.
  - unfold sleeps_left. replace (w_clock w0 + timeout - w_clock w0 - 1) with (timeout - 1) by lia.
    pose proof (Z.div_le_mono (timeout - 1) timeout d ltac:(lia) ltac:(lia)). lia.
Qed.
(** ** Alert against availability *)

Lemma wait_available_idle cursor deps sequence k w :
  reached cursor deps sequence w ->
  exists v k', wait_available_sequence cursor deps idle k w = Done v k' w /\ sequence <= v.
Proof.
  intros Hr. unfold reached, wait_available_sequence in *. destruct deps as [|d ds]; [by eexists _, _|].
  cbn [Sequence.get_minimum_sequence]. unfold bind, Sequence.get, load, atomic. cbn [fst snd].
  change (idle k w) with w. destruct (Sequence.minimum_loop_idle ds (seq_at w d) (S k) w) as [k' ->].
  eexists _, _. split; [done|]. apply Sequence.min_value_glb; [apply Hr; set_solver|].
  intros l Hl. apply Hr. set_solver.
Qed.

(** With the alert up and the sequence already available, the strategies
    disagree: the polling ones (among them the simple ones) report the alert,
    the blocking one returns the sequence. *)
Lemma alert_wins_unless_blocking ws sequence cursor deps alerted fuel k w :
  alert_value alerted w = true -> reached cursor deps sequence w -> sequence <= seq_at w cursor -> (0 < fuel)%nat ->
  if bool_decide (ws = BlockingWaitStrategy)
  then exists v k', wait_for_with_alert fuel ws sequence cursor deps alerted idle k w = Done (Ok v) k' w /\ sequence <= v
  else exists k', wait_for_with_alert fuel ws sequence cursor deps alerted idle k w = Done (Err Alert) k' w.
Proof.
  intros Ha Hr Hc Hf. destruct fuel as [|fuel]; [lia|]. case_bool_decide as Hb.
  - subst ws. change (wait_for_with_alert (S fuel) BlockingWaitStrategy) with (blocking_with_alert (T := T) (S fuel)). unfold blocking_with_alert, try_, Sequence.get. unfold bind at 1, load at 1, atomic at 1.
    cbn [fst snd]. change (idle k w) with w. destruct (Z.ltb_spec (seq_at w cursor) sequence); [lia|].
    cbn [loop]. unfold bind at 1, ret at 1. unfold bind.
    destruct (wait_available_idle cursor deps sequence (S k) w Hr) as (v & k' & -> & Hv).
    destruct (Z.leb_spec sequence v); [|lia]. by exists v, k'.
  - destruct (blocking_or_polling ws) as [|Hp]; [done|]. exists (S k).
    rewrite (po_alert _ Hp _ _ _ _ _ idle k w). unfold poll_with_alert. cbn [loop]. unfold bind, flag_load, load, atomic. cbn [fst snd].
    change (idle k w) with w. by rewrite Ha.
Qed.

End WaitStrategy.
