(* ===== verification/Strategies.v ===== *)
(** * Strategies: the strategies against each other, and those of an application

    The simplified [Yielding] of disruptor/simple_wait_strategy.rs is a second
    implementation of [YieldingWaitStrategy] of disruptor/wait_strategy.rs; the
    two are proved to wait alike.  The waits of the adapter keep their contract
    for any strategy the application brings. *)
From S2P Require Import Prelude Effects Errors RingBuffer World Sequence Waiting WaitStrategy.

(** [busy_spin()], [busy_spin_with_hint()], [yielding()], [yielding_with_tries],
    [sleeping()], [sleeping_with_nanos] *)
Definition busy_spin : Adapter SimpleBusySpin := mkAdapter mkSimpleBusySpin.
Definition busy_spin_with_hint : Adapter SimpleBusySpinWithHint := mkAdapter mkSimpleBusySpinWithHint.
Definition yielding : Adapter SimpleYielding := mkAdapter yielding_default.
Definition yielding_with_tries (n : Z) : Adapter SimpleYielding := mkAdapter (mkSimpleYielding n).
Definition sleeping : Adapter SimpleSleeping := mkAdapter simple_sleeping_default.
Definition sleeping_with_nanos (n : Z) : Adapter SimpleSleeping := mkAdapter (mkSimpleSleeping n).

Section Strategies.
Context {T : Type}.
Abbreviation W := (World T).
Implicit Types w : W.

(** ** The simple yielding strategy is the full one *)

(** The full strategy counts down from [SPIN_TRIES], the simple one up from 0
    with saturation. *)
Definition counters (miss counter : Z) : Prop := 0 <= miss <= u32_max /\ counter = Z.max 0 (100 - miss).

Lemma counters_miss miss counter :
  counters miss counter ->
  sim (sum_rel counters (@eq (result Z DisruptorError)))
    (let* miss := backoff_with_miss (T := T) yielding_default miss in ret (inl miss))
    (let* counter := yielding_idle counter in ret (inl counter)).
Proof.
  intros [Hm ->]. cbn [backoff_with_miss yielding_simple]. unfold yielding_backoff_with_miss, yielding_action, is_spin_phase, yielding_idle, apply_wait_method, yielding_default. cbn [spin_tries].
  assert (Hn : counters (miss_add1 miss) (Z.max 0 (100 - (miss + 1)))) by (unfold counters, miss_add1, u32_max in *; lia).
  intros e k w. unfold bind, pause, load, atomic, ret. destruct (Z.ltb_spec miss 100), (Z.eqb_spec (Z.max 0 (100 - miss)) 0); cbn; try lia;
    (split_and!; [|done..]); [replace (Z.max 0 (100 - miss) - 1) with (Z.max 0 (100 - (miss + 1))) by lia | replace (Z.max 0 (100 - miss)) with (Z.max 0 (100 - (miss + 1))) by lia]; done.
Qed.

(** The counters after [n] misses. *)
Definition misses (n : nat) : Z := Nat.iter n miss_add1 0.
Definition spins_left (n : nat) : Z := Nat.iter n (fun c => fst (apply_wait_method c)) SPIN_TRIES.

Lemma counters_after n : misses n = Z.min (Z.of_nat n) u32_max /\ spins_left n = Z.max 0 (100 - Z.of_nat n).
Proof.
  induction n as [|n [IH1 IH2]]; [done|]. unfold misses, spins_left in *. rewrite !Nat.iter_succ, IH1, IH2.
  unfold miss_add1, apply_wait_method, u32_max. split; [lia|]. destruct (Z.eqb_spec (Z.max 0 (100 - Z.of_nat n)) 0); cbn [fst]; lia.
Qed.

(** C20: The simplified [Yielding] strategy behind its adapter, whose counter counts misses up,
    waits exactly as [YieldingWaitStrategy], which counts its spins down: the
    same polls in the same order and the same results, in all three waits and
    against every schedule; and after any number of misses both do the same,
    spin for the first hundred and yield from then on. *)
Theorem yielding_equivalent fuel q c d t l a :
  wait_with_alert (T := T) fuel yielding q c d a ≈ wait_with_alert (T := T) fuel mkYieldingWait q c d a /\
  wait_with_timeout (T := T) fuel yielding q c d t a ≈ wait_with_timeout (T := T) fuel mkYieldingWait q c d t a /\
  wait_with_shutdown (T := T) fuel yielding q c d l a ≈ wait_with_shutdown (T := T) fuel mkYieldingWait q c d l a /\
  (forall n : nat, yielding_action yielding_default (misses n) = snd (apply_wait_method (spins_left n)) /\
     yielding_action yielding_default (misses n) = if (n <? 100)%nat then SpinLoop else YieldNow).
Proof.
  assert (H0 : counters 0 SPIN_TRIES) by done. split_and!.
  - by apply sim_meq, (sim_with_alert counters _ _ counters_miss q c d a).
  - by apply sim_meq, (sim_with_timeout counters _ _ counters_miss q c d a).
  - by apply sim_meq, (sim_with_shutdown counters _ _ counters_miss q c d a).
  - intros n. destruct (counters_after n) as [-> ->]. unfold yielding_action, is_spin_phase, apply_wait_method, yielding_default, u32_max. cbn [spin_tries].
    destruct (Nat.ltb_spec n 100), (Z.ltb_spec (Z.min (Z.of_nat n) 4294967295) 100), (Z.eqb_spec (Z.max 0 (100 - Z.of_nat n)) 0);
      (lia || done).
Qed.

(** ** Strategies of the application *)

Section Custom.
Context (R : W -> W -> Prop) `{HR : !WaitRely R} {S : Type} `{!SimpleWait (T := T) S} (s : S).
Context (Hback : forall miss w, wp R (backoff_with_miss s miss) (fun _ w' => R w w') w).
Context (sequence : Z) (cursor : loc) (deps : list loc) (alerted : AlertFlag).

Abbreviation missed := (fun m => let* m := backoff_with_miss s m in ret (inl (B := result Z DisruptorError) m)).

Lemma wp_missed m (Q : Z + result Z DisruptorError -> W -> Prop) w0 w :
  R w0 w -> (forall m' w', R w0 w' -> Q (inl m') w') -> wp R (missed m) Q w.
Proof.
  intros Hr HQ. apply wp_bind. eapply wp_mono; [apply Hback|]. intros m' w' Hw'. apply wp_ret, HQ. by etrans.
Qed.

(** One poll: an alert that is up, a sequence that is reached, or the step
    after a miss. *)
Lemma wp_simple_poll (miss : Z -> M W (Z + result Z DisruptorError)) m (Q : Z + result Z DisruptorError -> W -> Prop) w0 w :
  R w0 w ->
  (forall w', R w0 w' -> alert_value alerted w' = true -> Q (inr (Err Alert)) w') ->
  (forall v w', R w0 w' -> sequence <= v -> reached cursor deps v w' -> Q (inr (Ok v)) w') ->
  (forall w', R w0 w' -> wp R (miss m) Q w') ->
  wp R (poll sequence cursor deps alerted miss m) Q w.
Proof.
  intros Hr HA HO HM. unfold poll. apply wp_bind, wp_load. intros w1 H1. assert (R w0 w1) by (by etrans).
  destruct (alert_value alerted w1) eqn:Ha; [by apply wp_ret, HA|].
  apply wp_bind, (wp_wait_available R). intros v w2 H2 Hv. assert (R w0 w2) by (by etrans).
  destruct (Z.leb_spec sequence v); [by apply wp_ret, HO | by apply HM].
Qed.

(** A wait strategy of the application, behind the adapter: whatever
    its idle step does, as long as it only lets others run, the three waits
    keep the contract of the built-in strategies. *)
Theorem adapter_waits_safe fuel timeout l w :
  0 <= timeout ->
  let ws := SimpleWaitStrategyAdapter BusySpin in
  wp R (wait_with_alert fuel (mkAdapter s) sequence cursor deps alerted)
    (wait_post R sequence cursor deps (alert_only ws alerted) w) w /\
  wp R (wait_with_timeout fuel (mkAdapter s) sequence cursor deps timeout alerted)
    (wait_post R sequence cursor deps (alert_or_timeout ws alerted w timeout) w) w /\
  wp R (wait_with_shutdown fuel (mkAdapter s) sequence cursor deps l alerted)
    (wait_post R sequence cursor deps (alert_or_shutdown ws alerted l) w) w.
Proof.
  intros Ht ws. assert (Hal : forall w', alert_value alerted w' = true -> alert_raised ws alerted w') by (intros; by left).
  split_and!.
  - apply (wp_loop R (fun _ w' => R w w')); [|reflexivity]. intros m w0 H0. apply (wp_simple_poll missed m _ w); [done | | |].
    + intros w' Hw Ha. split; [done|]. split; [done | auto].
    + intros v w' Hw Hv Hr. by split.
    + intros w' Hw. by apply (wp_missed m _ w).
  - apply wp_bind, wp_load. intros ws0 Hs. pose proof (wr_clock _ _ Hs).
    apply (wp_loop R (fun _ w' => R ws0 w')); [|reflexivity]. intros m w0 H0.
    assert (Htr : forall w', R ws0 w' -> R w w') by (intros; by etrans).
    apply (wp_simple_poll (fun m => let* a := flag_load alerted in if a then ret (inr (Err Alert)) else
      let* t := elapsed (w_clock ws0) in if timeout <=? t then ret (inr (Err Timeout)) else missed m) m _ ws0); [done | | |].
    + intros w' Hw Ha. split; [auto|]. left. split; [done | auto].
    + intros v w' Hw Hv Hr. split; [auto | done].
    + intros w1 Hw1. apply wp_bind, wp_load. intros w2 H2. assert (R ws0 w2) by (by etrans).
      destruct (alert_value alerted w2) eqn:Ha; [apply wp_ret; split; [auto|]; left; split; [done | auto]|].
      apply wp_bind, (wp_elapsed R). intros w3 H3. assert (Hr3 : R ws0 w3) by (by etrans). pose proof (wr_clock _ _ Hr3).
      destruct (Z.leb_spec timeout (Z.max 0 (w_clock w3 - w_clock ws0))).
      * apply wp_ret. split; [auto|]. right. split; [done | lia].
      * by apply (wp_missed m _ ws0).
  - apply (wp_loop R (fun _ w' => R w w')); [|reflexivity]. intros m w0 H0.
    apply wp_bind, wp_load. intros w1 H1. assert (R w w1) by (by etrans).
    destruct (flag_at w1 l) eqn:Hl; [apply wp_ret; split; [done|]; split; [done | by left]|].
    apply (wp_simple_poll missed m _ w); [done | | |].
    + intros w' Hw Ha. split; [done|]. split; [done | right; auto].
    + intros v w' Hw Hv Hr. by split.
    + intros w' Hw. by apply (wp_missed m _ w).
Qed.

End Custom.

End Strategies.
