(* ===== verification/Parking.v ===== *)
(** * Parking: no lost wake-up in [BlockingWaitStrategy]

    The parked phase of [BlockingWaitStrategy::wait_for_with_alert]
    (disruptor/wait_strategy.rs) as a transition system: one waiter, any number
    of threads that move the cursor (a publish) or raise the barrier's alert
    and then call [signal_all_when_blocking].  One rule per atomic action.
    The strategy takes the waiter's mutex before [notify_all]; the invariant
    shows that this is what makes every wake-up arrive. *)
From S2P Require Import Prelude.

(** Where the waiter is in the [if cursor.get() < sequence { ... }] block. *)
Inductive waiter_pc : Type :=
| WStart        (** before the unlocked check *)
| WLocking      (** at [self.mutex.lock()] *)
| WHeld         (** holding the guard, at the [while] condition *)
| WCheckAlert   (** at [guard.alerted || alerted.load()] *)
| WPark         (** at [self.condvar.wait(&mut guard)] *)
| WParked       (** parked, the guard released *)
| WNotified     (** woken, taking the guard again *)
| WAlert        (** returned [Err(Alert)] *)
| WDone.        (** past the block *)

(** Where a signaller is: it changes the state, then locks, notifies, unlocks. *)
Inductive signaller_pc : Type :=
| SIdle
| SChanged      (** at [let _guard = self.mutex.lock()] *)
| SHeld         (** at [self.condvar.notify_all()] *)
| SNotified.    (** about to drop the guard *)

Inductive owner : Type :=
| Waiter
| Signaller (i : nat).

Record state : Type := mkState {
  cursor : Z;
  alerted : bool;
  lock : option owner;
  waiter : waiter_pc;
  signallers : nat -> signaller_pc
}.

#[global] Instance waiter_pc_eq_dec : EqDecision waiter_pc.
Proof. solve_decision. Defined.
#[global] Instance signaller_pc_eq_dec : EqDecision signaller_pc.
Proof. solve_decision. Defined.

Definition upd (f : nat -> signaller_pc) (i : nat) (p : signaller_pc) : nat -> signaller_pc :=
  fun j => if decide (j = i) then p else f j.

Section Parking.
Context (sequence : Z).
Implicit Types s : state.

Inductive step : state -> state -> Prop :=
| step_first_check c a l sg :
    step (mkState c a l WStart sg) (mkState c a l (if c <? sequence then WLocking else WDone) sg)
| step_lock c a sg :
    step (mkState c a None WLocking sg) (mkState c a (Some Waiter) WHeld sg)
| step_while c a l sg :
    step (mkState c a l WHeld sg)
         (if c <? sequence then mkState c a l WCheckAlert sg else mkState c a None WDone sg)
| step_check_alert c a l sg :
    step (mkState c a l WCheckAlert sg)
         (if a then mkState c a None WAlert sg else mkState c a l WPark sg)
| step_park c a l sg :
    step (mkState c a l WPark sg) (mkState c a None WParked sg)
| step_rewake c a sg :
    step (mkState c a None WNotified sg) (mkState c a (Some Waiter) WHeld sg)
| step_move_cursor c c' a l wt sg i :
    sg i = SIdle -> c <= c' ->
    step (mkState c a l wt sg) (mkState c' a l wt (upd sg i SChanged))
| step_raise_alert c a l wt sg i :
    sg i = SIdle ->
    step (mkState c a l wt sg) (mkState c true l wt (upd sg i SChanged))
| step_signal_lock c a wt sg i :
    sg i = SChanged ->
    step (mkState c a None wt sg) (mkState c a (Some (Signaller i)) wt (upd sg i SHeld))
| step_notify_all c a l wt sg i :
    sg i = SHeld ->
    step (mkState c a l wt sg)
         (mkState c a l (if decide (wt = WParked) then WNotified else wt) (upd sg i SNotified))
| step_signal_unlock c a l wt sg i :
    sg i = SNotified ->
    step (mkState c a l wt sg) (mkState c a None wt (upd sg i SIdle)).

Definition initial s : Prop :=
  waiter s = WStart /\ lock s = None /\ alerted s = false /\ forall i, signallers s i = SIdle.

Definition reachable s : Prop := exists s0, initial s0 /\ rtc step s0 s.

(** A signal is on its way: some signaller has changed the state and has not
    notified yet. *)
Definition signal_pending s : Prop := exists i, signallers s i = SChanged \/ signallers s i = SHeld.

(** Nothing the waiter waits for has happened. *)
Definition quiet s : Prop := cursor s < sequence /\ alerted s = false.

Definition waiter_owns (p : waiter_pc) : bool :=
  match p with WHeld | WCheckAlert | WPark => true | _ => false end.
Definition signaller_owns (p : signaller_pc) : bool :=
  match p with SHeld | SNotified => true | _ => false end.

Record inv s : Prop := {
  inv_waiter : lock s = Some Waiter <-> waiter_owns (waiter s) = true;
  inv_signaller : forall i, lock s = Some (Signaller i) <-> signaller_owns (signallers s i) = true;
  inv_checked : waiter s = WCheckAlert -> cursor s < sequence \/ signal_pending s;
  inv_park : waiter s = WPark \/ waiter s = WParked -> quiet s \/ signal_pending s
}.

Lemma parking_inv_initial s : initial s -> inv s.
Proof.
  intros (Hw & Hl & Ha & Hs). constructor; rewrite ?Hw, ?Hl; try naive_solver.
  intros i. by rewrite Hs.
Qed.

(** A signaller that becomes or stays pending is a pending signal. *)
Lemma pending_upd c a l wt sg i p :
  p = SChanged \/ p = SHeld -> signal_pending (mkState c a l wt (upd sg i p)).
Proof. intros H. exists i. cbn. unfold upd. by rewrite decide_True by done. Qed.

Lemma upd_same sg i p : upd sg i p i = p.
Proof. unfold upd. by rewrite decide_True. Qed.

Lemma upd_other sg i p j : j <> i -> upd sg i p j = sg j.
Proof. intros. unfold upd. by rewrite decide_False. Qed.

(** The waiter's moves leave the signals that are on their way on their way. *)
Lemma pending_state c a l wt c' a' l' wt' sg :
  signal_pending (mkState c a l wt sg) -> signal_pending (mkState c' a' l' wt' sg).
Proof. done. Qed.

(** Ownership after a signaller's move to [p]: the lock is [l]. *)
Lemma owners_upd l l' sg i p :
  (forall j, l = Some (Signaller j) <-> signaller_owns (sg j) = true) ->
  (forall j, j <> i -> l' = Some (Signaller j) <-> l = Some (Signaller j)) ->
  (l' = Some (Signaller i) <-> signaller_owns p = true) ->
  forall j, l' = Some (Signaller j) <-> signaller_owns (upd sg i p j) = true.
Proof.
  intros H Ho Hi j. destruct (decide (j = i)) as [->|Hne]; [by rewrite upd_same|].
  rewrite upd_other by done. rewrite <- H. by apply Ho.
Qed.

Lemma parking_inv_step s s' : inv s -> step s s' -> inv s'.
Proof.
  intros [Hw Hs Hc Hp] Hst. destruct Hst; cbn in *.
  - destruct (c <? sequence); constructor; cbn; naive_solver.
  - constructor; cbn; [done | intros i; rewrite <- Hs; done | naive_solver | naive_solver].
  - assert (l = Some Waiter) as -> by (by apply Hw).
    destruct (Z.ltb_spec c sequence); constructor; cbn; try naive_solver; intros i; by rewrite <- Hs.
  - assert (l = Some Waiter) as -> by (by apply Hw).
    destruct a; constructor; cbn; try done; try (intros i; by rewrite <- Hs); try (by intros [?|?]).
    intros _. destruct Hc as [?|?]; [done | by left | by right].
  - assert (l = Some Waiter) as -> by (by apply Hw).
    constructor; cbn; [done | intros i; by rewrite <- Hs | done | intros _; apply Hp; by left].
  - constructor; cbn; [done | intros i; by rewrite <- Hs | done | naive_solver].
  - constructor; cbn; [done | | intros; right; apply pending_upd; auto | intros; right; apply pending_upd; auto].
    apply (owners_upd l); [done | done|]. rewrite Hs, H. done.
  - constructor; cbn; [done | | intros; right; apply pending_upd; auto | intros; right; apply pending_upd; auto].
    apply (owners_upd l); [done | done|]. rewrite Hs, H. done.
  - constructor; cbn; [naive_solver | | intros; right; apply pending_upd; auto | intros; right; apply pending_upd; auto].
    apply (owners_upd None); [done | naive_solver | done].
  - assert (Hl : l = Some (Signaller i)) by (apply Hs; by rewrite H).
    assert (waiter_owns wt <> true) by (rewrite <- Hw; naive_solver).
    constructor; cbn.
    + destruct (decide (wt = WParked)); naive_solver.
    + apply (owners_upd l); [done | done|]. by rewrite Hl.
    + destruct (decide (wt = WParked)); naive_solver.
    + destruct (decide (wt = WParked)); naive_solver.
  - assert (Hl : l = Some (Signaller i)) by (apply Hs; by rewrite H). subst l.
    assert (Hkeep : forall c a l wt l' wt', signal_pending (mkState c a l wt sg) -> signal_pending (mkState c a l' wt' (upd sg i SIdle))).
    { intros ? ? ? ? ? ? (j & Hj). exists j. cbn in *. rewrite upd_other; [done|]. intros ->. rewrite H in Hj. naive_solver. }
    constructor; cbn.
    + naive_solver.
    + apply (owners_upd (Some (Signaller i))); [done | naive_solver | done].
    + intros Hwt. destruct (Hc Hwt); [by left | right; eauto].
    + intros Hwt. destruct (Hp Hwt); [by left | right; eauto].
Qed.

Lemma parking_inv_reachable s : reachable s -> inv s.
Proof.
  intros (s0 & H0 & Hr). apply parking_inv_initial in H0. induction Hr; eauto using parking_inv_step.
Qed.

(** From a lock that is free, a pending signal reaches the parked waiter. *)
Lemma wake_unlocked c a sg i :
  sg i = SChanged ->
  exists s', rtc step (mkState c a None WParked sg) s' /\ waiter s' = WNotified.
Proof.
  intros H. eexists. split.
  - eapply rtc_l; [by apply (step_signal_lock c a WParked sg i)|].
    apply rtc_once, (step_notify_all c a _ WParked _ i). apply upd_same.
  - done.
Qed.

Lemma wake_pending s :
  inv s -> waiter s = WParked -> signal_pending s -> exists s', rtc step s s' /\ waiter s' = WNotified.
Proof.
  destruct s as [c a l wt sg]. intros [Hw Hs _ _] Hp (i & Hi). cbn in *. subst wt.
  destruct l as [[|j]|]; cbn in *; [by pose proof (proj1 Hw eq_refl)| |].
  - pose proof (proj1 (Hs j) eq_refl) as Hj. destruct (sg j) eqn:Hsj; try done.
    + eexists. split; [apply rtc_once, (step_notify_all c a _ WParked sg j Hsj) | done].
    + destruct Hi as [Hi|Hi].
      * destruct (wake_unlocked c a (upd sg j SIdle) i) as (s' & Hr & Hw').
        { rewrite upd_other; [done|]. intros ->. congruence. }
        exists s'. split; [|done]. eapply rtc_l; [by apply (step_signal_unlock c a _ WParked sg j) | done].
      * exfalso. assert (Hij : Some (Signaller j) = Some (Signaller i)) by (apply Hs; by rewrite Hi).
        injection Hij as ->. congruence.
  - destruct Hi as [Hi|Hi]; [by eapply wake_unlocked|].
    exfalso. assert (@None owner = Some (Signaller i)) by (apply Hs; by rewrite Hi). done.
Qed.

(** C23: No wake-up is lost: whenever the waiter is parked although the cursor has
    reached its sequence or the alert is up, a thread that will still notify it
    is on its way, and nothing the waiter holds keeps that thread from doing
    so. *)
Theorem no_lost_wakeup s :
  reachable s -> waiter s = WParked -> sequence <= cursor s \/ alerted s = true ->
  signal_pending s /\ exists s', rtc step s s' /\ waiter s' = WNotified.
Proof.
  intros Hr Hw Hcause. pose proof (parking_inv_reachable _ Hr) as Hi.
  assert (Hp : signal_pending s).
  { destruct (inv_park _ Hi) as [[Hc Ha]|Hp]; [by right | | done]. destruct Hcause; [lia | congruence]. }
  split; [done | by apply wake_pending].
Qed.

End Parking.
