(* ===== verification/Barrier.v ===== *)
(** * Barrier: sequence barriers (disruptor/sequence_barrier.rs)

    A barrier turns the wait of its strategy into what a consumer may read: for
    a multi-producer sequencer it converges on the contiguous published prefix.
    It is proved against the [SequencerView] interface and the wait contract,
    not against their implementations. *)
From S2P Require Import Prelude Effects Errors RingBuffer World Sequence Single Multi Availability Sequencer.
From S2P Require Import Waiting WaitStrategy.

(** [ProcessingSequenceBarrier] *)
Record ProcessingSequenceBarrier : Type := mkBarrier {
  cursor : loc;
  wait_strategy : WaitStrategy;
  dependent_sequences : list loc;
  alerted : loc;
  sequencer : SequencerEnum;
  needs_contiguity_check : bool
}.

Section Barrier.
Context {T : Type}.
Abbreviation W := (World T).
Implicit Types (w : W) (b : ProcessingSequenceBarrier).

(** [ProcessingSequenceBarrier::new]; [flag] is the fresh address of [alerted]. *)
Definition new (cursor : loc) (ws : WaitStrategy) (deps : list loc) (sq : SequencerEnum) (flag : loc) :
    M W ProcessingSequenceBarrier :=
  let needs_contiguity_check := match sq with World.Multi => true | World.Single => false end in
  let* _ := write (set_flag flag false) in
  ret (mkBarrier cursor ws deps flag sq needs_contiguity_check).

(** [SingleProducerSequencer::new_barrier_typed] and
    [MultiProducerSequencer::new_barrier_typed]. *)
Definition single_new_barrier_typed (deps : list loc) (flag : loc) : M W ProcessingSequenceBarrier :=
  let* s := read w_single in
  new (sp_cursor s) (sp_wait_strategy s) deps World.Single flag.
Definition multi_new_barrier_typed (deps : list loc) (flag : loc) : M W ProcessingSequenceBarrier :=
  let* s := read w_multi in
  new (mp_cursor s) (mp_wait_strategy s) deps World.Multi flag.

(** [SequencerEnum::new_barrier] *)
Definition new_barrier (sq : SequencerEnum) (deps : list loc) (flag : loc) : M W ProcessingSequenceBarrier :=
  match sq with
  | World.Single => single_new_barrier_typed deps flag
  | World.Multi => multi_new_barrier_typed deps flag
  end.

(** [poison_producers] *)
Definition poison_producers b : M W unit := Sequencer.poison (dispatch (sequencer b)).

(** [record_failure] (the log line is left out). *)
Definition record_failure b (failure : FailureRecord) : M W unit :=
  Sequencer.record_failure (dispatch (sequencer b)) failure.

(** [poison_with_failure]: the record is stored before the flag. *)
Definition poison_with_failure b (failure : FailureRecord) : M W unit :=
  let* _ := Sequencer.record_failure (dispatch (sequencer b)) failure in
  Sequencer.poison (dispatch (sequencer b)).

(** [first_failure] *)
Definition first_failure b : M W (option FailureRecord) :=
  Sequencer.first_failure (dispatch (sequencer b)).

(** [resolve_highest_published] *)
Definition resolve_highest_published (fuel : nat) b (sequence available_sequence : Z) : M W Z :=
  if negb (needs_contiguity_check b) || (available_sequence <? sequence) then ret available_sequence
  else Sequencer.get_highest_published_sequence (dispatch (sequencer b)) fuel sequence available_sequence.

(** [get_cursor] *)
Definition get_cursor b : loc := cursor b.

(** [is_alerted] *)
Definition is_alerted b : M W bool := load (fun w => flag_at w (alerted b)).

(** [alert] *)
Definition alert b : M W unit :=
  let* _ := store (set_flag (alerted b) true) in
  signal_all_when_blocking (wait_strategy b).

(** [clear_alert] *)
Definition clear_alert b : M W unit := store (set_flag (alerted b) false).

(** [check_alert] *)
Definition check_alert b : M W (result unit DisruptorError) :=
  let* a := is_alerted b in
  if a then ret (Err Alert) else ret (Ok tt).

(** [try_get_available_sequence] *)
Definition try_get_available_sequence (fuel : nat) b (sequence : Z) : M W (result Z DisruptorError) :=
  let? _ := check_alert b in
  let* available_sequence :=
    match dependent_sequences b with
    | [] => Sequence.get (cursor b)
    | deps => Sequence.get_minimum_sequence deps
    end in
  let* highest_published := resolve_highest_published fuel b sequence available_sequence in
  let? _ := check_alert b in
  ret (Ok highest_published).

(** [wait_for] *)
Definition wait_for (fuel : nat) b (sequence : Z) : M W (result Z DisruptorError) :=
  let? _ := check_alert b in
  let? available_sequence :=
    wait_for_with_alert fuel (wait_strategy b) sequence (cursor b) (dependent_sequences b) (Flag (alerted b)) in
  let? _ := check_alert b in
  let* r := resolve_highest_published fuel b sequence available_sequence in
  ret (Ok r).

(** [wait_for_with_timeout] *)
Definition wait_for_with_timeout (fuel : nat) b (sequence timeout : Z) : M W (result Z DisruptorError) :=
  let? _ := check_alert b in
  let? available_sequence :=
    (let* r := wait_for_with_timeout_and_alert fuel (wait_strategy b) sequence (cursor b)
                 (dependent_sequences b) timeout (Flag (alerted b)) in
     match r with
     | Ok available_sequence => ret (Ok available_sequence)
     | Err Timeout => let? _ := check_alert b in ret (Err Timeout)
     | Err e => ret (Err e)
     end) in
  let? _ := check_alert b in
  let* r := resolve_highest_published fuel b sequence available_sequence in
  ret (Ok r).

(** [wait_for_with_shutdown] *)
Definition wait_for_with_shutdown (fuel : nat) b (sequence : Z) (shutdown_flag : loc) :
    M W (result Z DisruptorError) :=
  let* s := load (fun w => flag_at w shutdown_flag) in
  if s then ret (Err Alert) else
  let? _ := check_alert b in
  let? available_sequence :=
    wait_for_with_shutdown_and_alert fuel (wait_strategy b) sequence (cursor b) (dependent_sequences b)
      shutdown_flag (Flag (alerted b)) in
  let? _ := check_alert b in
  let* r := resolve_highest_published fuel b sequence available_sequence in
  ret (Ok r).

(** The trait's default [wait_for_with_shutdown]. *)
Definition default_wait_for_with_shutdown (fuel : nat) b (sequence : Z) (shutdown_flag : loc) :
    M W (result Z DisruptorError) :=
  let* s := load (fun w => flag_at w shutdown_flag) in
  if s then ret (Err Alert) else
  let? _ := check_alert b in
  wait_for fuel b sequence.

(** ** What a consumer gets *)

(** The barrier belongs to its sequencer, as [new_barrier] builds it. *)
Definition barrier_of b w : Prop :=
  cursor b = cursor_loc (sequencer b) w /\
  needs_contiguity_check b = match sequencer b with World.Multi => true | World.Single => false end.

(** The state a consumer whose next sequence is [next] waits in: upstream
    consumers do not overtake the cursor (the slowest of them does not: a
    worker of a pool may advertise a claim that is not published yet), and the
    cursor is within a lap of the consumer. *)
Record barrier_ok b (next : Z) w : Prop := {
  bo_of : barrier_of b w;
  bo_wf : view_wf (sequencer b) w;
  bo_deps : dependent_sequences b <> [] ->
              exists d, d ∈ dependent_sequences b /\ seq_at w d <= seq_at w (cursor b);
  bo_lap : seq_at w (cursor b) < next + buffer_size (sequencer b) w;
  bo_max : seq_at w (cursor b) < i64_max
}.

(** What the other threads do meanwhile. *)
Record barrier_rely b (next : Z) w w' : Prop := {
  br_view : view_rely (sequencer b) next w w';
  br_clock : w_clock w <= w_clock w';
  br_ok : barrier_ok b next w -> barrier_ok b next w'
}.

#[global] Instance barrier_rely_wait b next : WaitRely (barrier_rely b next).
Proof.
  constructor.
  - split; [intros w; by constructor|]. intros w1 w2 w3 [] []. constructor; [by etrans | lia | auto].
  - intros w w' l [H _ _]. apply H.
  - by intros w w' [].
  - intros w d Hd. constructor; [|cbn; lia|].
    + by constructor; try done; destruct (sequencer b).
    + intros []. constructor; try done; by destruct b as [? ? ? ? []].
Qed.

(** What a wait may return: a range of published sequences that every upstream
    consumer has passed; a single-producer wait covers the sequence asked for,
    a multi-producer one may fall short of it when a claim below is still
    unpublished. *)
Definition readable b (next v : Z) w : Prop :=
  next - 1 <= v /\ (sequencer b = World.Single -> next <= v) /\
  reached (cursor b) (dependent_sequences b) v w /\
  forall q, next <= q <= v -> published (sequencer b) w q.

Definition barrier_post (R : W -> W -> Prop) b (next : Z) (errs : DisruptorError -> W -> Prop) w
    (r : result Z DisruptorError) w' : Prop :=
  R w w' /\
  match r with Ok v => readable b next v w' | Err e => errs e w' end.

(** The consumer waits for [next]; it has not released [lo], which may be below
    (a worker of a pool has claimed above what it has advertised). *)
Section Consumer.
Context (b : ProcessingSequenceBarrier) (lo next : Z) (fuel : nat).
Context (Hws : durations_ok (wait_strategy b)) (Hlo : 0 <= lo <= next).
Context (R : W -> W -> Prop) `{HR : !WaitRely R} (P : W -> Prop).
Context (HP : forall x y, P x -> R x y -> P y /\ barrier_rely b lo x y).

Lemma rely_ok w w' : P w -> barrier_ok b lo w -> R w w' -> barrier_ok b lo w'.
Proof. intros Hp Hok Hr. by apply (br_ok _ _ _ _ (proj2 (HP _ _ Hp Hr))). Qed.

Lemma wp_check_alert (Q : result unit DisruptorError -> W -> Prop) w :
  (forall w', R w w' -> flag_at w' (alerted b) = true -> Q (Err Alert) w') ->
  (forall w', R w w' -> Q (Ok tt) w') ->
  wp R (check_alert b) Q w.
Proof.
  intros HT HF. unfold check_alert, is_alerted. apply wp_bind, wp_load. intros w' Hw'.
  destruct (flag_at w' (alerted b)) eqn:Ha; apply wp_ret; auto.
Qed.

Lemma reached_cursor v w :
  barrier_ok b lo w -> reached (cursor b) (dependent_sequences b) v w -> v <= seq_at w (cursor b).
Proof.
  intros [_ _ Hd _ _]. unfold reached. destruct (dependent_sequences b) as [|d ds]; [done|]. intros H.
  destruct (Hd ltac:(done)) as (d' & Hin & Hle). etrans; [by apply (H d') | done].
Qed.

Lemma reached_le v v' w :
  v' <= v -> reached (cursor b) (dependent_sequences b) v w -> reached (cursor b) (dependent_sequences b) v' w.
Proof.
  intros Hle. unfold reached. destruct (dependent_sequences b); [lia|]. intros H d' Hd'. etrans; [exact Hle | by apply H].
Qed.

Lemma wp_resolve v (Q : Z -> W -> Prop) w :
  P w -> barrier_ok b lo w -> (Z.to_nat (buffer_size (sequencer b) w) < fuel)%nat ->
  next <= v -> reached (cursor b) (dependent_sequences b) v w ->
  (forall r w', R w w' -> readable b next r w' -> Q r w') ->
  wp R (resolve_highest_published fuel b next v) Q w.
Proof.
  intros Hp Hok Hf Hv Hr HQ. pose proof (reached_cursor v w Hok Hr) as Hc. pose proof Hok as [[Hcur Hneed] Hwf _ Hlap Hmax].
  unfold resolve_highest_published. rewrite Hneed. destruct (Z.ltb_spec v next); [lia|].
  destruct (sequencer b) eqn:Hsq; cbn [negb orb].
  - apply wp_ret, HQ; [reflexivity|]. unfold readable. rewrite Hsq. split_and!; [lia | done | done |].
    intros q Hq. unfold published. rewrite Hcur in Hc. unfold cursor_loc in Hc. lia.
  - apply wp_of_twp. intros e k He.
    eapply twp_mono; [apply (view_highest (sq := World.Multi) R P _ _ lo)|].
    + intros x y Hx Hxy. destruct (HP _ _ Hx Hxy) as [? [HV _ _]]. by rewrite Hsq in HV.
    + done.
    + done.
    + done.
    + lia.
    + lia.
    + lia.
    + lia.
    + done.
    + lia.
    + intros r k' w' (Hw' & Hr' & Hpub). apply HQ; [done|]. unfold readable. rewrite Hsq.
      split_and!; [lia | done | | done]. apply (reached_le v); [lia|].
      eapply (reached_rely R); [exact Hr | done].
Qed.

(** The end of every wait: the second alert check, then the resolution. *)
Lemma wp_wait_tail errs v w0 w :
  (forall w', flag_at w' (alerted b) = true -> errs Alert w') ->
  P w0 -> barrier_ok b lo w0 -> (Z.to_nat (buffer_size (sequencer b) w0) < fuel)%nat ->
  R w0 w -> next <= v -> reached (cursor b) (dependent_sequences b) v w ->
  wp R (let? _ := check_alert b in
        let* r := resolve_highest_published fuel b next v in ret (Ok r))
    (barrier_post R b next errs w0) w.
Proof.
  intros He Hp Hok Hf Hw Hv Hr. apply wp_try, wp_check_alert.
  - intros w1 H1 Ha. split; [by etrans | by apply He].
  - intros w1 H1. assert (Hr01 : R w0 w1) by (by etrans). pose proof (rely_ok _ _ Hp Hok Hr01) as Hok1.
    destruct (HP _ _ Hp Hr01) as [Hp1 Hb1].
    apply wp_bind, (wp_resolve v); [done | done | | done | by eapply (reached_rely R) |].
    + by rewrite (vr_bsz _ _ _ _ (br_view _ _ _ _ Hb1)).
    + intros r w2 H2 Hread. apply wp_ret. split; [by etrans | done].
Qed.

(** The errors a barrier reports. *)
Definition barrier_alert (e : DisruptorError) w : Prop :=
  e = Alert /\ alert_raised (wait_strategy b) (Flag (alerted b)) w.

Lemma wp_wait_for w :
  P w -> barrier_ok b lo w -> (Z.to_nat (buffer_size (sequencer b) w) < fuel)%nat ->
  wp R (wait_for fuel b next) (barrier_post R b next barrier_alert w) w.
Proof.
  intros Hp Hok Hf. apply wp_try, wp_check_alert.
  { intros w1 H1 Ha. split; [done|]. split; [done | by left]. }
  intros w1 H1. apply wp_try. eapply wp_mono; [by apply (wp_wait_for_with_alert R)|].
  intros [v|e] w2 [H2 Hr]; [|split; [by etrans | done]]. destruct Hr as [Hv Hr].
  apply wp_wait_tail; [intros w' Ha; split; [done | by left] | done | done | done | by etrans | done | done].
Qed.

Lemma wp_wait_for_with_timeout timeout w :
  0 <= timeout -> P w -> barrier_ok b lo w -> (Z.to_nat (buffer_size (sequencer b) w) < fuel)%nat ->
  wp R (wait_for_with_timeout fuel b next timeout)
    (barrier_post R b next (fun e w' => barrier_alert e w' \/ (e = Timeout /\ w_clock w + timeout <= w_clock w')) w) w.
Proof.
  intros Ht Hp Hok Hf. apply wp_try, wp_check_alert.
  { intros w1 H1 Ha. split; [done|]. left. split; [done | by left]. }
  intros w1 H1. pose proof (wr_clock _ _ H1). apply wp_try, wp_bind.
  eapply wp_mono; [by apply (wp_wait_for_with_timeout_and_alert R)|].
  intros [v|e] w2 [H2 Hr].
  - apply wp_ret. destruct Hr as [Hv Hr].
    apply wp_wait_tail; [intros w' Ha; left; split; [done | by left] | done | done | done | by etrans | done | done].
  - destruct Hr as [[-> Ha]|[-> Hc]].
    + apply wp_ret. split; [by etrans|]. by left.
    + apply wp_try, wp_check_alert.
      * intros w3 H3 Ha. split; [etrans; [exact H1|]; by etrans|]. left. split; [done | by left].
      * intros w3 H3. apply wp_ret. split; [etrans; [exact H1|]; by etrans|]. right. split; [done|].
        pose proof (wr_clock _ _ H3). lia.
Qed.

Lemma wp_wait_for_with_shutdown shutdown_flag w :
  P w -> barrier_ok b lo w -> (Z.to_nat (buffer_size (sequencer b) w) < fuel)%nat ->
  wp R (wait_for_with_shutdown fuel b next shutdown_flag)
    (barrier_post R b next (fun e w' => e = Alert /\ (flag_at w' shutdown_flag = true \/
       alert_raised (wait_strategy b) (Flag (alerted b)) w')) w) w.
Proof.
  intros Hp Hok Hf. apply wp_bind, wp_load. intros w0 H0. destruct (flag_at w0 shutdown_flag) eqn:Hs.
  { apply wp_ret. split; [done|]. split; [done | by left]. }
  apply wp_try, wp_check_alert.
  { intros w1 H1 Ha. split; [by etrans|]. split; [done | right; by left]. }
  intros w1 H1. apply wp_try. eapply wp_mono; [by apply (wp_wait_for_with_shutdown_and_alert R)|].
  intros [v|e] w2 [H2 Hr]; [|split; [etrans; [exact H0|]; by etrans | done]]. destruct Hr as [Hv Hr].
  apply wp_wait_tail; [intros w' Ha; split; [done | right; by left] | done | done | done | | done | done].
  etrans; [exact H0|]. by etrans.
Qed.

(** The non-blocking look: what it reports from [next] on is readable. *)
Lemma wp_try_get_available w :
  P w -> barrier_ok b lo w -> (Z.to_nat (buffer_size (sequencer b) w) < fuel)%nat ->
  wp R (try_get_available_sequence fuel b next)
    (fun r w' => R w w' /\ match r with
                           | Ok v => next <= v -> readable b next v w'
                           | Err e => e = Alert /\ flag_at w' (alerted b) = true
                           end) w.
Proof.
  intros Hp Hok Hf. apply wp_try, wp_check_alert; [done|]. intros w1 H1. apply wp_bind.
  assert (Hm : match dependent_sequences b with
               | [] => Sequence.get (cursor b)
               | d :: ds => Sequence.get_minimum_sequence (d :: ds)
               end = wait_available_sequence (T := T) (cursor b) (dependent_sequences b))
    by (unfold wait_available_sequence; by destruct (dependent_sequences b)).
  rewrite Hm. clear Hm. apply (wp_wait_available R). intros v w2 H2 Hv. assert (H02 : R w w2) by (by etrans). apply wp_bind.
  destruct (HP _ _ Hp H02) as [Hp2 Hb2]. pose proof (rely_ok _ _ Hp Hok H02) as Hok2.
  apply (wp_mono R _ (fun r w' => R w2 w' /\ (next <= r -> readable b next r w'))).
  - destruct (Z.le_gt_cases next v).
    + apply (wp_resolve v); [done | done | by rewrite (vr_bsz _ _ _ _ (br_view _ _ _ _ Hb2)) | done | done | auto].
    + unfold resolve_highest_published. destruct (Z.ltb_spec v next); [|lia]. rewrite orb_true_r.
      apply wp_ret. split; [reflexivity | lia].
  - intros r w3 [H3 Hr]. apply wp_try, wp_check_alert.
    + intros w4 H4 Ha. split; [etrans; [exact H02|]; by etrans | done].
    + intros w4 H4. assert (H34 : R w3 w4) by done. apply wp_ret. split; [etrans; [exact H02|]; by etrans|]. intros Hn. specialize (Hr Hn).
      destruct Hr as (Hr1 & Hr2 & Hr3 & Hr4). split_and!; [done | done | by eapply (reached_rely R) |].
      destruct (HP _ _ Hp2 H3) as [Hp3 Hb3]. destruct (HP _ _ Hp3 H34) as [_ Hb4]. pose proof (rely_ok _ _ Hp2 Hok2 H3) as Hok3.
      pose proof (reached_cursor _ _ Hok3 Hr3). pose proof (bo_lap _ _ _ Hok3).
      intros q Hq. apply (vr_published _ _ _ _ (br_view _ _ _ _ Hb4)); [lia | by apply Hr4].
Qed.

End Consumer.

(** C13: Every wait of a barrier, against producers and consumers that keep within
    a lap of it: what it hands to the consumer is published and every upstream
    consumer has passed it, so no event is read before it is written or before
    the stage above is done with it; and it fails only for an alert, a shutdown
    request, or a timeout whose time has passed. *)
Theorem barrier_waits_safe b next fuel timeout shutdown_flag w :
  let R := barrier_rely b next in
  durations_ok (wait_strategy b) -> 0 <= next -> 0 <= timeout ->
  barrier_ok b next w -> (Z.to_nat (buffer_size (sequencer b) w) < fuel)%nat ->
  wp R (wait_for fuel b next) (barrier_post R b next (barrier_alert b) w) w /\
  wp R (wait_for_with_timeout fuel b next timeout)
    (barrier_post R b next (fun e w' => barrier_alert b e w' \/ (e = Timeout /\ w_clock w + timeout <= w_clock w')) w) w /\
  wp R (wait_for_with_shutdown fuel b next shutdown_flag)
    (barrier_post R b next (fun e w' => e = Alert /\ (flag_at w' shutdown_flag = true \/
       alert_raised (wait_strategy b) (Flag (alerted b)) w')) w) w.
Proof.
  intros R Hws Hn Ht Hok Hf.
  assert (HP : forall x y : W, True -> R x y -> True /\ barrier_rely b next x y) by done.
  assert (Hl : 0 <= next <= next) by lia.
  split_and!; [by apply (wp_wait_for b next next fuel Hws Hl R (fun _ => True) HP) |
    by apply (wp_wait_for_with_timeout b next next fuel Hws Hl R (fun _ => True) HP) |
    by apply (wp_wait_for_with_shutdown b next next fuel Hws Hl R (fun _ => True) HP)].
Qed.

End Barrier.
