(* ===== verification/ConsumerEngine.v ===== *)
(** * ConsumerEngine: the consumer loops (disruptor/consumer_engine.rs)

    The sequential batch loop, the read-only fan-out loop and the worker-pool
    loop.  Event and exception handlers are code of the application: they are
    arguments of the loops, with a state of their own; a callback returns a
    [Result] or panics. *)
From stdpp Require Import pretty.
From S2P Require Import Prelude Effects Errors RingBuffer World Sequence Single Multi Availability Sequencer.
From S2P Require Import Waiting WaitStrategy Barrier.

(** How a call of application code ends. *)
Inductive callback : Type :=
| Returns (r : result unit DisruptorError)
| Unwinds (msg : string).

(** [trait EventHandler]: [H] is the handler's own state. *)
Record EventHandler (T H : Type) : Type := mkHandler {
  on_event : H -> T -> Z -> bool -> H * T * callback;
  on_batch_start : H -> Z -> Z -> H * callback;
  on_start : H -> H * callback;
  on_shutdown : H -> H * callback;
  on_timeout : H -> Z -> H * callback
}.
Arguments on_event {T H} _ _ _ _ _.
Arguments on_batch_start {T H} _ _ _ _.
Arguments on_start {T H} _ _.
Arguments on_shutdown {T H} _ _.
Arguments on_timeout {T H} _ _ _.

(** [ErrorDecision] *)
Inductive ErrorDecision : Type := Stop | Continue.

(** [trait ExceptionHandler]: the decision on an event error, or the message of
    its panic; on errors of [on_start] and [on_shutdown], the message of its
    panic if it panics. *)
Record ExceptionHandler (T : Type) : Type := mkExceptionHandler {
  handle_event_exception :> DisruptorError -> Z -> T -> ErrorDecision + string;
  handle_on_start_exception : DisruptorError -> option string;
  handle_on_shutdown_exception : DisruptorError -> option string
}.
Arguments mkExceptionHandler {T}.
Arguments handle_event_exception {T} _ _ _ _.
Arguments handle_on_start_exception {T} _ _.
Arguments handle_on_shutdown_exception {T} _ _.

(** [DefaultExceptionHandler], [IgnoreExceptionHandler] and
    [PanicExceptionHandler]; [debug] is the derived [Debug] of the error. *)
Definition DefaultExceptionHandler {T} : ExceptionHandler T :=
  mkExceptionHandler (fun _ _ _ => inl Stop) (fun _ => None) (fun _ => None).
Definition IgnoreExceptionHandler {T} : ExceptionHandler T :=
  mkExceptionHandler (fun _ _ _ => inl Continue) (fun _ => None) (fun _ => None).
Definition PanicExceptionHandler {T} (debug : DisruptorError -> string) : ExceptionHandler T :=
  mkExceptionHandler
    (fun error sequence _ => inr ("Exception processing event at sequence " +:+ pretty sequence +:+ ": " +:+ debug error))
    (fun error => Some ("Exception during event processor startup: " +:+ debug error))
    (fun error => Some ("Exception during event processor shutdown: " +:+ debug error)).

(** [ClosureExceptionHandler::new] *)
Definition ClosureExceptionHandler {T} (event_handler : DisruptorError -> Z -> T -> ErrorDecision + string)
    (start_handler shutdown_handler : DisruptorError -> option string) : ExceptionHandler T :=
  mkExceptionHandler event_handler start_handler shutdown_handler.

(** [StopFlag] *)
Inductive StopFlag : Type :=
| External (shutdown : loc)
| Running (running : loc).

(** [ConsumerContext] *)
Record ConsumerContext : Type := mkContext {
  ctx_thread_name : string;
  ctx_stage_index : option Z
}.

(** [ConsumerContext::for_stage], [ConsumerContext::without_stage] *)
Definition for_stage (thread_name : string) (stage_index : Z) : ConsumerContext :=
  mkContext thread_name (Some stage_index).
Definition without_stage (thread_name : string) : ConsumerContext := mkContext thread_name None.

(** [consumer_failure] *)
Definition consumer_failure (ph : FailurePhase) (message : string) (context : ConsumerContext)
    (sequence : option Z) : FailureRecord :=
  let failure := with_thread_name (ctx_thread_name context) (failure_new ph message) in
  let failure := match ctx_stage_index context with
                 | Some stage_index => with_stage_index stage_index failure
                 | None => failure
                 end in
  match sequence with
  | Some sequence => with_sequence sequence failure
  | None => failure
  end.

Definition to_string (e : DisruptorError) : string := error_to_string pretty e.

Section Engine.
Context {T : Type}.
Abbreviation W := (World T).
Implicit Types (w : W) (b : ProcessingSequenceBarrier).

(** [StopFlag::should_continue] *)
Definition should_continue (stop : StopFlag) : M W bool :=
  match stop with
  | External flag => let* f := load (fun w => flag_at w flag) in ret (negb f)
  | Running flag => load (fun w => flag_at w flag)
  end.

(** [StopFlag::wait_for] *)
Definition stop_wait_for (fuel : nat) (stop : StopFlag) b (sequence : Z) : M W (result Z DisruptorError) :=
  match stop with
  | External shutdown => wait_for_with_shutdown fuel b sequence shutdown
  | Running running =>
      let* r := load (fun w => flag_at w running) in
      if negb r then ret (Err Alert) else wait_for fuel b sequence
  end.

(** [&mut *ring_buffer.get_mut_unchecked(sequence)]: reading the slot, and the
    handler's writes through the reference.  An access outside the buffer
    would be undefined behaviour; it is a panic here. *)
Definition event_at (sequence : Z) : M W T :=
  let* rb := read w_ring in
  match RingBuffer.get rb sequence with
  | Some event => ret event
  | None => panic "slot out of range"
  end.

Definition write_event (sequence : Z) (event : T) : M W unit :=
  let* rb := read w_ring in
  match RingBuffer.set rb sequence event with
  | Some rb' => write (upd_ring (fun _ => rb'))
  | None => panic "slot out of range"
  end.

Definition run_callback (cb : callback) : M W (result unit DisruptorError) :=
  match cb with
  | Returns r => ret r
  | Unwinds msg => panic msg
  end.

(** The match arms that end a consumer loop on an error of the wait. *)
Definition wait_error_is_terminal (stop : StopFlag) (e : DisruptorError) : M W bool :=
  match e with
  | Alert => ret true
  | Shutdown => ret true
  | _ => let* go := should_continue stop in ret (negb go)
  end.

Section Sequential.
Context {H : Type} (handler : EventHandler T H) (exception_handler : option (ExceptionHandler T)).
Context (b : ProcessingSequenceBarrier) (consumer_sequence : loc) (stop : StopFlag) (context : ConsumerContext).

(** One turn of [while next_sequence <= available_sequence]. *)
Definition process_event (available_sequence : Z) '((next_sequence, h) : Z * H) : M W (Z * H + (Z * H + H)) :=
  if next_sequence <=? available_sequence then
    let end_of_batch := next_sequence =? available_sequence in
    let* event := event_at next_sequence in
    let '(h', event', cb) := on_event handler h event next_sequence end_of_batch in
    let* _ := write_event next_sequence event' in
    let* r := run_callback cb in
    match r with
    | Ok _ => ret (inl (next_sequence +! 1, h'))
    | Err e =>
        let error_message := to_string e in
        let decision := match exception_handler with
                        | Some eh => eh e next_sequence event'
                        | None => inl Stop
                        end in
        match decision with
        | inr msg => panic msg
        | inl Stop =>
            let* _ := Sequence.set consumer_sequence (next_sequence -! 1) in
            let* _ := poison_with_failure b
                        (consumer_failure EventProcessing error_message context (Some next_sequence)) in
            ret (inr (inr h'))
        | inl Continue => ret (inl (next_sequence +! 1, h'))
        end
    end
  else ret (inr (inl (next_sequence, h))).

(** The inner [while]: the next sequence and the handler after the batch, or
    the handler after a fatal stop. *)
Definition process_batch (fuel : nat) (available_sequence : Z) (next_sequence : Z) (h : H) :
    M W (Z * H + H) :=
  loop fuel (process_event available_sequence) (next_sequence, h).

(** The body of the outer loop after a successful wait. *)
Definition take_batch (fuel : nat) (available_sequence next_sequence : Z) (h : H) : M W (Z * H + H) :=
  let batch_size := (available_sequence -! next_sequence) +! 1 in
  let* c := Sequence.get consumer_sequence in
  let queue_depth := available_sequence -! c in
  let '(h', cb) := on_batch_start handler h batch_size queue_depth in
  let* r := run_callback cb in
  match r with
  | Err e =>
      let* _ := poison_with_failure b
                  (consumer_failure BatchStart (to_string e) context (Some next_sequence)) in
      ret (inr h')
  | Ok _ =>
      let* out := process_batch fuel available_sequence next_sequence h' in
      match out with
      | inl (next_sequence', h'') =>
          let* _ := Sequence.set consumer_sequence available_sequence in
          ret (inl (next_sequence', h''))
      | inr h'' => ret (inr h'')
      end
  end.

(** One turn of the outer [while stop.should_continue()]. *)
Definition sequential_step (fuel : nat) '((next_sequence, h) : Z * H) : M W (Z * H + H) :=
  let* go := should_continue stop in
  if negb go then ret (inr h) else
  let* r := stop_wait_for fuel stop b next_sequence in
  match r with
  | Ok available_sequence =>
      if available_sequence <? next_sequence then ret (inl (next_sequence, h))
      else take_batch fuel available_sequence next_sequence h
  | Err e =>
      let* brk := wait_error_is_terminal stop e in
      if brk then ret (inr h) else
      let* _ := pause (Sleep 1000000) in ret (inl (next_sequence, h))
  end.

(** [run_sequential_batch_loop_impl]; the result is the handler's state. *)
Definition run_sequential_batch_loop_impl (fuel : nat) (h : H) : M W H :=
  let* c := Sequence.get consumer_sequence in
  loop fuel (sequential_step fuel) (c +! 1, h).

End Sequential.

Section Readonly.
Context {F : Type} (on_event : F -> T -> Z -> bool -> F * callback).
Context (b : ProcessingSequenceBarrier) (consumer_sequence : loc) (stop : StopFlag) (context : ConsumerContext).

(** The inner loop of [run_sequential_readonly_loop_impl]. *)
Definition observe_batch (fuel : nat) (available_sequence : Z) (next_sequence : Z) (f : F) :
    M W (Z * F + F) :=
  loop fuel (fun '(next_sequence, f) =>
    if next_sequence <=? available_sequence then
      let end_of_batch := next_sequence =? available_sequence in
      let* event := event_at next_sequence in
      let '(f', cb) := on_event f event next_sequence end_of_batch in
      let* r := run_callback cb in
      match r with
      | Ok _ => ret (inl (next_sequence +! 1, f'))
      | Err e =>
          let* _ := Sequence.set consumer_sequence (next_sequence -! 1) in
          let* _ := poison_with_failure b
                      (consumer_failure EventProcessing (to_string e) context (Some next_sequence)) in
          ret (inr (inr f'))
      end
    else ret (inr (inl (next_sequence, f)))) (next_sequence, f).

(** [run_sequential_readonly_loop_impl] *)
Definition run_sequential_readonly_loop_impl (fuel : nat) (f : F) : M W F :=
  let* c := Sequence.get consumer_sequence in
  loop fuel (fun '(next_sequence, f) =>
    let* go := should_continue stop in
    if negb go then ret (inr f) else
    let* r := stop_wait_for fuel stop b next_sequence in
    match r with
    | Ok available_sequence =>
        if available_sequence <? next_sequence then ret (inl (next_sequence, f)) else
        let* out := observe_batch fuel available_sequence next_sequence f in
        match out with
        | inl (next_sequence', f') =>
            let* _ := Sequence.set consumer_sequence available_sequence in
            ret (inl (next_sequence', f'))
        | inr f' => ret (inr f')
        end
    | Err e =>
        let* brk := wait_error_is_terminal stop e in
        if brk then ret (inr f) else
        let* _ := pause (Sleep 1000000) in ret (inl (next_sequence, f))
    end) (c +! 1, f).

End Readonly.

Section WorkProcessor.
Context {H : Type} (handler : EventHandler T H).
Context (b : ProcessingSequenceBarrier) (consumer_sequence work_sequence : loc) (stop : StopFlag).
Context (context : ConsumerContext).

(** [advertise_work_sequence_if_changed]: the new [last_advertised]. *)
Definition advertise_work_sequence_if_changed (last_advertised current : Z) : M W (Z * bool) :=
  if current =? last_advertised then ret (last_advertised, false) else
  let* _ := Sequence.set consumer_sequence current in ret (current, true).

(** The claim loop: the claimed sequence ([None]: [break 'work]) and the last
    advertised one. *)
Definition claim_work (fuel : nat) (last_advertised : Z) : M W (option Z * Z) :=
  loop fuel (fun last_advertised =>
    let* go := should_continue stop in
    if negb go then ret (inr (None, last_advertised)) else
    let* current := Sequence.get work_sequence in
    let next := current +! 1 in
    let* adv := advertise_work_sequence_if_changed last_advertised current in
    let* won := Sequence.compare_and_set work_sequence current next in
    if won then ret (inr (Some next, fst adv))
    else let* _ := pause SpinLoop in ret (inl (fst adv))) last_advertised.

(** [while claimed > cached_available]: the available sequence, or [break 'work]. *)
Definition await_claimed (fuel : nat) (claimed cached_available : Z) : M W (option Z) :=
  loop fuel (fun cached_available =>
    if cached_available <? claimed then
      let* go := should_continue stop in
      if negb go then ret (inr None) else
      let* r := stop_wait_for fuel stop b claimed in
      match r with
      | Ok available => ret (inl available)
      | Err e =>
          let* brk := wait_error_is_terminal stop e in
          if brk then ret (inr None) else
          let* _ := pause SpinLoop in ret (inl cached_available)
      end
    else ret (inr (Some cached_available))) cached_available.

(** The callbacks for the claimed sequence, and its release. *)
Definition handle_claimed (claimed cached_available : Z) (h : H) : M W (Z * Z * H + H) :=
  let end_of_batch := claimed =? cached_available in
  let '(h1, cb) := on_batch_start handler h 1 ((cached_available -! claimed) +! 1) in
  let* r := run_callback cb in
  match r with
  | Err e =>
      let* _ := poison_with_failure b (consumer_failure BatchStart (to_string e) context (Some claimed)) in
      ret (inr h1)
  | Ok _ =>
      let* event := event_at claimed in
      let '(h2, event', cb) := on_event handler h1 event claimed end_of_batch in
      let* _ := write_event claimed event' in
      let* r := run_callback cb in
      match r with
      | Err e =>
          let* _ := poison_with_failure b (consumer_failure EventProcessing (to_string e) context (Some claimed)) in
          ret (inr h2)
      | Ok _ =>
          let* _ := Sequence.set consumer_sequence claimed in
          ret (inl (cached_available, claimed, h2))
      end
  end.

(** One turn of ['work: while stop.should_continue()]. *)
Definition work_step (fuel : nat) '((cached_available, last_advertised, h) : Z * Z * H) : M W (Z * Z * H + H) :=
  let* go := should_continue stop in
  if negb go then ret (inr h) else
  let* claim := claim_work fuel last_advertised in
  match claim with
  | (None, _) => ret (inr h)
  | (Some claimed, _) =>
      let* available := await_claimed fuel claimed cached_available in
      match available with
      | None => ret (inr h)
      | Some cached_available => handle_claimed claimed cached_available h
      end
  end.

(** [run_work_processor_loop_impl] *)
Definition run_work_processor_loop_impl (fuel : nat) (h : H) : M W H :=
  let* last_advertised := Sequence.get consumer_sequence in
  loop fuel (work_step fuel) (INITIAL_CURSOR_VALUE, last_advertised, h).

End WorkProcessor.

(** ** The entry points *)

(** [run_sequential_batch_loop], its builder variant and the variant with an
    exception handler. *)
Definition run_sequential_batch_loop {H} (handler : EventHandler T H) b (consumer_sequence : loc) (stop : StopFlag)
    (thread_name : string) (fuel : nat) (h : H) : M W H :=
  run_sequential_batch_loop_impl handler None b consumer_sequence stop (without_stage thread_name) fuel h.
Definition run_sequential_batch_loop_for_stage {H} (handler : EventHandler T H) b (consumer_sequence : loc) (stop : StopFlag)
    (context : ConsumerContext) (fuel : nat) (h : H) : M W H :=
  run_sequential_batch_loop_impl handler None b consumer_sequence stop context fuel h.
Definition run_sequential_batch_loop_with_exceptions {H} (handler : EventHandler T H) b (consumer_sequence : loc)
    (stop : StopFlag) (thread_name : string) (exception_handler : option (ExceptionHandler T)) (fuel : nat) (h : H) : M W H :=
  run_sequential_batch_loop_impl handler exception_handler b consumer_sequence stop (without_stage thread_name) fuel h.

(** [run_work_processor_loop] and [run_sequential_readonly_loop], with their
    builder variants. *)
Definition run_work_processor_loop {H} (handler : EventHandler T H) b (consumer_sequence work_sequence : loc) (stop : StopFlag)
    (thread_name : string) (fuel : nat) (h : H) : M W H :=
  run_work_processor_loop_impl handler b consumer_sequence work_sequence stop (without_stage thread_name) fuel h.
Definition run_work_processor_loop_for_stage {H} (handler : EventHandler T H) b (consumer_sequence work_sequence : loc)
    (stop : StopFlag) (context : ConsumerContext) (fuel : nat) (h : H) : M W H :=
  run_work_processor_loop_impl handler b consumer_sequence work_sequence stop context fuel h.
Definition run_sequential_readonly_loop {F} (on_event : F -> T -> Z -> bool -> F * callback) b (consumer_sequence : loc)
    (stop : StopFlag) (thread_name : string) (fuel : nat) (f : F) : M W F :=
  run_sequential_readonly_loop_impl on_event b consumer_sequence stop (without_stage thread_name) fuel f.
Definition run_sequential_readonly_loop_for_stage {F} (on_event : F -> T -> Z -> bool -> F * callback) b (consumer_sequence : loc)
    (stop : StopFlag) (context : ConsumerContext) (fuel : nat) (f : F) : M W F :=
  run_sequential_readonly_loop_impl on_event b consumer_sequence stop context fuel f.

(** [new_work_sequence]; [l] is the fresh address. *)
Definition new_work_sequence (l : loc) : M W unit := write (set_seq l INITIAL_CURSOR_VALUE).

(** ** Contracts shared by the loops *)

Section Shared.
Context (R : W -> W -> Prop) `{HR : !WaitRely R}.

Lemma wp_should_continue stop (Q : bool -> W -> Prop) w :
  (forall r w', R w w' -> Q r w') -> wp R (should_continue stop) Q w.
Proof.
  intros HQ. destruct stop; cbn [should_continue]; [apply wp_bind|]; apply wp_load; intros w' Hr; [apply wp_ret|]; auto.
Qed.

Lemma wp_wait_error stop e (Q : bool -> W -> Prop) w :
  (forall r w', R w w' -> Q r w') -> wp R (wait_error_is_terminal stop e) Q w.
Proof.
  intros HQ. assert (Hn : forall r, Q r w) by (intros; by apply HQ).
  destruct e; cbn [wait_error_is_terminal]; try (by apply wp_ret);
    apply wp_bind, wp_should_continue; intros r w' Hr; apply wp_ret; auto.
Qed.

(** The wait of a consumer that has not released [lo] for [next]. *)
Lemma wp_stop_wait_for (P : W -> Prop) b lo next fuel stop w :
  durations_ok (wait_strategy b) -> 0 <= lo <= next ->
  (forall x y, P x -> R x y -> P y /\ barrier_rely b lo x y) -> P w -> barrier_ok b lo w ->
  (Z.to_nat (Sequencer.buffer_size (sequencer b) w) < fuel)%nat ->
  wp R (stop_wait_for fuel stop b next)
    (fun r w' => R w w' /\ match r with Ok v => readable b next v w' | Err _ => True end) w.
Proof.
  intros Hws Hlo HP Hp Hok Hf. destruct stop as [l|l]; cbn [stop_wait_for].
  - eapply wp_mono; [by apply (wp_wait_for_with_shutdown b lo next fuel Hws Hlo R _ HP)|].
    intros [v|e] w' [Hr Hpost]; done.
  - apply wp_bind, wp_load. intros w1 Hr1. destruct (negb _); [by apply wp_ret|].
    destruct (HP _ _ Hp Hr1) as [Hp1 Hb1].
    eapply wp_mono; [apply (wp_wait_for b lo next fuel Hws Hlo R _ HP); [done | by apply (br_ok _ _ _ _ Hb1) |]|].
    + by rewrite (vr_bsz _ _ _ _ (br_view _ _ _ _ Hb1)).
    + intros [v|e] w' [Hr Hpost]; (split; [by etrans | done]).
Qed.

End Shared.

End Engine.
