(* ===== verification/Delivery.v ===== *)
(** * Delivery: what a sequential consumer hands to its handler

    The sequential batch loop of disruptor/consumer_engine.rs against producers
    that publish the payload [val q] as sequence [q] and do not touch a slot
    the consumer has not released, and upstream consumers that make the payload
    [val q] of it before they release it.  The handler is called for every
    sequence once, in order, with that payload.  What the other threads keep
    intact among themselves is an invariant [J], which the consumer's own
    moves preserve. *)
From S2P Require Import Prelude Effects Errors RingBuffer World Sequence Single Multi Availability Sequencer.
From S2P Require Import Waiting WaitStrategy Barrier ConsumerEngine.

(** Whether a handler call is fatal to the consumer: it failed, and there is no
    exception handler or the exception handler says [Stop]. *)
Definition fatal {T} (eh : option (ExceptionHandler T)) (cb : callback) (q : Z) (event : T) : bool :=
  match cb, eh with
  | Returns (Err _), None => true
  | Returns (Err e), Some x => match x e q event with inl Stop => true | _ => false end
  | _, _ => false
  end.

(** A handler that also writes down its calls: the sequence, the payload it was
    given, and whether the call was fatal. *)
Definition logged {T H} (eh : option (ExceptionHandler T)) (hd : EventHandler T H) :
    EventHandler T (H * list (Z * T * bool)) := {|
  on_event := fun '(h, log) event q eob =>
    let '(h', event', cb) := on_event hd h event q eob in
    ((h', log ++ [(q, event, fatal eh cb q event')]), event', cb);
  on_batch_start := fun '(h, log) n d => let '(h', cb) := on_batch_start hd h n d in ((h', log), cb);
  on_start := fun '(h, log) => let '(h', cb) := on_start hd h in ((h', log), cb);
  on_shutdown := fun '(h, log) => let '(h', cb) := on_shutdown hd h in ((h', log), cb);
  on_timeout := fun '(h, log) q => let '(h', cb) := on_timeout hd h q in (h', log, cb)
|}.

(** The handler does not panic (a panic is the business of the thread that
    runs the loop). *)
Definition returns (cb : callback) : Prop := exists r, cb = Returns r.

Record handler_returns {T H} (hd : EventHandler T H) : Prop := {
  hr_event : forall h event q eob, returns (snd (on_event hd h event q eob));
  hr_batch : forall h n d, returns (snd (on_batch_start hd h n d))
}.

(** The exception handler, if there is one, comes to a decision. *)
Definition decides {T} (eh : option (ExceptionHandler T)) : Prop :=
  forall x e q event, eh = Some x -> exists d, x e q event = inl d.

(** No invariant of the other threads. *)
Definition unconstrained {T} (w : World T) : Prop := True.

Section Delivery.
Context {T : Type} (val : Z -> T) (b : ProcessingSequenceBarrier) (cs : loc) (J : World T -> Prop).
Abbreviation W := (World T).
Implicit Types w : W.
Abbreviation sq := (sequencer b).

(** The consumer has released everything below this sequence. *)
Definition front w : Z := seq_at w cs + 1.

Definition in_window w (q : Z) : Prop := front w <= q < front w + Sequencer.buffer_size sq w.

(** A sequence the consumer may be given: published, and released by every
    upstream consumer. *)
Definition available w (q : Z) : Prop :=
  published sq w q /\ Forall (fun d => q <= seq_at w d) (dependent_sequences b).

(** What the other threads do while the consumer runs. *)
Record engine_rely w w' : Prop := {
  er_barrier : barrier_rely b (front w) w w';
  er_cs : seq_at w' cs = seq_at w cs;
  er_poison : poisoned sq w = true -> poisoned sq w' = true;
  er_wf : RingBuffer.wf (w_ring w) -> RingBuffer.wf (w_ring w');
  er_size : RingBuffer.buffer_size (w_ring w') = RingBuffer.buffer_size (w_ring w);
  er_inv : J w -> J w';
  er_old : forall q, in_window w q -> available w q ->
             RingBuffer.get (w_ring w') q = RingBuffer.get (w_ring w) q;
  er_new : J w -> forall q, in_window w q -> ~ available w q -> available w' q ->
             RingBuffer.get (w_ring w') q = Some (val q)
}.

#[local] Instance published_dec w q : Decision (published sq w q).
Proof. unfold published. destruct sq; apply _. Defined.

#[local] Instance available_dec w q : Decision (available w q).
Proof. unfold available. apply _. Defined.

(** The consumer's own moves keep the invariant of the others: it sleeps, it
    writes the slot of a sequence it was given, it releases such sequences. *)
Class Companion : Prop := {
  cp_sleep : forall w d, 0 <= d -> J w -> J (upd_clock (Z.add d) w);
  cp_write : forall w q event rb', J w -> in_window w q -> available w q ->
               RingBuffer.set (w_ring w) q event = Some rb' -> J (upd_ring (fun _ => rb') w);
  cp_release : forall w v, J w -> front w - 1 <= v -> (forall q, front w <= q <= v -> available w q) -> J (set_seq cs v w)
}.

Lemma er_view w w' : engine_rely w w' -> view_rely sq (front w) w w'.
Proof. intros Hr. apply (er_barrier _ _ Hr). Qed.

(** What has become available stays so within the lap. *)
Lemma er_available w w' q : engine_rely w w' -> in_window w q -> available w q -> available w' q.
Proof.
  intros Hr Hq [Hp Hd]. pose proof (er_view _ _ Hr) as Hv. split; [by apply (vr_published _ _ _ _ Hv)|].
  eapply Forall_impl; [exact Hd|]. intros d Hle. cbn in Hle |- *. pose proof (vr_mono _ _ _ _ Hv d). lia.
Qed.

Lemma available_of w q v : published sq w q -> reached (cursor b) (dependent_sequences b) v w -> q <= v -> available w q.
Proof.
  intros Hp Hr Hq. split; [done|]. apply Forall_forall. intros d Hd. unfold reached in Hr.
  destruct (dependent_sequences b) as [|d' ds]; [by apply not_elem_of_nil in Hd|]. specialize (Hr d Hd). lia.
Qed.

Lemma available_back w w' q :
  (published sq w' q -> published sq w q) -> (forall d, d ∈ dependent_sequences b -> seq_at w' d = seq_at w d) ->
  available w' q -> available w q.
Proof.
  intros Hp Hd [Hpub Hdeps]. split; [auto|]. rewrite Forall_forall in Hdeps |- *. intros d Hin. rewrite <- Hd by done. auto.
Qed.

Lemma er_front w w' : engine_rely w w' -> front w' = front w.
Proof. intros Hr. unfold front. by rewrite (er_cs _ _ Hr). Qed.

Lemma er_window w w' q : engine_rely w w' -> in_window w' q <-> in_window w q.
Proof.
  intros Hr. unfold in_window. by rewrite (er_front _ _ Hr), (vr_bsz _ _ _ _ (er_view _ _ Hr)).
Qed.

#[global] Instance engine_rely_preorder : PreOrder engine_rely.
Proof.
  split.
  - intros w. by constructor.
  - intros w1 w2 w3 H1 H2. pose proof (er_front _ _ H1) as Hf. constructor.
    + pose proof (er_barrier _ _ H2) as Hb. rewrite Hf in Hb. etrans; [apply (er_barrier _ _ H1) | done].
    + by rewrite (er_cs _ _ H2), (er_cs _ _ H1).
    + intros. by apply (er_poison _ _ H2), (er_poison _ _ H1).
    + intros. by apply (er_wf _ _ H2), (er_wf _ _ H1).
    + by rewrite (er_size _ _ H2), (er_size _ _ H1).
    + intros HJ. by apply (er_inv _ _ H2), (er_inv _ _ H1).
    + intros q Hq Hp. rewrite (er_old _ _ H2), (er_old _ _ H1); [done | done | done | by apply (er_window _ _ _ H1) |].
      by apply (er_available _ _ _ H1).
    + intros HJ q Hq Hn Hp. destruct (decide (available w2 q)) as [Hp2|Hn2].
      * rewrite (er_old _ _ H2); [by apply (er_new _ _ H1) | by apply (er_window _ _ _ H1) | done].
      * apply (er_new _ _ H2); [by apply (er_inv _ _ H1) | by apply (er_window _ _ _ H1) | done | done].
Qed.

Context `{HJ : !Companion}.

#[global] Instance engine_rely_wait : WaitRely engine_rely.
Proof.
  constructor; [apply _ | intros w w' l Hr; apply (er_view _ _ Hr) | intros w w' Hr; apply (er_barrier _ _ Hr) |].
  intros w d Hd. constructor; try done; [by apply wr_sleep | by apply cp_sleep].
Qed.

(** The state of the loop when [next] is its next sequence. *)
Record eng_inv (N next : Z) w : Prop := {
  ei_ok : barrier_ok b (front w) w;
  ei_size : Sequencer.buffer_size sq w = N;
  ei_ring : RingBuffer.buffer_size (w_ring w) = N;
  ei_wf : RingBuffer.wf (w_ring w);
  ei_next : 0 <= front w <= next;
  ei_data : forall q, next <= q -> in_window w q -> available w q ->
              RingBuffer.get (w_ring w) q = Some (val q);
  ei_inv : J w;
  ei_cs : cs <> cursor b /\ cs ∉ dependent_sequences b
}.

Lemma eng_inv_rely N next w w' : eng_inv N next w -> engine_rely w w' -> eng_inv N next w'.
Proof.
  intros [] Hr. pose proof (er_front _ _ Hr) as Hf. constructor.
  - rewrite Hf. by apply (br_ok _ _ _ _ (er_barrier _ _ Hr)).
  - by rewrite (vr_bsz _ _ _ _ (er_view _ _ Hr)).
  - by rewrite (er_size _ _ Hr).
  - by apply (er_wf _ _ Hr).
  - by rewrite Hf.
  - intros q Hq Hw Hp. apply (er_window _ _ _ Hr) in Hw. destruct (decide (available w q)) as [Hp0|Hn].
    + rewrite (er_old _ _ Hr) by done. auto.
    + by apply (er_new _ _ Hr).
  - by apply (er_inv _ _ Hr).
  - done.
Qed.

(** ** The consumer's own moves *)

(** Writing the slot of [next] keeps the data above it. *)
Lemma wp_write_event R N next event (Q : unit -> W -> Prop) w :
  eng_inv N next w -> in_window w next -> available w next ->
  (forall rb', let w' := upd_ring (fun _ => rb') w in eng_inv N (next + 1) w' -> Q tt w') ->
  wp R (write_event next event) Q w.
Proof.
  intros Hi Hw Hav HQ. pose proof (ei_ring _ _ _ Hi) as Hrs. pose proof (ei_size _ _ _ Hi) as HN.
  apply wp_bind, wp_read. destruct (set_frame (w_ring w) next event (ei_wf _ _ _ Hi)) as (rb' & Hset & Hwf' & Hs' & _ & Hfr).
  rewrite Hset. apply wp_write, HQ. pose proof (cp_write w next event rb' (ei_inv _ _ _ Hi) Hw Hav Hset). destruct Hi. constructor; cbn; try done.
  - destruct ei_ok0. by constructor.
  - lia.
  - change (front (upd_ring (fun _ => rb') w)) with (front w). lia.
  - intros q Hq Hwin Hp. change (in_window w q) in Hwin. change (available w q) in Hp. unfold in_window in *.
    rewrite Hfr by lia. apply ei_data0; [lia | done | done].
Qed.

Lemma wp_event_at R N next (Q : T -> W -> Prop) w :
  eng_inv N next w -> in_window w next -> available w next -> Q (val next) w ->
  wp R (event_at next) Q w.
Proof.
  intros Hi Hw Hp HQ. apply wp_bind, wp_read. rewrite (ei_data _ _ _ Hi next) by (done || lia). by apply wp_ret.
Qed.

(** Nothing is published a lap above a published sequence the consumer has
    not released. *)
Lemma not_published_next_lap N next w q :
  eng_inv N next w -> front w <= q -> published sq w q -> in_window w q -> ~ published sq w (q + N).
Proof.
  intros Hi Hq Hp Hw Hp'. pose proof (ei_ok _ _ _ Hi) as [[Hcur _] Hwf _ Hlap _].
  pose proof (ei_size _ _ _ Hi) as HN. unfold in_window in Hw. unfold published, view_wf in *.
  destruct sq; cbn [cursor_loc Sequencer.buffer_size] in *.
  - rewrite Hcur in Hlap. lia.
  - rewrite is_available_slot in Hp, Hp' by done. apply Z.eqb_eq in Hp, Hp'.
    change (mp_buffer_size_i64 (w_multi w)) with (slots (w_multi w)) in HN. subst N.
    rewrite parity_lap in Hp' by done. pose proof (wf_slots _ Hwf).
    assert (slot_value (w_multi w) (q + slots (w_multi w)) = slot_value (w_multi w) q) as Heq.
    { unfold slot_value. replace (q + slots (w_multi w)) with (q + 1 * slots (w_multi w)) by lia. by rewrite Z.mod_add by lia. }
    destruct (parity_cases (w_multi w) q); lia.
Qed.

(** Releasing a batch moves the window up past it. *)
Lemma eng_inv_release N v w :
  eng_inv N (v + 1) w -> front w <= v -> v < front w + N ->
  (forall q, front w <= q <= v -> available w q) ->
  eng_inv N (v + 1) (set_seq cs v w).
Proof.
  intros Hi Hv Hv' Hp. pose proof Hi as [Hok HN Hrs Hwf Hn Hd HJw [Hc1 Hc2]]. pose proof Hok as [Hof Hvwf Hdeps Hlap Hmax].
  assert (Hf : front (set_seq cs v w) = v + 1) by (unfold front; by rewrite seq_at_set_eq).
  assert (Hpub : forall q, published sq (set_seq cs v w) q <-> published sq w q).
  { intros q. destruct Hof as [Hcur _]. unfold published. destruct sq; [|done]. cbn in Hcur |- *.
    rewrite seq_at_set_ne; [done|]. intros ->. by apply Hc1. }
  assert (Hbs : Sequencer.buffer_size sq (set_seq cs v w) = Sequencer.buffer_size sq w) by (by destruct sq).
  assert (Hcv : seq_at (set_seq cs v w) (cursor b) = seq_at w (cursor b)) by (by apply seq_at_set_ne).
  constructor.
  - rewrite Hf. constructor.
    + destruct Hof. split; [|done]. by destruct (sequencer b).
    + unfold view_wf in *. by destruct (sequencer b).
    + intros Hne. destruct (Hdeps Hne) as (d & Hd1 & Hd2). exists d. split; [done|].
      rewrite Hcv, seq_at_set_ne; [done|]. intros ->. by apply Hc2.
    + rewrite Hcv, Hbs. lia.
    + by rewrite Hcv.
  - by rewrite Hbs.
  - done.
  - done.
  - rewrite Hf. lia.
  - intros q Hq Hwin Hav0. pose proof (proj1 Hav0) as Hpq. apply Hpub in Hpq. unfold in_window in Hwin. rewrite Hf, Hbs in Hwin.
    assert (Hav : available w q).
    { eapply available_back; [done | | exact Hav0]. intros d Hin. apply seq_at_set_ne. by intros ->. }
    destruct (Z.lt_ge_cases q (front w + N)) as [Hlt|Hge]; [apply Hd; [lia | unfold in_window; lia | done]|].
    exfalso. apply (not_published_next_lap N (v + 1) w (q - N)); [done | lia | apply Hp; lia | unfold in_window; lia |].
    by replace (q - N + N) with q by lia.
  - apply cp_release; [done | lia | done].
  - done.
Qed.

(** Poisoning leaves the consumer's sequence alone. *)
Lemma wp_consumer_poison f (Q : unit -> W -> Prop) w :
  (forall w', seq_at w' cs = seq_at w cs -> poisoned sq w' = true -> Q tt w') ->
  wp engine_rely (poison_with_failure b f) Q w.
Proof.
  intros HQ. unfold poison_with_failure.
  assert (Hsig : forall ws w1, seq_at w1 cs = seq_at w cs -> poisoned sq w1 = true ->
            wp engine_rely (signal_all_when_blocking ws) Q w1).
  { intros ws w1 H1 H2. destruct ws; cbn [signal_all_when_blocking]; try by apply wp_ret, HQ.
    apply wp_store. intros w2 Hr. apply HQ; [by rewrite <- H1, <- (er_cs _ _ Hr)|].
    pose proof (er_poison _ _ Hr H2) as Hp. unfold poisoned in *. by destruct (sequencer b). }
  destruct (sequencer b) eqn:Hsq; cbn [dispatch single_ops multi_ops Sequencer.record_failure Sequencer.poison];
    apply wp_bind, wp_store; intros w1 Hr1; apply wp_bind, wp_store; intros w2 Hr2; apply wp_bind, wp_read;
    apply Hsig; try done; cbn; rewrite <- (er_cs _ _ Hr1); exact (er_cs _ _ Hr2).
Qed.

Context {H : Type} (hd : EventHandler T H) (eh : option (ExceptionHandler T)).
Context (stop : StopFlag) (context : ConsumerContext).
Context (Hret : handler_returns hd) (Heh : decides eh) (Hws : durations_ok (wait_strategy b)).

(** The calls for [n] sequences from [start], none of them fatal. *)
Definition delivered (start n : Z) : list (Z * T * bool) := map (fun q => (q, val q, false)) (seqZ start n).

Lemma delivered_app start n m :
  0 <= n -> 0 <= m -> delivered start n ++ delivered (start + n) m = delivered start (n + m).
Proof. intros. unfold delivered. rewrite <- map_app. f_equal. rewrite seqZ_app by lia. done. Qed.

Lemma delivered_snoc start next :
  start <= next -> delivered start (next - start) ++ [(next, val next, false)] = delivered start (next + 1 - start).
Proof.
  intros. replace (next + 1 - start) with (next - start + 1) by lia. rewrite <- delivered_app by lia.
  f_equal. unfold delivered. rewrite seqZ_cons, seqZ_nil by lia. cbn. repeat f_equal; lia.
Qed.

(** Half-way through the batch up to [v] of a consumer that released [c]. *)
Definition batch_inv N c v log0 (next : Z) (log : list (Z * T * bool)) w : Prop :=
  eng_inv N next w /\ front w = c + 1 /\ c + 1 <= next <= v + 1 /\ v < c + 1 + N /\ v < i64_max /\
  (forall q, c + 1 <= q <= v -> available w q) /\ log = log0 ++ delivered (c + 1) (next - (c + 1)).

Lemma batch_inv_rely N c v log0 next log w w' :
  batch_inv N c v log0 next log w -> engine_rely w w' -> batch_inv N c v log0 next log w'.
Proof.
  intros (Hi & Hf & Hn & Hv & Hm & Hp & Hl) Hr. split_and!; [by eapply eng_inv_rely | | lia | lia | lia | lia | | done].
  - by rewrite (er_front _ _ Hr).
  - intros q Hq. apply (er_available _ _ _ Hr); [|by apply Hp].
    unfold in_window. rewrite Hf, (ei_size _ _ _ Hi). lia.
Qed.

(** A fatal stop: the last call was fatal, the sequence is frozen below it, and
    the producers are poisoned. *)
Definition stopped c log0 (log : list (Z * T * bool)) w : Prop :=
  exists n, 0 <= n /\ seq_at w cs = c + n /\ poisoned sq w = true /\
    log = log0 ++ delivered (c + 1) n ++ [(c + 1 + n, val (c + 1 + n), true)].

Lemma wp_process_batch fuel N c v log0 h w :
  -1 <= c -> batch_inv N c v log0 (c + 1) log0 w ->
  wp engine_rely (process_batch (logged eh hd) eh b cs context fuel v (c + 1) (h, log0))
    (fun r w' => match r with
                 | inl (next, (_, log)) => next = v + 1 /\ batch_inv N c v log0 next log w'
                 | inr (_, log) => stopped c log0 log w'
                 end) w.
Proof.
  intros Hc Hb0. unfold process_batch.
  apply (wp_loop engine_rely (fun '(next, (_, log)) w' => batch_inv N c v log0 next log w')); [|done].
  intros [next [h1 log]] w1 Hb. pose proof Hb as (Hi & Hf & Hn & Hv & Hm & Hp & Hl).
  unfold process_event. destruct (Z.leb_spec next v); [|apply wp_ret; split; [lia | done]].
  assert (Hwin : in_window w1 next) by (unfold in_window; rewrite Hf, (ei_size _ _ _ Hi); lia).
  apply wp_bind. eapply wp_event_at; [exact Hi | done | apply Hp; lia |].
  cbn [logged on_event]. pose proof (hr_event _ Hret h1 (val next) next (next =? v)) as Hcb.
  destruct (on_event hd h1 (val next) next (next =? v)) as [[h2 ev] cb]. destruct Hcb as [r Hcb]. cbn in Hcb. subst cb.
  apply wp_bind. eapply wp_write_event; [exact Hi | done | apply Hp; lia|]. intros rb' w2 Hi2.
  assert (Hb2 : batch_inv N c v log0 (next +! 1) (log ++ [(next, val next, false)]) w2).
  { nowrap. split_and!; [done | done | lia | lia | lia | lia | |].
    - intros q Hq. exact (Hp q Hq).
    - rewrite Hl, <- app_assoc, delivered_snoc by lia. done. }
  apply wp_bind. cbn [run_callback]. apply wp_ret. destruct r as [[]|e]; [by apply wp_ret|]. cbv zeta.
  assert (Hd : exists d, match eh with Some eh => eh e next ev | None => inl Stop end = inl d)
    by (destruct eh as [x|]; [by eapply Heh | by eexists]).
  assert (Hfat : fatal eh (Returns (Err e)) next ev =
                 match match eh with Some x => x e next ev | None => inl Stop end with inl Stop => true | _ => false end)
    by (by destruct eh).
  destruct Hd as [d Hd]. rewrite Hfat, Hd. destruct d; [|by apply wp_ret].
  apply wp_bind, wp_store. intros w3 Hr3. apply wp_bind, wp_consumer_poison. intros w4 Hw4 Hp4. apply wp_ret.
  exists (next - (c + 1)). split_and!; [lia | rewrite Hw4, seq_at_set_eq; nowrap; lia | done |].
  rewrite Hl, <- app_assoc. repeat f_equal; lia.
Qed.

Lemma wp_engine_wait fuel N next w :
  eng_inv N next w -> front w = next -> (Z.to_nat N < fuel)%nat ->
  wp engine_rely (stop_wait_for fuel stop b next)
    (fun r w' => engine_rely w w' /\ match r with Ok v => readable b next v w' | Err _ => True end) w.
Proof.
  intros Hi Hf Hfuel. pose proof (ei_next _ _ _ Hi). pose proof (ei_ok _ _ _ Hi) as Hok. rewrite Hf in Hok.
  apply (wp_stop_wait_for engine_rely (fun w => front w = next) b next next); try done; [lia | |].
  - intros x y Hx Hr. rewrite (er_front _ _ Hr). split; [done|]. rewrite <- Hx. apply (er_barrier _ _ Hr).
  - by rewrite (ei_size _ _ _ Hi).
Qed.

(** The state between two batches. *)
Definition loop_inv N c0 log0 (next : Z) (log : list (Z * T * bool)) w : Prop :=
  eng_inv N next w /\ front w = next /\ c0 + 1 <= next /\ log = log0 ++ delivered (c0 + 1) (next - (c0 + 1)).

(** How the loop may end: the calls that were not fatal are exactly the
    released ones; at most one more call was made, which was fatal and has
    poisoned the producers. *)
Definition consumed c0 log0 (log : list (Z * T * bool)) w : Prop :=
  exists n, 0 <= n /\ seq_at w cs = c0 + n /\
    (log = log0 ++ delivered (c0 + 1) n \/
     (poisoned sq w = true /\ log = log0 ++ delivered (c0 + 1) n ++ [(c0 + 1 + n, val (c0 + 1 + n), true)])).

Lemma loop_inv_rely N c0 log0 next log w w' :
  loop_inv N c0 log0 next log w -> engine_rely w w' -> loop_inv N c0 log0 next log w'.
Proof.
  intros (Hi & Hf & Hn & Hl) Hr. split_and!; [by eapply eng_inv_rely | by rewrite (er_front _ _ Hr) | done | done].
Qed.

Lemma loop_inv_consumed N c0 log0 next log w : loop_inv N c0 log0 next log w -> consumed c0 log0 log w.
Proof.
  intros (Hi & Hf & Hn & Hl). exists (next - (c0 + 1)). split_and!; [lia | unfold front in Hf; lia | by left].
Qed.

Lemma consumed_value c0 log0 log w w' :
  consumed c0 log0 log w -> seq_at w' cs = seq_at w cs -> (poisoned sq w = true -> poisoned sq w' = true) ->
  consumed c0 log0 log w'.
Proof.
  intros (n & Hn & Hc & Hl) He Hp. exists n. split_and!; [done | by rewrite He |].
  destruct Hl as [?|[? ?]]; [by left | right; auto].
Qed.

Lemma readable_window N next v w :
  eng_inv N next w -> front w = next -> readable b next v w -> v < next + N /\ v < i64_max.
Proof.
  intros Hi Hf (_ & _ & Hr & _). pose proof (ei_ok _ _ _ Hi) as Hok. rewrite Hf in Hok.
  pose proof (reached_cursor b next v w Hok Hr). pose proof (bo_lap _ _ _ Hok) as Hlap.
  rewrite (ei_size _ _ _ Hi) in Hlap. pose proof (bo_max _ _ _ Hok). lia.
Qed.

Lemma wp_take_batch fuel N c0 log0 next log h v w :
  -1 <= c0 -> loop_inv N c0 log0 next log w -> readable b next v w -> next <= v ->
  wp engine_rely (take_batch (logged eh hd) eh b cs context fuel v next (h, log))
    (fun r w' => match r with
                 | inl (next', (_, log')) => loop_inv N c0 log0 next' log' w'
                 | inr (_, log') => consumed c0 log0 log' w'
                 end) w.
Proof.
  intros Hc0 Hl Hrd Hv. unfold take_batch. apply wp_bind, wp_load. intros w1 Hr1.
  pose proof (loop_inv_rely _ _ _ _ _ _ _ Hl Hr1) as Hl1. pose proof Hl1 as (Hi1 & Hf1 & Hn1 & Hlog1).
  destruct (readable_window N next v w) as [Hv1 Hv2]; [apply Hl | apply Hl | done|].
  assert (Hb : batch_inv N (next - 1) v log next log w1).
  { pose proof Hl as (Hi & Hf & _). split_and!; [done | lia | lia | lia | lia | lia | | ].
    - intros q Hq. apply (er_available _ _ _ Hr1).
      + unfold in_window. rewrite Hf, (ei_size _ _ _ Hi). lia.
      + destruct Hrd as (_ & _ & Hre & Hpu). apply (available_of w q v); [apply Hpu; lia | done | lia].
    - replace (next - (next - 1 + 1)) with 0 by lia. unfold delivered. rewrite seqZ_nil by lia. by rewrite app_nil_r. }
  cbn [logged on_batch_start]. cbv zeta.
  pose proof (hr_batch _ Hret h ((v -! next) +! 1) (v -! seq_at w1 cs)) as Hcb.
  destruct (on_batch_start hd h _ _) as [h2 cb]. destruct Hcb as [r Hcb]. cbn in Hcb. subst cb.
  apply wp_bind. cbn [run_callback]. apply wp_ret. destruct r as [[]|e].
  - apply wp_bind. pose proof (wp_process_batch fuel N (next - 1) v log h2 w1 ltac:(lia)) as Hpb.
    replace (next - 1 + 1) with next in Hpb by lia. eapply wp_mono; [by apply Hpb|].
    intros [[next' [h3 log3]]|[h3 log3]] w2.
    + intros [-> Hb2]. apply wp_bind, wp_store. intros w3 Hr3. apply wp_ret.
      pose proof (batch_inv_rely _ _ _ _ _ _ _ _ Hb2 Hr3) as (Hi3 & Hf3 & _ & _ & _ & Hp3 & Hlog3).
      replace (next - 1 + 1) with next in * by lia.
      split_and!; [| unfold front; rewrite seq_at_set_eq; lia | lia |].
      * apply eng_inv_release; [done | lia | lia |]. intros q Hq. apply Hp3. lia.
      * rewrite Hlog3, Hlog1, <- app_assoc. f_equal. replace next with (c0 + 1 + (next - (c0 + 1))) at 2 by lia.
        rewrite delivered_app by lia. f_equal. lia.
    + intros (n & Hn & Hcs & Hp & Hlog3). apply wp_ret. exists (next - (c0 + 1) + n). split_and!; [lia | lia |].
      right. split; [done|]. replace (next - 1 + 1) with next in * by lia.
      rewrite Hlog3, Hlog1, <- !app_assoc. f_equal. rewrite <- delivered_app by lia. rewrite <- app_assoc.
      replace (c0 + 1 + (next - (c0 + 1))) with next by lia.
      by replace (c0 + 1 + (next - (c0 + 1) + n)) with (next + n) by lia.
  - apply wp_bind, wp_consumer_poison. intros w2 Hw2 Hp2. apply wp_ret.
    eapply consumed_value; [by eapply loop_inv_consumed | done | done].
Qed.

Lemma wp_sequential_step fuel N c0 next log h w :
  -1 <= c0 -> (Z.to_nat N < fuel)%nat -> loop_inv N c0 [] next log w ->
  wp engine_rely (sequential_step (logged eh hd) eh b cs stop context fuel (next, (h, log)))
    (fun r w' => match r with
                 | inl (next', (_, log')) => loop_inv N c0 [] next' log' w'
                 | inr (_, log') => consumed c0 [] log' w'
                 end) w.
Proof.
  intros Hc0 Hfuel Hl. unfold sequential_step. apply wp_bind, (wp_should_continue engine_rely). intros go w2 Hr2.
  pose proof (loop_inv_rely _ _ _ _ _ _ _ Hl Hr2) as Hl2.
  destruct go; cbn [negb]; [|apply wp_ret; by eapply loop_inv_consumed].
  apply wp_bind. eapply wp_mono; [apply (wp_engine_wait fuel N); [apply Hl2 | apply Hl2 | done]|].
  intros [v|e] w3 [Hr3 Hrd]; pose proof (loop_inv_rely _ _ _ _ _ _ _ Hl2 Hr3) as Hl3.
  - destruct (Z.ltb_spec v next); [by apply wp_ret|]. eapply wp_mono; [apply (wp_take_batch fuel N c0 []); [lia | done | done | done]|].
    intros [[next' [h' log']]|[h' log']] w4 Hpost; done.
  - apply wp_bind, (wp_wait_error engine_rely). intros brk w4 Hr4. pose proof (loop_inv_rely _ _ _ _ _ _ _ Hl3 Hr4) as Hl4.
    destruct brk; [apply wp_ret; by eapply loop_inv_consumed|].
    apply wp_bind, (wp_pause engine_rely); [intros d [= <-]; lia|]. intros w5 Hr5. apply wp_ret.
    by eapply loop_inv_rely.
Qed.

Lemma wp_sequential_loop fuel N h w :
  eng_inv N (front w) w -> seq_at w cs < i64_max -> (Z.to_nat N < fuel)%nat ->
  wp engine_rely (run_sequential_batch_loop_impl (logged eh hd) eh b cs stop context fuel (h, []))
    (fun '(_, log) w' => consumed (seq_at w cs) [] log w') w.
Proof.
  intros Hi0 Hmax Hfuel. unfold run_sequential_batch_loop_impl. apply wp_bind, wp_load. intros w0 Hr0.
  pose proof (eng_inv_rely _ _ _ _ Hi0 Hr0) as Hi1. pose proof (ei_next _ _ _ Hi0) as Hn0. unfold front in Hn0.
  rewrite (er_cs _ _ Hr0). nowrap. set (c0 := seq_at w cs) in *.
  apply (wp_loop engine_rely (fun '(next, (_, log)) w' => loop_inv N c0 [] next log w')).
  2:{ split_and!; [done | unfold front; rewrite (er_cs _ _ Hr0); done | lia |]. replace (c0 + 1 - (c0 + 1)) with 0 by lia.
      unfold delivered. by rewrite seqZ_nil. }
  intros [next [h1 log]] w1 Hl. eapply wp_mono; [apply (wp_sequential_step fuel N c0); [lia | done | done]|].
  by intros [[next' [h' log']]|[h' log']] w2.
Qed.

(** C1: The sequential consumer, against producers and other consumers that keep to
    their part: its handler is called for the sequences after the one it had
    released, each once, in order and without a gap, with the payload that was
    published; when the loop ends, its sequence stands at the last call that
    was not fatal, and at most one more call was made, a fatal one (it failed
    and was not told to continue), after which the producers are poisoned. *)
Theorem sequential_delivery fuel N h w :
  eng_inv N (front w) w -> seq_at w cs < i64_max -> (Z.to_nat N < fuel)%nat ->
  wp engine_rely (run_sequential_batch_loop_impl (logged eh hd) eh b cs stop context fuel (h, []))
    (fun '(_, log) w' => consumed (seq_at w cs) [] log w') w.
Proof. apply wp_sequential_loop. Qed.

End Delivery.

#[global] Instance companion_unconstrained {T} (b : ProcessingSequenceBarrier) cs : Companion (T := T) b cs unconstrained.
Proof. done. Qed.
