(* ===== verification/Progress.v ===== *)
(** * Progress: consumers that are told to stop return

    The loops of disruptor/consumer_engine.rs have no bound of their own: they
    end when their stop flag is raised.  Here: once it is, and whatever the
    other threads do, the sequential loop returns, and with it the waits and
    the batch it may be in the middle of. *)
From S2P Require Import Prelude Effects Errors RingBuffer World Sequence Single Multi Availability Sequencer.
From S2P Require Import Waiting WaitStrategy Barrier ConsumerEngine Delivery.

Section Structural.
Context {T : Type}.
Abbreviation W := (World T).

(** ** The schedule does not go back *)

Lemma advances_wait_available c ds : advances (wait_available_sequence (T := T) c ds).
Proof. unfold wait_available_sequence, Sequence.get_minimum_sequence, Sequence.get. advances. Qed.

Lemma halts_wait_available c ds : halts (wait_available_sequence (T := T) c ds).
Proof. unfold wait_available_sequence, Sequence.get_minimum_sequence, Sequence.get. halts. Qed.

Lemma advances_pause i : advances (pause (T := T) i).
Proof. unfold pause. advances. Qed.

Lemma halts_pause i : halts (pause (T := T) i).
Proof. unfold pause. halts. Qed.

Lemma advances_check_alert b : advances (check_alert (T := T) b).
Proof. unfold check_alert, is_alerted. advances. Qed.

Lemma halts_check_alert b : halts (check_alert (T := T) b).
Proof. unfold check_alert, is_alerted. halts. Qed.

Lemma advances_set_index q : advances (check_index (T := T) q).
Proof. unfold check_index. advances. Qed.

#[local] Hint Resolve advances_wait_available halts_wait_available advances_pause halts_pause advances_check_alert
  halts_check_alert advances_set_index : effects.

Lemma advances_idle_between ws x : advances (idle_between (T := T) ws x).
Proof. unfold idle_between. advances. Qed.

Lemma advances_is_alerted_with a : advances (is_alerted_with (T := T) a).
Proof. unfold is_alerted_with, blocking_is_alerted, flag_load. advances. Qed.

Lemma advances_resolve fuel b next v : advances (resolve_highest_published (T := T) fuel b next v).
Proof.
  unfold resolve_highest_published. destruct (sequencer b);
    cbn [dispatch single_ops multi_ops Sequencer.get_highest_published_sequence];
    unfold Single.get_highest_published_sequence, Multi.get_highest_published_sequence,
      get_highest_published_sequence_bitmap, get_highest_published_sequence_legacy; advances.
Qed.

#[local] Hint Resolve advances_idle_between advances_is_alerted_with advances_resolve : effects.

Lemma advances_meq {A} (m m' : M W A) : m ≈ m' -> advances m' -> advances m.
Proof. intros Heq Hm e k w. rewrite (Heq e k w). apply Hm. Qed.

Lemma advances_blocking_alert fuel q c ds a : advances (blocking_with_alert (T := T) fuel q c ds a).
Proof. unfold blocking_with_alert, mutex_lock, condvar_wait, Sequence.get. advances. Qed.

Lemma advances_blocking_timeout fuel q c ds t a : advances (blocking_with_timeout (T := T) fuel q c ds t a).
Proof. unfold blocking_with_timeout, mutex_lock, condvar_wait_for, elapsed, now, Sequence.get. advances. Qed.

#[local] Hint Resolve advances_blocking_alert advances_blocking_timeout : effects.

Lemma advances_strategy_wait fuel ws q c ds a : advances (wait_for_with_alert (T := T) fuel ws q c ds a).
Proof.
  destruct (blocking_or_polling (T := T) ws) as [->|Hp]; [apply advances_blocking_alert|].
  apply (advances_meq _ _ (po_alert _ Hp _ _ _ _ _)). unfold poll_with_alert, flag_load. advances.
Qed.

Lemma advances_strategy_shutdown fuel ws q c ds l a :
  advances (wait_for_with_shutdown_and_alert (T := T) fuel ws q c ds l a).
Proof.
  destruct (blocking_or_polling (T := T) ws) as [->|Hp].
  - change (advances (trait_default_with_shutdown (fun t => blocking_with_timeout (T := T) fuel q c ds t a) fuel l a)).
    unfold trait_default_with_shutdown, flag_load. advances.
  - apply (advances_meq _ _ (po_shutdown _ Hp _ _ _ _ _ _)). unfold poll_with_shutdown, flag_load. advances.
Qed.

#[local] Hint Resolve advances_strategy_wait : effects.
#[local] Hint Resolve advances_strategy_shutdown : effects.

Lemma advances_stop_wait fuel stop b next : advances (stop_wait_for (T := T) fuel stop b next).
Proof. unfold stop_wait_for, wait_for, wait_for_with_shutdown. advances. Qed.

Lemma halts_signal ws : halts (signal_all_when_blocking (T := T) ws).
Proof. unfold signal_all_when_blocking. halts. Qed.

Lemma advances_signal ws : advances (signal_all_when_blocking (T := T) ws).
Proof. unfold signal_all_when_blocking. advances. Qed.

#[local] Hint Resolve halts_signal advances_signal : effects.

Lemma halts_poison b f : halts (poison_with_failure (T := T) b f).
Proof.
  unfold poison_with_failure. destruct (sequencer b);
    cbn [dispatch single_ops multi_ops Sequencer.record_failure Sequencer.poison];
    unfold Single.record_failure, Single.poison, Multi.record_failure, Multi.poison; halts.
Qed.

Lemma advances_poison b f : advances (poison_with_failure (T := T) b f).
Proof.
  unfold poison_with_failure. destruct (sequencer b);
    cbn [dispatch single_ops multi_ops Sequencer.record_failure Sequencer.poison];
    unfold Single.record_failure, Single.poison, Multi.record_failure, Multi.poison; advances.
Qed.

#[local] Hint Resolve halts_poison advances_poison : effects.

(** ** The batch *)

Section Batch.
Context {H : Type} (hd : EventHandler T H) (eh : option (ExceptionHandler T)).
Context (b : ProcessingSequenceBarrier) (cs : loc) (context : ConsumerContext).

Lemma halts_event_at q : halts (event_at (T := T) q).
Proof. unfold event_at. halts. Qed.

Lemma halts_write_event q (x : T) : halts (write_event q x).
Proof. unfold write_event. halts. Qed.

Lemma halts_run_callback cb : halts (run_callback (T := T) cb).
Proof. unfold run_callback. halts. Qed.

Lemma advances_take_batch fuel v next h : advances (take_batch hd eh b cs context fuel v next h).
Proof. unfold take_batch, process_batch, process_event, event_at, write_event, run_callback, Sequence.set, Sequence.get. advances. Qed.

#[local] Hint Resolve halts_event_at halts_write_event halts_run_callback : effects.

(** One turn ends, and the next one is one sequence further. *)
Lemma ends_process_event (e : env W) v next h k w :
  ends e (process_event hd eh b cs context v (next, h))
    (fun r _ _ => match r with inl (next', _) => next <= v /\ next' = next +! 1 | inr _ => True end) k w.
Proof.
  unfold process_event. destruct (Z.leb_spec next v); [|done].
  apply ends_bind. eapply ends_mono; [apply halts_event_at|]. intros event k1 w1 _.
  destruct (on_event hd h event next (next =? v)) as [[h' event'] cb].
  apply ends_bind. eapply ends_mono; [apply halts_write_event|]. intros _ k2 w2 _.
  apply ends_bind. eapply ends_mono; [apply halts_run_callback|]. intros [[]|err] k3 w3 _; [done|]. cbv zeta.
  destruct (match eh with Some x => x err next event' | None => inl Stop end) as [[]|msg]; [|done|done].
  apply ends_bind. eapply ends_mono; [apply halts_atomic|]. intros [] k4 w4 _.
  apply ends_bind. eapply ends_mono; [apply halts_poison|]. done.
Qed.

Lemma ends_process_batch (e : env W) fuel v next h k w :
  0 <= next -> v < i64_max -> (Z.to_nat (v + 1 - next) < fuel)%nat ->
  ends e (process_batch hd eh b cs context fuel v next h) (fun _ _ _ => True) k w.
Proof.
  intros Hn Hv Hf. unfold process_batch.
  apply (ends_loop_measure e (fun '(q, _) => Z.to_nat (v + 1 - q)) _ (fun '(q, _) => 0 <= q)); [|done|done].
  intros [q h1] w1 k1 Hq. eapply ends_mono; [apply ends_process_event|].
  intros [[q' h']|] k2 w2; [|done]. intros [Hle ->]. nowrap. split; lia.
Qed.

Lemma ends_take_batch (e : env W) fuel v next h k w :
  0 <= next -> v < i64_max -> (Z.to_nat (v + 1 - next) < fuel)%nat ->
  ends e (take_batch hd eh b cs context fuel v next h) (fun _ _ _ => True) k w.
Proof.
  intros Hn Hv Hf. unfold take_batch. apply ends_bind, ends_load.
  destruct (on_batch_start hd h _ _) as [h' cb]. apply ends_bind. eapply ends_mono; [apply halts_run_callback|].
  intros [[]|err] k1 w1 _.
  - apply ends_bind. eapply ends_mono; [by apply ends_process_batch|]. by intros [[q h2]|h2] k2 w2 _.
  - apply ends_bind. eapply ends_mono; [apply halts_poison|]. intros [] k2 w2 _. exact I.
Qed.

End Batch.

End Structural.

(** ** The waits, and the loop *)

Section Stop.
Context {T : Type}.
Abbreviation W := (World T).
Implicit Types (w : W) (b : ProcessingSequenceBarrier).

#[local] Hint Resolve halts_check_alert halts_pause : effects.

(** From action [k0] of the schedule on the consumer is told to stop: its
    shutdown flag is up; or its running flag is down and, as [halt] does with
    it, the barrier is alerted. *)
Definition stop_raised (e : env W) (stop : StopFlag) b (k0 : nat) : Prop :=
  forall j w, (k0 <= j)%nat ->
    match stop with
    | External l => flag_at (e j w) l = true
    | Running l => flag_at (e j w) l = false /\ flag_at (e j w) (alerted b) = true
    end.

(** The check of the stop flag is one action, and fails from [k0] on. *)
Lemma should_continue_run (e : env W) stop b k0 k w :
  stop_raised e stop b k0 ->
  exists go, should_continue stop e k w = Done go (S k) (e k w) /\ (go = true -> (k < k0)%nat).
Proof.
  intros Hstop. destruct stop as [l|l]; cbn [should_continue].
  - exists (negb (flag_at (e k w) l)). split; [done|]. intros Hg. destruct (Nat.lt_ge_cases k k0) as [|Hge]; [done|].
    specialize (Hstop k w Hge). cbn in Hstop. by rewrite Hstop in Hg.
  - exists (flag_at (e k w) l). split; [done|]. intros Hg. destruct (Nat.lt_ge_cases k k0) as [|Hge]; [done|].
    destruct (Hstop k w Hge) as [Hfl _]. congruence.
Qed.

(** So a turn that starts with the check continues only before [k0]. *)
Lemma ends_should_continue {A} (e : env W) stop b k0 k w (m m' : M W A) (Q : A -> nat -> W -> Prop) :
  stop_raised e stop b k0 -> ends e m' Q (S k) (e k w) -> ((k < k0)%nat -> ends e m Q (S k) (e k w)) ->
  ends e (let* go := should_continue stop in if negb go then m' else m) Q k w.
Proof.
  intros Hstop Hm' Hm. destruct (should_continue_run e stop b k0 k w Hstop) as (go & Hrun & Hgo).
  apply ends_bind. unfold ends at 1. rewrite Hrun. destruct go; cbn [negb]; auto.
Qed.

Section Waits.
Context (b : ProcessingSequenceBarrier) (lo next : Z) (fuel : nat) (Hlo : 0 <= lo <= next).
Context (Hws : durations_ok (wait_strategy b)) (Hnb : wait_strategy b <> BlockingWaitStrategy).
Context (R : W -> W -> Prop) `{HR : !WaitRely R} (P : W -> Prop).
Context (HP : forall x y, P x -> R x y -> P y /\ barrier_rely b lo x y).
Context (e : env W) (He : respects R e).

Lemma ends_resolve v k w :
  P w -> barrier_ok b lo w -> (Z.to_nat (Sequencer.buffer_size (sequencer b) w) < fuel)%nat ->
  reached (cursor b) (dependent_sequences b) v w ->
  ends e (resolve_highest_published fuel b next v) (fun _ _ _ => True) k w.
Proof.
  intros Hp Hok Hf Hr. pose proof (reached_cursor b lo v w Hok Hr) as Hc. pose proof Hok as [[Hcur Hneed] Hwf _ Hlap Hmax].
  unfold resolve_highest_published. rewrite Hneed. destruct (Z.ltb_spec v next); [rewrite orb_true_r; by apply ends_ret|].
  destruct (sequencer b) eqn:Hsq; cbn [negb orb]; [by apply ends_ret|].
  apply twp_ends. eapply twp_mono; [apply (view_highest (sq := World.Multi) R P _ _ lo); try (done || lia)|done].
  intros x y Hx Hxy. destruct (HP _ _ Hx Hxy) as [? [HV _ _]]. by rewrite Hsq in HV.
Qed.

(** The end of every wait. *)
Lemma ends_wait_tail v k w0 w :
  P w0 -> barrier_ok b lo w0 -> (Z.to_nat (Sequencer.buffer_size (sequencer b) w0) < fuel)%nat ->
  R w0 w -> reached (cursor b) (dependent_sequences b) v w ->
  ends e (let? _ := check_alert b in
          let* r := resolve_highest_published fuel b next v in ret (Ok r)) (fun _ _ _ => True) k w.
Proof.
  intros Hp Hok Hf H0 Hr. apply ends_try. unfold check_alert, is_alerted. apply ends_bind, ends_load.
  assert (H1 : R w0 (e k w)) by (etrans; [exact H0 | apply He]). destruct (HP _ _ Hp H1) as [Hp1 Hb1].
  destruct (flag_at _ _); [done|]. apply ends_ret, ends_bind. eapply ends_mono; [apply ends_resolve|done].
  - done.
  - by apply (br_ok _ _ _ _ Hb1).
  - by rewrite (vr_bsz _ _ _ _ (br_view _ _ _ _ Hb1)).
  - eapply (reached_rely R); [exact Hr | apply He].
Qed.

Lemma ends_stop_wait_for stop k0 k w :
  stop_raised e stop b k0 -> P w -> barrier_ok b lo w ->
  (Z.to_nat (Sequencer.buffer_size (sequencer b) w) < fuel)%nat -> (k0 - k < fuel)%nat ->
  ends e (stop_wait_for fuel stop b next) (fun _ _ _ => True) k w.
Proof.
  intros Hst Hp Hok Hf Hk. destruct (blocking_or_polling (T := T) (wait_strategy b)) as [|Hpo]; [done|].
  destruct stop as [l|l]; cbn [stop_wait_for]; apply ends_bind, ends_load.
  - destruct (flag_at _ l); [done|]. apply ends_try. unfold check_alert, is_alerted. apply ends_bind, ends_load.
    destruct (flag_at _ (alerted b)); [done|]. apply ends_ret, ends_try.
    set (w1 := e (S k) (e k w)). assert (H1 : R w w1) by (etrans; apply He).
    eapply ends_mono; [apply (ends_wp R); [done | by apply (wp_wait_for_with_shutdown_and_alert R) |]|].
    + apply twp_ends. rewrite (po_shutdown _ Hpo). apply (twp_poll_with_shutdown e _ _ _ _ _ l k0); [done | lia].
    + intros [v|err] k2 w2 [_ [H2 Hr]]; [|done]. apply (ends_wait_tail v _ w); [done | done | done | by etrans | apply Hr].
  - destruct (flag_at _ l); cbn [negb]; [|done]. apply ends_try. unfold check_alert, is_alerted. apply ends_bind, ends_load.
    destruct (flag_at _ (alerted b)); [done|]. apply ends_ret, ends_try.
    set (w1 := e (S k) (e k w)). assert (H1 : R w w1) by (etrans; apply He).
    eapply ends_mono; [apply (ends_wp R); [done | by apply (wp_wait_for_with_alert R) |]|].
    + apply twp_ends. rewrite (po_alert _ Hpo). apply (twp_poll_with_alert e _ _ _ _ _ k0); [|lia].
      right. intros j x Hj. by apply Hst.
    + intros [v|err] k2 w2 [_ [H2 Hr]]; [|done]. apply (ends_wait_tail v _ w); [done | done | done | by etrans | apply Hr].
Qed.

End Waits.

Section Loop.
Context (val : Z -> T) (b : ProcessingSequenceBarrier) (cs : loc) (J : W -> Prop) `{HJ : !Companion b cs J}.
Context {H : Type} (hd : EventHandler T H).
Context (eh : option (ExceptionHandler T)) (stop : StopFlag) (context : ConsumerContext).
Context (Hret : handler_returns hd) (Heh : decides eh).
Context (Hws : durations_ok (wait_strategy b)) (Hnb : wait_strategy b <> BlockingWaitStrategy).
Context (e : env W) (He : respects (engine_rely val b cs J) e) (k0 : nat) (Hstop : stop_raised e stop b k0).

(** After the check of the stop flag. *)
Lemma ends_sequential_rest fuel N c0 next log h k w :
  -1 <= c0 -> (Z.to_nat N < fuel)%nat -> (k0 - k < fuel)%nat -> loop_inv val b cs J N c0 [] next log w ->
  ends e (let* r := stop_wait_for fuel stop b next in
          match r with
          | Ok available_sequence =>
              if available_sequence <? next then ret (inl (next, (h, log)))
              else take_batch (logged eh hd) eh b cs context fuel available_sequence next (h, log)
          | Err err =>
              let* brk := wait_error_is_terminal stop err in
              if brk then ret (inr (h, log)) else
              let* _ := pause (Sleep 1000000) in ret (inl (next, (h, log)))
          end) (fun _ k' _ => (k <= k')%nat) k w.
Proof.
  intros Hc0 Hf Hk Hl. pose proof Hl as (Hi & Hfr & Hn & _).
  assert (HP : forall x y, front cs x = next -> engine_rely val b cs J x y -> front cs y = next /\ barrier_rely b next x y).
  { intros x y Hx Hr. rewrite (er_front _ _ _ _ _ _ Hr). split; [done|]. rewrite <- Hx. apply (er_barrier _ _ _ _ _ _ Hr). }
  assert (Hwait : ends e (stop_wait_for fuel stop b next) (fun _ _ _ => True) k w).
  { apply (ends_stop_wait_for b next next fuel ltac:(lia) Hws Hnb (engine_rely val b cs J) _ HP e He stop k0); [done | done | | | done].
    - rewrite <- Hfr. apply (ei_ok _ _ _ _ _ _ _ Hi).
    - by rewrite (ei_size _ _ _ _ _ _ _ Hi). }
  apply (ends_wp _ _ _ _ _ _ _ He (wp_engine_wait val b cs J stop Hws fuel N next w Hi Hfr Hf)) in Hwait.
  apply (ends_advances _ _ _ _ _ (advances_stop_wait fuel stop b next)) in Hwait.
  apply ends_bind. eapply ends_mono; [exact Hwait|]. intros [v|err] k1 w1 (Hk1 & _ & Hr1 & Hrd).
  - destruct (Z.ltb_spec v next); [done|].
    pose proof (loop_inv_rely _ _ _ _ _ _ _ _ _ _ _ Hl Hr1) as Hl1.
    destruct (readable_window val b cs J N next v w1) as [Hv1 Hv2]; [apply Hl1 | apply Hl1 | done|].
    eapply ends_mono; [apply ends_advances; [apply advances_take_batch | apply ends_take_batch; lia]|].
    intros r k2 w2 [Hk2 _]. lia.
  - assert (Hh : halts (let* brk := wait_error_is_terminal (T := T) stop err in
              if brk then ret (A := Z * (H * list (Z * T * bool)) + _) (inr (h, log)) else
              let* _ := pause (Sleep 1000000) in ret (inl (next, (h, log)))))
      by (unfold wait_error_is_terminal, should_continue; halts).
    eapply ends_mono; [apply ends_advances; [|apply Hh]|].
    + unfold wait_error_is_terminal, should_continue, pause. advances.
    + intros r k2 w2 [Hk2 _]. lia.
Qed.

Lemma ends_sequential_step fuel N c0 next log h k w :
  -1 <= c0 -> (Z.to_nat N < fuel)%nat -> (k0 - k < fuel)%nat -> loop_inv val b cs J N c0 [] next log w ->
  ends e (sequential_step (logged eh hd) eh b cs stop context fuel (next, (h, log)))
    (fun r k' _ => match r with inl _ => (k < k')%nat /\ (k < k0)%nat | inr _ => True end) k w.
Proof.
  intros Hc0 Hf Hk Hl. pose proof (loop_inv_rely _ _ _ _ _ _ _ _ _ _ _ Hl (He k w)) as Hl1.
  pose proof (should_continue_run e stop b k0 k w Hstop) as Hgo.
  destruct Hgo as (go & Hrun & Hgo). unfold sequential_step. apply ends_bind. unfold ends at 1. rewrite Hrun.
  destruct go; cbn [negb]; [|done].
  eapply ends_mono; [apply (ends_sequential_rest fuel N c0); [done | done | lia | done]|].
  intros [x|x] k' w' Hk'; [|done]. specialize (Hgo eq_refl). lia.
Qed.

Lemma sequential_loop_ends fuel N h w :
  eng_inv val b cs J N (front cs w) w -> seq_at w cs < i64_max -> (Z.to_nat N < fuel)%nat -> (k0 < fuel)%nat ->
  exists h' log k' w',
    run_sequential_batch_loop_impl (logged eh hd) eh b cs stop context fuel (h, []) e 0%nat w = Done (h', log) k' w' /\
    consumed val b cs (seq_at w cs) [] log w'.
Proof.
  intros Hi0 Hmax Hf Hk. pose proof (ei_next _ _ _ _ _ _ _ Hi0) as Hn0.
  edestruct (wp_ends (engine_rely val b cs J) e (run_sequential_batch_loop_impl (logged eh hd) eh b cs stop context fuel (h, [])))
    as ([h' log] & k' & w' & Hrun & Hpost); [done | by apply (wp_sequential_loop val b cs J hd eh stop context Hret Heh Hws fuel N) | |].
  2:{ by exists h', log, k', w'. }
  apply ends_bind, ends_load. rewrite (er_cs _ _ _ _ _ _ (He 0%nat w)). unfold front in *. nowrap.
  apply (ends_loop e _ (fun '(next, (_, log)) _ w' => loop_inv val b cs J N (seq_at w cs) [] next log w') _ k0); [| |lia].
  - intros [next [h1 log]] w1 k1 Hl. eapply ends_mono; [apply (ends_wp (engine_rely val b cs J)); [done | |]|].
    + apply (wp_sequential_step val b cs J hd eh stop context Hret Heh Hws fuel N (seq_at w cs)); [lia | done | done].
    + apply (ends_sequential_step fuel N (seq_at w cs)); [lia | done | lia | done].
    + intros [[next' [h2 log2]]|[h2 log2]] k2 w2 [Hk2 Hl2]; [|done]. split_and!; [lia | lia | done].
  - split_and!; [by apply (eng_inv_rely _ _ _ _ _ _ w) | unfold front; rewrite (er_cs _ _ _ _ _ _ (He 0%nat w)); done | lia |].
    replace (seq_at w cs + 1 - (seq_at w cs + 1)) with 0 by lia. unfold delivered. by rewrite seqZ_nil.
Qed.

(** C9: A consumer that is told to stop stops: from the action on at which its stop
    flag is raised, whatever the others do, the sequential loop (with a
    polling wait strategy) returns, and what it leaves behind is what
    [consumed] says: every handled event released, in order, or a fatal stop. *)
Theorem sequential_loop_stops fuel N h w :
  eng_inv val b cs J N (front cs w) w -> seq_at w cs < i64_max -> (Z.to_nat N < fuel)%nat -> (k0 < fuel)%nat ->
  exists h' log k' w',
    run_sequential_batch_loop_impl (logged eh hd) eh b cs stop context fuel (h, []) e 0%nat w = Done (h', log) k' w' /\
    consumed val b cs (seq_at w cs) [] log w'.
Proof. apply sequential_loop_ends. Qed.

End Loop.

End Stop.
