(* ===== verification/Threads.v ===== *)
(** * Threads: the consumer threads of the builder (disruptor/builder/consumer.rs)

    A managed consumer thread runs one of the loops of [ConsumerEngine] between
    the handler's [on_start] and [on_shutdown], under [catch_unwind].  What the
    other parts of a pipeline rely on: such a thread does not disappear
    silently.  Thread names and the operating system's CPU pinning are
    arguments. *)
From stdpp Require Import pretty.
From S2P Require Import Prelude Effects Errors World Sequence Single Multi Availability Sequencer.
From S2P Require Import Waiting WaitStrategy Barrier ConsumerEngine Delivery Progress.

(** [RunMode] (consumer_engine.rs). *)
Inductive RunMode : Type :=
| Sequential
| WorkPool (work_sequence : loc).

(** [ConsumerAccess] *)
Inductive ConsumerAccess : Type := Mutable | Readonly.

#[global] Instance ConsumerAccess_eq_dec : EqDecision ConsumerAccess.
Proof. solve_decision. Defined.

#[global] Instance ConsumerAccess_inhabited : Inhabited ConsumerAccess := populate Mutable.

(** [lifecycle_failure] *)
Definition lifecycle_failure (ph : FailurePhase) (message thread_name : string) (stage_index : Z) : FailureRecord :=
  with_stage_index stage_index (with_thread_name thread_name (failure_new ph message)).

(** [set_thread_affinity] (builder/core.rs), over what the core_affinity crate
    reports and does: the error, if there is one. *)
Definition set_thread_affinity (get_core_ids : option (list Z)) (set_for_current : Z -> bool) (core_id : Z) : option string :=
  match get_core_ids with
  | None => Some "Failed to get available CPU cores"
  | Some core_ids =>
      match core_ids !! Z.to_nat core_id with
      | None => Some ("Invalid core ID: " +:+ pretty core_id +:+ ". Available cores: 0-" +:+
                      pretty (as_u64 (Z.of_nat (length core_ids) - 1)))
      | Some target_core =>
          if set_for_current target_core then None
          else Some ("Failed to set CPU affinity to core " +:+ pretty core_id)
      end
  end.

(** [assert_access_compatible]: the assertion over the consumers registered so
    far, given as their stages and access kinds. *)
Definition access_compatible (consumers : list (nat * ConsumerAccess)) (stage_index : nat) (access : ConsumerAccess) : bool :=
  forallb (fun c => negb (bool_decide (c.1 = stage_index) && bool_decide (c.2 <> access))) consumers.

(** [stage_run_modes]: the first loop counts the consumers of every stage and
    remembers the access of the last one; a stage with several mutable
    consumers is a worker pool, with a fresh work sequence (address [fresh i]).
    [None]: an index out of bounds, which panics. *)
Definition count_consumer (acc : list nat * list ConsumerAccess) (c : nat * ConsumerAccess) : list nat * list ConsumerAccess :=
  (alter S c.1 acc.1, <[c.1 := c.2]> acc.2).

Definition run_mode_of (fresh : nat -> loc) (i width : nat) (acc : ConsumerAccess) : RunMode :=
  if (1 <? width)%nat && bool_decide (acc = Mutable) then WorkPool (fresh i) else Sequential.

Definition stage_run_modes (fresh : nat -> loc) (consumers : list (nat * ConsumerAccess)) (stage_count : nat) :
    option (list RunMode) :=
  if (stage_count =? 0)%nat then Some [] else
  if forallb (fun c => (c.1 <? stage_count)%nat) consumers then
    let '(widths, access) := foldl count_consumer (replicate stage_count 0%nat, replicate stage_count Mutable) consumers in
    Some (imap (fun i '(width, acc) => run_mode_of fresh i width acc) (zip widths access))
  else None.

Section Threads.
Context {T : Type}.
Abbreviation W := (World T).
Implicit Types (w : W) (b : ProcessingSequenceBarrier).

(** The handler of a panic in the consumer's closure: poison, then resume. *)
Definition poison_and_resume b (f : string -> FailureRecord) (m : M W unit) : M W unit :=
  let* r := catch_unwind m in
  match r with
  | inl _ => ret tt
  | inr payload => let* _ := poison_with_failure b (f payload) in panic payload
  end.

(** The closure under [catch_unwind] of [start_mutable_consumer]. *)
Definition mutable_consumer_main {H} (fuel : nat) (handler : EventHandler T H) b (seq : loc) (thread_name : string)
    (stage_index : Z) (run_mode : RunMode) (shutdown : loc) (h : H) : M W unit :=
  let '(h, cb) := on_start handler h in
  let* r := run_callback cb in
  match r with
  | Err e => poison_with_failure b (lifecycle_failure HandlerStart (to_string e) thread_name stage_index)
  | Ok _ =>
      let stop := External shutdown in
      let* h :=
        match run_mode with
        | WorkPool work_seq =>
            run_work_processor_loop_for_stage handler b seq work_seq stop (for_stage thread_name stage_index) fuel h
        | Sequential =>
            run_sequential_batch_loop_for_stage handler b seq stop (for_stage thread_name stage_index) fuel h
        end in
      let '(h, cb) := on_shutdown handler h in
      let* r := run_callback cb in
      match r with
      | Err e => record_failure b (lifecycle_failure HandlerShutdown (to_string e) thread_name stage_index)
      | Ok _ => ret tt
      end
  end.

(** The thread body of [start_mutable_consumer]. *)
Definition start_mutable_consumer {H} (fuel : nat) (handler : EventHandler T H) b (seq : loc) (thread_name : string)
    (stage_index : Z) (run_mode : RunMode) (shutdown : loc) (h : H) : M W unit :=
  poison_and_resume b (fun payload => lifecycle_failure ConsumerPanic payload thread_name stage_index)
    (mutable_consumer_main fuel handler b seq thread_name stage_index run_mode shutdown h).

(** The thread body of [start_readonly_consumer]. *)
Definition start_readonly_consumer {F} (fuel : nat) (on_event : F -> T -> Z -> bool -> F * callback) b (seq : loc)
    (thread_name : string) (stage_index : Z) (shutdown : loc) (f : F) : M W unit :=
  poison_and_resume b (fun payload => lifecycle_failure ConsumerPanic payload thread_name stage_index)
    (let* _ := run_sequential_readonly_loop_for_stage on_event b seq (External shutdown) (for_stage thread_name stage_index) fuel f in
     ret tt).

(** The spawned closure of [start_consumer_thread]: pin the thread if asked to,
    then run the body. *)
Definition start_consumer_thread (set_thread_affinity : Z -> option string) (cpu_affinity : option Z) b
    (thread_name : string) (stage_index : Z) (body : M W unit) : M W unit :=
  match cpu_affinity with
  | None => body
  | Some core_id =>
      match set_thread_affinity core_id with
      | Some error =>
          poison_with_failure b
            (lifecycle_failure ThreadAffinity ("failed to pin to CPU core " +:+ pretty core_id +:+ ": " +:+ error)
               thread_name stage_index)
      | None => body
      end
  end.

(** ** How a consumer thread ends *)

(** Why a consumer may be gone: it was told to stop, the barrier was alerted,
    or the pipeline is poisoned. *)
Definition told (stop : StopFlag) w : Prop :=
  match stop with
  | External shutdown => flag_at w shutdown = true
  | Running running => flag_at w running = false
  end.

Definition exit_reason b (stop : StopFlag) w : Prop :=
  told stop w \/ alert_raised (wait_strategy b) (Flag (alerted b)) w \/ poisoned (sequencer b) w = true.

(** What the others do: flags that tell a consumer to stop stay up, poison and
    the first failure stay, sequences and the clock move forward. *)
Record thread_rely b (stop : StopFlag) w w' : Prop := {
  tr_mono : forall l, seq_at w l <= seq_at w' l;
  tr_clock : w_clock w <= w_clock w';
  tr_failure : failure_rely (sequencer b) w w';
  tr_exit : exit_reason b stop w -> exit_reason b stop w'
}.

#[global] Instance thread_rely_wait b stop : WaitRely (thread_rely b stop).
Proof.
  constructor.
  - split; [by constructor|]. intros w1 w2 w3 [] []. constructor; [|lia | by etrans | auto].
    intros l. specialize (tr_mono0 l). specialize (tr_mono1 l). lia.
  - intros w w' l []. done.
  - by intros w w' [].
  - intros w d Hd. constructor; [done | cbn; lia | by constructor; destruct (sequencer b) |].
    unfold exit_reason, alert_raised, poisoned, told. by destruct (sequencer b), stop.
Qed.

Section Exit.
Context (b : ProcessingSequenceBarrier) (stop : StopFlag) (Hws : durations_ok (wait_strategy b)).
Abbreviation R := (thread_rely b stop).
Abbreviation gone := (exit_reason b stop).

Lemma wp_thread_poison f w :
  wp R (poison_with_failure b f)
    (fun _ w' => poisoned (sequencer b) w' = true /\ is_Some (failure (sequencer b) w')) w.
Proof.
  apply (wp_rely (failure_rely (sequencer b))); [by intros x y []|].
  assert (Heq : poison_with_failure (T := T) b f = Sequencer.poison_with_failure (dispatch (sequencer b)) f)
    by (unfold poison_with_failure; by destruct (sequencer b)).
  rewrite Heq. eapply wp_mono; [apply wp_poison_with_failure|].
  intros [] w' (Hp & f' & Hf & _). split; [exact Hp | by exists f'].
Qed.

(** Poisoning and leaving. *)
Lemma wlp_poison_exit {A} f (a : A) (Q : A -> W -> Prop) w :
  (forall w', gone w' -> Q a w') -> wlp R (let* _ := poison_with_failure b f in ret a) Q w.
Proof.
  intros HQ. apply wlp_bind. eapply wlp_mono; [apply wlp_wp, wp_thread_poison|].
  intros _ w' [Hp _]. apply wlp_ret, HQ. right. by right.
Qed.

Lemma wlp_check_alert w :
  wlp R (check_alert b) (fun r w' => match r with Ok _ => True | Err _ => gone w' end) w.
Proof.
  unfold check_alert, is_alerted. apply wlp_bind, wlp_load. intros w' _.
  destruct (flag_at w' (alerted b)) eqn:Ha; apply wlp_ret; [|done]. right. left. by left.
Qed.

(** What follows a wait. *)
Lemma wlp_after_wait fuel q v w :
  wlp R (let? _ := check_alert b in let* r := resolve_highest_published fuel b q v in ret (Ok r))
    (fun r w' => match r with Ok _ => True | Err _ => gone w' end) w.
Proof.
  apply wlp_try. eapply wlp_mono; [apply wlp_check_alert|]. intros [[]|err] w4 Hg4; [|done].
  apply wlp_after. intros r w5. by apply wlp_ret.
Qed.

Lemma wlp_stop_wait fuel q w :
  wlp R (stop_wait_for fuel stop b q) (fun r w' => match r with Ok _ => True | Err _ => gone w' end) w.
Proof.
  assert (Hcase : (exists f, stop = External f) \/ (exists f, stop = Running f)) by (destruct stop; eauto).
  assert (Htold : forall w', told stop w' -> gone w') by (intros; by left).
  destruct Hcase as [[f Hs]|[f Hs]].
  - assert (stop_wait_for fuel stop b q = wait_for_with_shutdown (T := T) fuel b q f) as -> by (by rewrite Hs).
    unfold wait_for_with_shutdown. apply wlp_bind, wlp_load. intros w1 _.
    destruct (flag_at w1 f) eqn:Hf; [apply wlp_ret, Htold; by rewrite Hs|].
    apply wlp_try. eapply wlp_mono; [apply wlp_check_alert|]. intros [[]|err] w2 Hg; [|done].
    apply wlp_try. eapply wlp_mono; [apply wlp_wp; by apply (wp_wait_for_with_shutdown_and_alert R)|].
    intros [v|err] w3 [_ Hr]; [apply wlp_after_wait|].
    destruct Hr as [_ [Hf3|Ha]]; [apply Htold; by rewrite Hs | right; by left].
  - assert (stop_wait_for fuel stop b q = (let* r := load (fun w => flag_at w f) in
              if negb r then ret (Err Alert) else wait_for (T := T) fuel b q)) as -> by (by rewrite Hs).
    apply wlp_bind, wlp_load. intros w1 _.
    destruct (flag_at w1 f) eqn:Hf; cbn [negb]; [|apply wlp_ret, Htold; by rewrite Hs].
    unfold wait_for. apply wlp_try. eapply wlp_mono; [apply wlp_check_alert|]. intros [[]|err] w2 Hg; [|done].
    apply wlp_try. eapply wlp_mono; [apply wlp_wp; by apply (wp_wait_for_with_alert R)|].
    intros [v|err] w3 [_ Hr]; [apply wlp_after_wait|]. right. left. apply Hr.
Qed.

(** The error arm of the loops. *)
Lemma wlp_terminal {A} e (m1 m2 : M W A) (Q : A -> W -> Prop) w :
  gone w -> (forall w', gone w' -> wlp R m1 Q w') -> (forall w', wlp R m2 Q w') ->
  wlp R (let* brk := wait_error_is_terminal stop e in if brk then m1 else m2) Q w.
Proof.
  intros Hg H1 H2. apply wlp_bind.
  apply (wlp_mono R _ (fun _ w' => gone w')); [|intros [] w' Hw'; auto].
  assert (Hsc : wlp R (should_continue stop) (fun _ w' => gone w') w).
  { destruct stop; cbn [should_continue]; [apply wlp_bind|]; apply wlp_load; intros w' Hr; [apply wlp_ret|];
      by apply (tr_exit _ _ _ _ Hr). }
  destruct e; cbn [wait_error_is_terminal]; try (by apply wlp_ret); apply wlp_bind;
    (eapply wlp_mono; [exact Hsc|]); intros; by apply wlp_ret.
Qed.

Lemma wlp_should_continue {A} (m1 m2 : M W A) (Q : A -> W -> Prop) w :
  (forall w', gone w' -> wlp R m1 Q w') -> (forall w', wlp R m2 Q w') ->
  wlp R (let* go := should_continue stop in if negb go then m1 else m2) Q w.
Proof.
  intros H1 H2. apply wlp_bind.
  apply (wlp_mono R _ (fun go w' => go = false -> gone w')).
  - unfold exit_reason. destruct stop as [f|f]; cbn [should_continue told].
    + apply wlp_bind, wlp_load. intros w1 _. apply wlp_ret. intros Hf. left. by destruct (flag_at w1 f).
    + apply wlp_load. intros w1 _ Hf. by left.
  - intros [] w' Hw'; cbn [negb]; [apply H2 | by apply H1, Hw'].
Qed.

(** ** The three loops *)

Section Loops.
Context {H : Type} (handler : EventHandler T H) (eh : option (ExceptionHandler T)) (seq : loc) (ctx : ConsumerContext).
Context {F : Type} (observer : F -> T -> Z -> bool -> F * callback).

(** An exit of a batch that is not its end is fatal. *)
Abbreviation batch_exit := (fun r w' => match r with inl _ => True | inr _ => gone w' end).

Lemma wlp_process_batch fuel v q h w : wlp R (process_batch handler eh b seq ctx fuel v q h) batch_exit w.
Proof.
  apply wlp_loop. intros [q1 h1] w1. unfold process_event. destruct (q1 <=? v); [|by apply wlp_ret].
  apply wlp_after. intros event w2. destruct (on_event handler h1 event q1 (q1 =? v)) as [[h2 event'] cb].
  apply wlp_after. intros [] w3. apply wlp_after. intros [[]|e] w4; [by apply wlp_ret|]. cbv zeta.
  destruct (match eh with Some x => x e q1 event' | None => inl Stop end) as [[]|msg];
    [|by apply wlp_ret | apply wlp_panic].
  apply wlp_after. intros [] w5. by apply wlp_poison_exit.
Qed.

Lemma wlp_take_batch fuel v q h w : wlp R (take_batch handler eh b seq ctx fuel v q h) batch_exit w.
Proof.
  unfold take_batch. apply wlp_after. intros c w1. destruct (on_batch_start handler h _ _) as [h1 cb].
  apply wlp_after. intros [[]|e] w2; [|by apply wlp_poison_exit].
  apply wlp_bind. eapply wlp_mono; [apply wlp_process_batch|]. intros [[q' h']|h'] w3 Hg; [|by apply wlp_ret].
  apply wlp_after. intros [] w4. by apply wlp_ret.
Qed.

Lemma wlp_sequential fuel h w :
  wlp R (run_sequential_batch_loop_impl handler eh b seq stop ctx fuel h) (fun _ w' => gone w') w.
Proof.
  unfold run_sequential_batch_loop_impl. apply wlp_after. intros c w1. apply wlp_loop. intros [q h1] w2.
  unfold sequential_step. apply wlp_should_continue; [intros; by apply wlp_ret|]. intros w3.
  apply wlp_bind. eapply wlp_mono; [apply wlp_stop_wait|]. intros [v|e] w4 Hg.
  - destruct (v <? q); [by apply wlp_ret|]. apply wlp_take_batch.
  - apply wlp_terminal; [done | intros; by apply wlp_ret |]. intros w5. apply wlp_after. intros [] w6. by apply wlp_ret.
Qed.

Lemma wlp_observe_batch fuel v q f w : wlp R (observe_batch observer b seq ctx fuel v q f) batch_exit w.
Proof.
  apply wlp_loop. intros [q1 f1] w1. destruct (q1 <=? v); [|by apply wlp_ret].
  apply wlp_after. intros event w2. destruct (observer f1 event q1 (q1 =? v)) as [f2 cb].
  apply wlp_after. intros [[]|e] w3; [by apply wlp_ret|]. apply wlp_after. intros [] w4. by apply wlp_poison_exit.
Qed.

Lemma wlp_readonly fuel f w :
  wlp R (run_sequential_readonly_loop_impl observer b seq stop ctx fuel f) (fun _ w' => gone w') w.
Proof.
  unfold run_sequential_readonly_loop_impl. apply wlp_after. intros c w1. apply wlp_loop. intros [q f1] w2.
  apply wlp_should_continue; [intros; by apply wlp_ret|]. intros w3.
  apply wlp_bind. eapply wlp_mono; [apply wlp_stop_wait|]. intros [v|e] w4 Hg.
  - destruct (v <? q); [by apply wlp_ret|]. apply wlp_bind. eapply wlp_mono; [apply wlp_observe_batch|].
    intros [[q' f']|f'] w5 Hx; [|by apply wlp_ret]. apply wlp_after. intros [] w6. by apply wlp_ret.
  - apply wlp_terminal; [done | intros; by apply wlp_ret |]. intros w5. apply wlp_after. intros [] w6. by apply wlp_ret.
Qed.

Lemma wlp_claim_work fuel ws last w :
  wlp R (claim_work seq ws stop fuel last)
    (fun r w' => match r with (None, _) => gone w' | _ => True end) w.
Proof.
  apply wlp_loop. intros last1 w1. apply wlp_should_continue; [intros; by apply wlp_ret|]. intros w2.
  apply wlp_after. intros current w3. apply wlp_after. intros adv w4. apply wlp_after. intros [] w5; [by apply wlp_ret|].
  apply wlp_after. intros [] w6. by apply wlp_ret.
Qed.

Lemma wlp_await_claimed fuel claimed cached w :
  wlp R (await_claimed b stop fuel claimed cached)
    (fun r w' => match r with None => gone w' | _ => True end) w.
Proof.
  apply wlp_loop. intros cached1 w1. destruct (cached1 <? claimed); [|by apply wlp_ret].
  apply wlp_should_continue; [intros; by apply wlp_ret|]. intros w2.
  apply wlp_bind. eapply wlp_mono; [apply wlp_stop_wait|]. intros [v|e] w3 Hg; [by apply wlp_ret|].
  apply wlp_terminal; [done | intros; by apply wlp_ret |]. intros w4. apply wlp_after. intros [] w5. by apply wlp_ret.
Qed.

Lemma wlp_work_processor fuel ws h w :
  wlp R (run_work_processor_loop_impl handler b seq ws stop ctx fuel h) (fun _ w' => gone w') w.
Proof.
  unfold run_work_processor_loop_impl. apply wlp_after. intros last w1. apply wlp_loop. intros [[cached last1] h1] w2.
  apply wlp_should_continue; [intros; by apply wlp_ret|]. intros w3.
  apply wlp_bind. eapply wlp_mono; [apply wlp_claim_work|]. intros [[claimed|] last2] w4 Hg; [|by apply wlp_ret].
  apply wlp_bind. eapply wlp_mono; [apply wlp_await_claimed|]. intros [avail|] w5 Hg5; [|by apply wlp_ret].
  unfold handle_claimed. cbv zeta.
  destruct (on_batch_start handler h1 1 ((avail -! claimed) +! 1)) as [h2 cb].
  apply wlp_after. intros [[]|e] w6; [|by apply wlp_poison_exit].
  apply wlp_after. intros event w7. destruct (on_event handler h2 event claimed (claimed =? avail)) as [[h3 event'] cb'].
  apply wlp_after. intros [] w8. apply wlp_after. intros [[]|e] w9; [|by apply wlp_poison_exit].
  apply wlp_after. intros [] w10. by apply wlp_ret.
Qed.

End Loops.

(** A recorded failure does not undo the reason. *)
Lemma wlp_record_failure f w : gone w -> wlp R (record_failure b f) (fun _ w' => gone w') w.
Proof.
  intros Hg e k He. pose proof (tr_exit _ _ _ _ (He k w) Hg) as Hg'. unfold record_failure, exit_reason, alert_raised, told in *.
  destruct (sequencer b), stop; cbn in *;
   
    first [destruct (sp_first_failure (w_single (e k w))); exact Hg' | destruct (mp_first_failure (w_multi (e k w))); exact Hg'].
Qed.

(** How the run of a thread is accounted for. *)
Definition accounted (e : env W) (m : M W unit) (k : nat) w : Prop :=
  match m e k w with
  | Done _ _ w' => gone w'
  | Panicked _ _ w' => poisoned (sequencer b) w' = true /\ is_Some (failure (sequencer b) w')
  | NoFuel => True
  end.

Lemma accounted_resume (e : env W) f m k w :
  respects R e -> wlp R m (fun _ w' => gone w') w -> accounted e (poison_and_resume b f m) k w.
Proof.
  intros He Hm. specialize (Hm e k He). unfold accounted, poison_and_resume, bind, catch_unwind.
  destruct (m e k w) as [[] k' w'|msg k' w'|]; [done | | done].
  pose proof (wp_thread_poison (f msg) w' e k' He) as Hp.
  by destruct (poison_with_failure b (f msg) e k' w').
Qed.

Lemma accounted_thread (e : env W) aff cpu name stage m k w :
  respects R e -> (forall k w, accounted e m k w) -> accounted e (start_consumer_thread aff cpu b name stage m) k w.
Proof.
  intros He Hm. unfold start_consumer_thread. destruct cpu as [core|]; [|done]. destruct (aff core) as [error|]; [|done].
  unfold accounted. pose proof (wp_thread_poison (lifecycle_failure ThreadAffinity
    ("failed to pin to CPU core " +:+ pretty core +:+ ": " +:+ error) name stage) w e k He) as Hp.
  destruct (poison_with_failure b _ e k w); [|done|done]. right. right. apply Hp.
Qed.

End Exit.

Section Managed.
Context (b : ProcessingSequenceBarrier) (shutdown : loc) (Hws : durations_ok (wait_strategy b)).
Abbreviation R := (thread_rely b (External shutdown)).
Abbreviation gone := (exit_reason b (External shutdown)).

Lemma wlp_mutable_main {H} fuel (handler : EventHandler T H) seq name stage mode h w :
  wlp R (mutable_consumer_main fuel handler b seq name stage mode shutdown h) (fun _ w' => gone w') w.
Proof.
  unfold mutable_consumer_main. destruct (on_start handler h) as [h1 cb]. apply wlp_after. intros [[]|e] w1.
  - apply wlp_bind. apply (wlp_mono R _ (fun _ w' => gone w')).
    { destruct mode; [by apply wlp_sequential | by apply wlp_work_processor]. }
    intros h2 w2 Hg. destruct (on_shutdown handler h2) as [h3 cb']. apply wlp_bind.
    apply (wlp_mono R _ (fun _ w' => gone w')); [destruct cb' as [r|msg]; [by apply wlp_ret | apply wlp_panic]|].
    intros [[]|e] w3 Hg3; [by apply wlp_ret | by apply wlp_record_failure].
  - eapply wlp_mono; [apply wlp_wp, wp_thread_poison|]. intros [] w' [Hp _]. right. by right.
Qed.

(** C7: A managed consumer thread does not vanish silently.  Whatever its handler
    and the other threads do, and whether it runs alone or in a worker pool:
    if it returns, it was told to stop, or its barrier was alerted, or the
    pipeline is poisoned; if it panics, the pipeline is poisoned and a failure
    record is retrievable.  So producers never wait for the sequence of a
    thread that is gone without having been told. *)
Theorem consumer_thread_exit {H F} (e : env W) fuel (handler : EventHandler T H) (observer : F -> T -> Z -> bool -> F * callback)
    aff cpu seq name stage mode h f k w :
  respects R e ->
  accounted b (External shutdown) e (start_consumer_thread aff cpu b name stage
    (start_mutable_consumer fuel handler b seq name stage mode shutdown h)) k w /\
  accounted b (External shutdown) e (start_consumer_thread aff cpu b name stage
    (start_readonly_consumer fuel observer b seq name stage shutdown f)) k w.
Proof.
  intros He. split; (apply accounted_thread; [done|]); intros k1 w1; apply accounted_resume; try done.
  - apply wlp_mutable_main.
  - apply wlp_bind. eapply wlp_mono; [by apply wlp_readonly|]. intros. by apply wlp_ret.
Qed.

End Managed.

End Threads.

(** ** Stages *)

(** How many consumers a stage has. *)
Definition stage_width (consumers : list (nat * ConsumerAccess)) (i : nat) : nat :=
  length (filter (fun c => c.1 = i) consumers).

(** The access kind of a stage as the loop leaves it: of its last consumer. *)
Definition stage_access (consumers : list (nat * ConsumerAccess)) (i : nat) : ConsumerAccess :=
  default Mutable (last (map snd (filter (fun c => c.1 = i) consumers))).

Lemma count_consumers consumers widths access i :
  forallb (fun c => (c.1 <? length widths)%nat) consumers = true -> length widths = length access -> (i < length widths)%nat ->
  let r := foldl count_consumer (widths, access) consumers in
  length r.1 = length widths /\ length r.2 = length access /\
  r.1 !!! i = (widths !!! i + stage_width consumers i)%nat /\
  r.2 !!! i = default (access !!! i) (last (map snd (filter (fun c => c.1 = i) consumers))).
Proof.
  revert widths access. induction consumers as [|[j a] cs IH]; intros widths access Hall Hlen Hi.
  { cbn. split_and!; [done | done | unfold stage_width; cbn; lia | done]. }
  cbn [forallb] in Hall. apply andb_true_iff in Hall as [Hj Hall]. apply Nat.ltb_lt in Hj. cbn [fst] in Hj.
  cbn [foldl count_consumer fst snd]. destruct (IH (alter S j widths) (<[j := a]> access)) as (H1 & H2 & H3 & H4).
  { by rewrite length_alter. }
  { by rewrite length_alter, length_insert. }
  { by rewrite length_alter. }
  rewrite length_alter in H1. rewrite length_insert in H2.
  change (count_consumer (widths, access) (j, a)) with (alter S j widths, <[j := a]> access).
  split_and!; [done | done | rewrite H3 | rewrite H4]; unfold stage_width; rewrite filter_cons; cbn [fst].
  - destruct (decide (j = i)) as [->|Hne].
    + rewrite list_lookup_total_alter, decide_True by done. cbn. lia.
    + rewrite list_lookup_total_alter, decide_False by naive_solver. done.
  - destruct (decide (j = i)) as [->|Hne].
    + rewrite list_lookup_total_insert_eq by lia. cbn [map snd].
      rewrite last_cons. by destruct (last (map snd _)).
    + by rewrite list_lookup_total_insert_ne.
Qed.

Lemma stage_run_modes_lookup fresh consumers stage_count :
  forallb (fun c => (c.1 <? stage_count)%nat) consumers = true ->
  exists modes, stage_run_modes fresh consumers stage_count = Some modes /\ length modes = stage_count /\
    forall i, (i < stage_count)%nat ->
      modes !! i = Some (if bool_decide ((1 < stage_width consumers i)%nat /\ stage_access consumers i = Mutable)
                         then WorkPool (fresh i) else Sequential).
Proof.
  intros Hall. unfold stage_run_modes. destruct (Nat.eqb_spec stage_count 0) as [->|Hne].
  { exists []. split_and!; [done | done | intros; lia]. }
  rewrite Hall.
  pose proof (fun i => count_consumers consumers (replicate stage_count 0%nat) (replicate stage_count Mutable) i) as Hc.
  rewrite !length_replicate in Hc. specialize (fun i => Hc i Hall eq_refl).
  destruct (foldl count_consumer _ consumers) as [widths access]. cbn [fst snd] in Hc.
  destruct (Hc 0%nat ltac:(lia)) as (Hw & Ha & _). eexists. split; [done|]. split.
  { rewrite length_imap, length_zip_with. lia. }
  intros i Hi. destruct (Hc i Hi) as (_ & _ & Hwi & Hai). rewrite list_lookup_imap.
  assert (Hz : zip widths access !! i = Some (widths !!! i, access !!! i)).
  { apply lookup_zip_with_Some. exists (widths !!! i), (access !!! i).
    split_and!; [done | apply list_lookup_lookup_total_lt; lia | apply list_lookup_lookup_total_lt; lia]. }
  rewrite Hz. cbn. f_equal. unfold run_mode_of. rewrite Hwi, Hai, !lookup_total_replicate_2 by done. cbn [Nat.add].
  change (default Mutable (last (map snd (filter (fun c => c.1 = i) consumers)))) with (stage_access consumers i).
  destruct (Nat.ltb_spec 1 (stage_width consumers i)); cbn [andb]; repeat case_bool_decide; naive_solver lia.
Qed.

(** Every stage gets one run mode: a worker pool if it has several consumers
    and they are mutable, the sequential loop otherwise.  So the consumers of
    a stage with several mutable ones always share a work sequence (no slot is
    handed out twice), and read-only consumers always see every event. *)
Lemma stage_run_modes_spec fresh consumers stage_count :
  forallb (fun c => (c.1 <? stage_count)%nat) consumers = true ->
  exists modes, stage_run_modes fresh consumers stage_count = Some modes /\ length modes = stage_count /\
    forall i, (i < stage_count)%nat ->
      modes !! i = Some (if bool_decide ((1 < stage_width consumers i)%nat /\ stage_access consumers i = Mutable)
                         then WorkPool (fresh i) else Sequential).
Proof. apply stage_run_modes_lookup. Qed.
