(* ===== verification/Core.v ===== *)
(** * Core: assembly and shutdown of a built pipeline (disruptor/builder/core.rs)

    [create_disruptor_core] wires stages of consumers together and gates the
    producers on the last one; [halt], [drain] and [shutdown_with_timeout] take
    the pipeline down: close the claims, let the consumers finish what is
    published, stop and join them, release the producers from their gating
    sequences. *)
From stdpp Require Import sorting.
From S2P Require Import Prelude Effects Errors World Sequence Gating Single Multi Availability Sequencer.
From S2P Require Import Waiting WaitStrategy Barrier ConsumerEngine Delivery Progress Threads.

(** [Consumer]: a thread handle; [None] once joined. *)
Record Consumer : Type := mkConsumer {
  join_handle : option loc;
  consumer_name : string
}.

(** [DisruptorCore] (its ring buffer and sequencer are those of the pipeline's
    memory; [unique_producer_capability]: whether the sole capability of the
    single producer is still here). *)
Record DisruptorCore : Type := mkCore {
  core_sequencer : SequencerEnum;
  unique_producer_capability : bool;
  consumers : list Consumer;
  shutdown_flag : loc;
  core_gating : list loc
}.

Section Core.
Context {T : Type}.
Abbreviation W := (World T).
Implicit Types (w : W) (core : DisruptorCore).

(** [JoinHandle::join]: how the thread ended, once it has. *)
Definition join (fuel : nat) (l : loc) : M W thread_exit :=
  loop fuel (fun _ : unit =>
    let* t := load (fun w => thread_at w l) in
    match t with
    | ThreadRunning => ret (inl tt)
    | ThreadFinished p => ret (inr p)
    end) tt.

(** [Consumer::join] and [Drop for Consumer] *)
Definition consumer_join (fuel : nat) (c : Consumer) : M W (result unit string * Consumer) :=
  match join_handle c with
  | None => ret (Ok tt, c)
  | Some l =>
      let* r := join fuel l in
      ret (match r with ExitPanic payload => Err payload | _ => Ok tt end, mkConsumer None (consumer_name c))
  end.
Definition drop_consumer (fuel : nat) (c : Consumer) : M W unit :=
  let* _ := consumer_join fuel c in ret tt.

(** The first [for] loop of [stop_consumers_keep_claims] (the log line is left
    out). *)
Definition join_consumer (fuel : nat) (sq : SequencerEnum) (c : Consumer) : M W unit :=
  match join_handle c with
  | None => ret tt
  | Some l =>
      let* r := join fuel l in
      match r with
      | ExitOk | ExitErr _ => ret tt
      | ExitPanic payload =>
          Sequencer.record_failure (dispatch sq)
            (with_thread_name (consumer_name c) (failure_new ConsumerPanic payload))
      end
  end.

(** [stop_consumers_keep_claims]; the core without consumers and gating
    sequences is the result. *)
Definition stop_consumers_keep_claims (fuel : nat) core : M W DisruptorCore :=
  let* stopped := atomic (fun w => (flag_at w (shutdown_flag core), set_flag (shutdown_flag core) true w)) in
  match stopped, consumers core with
  | true, [] => ret core
  | _, _ =>
      let* _ := for_each (consumers core) (join_consumer fuel (core_sequencer core)) in
      let* _ := for_each (core_gating core) (fun s =>
                  let* _ := Sequencer.remove_gating_sequence (dispatch (core_sequencer core)) fuel s in ret tt) in
      ret (mkCore (core_sequencer core) (unique_producer_capability core) [] (shutdown_flag core) [])
  end.

(** [halt] *)
Definition halt (fuel : nat) core : M W DisruptorCore :=
  let* _ := Sequencer.close (dispatch (core_sequencer core)) in
  stop_consumers_keep_claims fuel core.

(** [self.consumers.iter().any(|c| c.join_handle.is_some_and(is_finished))] *)
Fixpoint any_finished (cs : list Consumer) : M W bool :=
  match cs with
  | [] => ret false
  | c :: cs =>
      match join_handle c with
      | None => any_finished cs
      | Some l =>
          let* t := load (fun w => thread_at w l) in
          match t with
          | ThreadFinished _ => ret true
          | ThreadRunning => any_finished cs
          end
      end
  end.

(** The loop of [drain]. *)
Definition drain_step core (deadline : option Z) (cursor : Z) (_ : unit) : M W (unit + result unit DisruptorError) :=
  let* p := Sequencer.is_poisoned (dispatch (core_sequencer core)) in
  if p then ret (inr (Err Poisoned)) else
  let* f := any_finished (consumers core) in
  if f then ret (inr (Err (ShutdownError "consumer thread exited before the backlog was drained"))) else
  let* consumed := Sequence.get_minimum_sequence_with_default (core_gating core) cursor in
  if cursor <=? consumed then ret (inr (Ok tt)) else
  match deadline with
  | Some d =>
      let* t := now in
      if d <=? t then ret (inr (Err Timeout)) else
      let* _ := pause YieldNow in ret (inl tt)
  | None => let* _ := pause YieldNow in ret (inl tt)
  end.

(** [drain] *)
Definition drain (fuel : nat) core (timeout : option Z) : M W (result unit DisruptorError) :=
  let* s := load (fun w => flag_at w (shutdown_flag core)) in
  if s then ret (Ok tt) else
  let* deadline := deadline_for timeout in
  let* c := Sequencer.get_cursor (dispatch (core_sequencer core)) in
  let* cursor := Sequence.get c in
  loop fuel (drain_step core deadline cursor) tt.

(** [shutdown_with_timeout] *)
Definition shutdown_with_timeout (fuel : nat) core (timeout : option Z) :
    M W (result unit DisruptorError * DisruptorCore) :=
  let* _ := Sequencer.close (dispatch (core_sequencer core)) in
  let* drained := drain fuel core timeout in
  let* core' := halt fuel core in
  ret (drained, core').

(** ** What the other threads do meanwhile *)

(** The gating sequences registered with the sequencer. *)
Definition gating sq w : list loc :=
  match sq with
  | World.Single => sp_gating_sequences (w_single w)
  | World.Multi => mp_gating_sequences (w_multi w)
  end.

(** A thread that is done. *)
Definition finished w (l : loc) : Prop := exists p, thread_at w l = ThreadFinished p.

(** How the memory of a pipeline that is being taken down evolves, whoever
    moves: sequences and the clock grow, terminal flags stay up, finished
    threads stay finished, gating sequences are only taken out. *)
Record core_grow sq (sd : loc) w w' : Prop := {
  cg_mono : forall l, seq_at w l <= seq_at w' l;
  cg_clock : w_clock w <= w_clock w';
  cg_cursor : cursor_loc sq w' = cursor_loc sq w;
  cg_poisoned : poisoned sq w = true -> poisoned sq w' = true;
  cg_closed : closed sq w = true -> closed sq w' = true;
  cg_flag : flag_at w sd = true -> flag_at w' sd = true;
  cg_thread : forall l, finished w l -> finished w' l;
  cg_gating : gating sq w' `sublist_of` gating sq w
}.

(** The other threads leave the shutdown flag alone: only the core raises it. *)
Definition core_rely sq sd w w' : Prop := core_grow sq sd w w' /\ flag_at w' sd = flag_at w sd.

#[global] Instance core_grow_preorder sq sd : PreOrder (core_grow sq sd).
Proof.
  split; [by constructor|]. intros w1 w2 w3 H1 H2. constructor.
  - intros l. etrans; [apply (cg_mono _ _ _ _ H1) | apply (cg_mono _ _ _ _ H2)].
  - etrans; [apply (cg_clock _ _ _ _ H1) | apply (cg_clock _ _ _ _ H2)].
  - by rewrite (cg_cursor _ _ _ _ H2), (cg_cursor _ _ _ _ H1).
  - intros H. by apply (cg_poisoned _ _ _ _ H2), (cg_poisoned _ _ _ _ H1).
  - intros H. by apply (cg_closed _ _ _ _ H2), (cg_closed _ _ _ _ H1).
  - intros H. by apply (cg_flag _ _ _ _ H2), (cg_flag _ _ _ _ H1).
  - intros l H. by apply (cg_thread _ _ _ _ H2), (cg_thread _ _ _ _ H1).
  - etrans; [apply (cg_gating _ _ _ _ H2) | apply (cg_gating _ _ _ _ H1)].
Qed.

#[global] Instance core_rely_preorder sq sd : PreOrder (core_rely sq sd).
Proof.
  split; [by intros w; split|]. intros w1 w2 w3 [H1 E1] [H2 E2]. split; [by etrans | congruence].
Qed.

Section Shutdown.
Context (sq : SequencerEnum) (sd : loc).
Abbreviation G := (core_grow sq sd).
Abbreviation R := (core_rely sq sd).

Lemma rely_grow w w' : R w w' -> G w w'.
Proof. by intros []. Qed.

Lemma grow_flag b w : (flag_at w sd = true -> b = true) -> G w (set_flag sd b w).
Proof.
  intros Hb. constructor; try done. intros Hf. by rewrite flag_at_set_eq, Hb.
Qed.

Lemma wp_close w : wp R (Sequencer.close (dispatch sq)) (fun _ w' => R w w' /\ closed sq w' = true) w.
Proof.
  assert (Hwait : forall f w1, R w1 (upd_wait f w1)) by (intros f w1; split; [|done]; constructor; try done; by destruct sq).
  assert (Hend : forall w1, R w w1 -> closed sq w1 = true -> forall ws, wp R (signal_all_when_blocking ws)
            (fun _ w' => R w w' /\ closed sq w' = true) w1).
  { intros w1 Hg Hc ws. destruct ws; cbn [signal_all_when_blocking]; wp_steps; [|done..].
    split; [|by destruct sq; apply (cg_closed _ _ _ _ (proj1 H)) in Hc].
    etrans; [exact Hg|]. etrans; [exact H | apply Hwait]. }
  destruct sq; cbn [dispatch single_ops multi_ops Sequencer.close];
    unfold Single.close, Multi.close; wp_steps; apply Hend; try done;
    (etrans; [exact H|]); split; [by constructor | done | by constructor | done].
Qed.

Lemma wp_record f w : wp R (Sequencer.record_failure (dispatch sq) f) (fun _ w' => G w w') w.
Proof.
  destruct sq; cbn [dispatch single_ops multi_ops Sequencer.record_failure];
    unfold Single.record_failure, Multi.record_failure; wp_steps; destruct H as [H _]; (etrans; [exact H|]).
  - constructor; cbn; try done; by destruct (sp_first_failure _).
  - constructor; cbn; try done; by destruct (mp_first_failure _).
Qed.

Lemma wp_is_poisoned w :
  wp R (Sequencer.is_poisoned (dispatch sq)) (fun p w' => R w w' /\ p = poisoned sq w') w.
Proof. destruct sq; by apply wp_load. Qed.

Lemma wp_get_cursor w :
  wp R (Sequencer.get_cursor (dispatch sq)) (fun c w' => w' = w /\ c = cursor_loc sq w) w.
Proof. destruct sq; by apply wp_read. Qed.

(** A joined thread is finished. *)
Lemma wp_join fuel l w : wp R (join fuel l) (fun _ w' => R w w' /\ finished w' l) w.
Proof.
  apply (wp_loop R (fun _ w' => R w w')); [|reflexivity]. intros [] w1 H1. wp_steps.
  assert (R w s') by (by etrans). destruct (thread_at s' l) eqn:Ht; wp_steps; [done|]. split; [done | by eexists].
Qed.

Lemma wp_join_consumer fuel c w :
  wp R (join_consumer fuel sq c) (fun _ w' => G w w' /\ forall l, join_handle c = Some l -> finished w' l) w.
Proof.
  unfold join_consumer. destruct (join_handle c) as [l|]; [|by wp_steps]. wp_steps.
  eapply wp_mono; [apply wp_join|]. intros [|err|payload] w1 [[H1 _] Hf].
  1, 2: wp_steps; split; [done|]; by intros l' [= <-].
  - eapply wp_mono; [apply wp_record|]. intros [] w2 H2. split; [by etrans|]. intros l' [= <-].
    by apply (cg_thread _ _ _ _ H2).
Qed.

(** ** Taking a gating sequence out *)

Definition set_gating (ls : list loc) w : W :=
  match sq with
  | World.Single => upd_single (sp_set_gating ls) w
  | World.Multi => upd_multi (mp_set_gating ls) w
  end.

Lemma dispatch_remove fuel s :
  Sequencer.remove_gating_sequence (dispatch (T := T) sq) fuel s = remove_gating_sequence_cas (gating sq) set_gating fuel s.
Proof. unfold gating, set_gating. by destruct sq. Qed.

Lemma grow_set_gating ls w : ls `sublist_of` gating sq w -> G w (set_gating ls w).
Proof.
  intros Hls. unfold set_gating, gating, poisoned, closed, cursor_loc in *.
  destruct sq; constructor; try done.
Qed.

Lemma gating_set ls w : gating sq (set_gating ls w) = ls.
Proof. unfold gating, set_gating. by destruct sq. Qed.

(** A removal, while others remove theirs: the sequence is out afterwards,
    whether it was found or not. *)
Lemma wp_remove fuel s w :
  wp R (Sequencer.remove_gating_sequence (dispatch sq) fuel s) (fun _ w' => G w w' /\ s ∉ gating sq w') w.
Proof.
  rewrite dispatch_remove. unfold remove_gating_sequence_cas. wp_steps. apply rely_grow in H.
  apply (wp_loop R (fun cur w' => G w w' /\ gating sq w' `sublist_of` cur)); [|done]. clear s' H.
  intros cur w1 [H1 Hc]. case_decide as Hin.
  - unfold compare_and_swap. wp_steps. cbn [fst snd]. rename s' into w2. apply rely_grow in H.
    assert (G w w2) by (by etrans). case_decide as Heq.
    + split; [|by rewrite gating_set, without_spec; intros []].
      etrans; [done|]. apply grow_set_gating. rewrite Heq. apply sublist_filter.
    + done.
  - wp_steps. split; [done|]. intros Hs. apply Hin. by eapply sublist_elem.
Qed.

(** ** Stopping the consumers *)

(** The consumers' threads are done. *)
Definition joined (cs : list Consumer) w : Prop :=
  forall c l, c ∈ cs -> join_handle c = Some l -> finished w l.

Lemma wp_join_all fuel cs w :
  wp R (for_each cs (join_consumer fuel sq)) (fun _ w' => G w w' /\ joined cs w') w.
Proof.
  revert w. induction cs as [|c cs IH]; intros w; cbn [for_each]; wp_steps.
  { split; [done|]. by intros c l ?%not_elem_of_nil. }
  eapply wp_mono; [apply wp_join_consumer|]. intros [] w1 [H1 Hc]. eapply wp_mono; [apply IH|].
  intros [] w2 [H2 Hcs]. split; [by etrans|]. intros c' l [->|Hin]%elem_of_cons Hl; [|by apply (Hcs c')].
  by apply (cg_thread _ _ _ _ H2), Hc.
Qed.

Lemma wp_remove_all fuel ls w :
  wp R (for_each ls (fun s => let* _ := Sequencer.remove_gating_sequence (dispatch sq) fuel s in ret tt))
    (fun _ w' => G w w' /\ forall s, s ∈ ls -> s ∉ gating sq w') w.
Proof.
  revert w. induction ls as [|s ls IH]; intros w; cbn [for_each]; wp_steps.
  { split; [done|]. by intros s ?%not_elem_of_nil. }
  eapply wp_mono; [apply wp_remove|]. intros _ w1 [H1 Hs]. wp_steps. eapply wp_mono; [apply IH|].
  intros [] w2 [H2 Hls]. split; [by etrans|]. intros s' [->|Hin]%elem_of_cons; [|by apply Hls].
  intros Hin. apply Hs. by apply (sublist_elem _ _ _ (cg_gating _ _ _ _ H2)).
Qed.

End Shutdown.

(** A pipeline without consumers is gated by nobody. *)
Definition core_wf core : Prop := consumers core = [] -> core_gating core = [].

(** The state [halt] leaves: consumers told to stop and joined, producers
    released, the core's lists emptied. *)
Record stopped core w core' : Prop := {
  st_core : core' = mkCore (core_sequencer core) (unique_producer_capability core) [] (shutdown_flag core) [];
  st_flag : flag_at w (shutdown_flag core) = true;
  st_joined : joined (consumers core) w;
  st_released : forall s, s ∈ core_gating core -> s ∉ gating (core_sequencer core) w
}.

Abbreviation Rc core := (core_rely (core_sequencer core) (shutdown_flag core)).
Abbreviation Gc core := (core_grow (core_sequencer core) (shutdown_flag core)).

Lemma wp_stop_consumers fuel core w :
  core_wf core ->
  wp (Rc core) (stop_consumers_keep_claims fuel core) (fun core' w' => Gc core w w' /\ stopped core w' core') w.
Proof.
  intros Hwf. unfold stop_consumers_keep_claims. wp_steps. cbn [fst snd]. rename s' into w1. destruct H as [H _].
  set (w2 := set_flag (shutdown_flag core) true w1).
  assert (H2 : Gc core w w2) by (etrans; [exact H | by apply grow_flag]).
  assert (Hf2 : flag_at w2 (shutdown_flag core) = true) by apply flag_at_set_eq.
  assert (Hgo : wp (Rc core) (
      let* _ := for_each (consumers core) (join_consumer fuel (core_sequencer core)) in
      let* _ := for_each (core_gating core) (fun s =>
                  let* _ := Sequencer.remove_gating_sequence (dispatch (core_sequencer core)) fuel s in ret tt) in
      ret (mkCore (core_sequencer core) (unique_producer_capability core) [] (shutdown_flag core) []))
      (fun core' w' => Gc core w w' /\ stopped core w' core') w2).
  { wp_steps. eapply wp_mono; [apply wp_join_all|]. intros [] w3 [H3 Hj]. wp_steps.
    eapply wp_mono; [apply wp_remove_all|]. intros [] w4 [H4 Hr]. wp_steps. split; [etrans; [done|]; by etrans|].
    constructor; [done | apply (cg_flag _ _ _ _ H4), (cg_flag _ _ _ _ H3), Hf2 | | done].
    intros c l Hc Hl. apply (cg_thread _ _ _ _ H4). by apply (Hj c). }
  destruct (flag_at w1 (shutdown_flag core)), (consumers core) as [|c cs] eqn:Hcs; try exact Hgo.
  wp_steps. split; [done|]. pose proof (Hwf Hcs) as Hg. constructor; [| done | |].
  - destruct core; cbn in *; by subst.
  - rewrite Hcs. by intros c l ?%not_elem_of_nil.
  - rewrite Hg. by intros s ?%not_elem_of_nil.
Qed.

Lemma wp_halt fuel core w :
  core_wf core ->
  wp (Rc core) (halt fuel core)
    (fun core' w' => Gc core w w' /\ closed (core_sequencer core) w' = true /\ stopped core w' core') w.
Proof.
  intros Hwf. unfold halt. wp_steps. eapply wp_mono; [apply wp_close|]. intros [] w1 [[H1 _] Hc].
  eapply wp_mono; [by apply wp_stop_consumers|]. intros core' w2 [H2 Hs]. split; [by etrans|].
  split; [by apply (cg_closed _ _ _ _ H2) | done].
Qed.

(** ** Draining *)

(** The backlog up to [c] is consumed by every consumer the producers are gated
    on. *)
Definition drained core (c : Z) w : Prop := forall s, s ∈ core_gating core -> c <= seq_at w s.

(** What each answer of [drain] means; [c] is the cursor when it began, [t] its
    clock. *)
Definition drain_outcome core (timeout : option Z) w (r : result unit DisruptorError) w' : Prop :=
  match r with
  | Ok _ => flag_at w (shutdown_flag core) = true \/
            drained core (seq_at w (cursor_loc (core_sequencer core) w)) w'
  | Err Poisoned => poisoned (core_sequencer core) w' = true
  | Err (ShutdownError _) => exists c l, c ∈ consumers core /\ join_handle c = Some l /\ finished w' l
  | Err Timeout => exists d, timeout = Some d /\ w_clock w + d <= w_clock w'
  | Err _ => False
  end.

Lemma wp_any_finished core cs w :
  wp (Rc core) (any_finished cs)
    (fun f w' => Rc core w w' /\ (f = true -> exists c l, c ∈ cs /\ join_handle c = Some l /\ finished w' l)) w.
Proof.
  revert w. induction cs as [|c cs IH]; intros w; cbn [any_finished]; [by wp_steps|].
  assert (Htail : forall w1, Rc core w w1 -> wp (Rc core) (any_finished cs)
    (fun f w' => Rc core w w' /\ (f = true -> exists c0 l, c0 ∈ c :: cs /\ join_handle c0 = Some l /\ finished w' l)) w1).
  { intros w1 H1. eapply wp_mono; [apply IH|]. intros f w2 [H2 Hf]. split; [by etrans|]. intros Ht.
    destruct (Hf Ht) as (c0 & l & Hc0 & Hl & Hfin). exists c0, l. split; [set_solver | done]. }
  destruct (join_handle c) as [l|] eqn:Hl; [|by apply Htail]. wp_steps.
  destruct (thread_at s' l) eqn:Ht; [by apply Htail|]. wp_steps. split; [done|]. intros _.
  exists c, l. split_and!; [set_solver | done | by eexists].
Qed.

(** One iteration, for a drain begun in [w0] with target [cursor]. *)
Lemma wp_drain_step core timeout d cursor w0 w :
  Rc core w0 w -> (forall t, d = Some t -> exists x, timeout = Some x /\ w_clock w0 + x <= t) ->
  seq_at w0 (cursor_loc (core_sequencer core) w0) <= cursor ->
  wp (Rc core) (drain_step core d cursor tt)
    (fun r w' => match r with
       | inl _ => Rc core w0 w'
       | inr (Ok _) => drained core (seq_at w0 (cursor_loc (core_sequencer core) w0)) w'
       | inr (Err x) => drain_outcome core timeout w0 (Err x) w'
       end) w.
Proof.
  intros H0 Hd Hc. unfold drain_step, now. wp_steps. eapply wp_mono; [apply wp_is_poisoned|]. intros p w1 [H1 ->].
  destruct (poisoned (core_sequencer core) w1) eqn:Hp; [by wp_steps|]. wp_steps.
  eapply wp_mono; [apply wp_any_finished|]. intros [] w2 [H2 Hf]; [wp_steps; by apply Hf|]. wp_steps.
  apply (wp_minimum_loop (Rc core) _ (core_gating core)); [intros; reflexivity | intros; by etrans | | done |].
  { intros x y [Hg _] l _. apply (cg_mono _ _ _ _ Hg). }
  intros m w3 H3 _ _ Hall. destruct (Z.leb_spec cursor m).
  { wp_steps. intros s Hs. specialize (Hall s Hs). lia. }
  assert (H03 : Rc core w0 w3) by (etrans; [done|]; etrans; [done|]; by etrans).
  destruct d as [t|]; wp_steps; cbn [pause]; [|wp_steps; by etrans].
  destruct (Z.leb_spec t (w_clock s')); wp_steps; [|by do 2 (etrans; [done|])].
  destruct (Hd t eq_refl) as (x & -> & Hx). exists x. split; [done | lia].
Qed.

(** The drain only looks. *)
Lemma keeps_drain_step core deadline cursor w0 u : keeps (Rc core) (Rc core w0) (drain_step core deadline cursor u).
Proof.
  assert (Hst : stable (Rc core) (Rc core w0)) by (intros x y Hx Hy; by etrans).
  assert (Hany : forall cs, keeps (Rc core) (Rc core w0) (any_finished cs)).
  { induction cs as [|c cs IH]; cbn [any_finished]; keeps; apply IH. }
  assert (Hmin : forall ls m, keeps (Rc core) (Rc core w0) (Sequence.minimum_loop ls m)).
  { induction ls as [|l ls IH]; intros m; cbn [Sequence.minimum_loop]; unfold Sequence.get; keeps; apply IH. }
  unfold drain_step, now, pause, Sequence.get_minimum_sequence_with_default.
  destruct (core_sequencer core); cbn; unfold Single.is_poisoned, Multi.is_poisoned; keeps; auto.
Qed.

(** The panic of a timeout without a deadline: it strikes before anything but
    the closing of the claims has been done. *)
Definition stranded core timeout w (msg : string) w' : Prop :=
  msg = overflow_message /\ Rc core w w' /\ flag_at w (shutdown_flag core) = false /\ unrepresentable timeout w'.

(** What [drain] answers. *)
Lemma wpx_drain fuel core timeout w :
  wpx (Rc core) (drain fuel core timeout) (fun r w' => Rc core w w' /\ drain_outcome core timeout w r w')
    (stranded core timeout w) w.
Proof.
  unfold drain, Sequence.get. apply wpx_seq. wp_steps. rename s' into w1. destruct (flag_at w1 (shutdown_flag core)) eqn:Hf.
  { apply wpx_ret. split; [done|]. left. by destruct H as [_ <-]. }
  apply wpx_bind. eapply wpx_conseq; [apply (wpx_deadline_for (Rc core) timeout w1); intros x y [Hg _]; apply (cg_clock _ _ _ _ Hg) | |].
  2:{ intros msg w2 (-> & H2 & Hl). split_and!; [done | by etrans | by destruct H as [_ <-] | done]. }
  intros d w2 [H2 Hd]. apply wpx_wp. wp_steps. eapply wp_mono; [apply wp_get_cursor|]. intros c w3 [-> ->]. wp_steps.
  rename s' into w4. assert (H02 : Rc core w w2) by (by etrans). assert (H4 : Rc core w w4) by (by etrans).
  apply (wp_loop (Rc core) (fun _ w' => Rc core w w')); [|done]. intros [] w5 H5.
  eapply wp_mono; [apply wp_and; [apply (wp_drain_step core timeout d _ w w5 H5) | by apply (keeps_drain_step core d _ w tt w5)]|].
  - intros t Ht. destruct (Hd t Ht) as (x & -> & Hx). exists x. split; [done|]. pose proof (cg_clock _ _ _ _ (proj1 H)). lia.
  - rewrite (cg_cursor _ _ _ _ (proj1 H02)). apply (cg_mono _ _ _ _ (proj1 H4)).
  - intros [|[]] w6 [Hr H6]; [done | split; [done | by right] | done].
Qed.

(** The meaning of an answer survives what happens before and after. *)
Lemma drain_outcome_grow core timeout w0 w1 w2 w3 r :
  Rc core w0 w1 -> drain_outcome core timeout w1 r w2 -> Gc core w2 w3 -> drain_outcome core timeout w0 r w3.
Proof.
  intros [H0 Hf] Ho H2. destruct r as [[]|[]]; cbn in *; try done.
  - destruct Ho as [Ho|Ho]; [left; congruence|]. right. intros s Hs. specialize (Ho s Hs).
    pose proof (cg_mono _ _ _ _ H2 s). rewrite (cg_cursor _ _ _ _ H0) in Ho.
    pose proof (cg_mono _ _ _ _ H0 (cursor_loc (core_sequencer core) w0)). lia.
  - destruct Ho as (d & -> & Hd). exists d. pose proof (cg_clock _ _ _ _ H0). pose proof (cg_clock _ _ _ _ H2).
    split; [done | lia].
  - destruct Ho as (c & l & Hc & Hl & Hfin). exists c, l. split_and!; [done | done |]. by apply (cg_thread _ _ _ _ H2).
  - by apply (cg_poisoned _ _ _ _ H2).
Qed.

(** What a shutdown leaves when the deadline cannot be represented: claims
    closed, but the consumers not even told to stop. *)
Definition left_running core timeout w (msg : string) w' : Prop :=
  msg = overflow_message /\ closed (core_sequencer core) w' = true /\ core_rely (core_sequencer core) (shutdown_flag core) w w' /\
  flag_at w' (shutdown_flag core) = false /\ unrepresentable timeout w'.

Lemma wpx_shutdown fuel core timeout w :
  core_wf core ->
  wpx (Rc core) (shutdown_with_timeout fuel core timeout)
    (fun rc w' => Gc core w w' /\ closed (core_sequencer core) w' = true /\ stopped core w' rc.2 /\
       drain_outcome core timeout w rc.1 w') (left_running core timeout w) w.
Proof.
  intros Hwf. unfold shutdown_with_timeout. apply wpx_seq. eapply wp_mono; [apply wp_close|]. intros [] w1 [H1 Hc1].
  apply wpx_bind. eapply wpx_conseq; [apply wpx_drain | |].
  - intros r w2 [H2 Ho]. apply wpx_wp. wp_steps. eapply wp_mono; [by apply wp_halt|].
    intros core' w3 (H3 & Hc & Hs). wp_steps. split_and!; [|done | done |].
    + etrans; [apply (proj1 (transitivity H1 H2)) | done].
    + exact (drain_outcome_grow core timeout w w1 w2 w3 r H1 Ho H3).
  - intros msg w2 (-> & H2 & Hf & Hl). split_and!; [done | by apply (cg_closed _ _ _ _ (proj1 H2)) | by etrans | | done].
    by rewrite (proj2 H2).
Qed.

(** ** Taking a pipeline down returns *)

Lemma halts_single_close : halts (Single.close (T := T)).
Proof. unfold Single.close. halts. apply halts_signal. Qed.

Lemma halts_multi_close : halts (Multi.close (T := T)).
Proof. unfold Multi.close. halts. apply halts_signal. Qed.

Section Returns.
Context (core : DisruptorCore) (e : env W) (k0 : nat).
Abbreviation sq := (core_sequencer core).
Abbreviation sd := (shutdown_flag core).
Abbreviation told w := (flag_at w sd = true).

(** Time passes between any two actions. *)
Definition ticks : Prop := forall k w, w_clock w + 1 <= w_clock (e k w).

(** From action [k0] on, consumers that have been told to stop are done. *)
Definition obeys : Prop := forall k w c l,
  (k0 <= k)%nat -> told w -> c ∈ consumers core -> join_handle c = Some l -> finished (e k w) l.

Context (He : respects (Rc core) e).

(** [paced m]: [m] ends, and takes no longer than the actions it makes. *)
Definition paced {A} (m : M W A) : Prop := forall x k w,
  x + Z.of_nat k <= w_clock w -> ends e m (fun _ k' w' => (k <= k')%nat /\ x + Z.of_nat k' <= w_clock w') k w.

Section Pace.
Context (Htick : ticks).

Lemma paced_ret {A} (a : A) : paced (ret a).
Proof. intros x k w Hx. by apply ends_ret. Qed.

Lemma paced_load {A} (f : W -> A) : paced (load f).
Proof. intros x k w Hx. apply ends_load. pose proof (Htick k w). lia. Qed.

Lemma paced_bind {A B} (m : M W A) (f : A -> M W B) : paced m -> (forall a, paced (f a)) -> paced (bind m f).
Proof.
  intros Hm Hf x k w Hx. apply ends_bind. eapply ends_mono; [by apply Hm|]. intros a k1 w1 [Hk1 Hx1].
  eapply ends_mono; [by apply Hf|]. intros b k2 w2 [Hk2 Hx2]. split; [lia | done].
Qed.

Lemma paced_any_finished cs : paced (any_finished cs).
Proof.
  induction cs as [|c cs IH]; cbn [any_finished]; [apply paced_ret|]. destruct (join_handle c) as [l|]; [|done].
  apply paced_bind; [apply paced_load|]. intros []; [done | apply paced_ret].
Qed.

Lemma paced_minimum ls m : paced (Sequence.get_minimum_sequence_with_default ls m).
Proof.
  unfold Sequence.get_minimum_sequence_with_default. revert m.
  induction ls as [|l ls IH]; intros m; cbn [Sequence.minimum_loop]; [apply paced_ret|].
  apply paced_bind; [apply paced_load | intros; apply IH].
Qed.

(** An iteration of [drain] that begins after the deadline leaves the loop. *)
Lemma ends_drain_step x deadline cursor (kd : nat) k w :
  x + Z.of_nat k <= w_clock w -> deadline <= x + Z.of_nat kd ->
  ends e (drain_step core (Some deadline) cursor tt) (fun r k' w' => match r with
    | inl _ => (k < k')%nat /\ (k < kd)%nat /\ x + Z.of_nat k' <= w_clock w'
    | inr _ => True
    end) k w.
Proof.
  intros Hx Hd. unfold drain_step, now. apply ends_bind.
  assert (Hp : ends e (Sequencer.is_poisoned (dispatch sq)) (fun _ k' w' => (k < k')%nat /\ x + Z.of_nat k' <= w_clock w') k w)
    by (pose proof (Htick k w); destruct sq; apply ends_load; lia).
  eapply ends_mono; [exact Hp|]. intros [] k1 w1 [Hk1 Hx1]; [done|]. apply ends_bind.
  eapply ends_mono; [by apply paced_any_finished|]. intros [] k2 w2 [Hk2 Hx2]; [done|]. apply ends_bind.
  eapply ends_mono; [by apply paced_minimum|]. intros m k3 w3 [Hk3 Hx3]. destruct (cursor <=? m); [done|].
  apply ends_bind, ends_load. pose proof (Htick k3 w3). destruct (Z.leb_spec deadline (w_clock (e k3 w3))); [done|].
  apply ends_bind, ends_load. apply ends_ret. pose proof (Htick (S k3) (e k3 w3)). lia.
Qed.

(** With a timeout, [drain] answers. *)
Lemma ends_drain fuel d k w :
  0 <= d -> (Z.to_nat d + 2 < fuel)%nat -> ends e (drain fuel core (Some d)) (fun _ _ _ => True) k w.
Proof.
  intros Hd Hf. unfold drain. apply ends_bind, ends_load.
  destruct (flag_at (e k w) sd); [done|]. apply ends_bind. unfold deadline_for, deadline_after, now.
  apply ends_bind, ends_bind, ends_load. set (w2 := e (S k) (e k w)).
  destruct (Z.leb_spec (w_clock w2 + d) instant_max) as [_|_]; [|done]. apply ends_ret, ends_ret, ends_bind.
  assert (Hc : forall (Q : loc -> nat -> W -> Prop), (forall l, Q l (S (S k)) w2) ->
            ends e (Sequencer.get_cursor (dispatch sq)) Q (S (S k)) w2).
  { intros Q HQ. destruct sq; apply HQ. }
  apply Hc. intros l. apply ends_bind, ends_load. set (w3 := e (S (S k)) w2). set (k3 := S (S (S k))).
  assert (H3 : w_clock w2 + 1 <= w_clock w3) by apply Htick.
  apply (ends_loop e _ (fun _ k' w' => w_clock w2 - Z.of_nat k3 + Z.of_nat k' <= w_clock w') _ (k3 + Z.to_nat d));
    [|lia|lia].
  intros [] w' k' Hk'. apply ends_drain_step; [done | lia].
Qed.

End Pace.

(** A consumer that obeys is joined. *)
Lemma ends_join_consumer (Ho : obeys) fuel c k w :
  (k0 < fuel)%nat -> c ∈ consumers core -> told w ->
  ends e (join_consumer fuel sq c) (fun _ _ w' => told w') k w.
Proof.
  intros Hf Hc Ht. unfold join_consumer. destruct (join_handle c) as [l|] eqn:Hl; [|done]. apply ends_bind.
  assert (Hj : ends e (join fuel l) (fun _ _ w' => told w') k w).
  { apply (ends_loop e _ (fun _ _ w' => told w') _ k0); [|done|lia]. intros [] w1 k1 Ht1. apply ends_bind, ends_load.
    pose proof (cg_flag _ _ _ _ (proj1 (He k1 w1)) Ht1) as Ht1'. destruct (thread_at (e k1 w1) l) eqn:Hst; apply ends_ret; [|done].
    split; [lia|]. split; [|done]. destruct (Nat.lt_ge_cases k1 k0) as [|Hge]; [done|].
    destruct (Ho k1 w1 c l Hge Ht1 Hc Hl) as [p Hp]. congruence. }
  eapply ends_mono; [exact Hj|]. intros [|err|payload] k1 w1 Ht1; [done | done |].
  pose proof (wp_record sq sd (with_thread_name (consumer_name c) (failure_new ConsumerPanic payload)) w1) as Hr.
  eapply ends_mono; [eapply (ends_wp _ _ _ (fun _ _ _ => True)); [exact He | exact Hr |]|].
  - destruct sq; done.
  - intros [] k2 w2 [_ H2]. by apply (cg_flag _ _ _ _ H2).
Qed.

(** A removal ends: each failed swap has seen a shorter list. *)
Lemma twp_remove fuel s k w :
  (length (gating sq w) < fuel)%nat ->
  twp e (Sequencer.remove_gating_sequence (dispatch sq) fuel s) (fun _ _ _ => True) k w.
Proof.
  intros Hf. rewrite dispatch_remove. unfold remove_gating_sequence_cas, compare_and_swap. twp_steps.
  pose proof (cg_gating _ _ _ _ (proj1 (He k w))) as Hs.
  apply (twp_loop_measure e (fun cur _ => length cur) _ (fun cur _ w' => gating sq w' `sublist_of` cur));
    [|done | apply sublist_length in Hs; lia].
  intros cur w1 k1 Hc. case_decide; twp_steps; [|done]. cbn [fst snd].
  pose proof (cg_gating _ _ _ _ (proj1 (He k1 w1))) as Hs1.
  assert (Hsub : gating sq (e k1 w1) `sublist_of` cur) by (by etrans).
  destruct (decide (gating sq (e k1 w1) = cur)) as [|Hne]; [done|]. split; [by apply sublist_strict | done].
Qed.

Lemma ends_remove_all fuel ls k w :
  (length (gating sq w) < fuel)%nat ->
  ends e (for_each ls (fun s => let* _ := Sequencer.remove_gating_sequence (dispatch sq) fuel s in ret tt))
    (fun _ _ _ => True) k w.
Proof.
  revert k w. induction ls as [|s ls IH]; intros k w Hf; cbn [for_each]; [done|].
  apply ends_bind, ends_bind. eapply ends_mono; [eapply (ends_wp _ _ _ (fun _ _ _ => True)); [exact He | apply (wp_remove sq sd fuel s w) |]|].
  - by apply twp_ends, twp_remove.
  - intros b k1 w1 [_ [H1 _]]. apply ends_ret, IH. pose proof (sublist_length _ _ (cg_gating _ _ _ _ H1)). lia.
Qed.

Lemma ends_join_all (Ho : obeys) fuel cs k w :
  (k0 < fuel)%nat -> (forall c, c ∈ cs -> c ∈ consumers core) -> told w ->
  ends e (for_each cs (join_consumer fuel sq)) (fun _ _ _ => True) k w.
Proof.
  intros Hf. revert k w. induction cs as [|c cs IH]; intros k w Hin Ht; cbn [for_each]; [done|].
  apply ends_bind. eapply ends_mono; [apply ends_join_consumer; [done | done | apply Hin; set_solver | done]|].
  intros [] k1 w1 Ht1. apply IH; [|done]. intros c' Hc'. apply Hin. set_solver.
Qed.

Lemma ends_close k w : ends e (Sequencer.close (dispatch sq)) (fun _ _ w' => Rc core w w') k w.
Proof.
  assert (Hh : ends e (Sequencer.close (dispatch sq)) (fun _ _ _ => True) k w).
  { destruct sq; cbn [dispatch single_ops multi_ops Sequencer.close]; [apply halts_single_close | apply halts_multi_close]. }
  eapply ends_mono; [eapply ends_wp; [exact He | apply wp_close | exact Hh]|]. by intros [] k1 w1 [_ []].
Qed.

Lemma ends_halt (Ho : obeys) fuel k w :
  (k0 < fuel)%nat -> (length (gating sq w) < fuel)%nat -> ends e (halt fuel core) (fun _ _ _ => True) k w.
Proof.
  intros Hf Hg. unfold halt. apply ends_bind. eapply ends_mono; [apply ends_close|].
  intros [] k1 w1 [H1 _]. unfold stop_consumers_keep_claims. apply ends_bind. unfold ends at 1, atomic. cbn [fst snd].
  set (w2 := set_flag sd true (e k1 w1)). assert (Ht : told w2) by apply flag_at_set_eq.
  assert (H2 : Gc core w w2) by (etrans; [exact H1|]; etrans; [apply He | by apply grow_flag]).
  assert (Hgo : ends e (
      let* _ := for_each (consumers core) (join_consumer fuel sq) in
      let* _ := for_each (core_gating core) (fun s =>
                  let* _ := Sequencer.remove_gating_sequence (dispatch sq) fuel s in ret tt) in
      ret (mkCore sq (unique_producer_capability core) [] sd [])) (fun _ _ _ => True) (S k1) w2).
  { apply ends_bind.
    eapply ends_mono; [eapply ends_wp; [exact He | apply wp_join_all | by apply ends_join_all]|].
    intros [] k3 w3 [_ [H3 _]]. apply ends_bind. eapply ends_mono; [apply ends_remove_all|done].
    assert (Hs : gating sq w3 `sublist_of` gating sq w) by (apply (cg_gating sq sd); by etrans).
    apply sublist_length in Hs. lia. }
  destruct (flag_at (e k1 w1) sd), (consumers core); done.
Qed.

End Returns.

Lemma ends_shutdown core (e : env W) k0 fuel d k w :
  respects (Rc core) e -> ticks e -> obeys core e k0 -> 0 <= d ->
  (k0 < fuel)%nat -> (Z.to_nat d + 2 < fuel)%nat -> (length (gating (core_sequencer core) w) < fuel)%nat ->
  ends e (shutdown_with_timeout fuel core (Some d)) (fun _ _ _ => True) k w.
Proof.
  intros He Htick Ho Hd H1 H2 H3. unfold shutdown_with_timeout. apply ends_bind.
  eapply ends_mono; [by apply ends_close|]. intros [] k1 w1 Hr1. apply ends_bind.
  eapply ends_mono; [eapply ends_wlp; [exact He | eapply wpx_wlp, wpx_drain | by apply ends_drain]|].
  intros r k2 w2 [_ [Hr2 _]]. apply ends_bind. eapply ends_mono; [eapply ends_halt; [done | exact Ho | done |]|done].
  pose proof (sublist_length _ _ (cg_gating _ _ _ _ (proj1 Hr1))). pose proof (sublist_length _ _ (cg_gating _ _ _ _ (proj1 Hr2))). lia.
Qed.

(** C3: [shutdown_with_timeout], while producers, consumers and other holders of the
    sequencer go on: if it returns, claims are closed, every consumer thread
    has been told to stop and joined, the sequencer waits for none of their
    sequences any more, and the core holds no consumer.  An [Ok] means that
    everything up to the cursor at the call has been consumed by every gating
    consumer (or that the pipeline had been stopped before); the errors mean a
    poisoned pipeline, a consumer thread that died, or a timeout that passed.
    The one panic is that of a timeout that ends after the last representable
    [Instant]: claims are closed by then, but the consumers have not been told
    to stop and nothing has been joined or released. *)
Theorem shutdown_spec fuel core timeout w :
  core_wf core ->
  wpx (Rc core) (shutdown_with_timeout fuel core timeout)
    (fun rc w' => closed (core_sequencer core) w' = true /\ stopped core w' rc.2 /\ drain_outcome core timeout w rc.1 w')
    (left_running core timeout w) w.
Proof. intros Hwf. eapply wpx_mono; [by apply wpx_shutdown|]. by intros rc w' (_ & H). Qed.

(** C11: [shutdown_with_timeout] with a timeout comes to an end, if time passes and
    the consumers finish once they are told to: the drain loop ends by its
    deadline, the joins end because the flag is up before the first of them,
    and the removals end because every failed swap has seen another removal
    succeed.  It returns, with the state and answer of a clean shutdown, unless
    the deadline lies after the last representable [Instant]: then it panics
    with the consumers left running. *)
Theorem shutdown_returns core (e : env W) k0 fuel d k w :
  core_wf core -> respects (Rc core) e -> ticks e -> obeys core e k0 -> 0 <= d ->
  (k0 < fuel)%nat -> (Z.to_nat d + 2 < fuel)%nat -> (length (gating (core_sequencer core) w) < fuel)%nat ->
  match shutdown_with_timeout fuel core (Some d) e k w with
  | Done (r, core') _ w' =>
      closed (core_sequencer core) w' = true /\ stopped core w' core' /\ drain_outcome core (Some d) w r w'
  | Panicked msg _ w' => left_running core (Some d) w msg w'
  | NoFuel => False
  end.
Proof.
  intros Hwf He Htick Ho Hd H1 H2 H3.
  pose proof (wpx_ends (Rc core) e _ _ _ k w He (wpx_shutdown fuel core (Some d) w Hwf)
    (ends_shutdown core e k0 fuel d k w He Htick Ho Hd H1 H2 H3)) as H.
  destruct (shutdown_with_timeout fuel core (Some d) e k w) as [[r core'] k' w'| |]; [apply H | done | done].
Qed.

End Core.
