(* ===== verification/Processor.v ===== *)
(** * Processor: the batch event processor (disruptor/event_processor.rs)

    [BatchEventProcessor] owns a handler behind a mutex and drives it with the
    sequential engine ([run]) or one batch at a time ([try_run_once]); a CAS on
    its [running] flag keeps the two apart.  The handler's state is passed
    along explicitly; while the mutex is free other threads may run callbacks
    on it, so an acquisition hands out the state as [touched] has left it. *)
From S2P Require Import Prelude Effects Errors RingBuffer World Sequence Single Multi Availability Sequencer.
From S2P Require Import Waiting WaitStrategy Barrier ConsumerEngine Delivery Progress Threads.

(** [BatchEventProcessor] (its ring buffer is that of the pipeline's memory;
    [p_handler_lock] is the mutex around the handler). *)
Record BatchEventProcessor (T : Type) : Type := mkProcessor {
  p_barrier : ProcessingSequenceBarrier;
  p_exception_handler : ExceptionHandler T;
  p_sequence : loc;
  p_running : loc;
  p_startup_complete : loc;
  p_handler_lock : loc
}.
Arguments mkProcessor {T}.
Arguments p_barrier {T} _.
Arguments p_exception_handler {T} _.
Arguments p_sequence {T} _.
Arguments p_running {T} _.
Arguments p_startup_complete {T} _.
Arguments p_handler_lock {T} _.

Section Processor.
Context {T H : Type} (handler : EventHandler T H) (touched : nat -> H -> H) (current_thread_name : string).
Abbreviation W := (World T).
Implicit Types (w : W) (p : BatchEventProcessor T).

(** [BatchEventProcessor::new], with the fresh addresses. *)
Definition processor_new (b : ProcessingSequenceBarrier) (eh : ExceptionHandler T)
    (sequence running startup_complete handler_lock : loc) : M W (BatchEventProcessor T) :=
  let* _ := Sequence.new_with_initial_value sequence in
  let* _ := write (set_flag running false) in
  let* _ := write (set_flag startup_complete false) in
  let* _ := write (set_flag handler_lock false) in
  ret (mkProcessor b eh sequence running startup_complete handler_lock).

(** [failure] *)
Definition processor_failure (ph : FailurePhase) (message : string) (sequence : option Z) : FailureRecord :=
  let failure := with_thread_name current_thread_name (failure_new ph message) in
  match sequence with
  | Some sequence => with_sequence sequence failure
  | None => failure
  end.

(** The mutex: [try_lock], [lock] and the guard's drop. *)
Definition others_touched (h : H) : M W H := fun _ k s => Done (touched k h) k s.

Definition try_lock p (h : H) : M W (option H) :=
  let* held := atomic (fun w => (flag_at w (p_handler_lock p), set_flag (p_handler_lock p) true w)) in
  if held then ret None else let* h := others_touched h in ret (Some h).

Definition lock (fuel : nat) p (h : H) : M W H :=
  loop fuel (fun _ : unit =>
    let* l := try_lock p h in
    match l with
    | None => ret (inl tt)
    | Some h => ret (inr h)
    end) tt.

Definition unlock p : M W unit := store (set_flag (p_handler_lock p) false).

(** A call of the exception handler that may panic. *)
Definition raise (panicked : option string) : M W unit :=
  match panicked with
  | None => ret tt
  | Some msg => panic msg
  end.

(** [invoke_on_start] *)
Definition invoke_on_start p (h : H) : M W (bool * H) :=
  let* l := try_lock p h in
  match l with
  | None => ret (true, h)
  | Some h =>
      with_guard
        (let '(h, cb) := on_start handler h in
         let* r := run_callback cb in
         match r with
         | Err error =>
             let* _ := poison_with_failure (p_barrier p) (processor_failure HandlerStart (to_string error) None) in
             let* _ := raise (handle_on_start_exception (p_exception_handler p) error) in
             ret (false, h)
         | Ok _ => ret (true, h)
         end)
        (unlock p)
  end.

(** [invoke_on_shutdown] *)
Definition invoke_on_shutdown p (h : H) : M W H :=
  let* l := try_lock p h in
  match l with
  | None => ret h
  | Some h =>
      with_guard
        (let '(h, cb) := on_shutdown handler h in
         let* r := run_callback cb in
         match r with
         | Err error =>
             let* _ := record_failure (p_barrier p) (processor_failure HandlerShutdown (to_string error) None) in
             let* _ := raise (handle_on_shutdown_exception (p_exception_handler p) error) in
             ret h
         | Ok _ => ret h
         end)
        (unlock p)
  end.

(** [process_events] *)
Definition process_events (fuel : nat) p (h : H) : M W H :=
  let* (started, h) := invoke_on_start p h in
  let* _ := store (set_flag (p_startup_complete p) true) in
  if negb started then let* _ := store (set_flag (p_running p) false) in ret h else
  let* running := load (fun w => flag_at w (p_running p)) in
  if negb running then invoke_on_shutdown p h else
  let* h := lock fuel p h in
  let* h := with_guard
              (run_sequential_batch_loop_with_exceptions handler (p_barrier p) (p_sequence p) (Running (p_running p))
                 "batch-event-processor" (Some (p_exception_handler p)) fuel h)
              (unlock p) in
  invoke_on_shutdown p h.

(** [running.compare_exchange(false, true)] *)
Definition claim_running p : M W bool :=
  atomic (fun w => if flag_at w (p_running p) then (false, w) else (true, set_flag (p_running p) true w)).

(** [run] *)
Definition run (fuel : nat) p (h : H) : M W (result unit DisruptorError * H) :=
  let* won := claim_running p in
  if negb won then ret (Err AlreadyRunning, h) else
  let* _ := store (set_flag (p_startup_complete p) false) in
  let* _ := clear_alert (p_barrier p) in
  let* r := catch_unwind (process_events fuel p h) in
  match r with
  | inr payload =>
      let* _ := poison_with_failure (p_barrier p) (processor_failure ConsumerPanic payload None) in
      let* _ := store (set_flag (p_running p) false) in
      panic payload
  | inl h =>
      let* _ := store (set_flag (p_running p) false) in
      ret (Ok tt, h)
  end.

(** [halt] *)
Definition processor_halt p : M W unit :=
  let* _ := store (set_flag (p_running p) false) in
  alert (p_barrier p).

(** [is_running], [is_startup_complete] *)
Definition is_running p : M W bool := load (fun w => flag_at w (p_running p)).
Definition is_startup_complete p : M W bool := load (fun w => flag_at w (p_startup_complete p)).

(** The closure of [try_run_once] that goes through the batch. *)
Definition probe_batch (fuel : nat) p (available_sequence next_sequence : Z) (h : H) : M W (result bool DisruptorError * H) :=
  loop fuel (fun '(current_sequence, h) =>
    if current_sequence <=? available_sequence then
      let end_of_batch := current_sequence =? available_sequence in
      let* event := event_at current_sequence in
      let '(h, event, cb) := on_event handler h event current_sequence end_of_batch in
      let* _ := write_event current_sequence event in
      let* r := run_callback cb in
      match r with
      | Err e =>
          let error_message := to_string e in
          match handle_event_exception (p_exception_handler p) e current_sequence event with
          | inr msg => panic msg
          | inl Stop =>
              let* _ := Sequence.set (p_sequence p) (current_sequence -! 1) in
              let* _ := poison_with_failure (p_barrier p)
                          (processor_failure EventProcessing error_message (Some current_sequence)) in
              let* _ := store (set_flag (p_running p) false) in
              ret (inr (Err Poisoned, h))
          | inl Continue => ret (inl (current_sequence +! 1, h))
          end
      | Ok _ => ret (inl (current_sequence +! 1, h))
      end
    else
      let* _ := Sequence.set (p_sequence p) available_sequence in
      ret (inr (Ok true, h))) (next_sequence, h).

(** [try_run_once] with the handler locked. *)
Definition probe (fuel : nat) p (h : H) : M W (result bool DisruptorError * H) :=
  let* c := Sequence.get (p_sequence p) in
  let next_sequence := c +! 1 in
  let* r := try_get_available_sequence fuel (p_barrier p) next_sequence in
  match r with
  | Err e => ret (Err e, h)
  | Ok available_sequence =>
      let* running := load (fun w => flag_at w (p_running p)) in
      if negb running then ret (Err Alert, h) else
      if available_sequence <? next_sequence then ret (Ok false, h) else
      let batch_span := (available_sequence -! next_sequence) +! 1 in
      let* c := Sequence.get (p_sequence p) in
      let queue_depth := available_sequence -! c in
      let '(h, cb) := on_batch_start handler h batch_span queue_depth in
      let* r := run_callback cb in
      match r with
      | Err e =>
          let* _ := Sequence.set (p_sequence p) (next_sequence -! 1) in
          let* _ := poison_with_failure (p_barrier p)
                      (processor_failure BatchStart (to_string e) (Some next_sequence)) in
          let* _ := store (set_flag (p_running p) false) in
          ret (Err Poisoned, h)
      | Ok _ =>
          let* process := catch_unwind (probe_batch fuel p available_sequence next_sequence h) in
          match process with
          | inl result => ret result
          | inr payload =>
              let* _ := poison_with_failure (p_barrier p)
                          (processor_failure ConsumerPanic payload (Some next_sequence)) in
              let* _ := store (set_flag (p_running p) false) in
              panic payload
          end
      end
  end.

(** [try_run_once]: the claim guard is the outer, the mutex guard the inner. *)
Definition try_run_once (fuel : nat) p (h : H) : M W (result bool DisruptorError * H) :=
  let* won := claim_running p in
  if negb won then ret (Ok false, h) else
  with_guard
    (let* l := try_lock p h in
     match l with
     | None => ret (Ok false, h)
     | Some h => with_guard (probe fuel p h) (unlock p)
     end)
    (store (set_flag (p_running p) false)).

(** [notify_timeout], [on_start], [on_shutdown] *)
Definition notify_timeout p (h : H) (sequence : Z) : M W H :=
  let* l := try_lock p h in
  match l with
  | None => ret h
  | Some h =>
      with_guard (let '(h, cb) := on_timeout handler h sequence in let* _ := run_callback cb in ret h) (unlock p)
  end.

Definition processor_on_start p (h : H) : M W H := let* (_, h) := invoke_on_start p h in ret h.

Definition processor_on_shutdown p (h : H) : M W H :=
  let* h := invoke_on_shutdown p h in
  let* _ := store (set_flag (p_running p) false) in ret h.

(** ** The probe's loop is the engine's *)

(** One batch of the engine, with the answers of the probe. *)
Definition engine_batch (fuel : nat) p (available_sequence next_sequence : Z) (h : H) : M W (result bool DisruptorError * H) :=
  let* out := process_batch handler (Some (p_exception_handler p)) (p_barrier p) (p_sequence p)
                (mkContext current_thread_name None) fuel available_sequence next_sequence h in
  match out with
  | inl (_, h) => let* _ := Sequence.set (p_sequence p) available_sequence in ret (Ok true, h)
  | inr h => let* _ := store (set_flag (p_running p) false) in ret (Err Poisoned, h)
  end.

Lemma probe_engine_eq fuel p v q h e k w : probe_batch fuel p v q h e k w = engine_batch fuel p v q h e k w.
Proof.
  unfold engine_batch, process_batch, probe_batch. apply loop_then. clear q h k w. intros [q h] k w.
  unfold process_event. destruct (q <=? v); [|done]. unfold bind.
  destruct (event_at q e k w) as [ev k1 w1| |]; [|done|done].
  destruct (on_event handler h ev q (q =? v)) as [[h1 ev1] cb].
  destruct (write_event q ev1 e k1 w1) as [[] k2 w2| |]; [|done|done].
  destruct cb as [[[]|err]|msg]; cbn [run_callback]; [done | | done]. unfold ret.
  destruct (handle_event_exception (p_exception_handler p) err q ev1) as [[]|msg]; [|done|done].
  unfold Sequence.set, store, atomic. cbn [fst snd].
  unfold processor_failure, consumer_failure. cbn [ctx_thread_name ctx_stage_index].
  by destruct (poison_with_failure _ _ e (S k2) _) as [[] k3 w3| |].
Qed.

(** The hand-written batch loop of [try_run_once] does what the engine's batch
    does, whatever the handlers and the other threads do: the same calls in
    the same order, the same writes, the same failure record, the same freeze
    of the sequence. *)
Theorem probe_matches_engine fuel p v q h e k w :
  probe_batch fuel p v q h e k w = engine_batch fuel p v q h e k w.
Proof. apply probe_engine_eq. Qed.

(** ** How a run ends *)

(** The processor's flags and the barrier's alert are different objects. *)
Record processor_wf p : Prop := {
  pw_lock_running : p_handler_lock p <> p_running p;
  pw_lock_alert : p_handler_lock p <> alerted (p_barrier p);
  pw_startup_running : p_startup_complete p <> p_running p;
  pw_startup_alert : p_startup_complete p <> alerted (p_barrier p)
}.

Section Exit.
Context (p : BatchEventProcessor T) (Hwf : processor_wf p) (Hws : durations_ok (wait_strategy (p_barrier p))).
Abbreviation R := (thread_rely (p_barrier p) (Running (p_running p))).
Abbreviation gone := (exit_reason (p_barrier p) (Running (p_running p))).
Abbreviation sq := (sequencer (p_barrier p)).

(** The mutex and the startup flag have nothing to do with it. *)
Lemma gone_set_flag l v w :
  l <> p_running p -> l <> alerted (p_barrier p) -> gone w -> gone (set_flag l v w).
Proof.
  intros H1 H2. unfold exit_reason, told, alert_raised, alert_value, poisoned. rewrite !flag_at_set_ne by done. destruct sq; intros Hg; exact Hg.
Qed.

Lemma wlp_unlock w : gone w -> wlp R (unlock p) (fun _ w' => gone w') w.
Proof.
  intros Hg. apply wlp_atomic. intros w' Hr. apply gone_set_flag; [apply Hwf | apply Hwf | by apply (tr_exit _ _ _ _ Hr)].
Qed.

Lemma wlp_try_lock h w : gone w -> wlp R (try_lock p h) (fun _ w' => gone w') w.
Proof.
  intros Hg. apply wlp_bind, wlp_atomic. intros w1 Hr. cbn [fst snd].
  assert (Hg1 : gone (set_flag (p_handler_lock p) true w1))
    by (apply gone_set_flag; [apply Hwf | apply Hwf | by apply (tr_exit _ _ _ _ Hr)]).
  destruct (flag_at w1 (p_handler_lock p)); [by apply wlp_ret|]. by intros e k _.
Qed.

Lemma wlp_raise x w : gone w -> wlp R (raise x) (fun _ w' => gone w') w.
Proof. intros Hg. destruct x; [apply wlp_panic | by apply wlp_ret]. Qed.

Lemma wlp_on_shutdown h w : gone w -> wlp R (invoke_on_shutdown p h) (fun _ w' => gone w') w.
Proof.
  intros Hg. apply wlp_bind. eapply wlp_mono; [by apply wlp_try_lock|]. intros [h1|] w1 Hg1; [|by apply wlp_ret].
  apply wlp_with_guard. apply (wlp_mono R _ (fun _ w' => gone w')); [|intros; by apply wlp_unlock].
  destruct (on_shutdown handler h1) as [h2 [r|msg]]; [|by intros e k _]. apply wlp_bind, wlp_ret.
  destruct r as [[]|err]; [by apply wlp_ret|]. apply wlp_bind.
  eapply wlp_mono; [by apply wlp_record_failure|]. intros [] w2 Hg2. apply wlp_bind.
  eapply wlp_mono; [by apply wlp_raise|]. intros [] w3 Hg3. by apply wlp_ret.
Qed.

(** Going through the events ends for a reason. *)
Lemma wlp_process_events fuel h w : wlp R (process_events fuel p h) (fun _ w' => gone w') w.
Proof.
  unfold process_events. apply wlp_after. intros [started h1] w1. apply wlp_after. intros [] w2.
  destruct started; cbn [negb].
  2:{ apply wlp_bind, wlp_atomic. intros w3 _. apply wlp_ret. left. apply flag_at_set_eq. }
  apply wlp_bind, wlp_load. intros w3 _. destruct (flag_at w3 (p_running p)) eqn:Hrun; cbn [negb].
  2:{ apply wlp_on_shutdown. by left. }
  apply wlp_after. intros h2 w4. apply wlp_bind, wlp_with_guard.
  eapply wlp_mono; [by apply wlp_sequential|]. intros h3 w5 Hg.
  eapply wlp_mono; [by apply wlp_unlock|]. intros u w6 Hg6. by apply wlp_on_shutdown.
Qed.

(** C18: A processor does not vanish silently.  [process_events] returns only for a
    reason: the processor was halted, its barrier alerted, or the pipeline is
    poisoned (a failed [on_start] poisons it too).  [run] refuses with
    [AlreadyRunning], touching nothing, exactly when another run or probe has
    claimed the processor; otherwise it always gives the claim back, and if it
    panics (it re-raises what a callback raised) it has poisoned the pipeline
    and a failure record is retrievable. *)
Theorem processor_exit (e : env W) fuel h k w :
  respects R e ->
  match process_events fuel p h e k w with Done _ _ w' => gone w' | _ => True end /\
  match run fuel p h e k w with
  | Done (Err err, h') k' w' => err = AlreadyRunning /\ flag_at w' (p_running p) = true /\ h' = h /\ k' = S k /\ w' = e k w
  | Done (Ok _, _) _ w' => flag_at w' (p_running p) = false /\ flag_at (e k w) (p_running p) = false
  | Panicked _ _ w' => flag_at w' (p_running p) = false /\ poisoned sq w' = true /\ is_Some (failure sq w') /\
      flag_at (e k w) (p_running p) = false
  | NoFuel => True
  end.
Proof.
  intros He. split.
  { pose proof (wlp_process_events fuel h w e k He) as Hp. by destruct (process_events fuel p h e k w). }
  unfold run, claim_running, clear_alert, store, atomic, bind. cbn [fst snd].
  destruct (flag_at (e k w) (p_running p)) eqn:Hrun; cbn [negb fst snd ret].
  { by split_and!. }
  set (w1 := set_flag (alerted (p_barrier p)) false _). unfold catch_unwind.
  destruct (process_events fuel p h e (S (S (S k))) w1) as [h1 k1 w2|msg k1 w2|]; cbn [ret]; [| | done].
  - split; [apply flag_at_set_eq | done].
  - pose proof (wp_thread_poison (p_barrier p) (Running (p_running p)) (processor_failure ConsumerPanic msg None) w2 e k1 He) as Hp.
    destruct (poison_with_failure _ _ e k1 w2) as [[] k2 w3| |]; [|done|done]. destruct Hp as [Hp [f Hf]]. cbn.
    pose proof (tr_failure _ _ _ _ (He k2 w3)) as Hfr. split; [apply flag_at_set_eq|].
    pose proof (fr_poison _ _ _ Hfr Hp) as Hp'. pose proof (fr_keep _ _ _ Hfr f Hf) as Hf'.
    unfold poisoned, failure in *. destruct sq; split_and!; try done; by exists f.
Qed.

End Exit.

End Processor.

(** ** What a probe delivers *)

Section Probe.
Context {T H : Type} (val : Z -> T) (hd : EventHandler T H) (touched : nat -> H * list (Z * T * bool) -> H * list (Z * T * bool)).
Context (name : string) (p : BatchEventProcessor T).
Abbreviation W := (World T).
Implicit Types w : W.
Abbreviation b := (p_barrier p).
Abbreviation cs := (p_sequence p).
Abbreviation eh := (Some (p_exception_handler p)).
Abbreviation R := (engine_rely val b cs unconstrained).
Context (Hret : handler_returns hd) (Heh : decides eh).
Context (Htouch : forall k h log, snd (touched k (h, log)) = log).

(** Where a probe that began at action [k] leaves the claim, whatever its
    handler does: if the processor was claimed, it has touched nothing and says
    so at once; otherwise the claim is free again, also after a panic. *)
Definition claim_settled {X} (x : X) (e : env W) k w (r : outcome W (result bool DisruptorError * X)) : Prop :=
  match r with
  | Done _ _ w' | Panicked _ _ w' =>
      if flag_at (e k w) (p_running p) then r = Done (Ok false, x) (S k) (e k w) else flag_at w' (p_running p) = false
  | NoFuel => True
  end.

Lemma probe_settles {X} (any : EventHandler T X) tch fuel (x : X) (e : env W) k w :
  claim_settled x e k w (try_run_once any tch name fuel p x e k w).
Proof.
  unfold claim_settled. destruct (flag_at (e k w) (p_running p)) eqn:Hf.
  - assert (try_run_once any tch name fuel p x e k w = Done (Ok false, x) (S k) (e k w)) as ->; [|done].
    unfold try_run_once, claim_running, bind, atomic. by rewrite Hf.
  - unfold try_run_once. rewrite (bind_done _ _ _ _ _ true (S k) (set_flag (p_running p) true (e k w))).
    2:{ unfold claim_running, atomic. by rewrite Hf. }
    cbn [negb]. unfold with_guard at 1, bind at 1, catch_unwind at 1.
    match goal with |- context [?m e (S k) _] => destruct (m e (S k) (set_flag (p_running p) true (e k w))) as [r k1 w1|msg k1 w1|] end;
      [apply flag_at_set_eq | apply flag_at_set_eq | done].
Qed.

Lemma eng_inv_flag N next l v w : eng_inv val b cs unconstrained N next w -> eng_inv val b cs unconstrained N next (set_flag l v w).
Proof.
  intros [[Hof Hvw Hd Hl Hm] ? ? ? ? Hdata ? ?]. unfold barrier_of, view_wf in *.
  constructor; try done; try (constructor; try done); unfold available, published, in_window in *; by destruct (sequencer b).
Qed.

Lemma wp_touched h (Q : H * list (Z * T * bool) -> W -> Prop) w :
  (forall k, Q (touched k h) w) -> wp R (others_touched touched h) Q w.
Proof. intros HQ e k _. apply HQ. Qed.

(** What a probe has done: [c] is where it began. *)
Definition probed (c : Z) (r : result bool DisruptorError) (log : list (Z * T * bool)) w : Prop :=
  consumed val b cs c [] log w /\
  match r with
  | Ok true => exists v, c < v /\ seq_at w cs = v /\ log = delivered val (c + 1) (v - c)
  | Ok false => log = [] /\ seq_at w cs = c
  | Err Poisoned => poisoned (sequencer b) w = true
  | Err e => e = Alert /\ log = [] /\ seq_at w cs = c
  end.

Lemma consumed_nil c w : seq_at w cs = c -> consumed val b cs c [] [] w.
Proof. intros Hc. exists 0. split_and!; [lia | lia |]. left. unfold delivered. by rewrite seqZ_nil. Qed.

Lemma probed_flag c r log l v w : probed c r log w -> probed c r log (set_flag l v w).
Proof.
  intros [(n & Hn & Hc & Hl) Hr]. split.
  - exists n. split_and!; [done | done |]. unfold poisoned in *. by destruct (sequencer b).
  - destruct r as [[]|[]]; try done.
Qed.

Lemma probed_rely c r log w w' : probed c r log w -> R w w' -> probed c r log w'.
Proof.
  intros [Hcon Hr] Hrel. split.
  - eapply consumed_value; [exact Hcon | apply (er_cs _ _ _ _ _ _ Hrel) | apply (er_poison _ _ _ _ _ _ Hrel)].
  - destruct r as [[]|[]]; rewrite ?(er_cs _ _ _ _ _ _ Hrel); try done. by apply (er_poison _ _ _ _ _ _ Hrel).
Qed.

(** The batch itself. *)
Lemma wp_probe_batch fuel N c v h w :
  -1 <= c -> c < v -> batch_inv val b cs unconstrained N c v [] (c + 1) [] w ->
  wp R (probe_batch (logged eh hd) name fuel p v (c + 1) (h, []))
    (fun rh w' => probed c rh.1 rh.2.2 w') w.
Proof.
  intros Hc Hv Hb. apply (wp_ext _ _ (engine_batch (logged eh hd) name fuel p v (c + 1) (h, []))).
  { intros. apply probe_engine_eq. }
  unfold engine_batch. wp_steps. eapply wp_mono; [by apply (wp_process_batch val b cs unconstrained hd eh (mkContext name None) Hret Heh fuel N c v [] h w)|].
  intros [[next [h1 log]]|[h1 log]] w1.
  - intros [-> Hb1]. unfold Sequence.set. wp_steps. rename s' into w2, H0 into Hr2.
    pose proof (batch_inv_rely _ _ _ _ _ _ _ _ _ _ _ _ Hb1 Hr2) as (_ & _ & _ & _ & _ & _ & Hlog). cbn in Hlog.
    replace (v + 1 - (c + 1)) with (v - c) in Hlog by lia. split; cbn [fst snd].
    + exists (v - c). split_and!; [lia | rewrite seq_at_set_eq; lia | by left].
    + exists v. split_and!; [lia | apply seq_at_set_eq | done].
  - intros (n & Hn & Hcs & Hp & Hlog). wp_steps. apply probed_flag. eapply probed_rely; [|exact H0]. split; cbn [fst snd]; [|done].
    exists n. split_and!; [done | done |]. right. split; [done | by rewrite Hlog].
Qed.

Lemma wp_probe fuel N h w :
  eng_inv val b cs unconstrained N (front cs w) w -> seq_at w cs < i64_max -> (Z.to_nat N < fuel)%nat ->
  wp R (probe (logged eh hd) name fuel p (h, []))
    (fun rh w' => probed (seq_at w cs) rh.1 rh.2.2 w') w.
Proof.
  intros Hi Hmax Hfuel. unfold probe, Sequence.get. wp_steps. rename s' into w1, H0 into Hr1.
  pose proof (eng_inv_rely _ _ _ _ _ _ _ _ Hi Hr1) as Hi1. rewrite (er_cs _ _ _ _ _ _ Hr1).
  pose proof (ei_next _ _ _ _ _ _ _ Hi) as Hn0. set (c := seq_at w cs) in *.
  assert (Hf : front cs w = c + 1) by done. rewrite Hf in *. nowrap.
  assert (Hf1 : front cs w1 = c + 1) by (by rewrite (er_front _ _ _ _ _ _ Hr1)).
  assert (HP : forall x y, front cs x = c + 1 -> R x y -> front cs y = c + 1 /\ barrier_rely b (c + 1) x y).
  { intros x y Hx Hr. rewrite (er_front _ _ _ _ _ _ Hr). split; [done|]. rewrite <- Hx. apply (er_barrier _ _ _ _ _ _ Hr). }
  pose proof (ei_ok _ _ _ _ _ _ _ Hi1) as Hok. rewrite Hf1 in Hok.
  eapply wp_mono; [apply (wp_try_get_available b (c + 1) (c + 1) fuel ltac:(lia) R _ HP); [done | done |]|].
  { by rewrite (ei_size _ _ _ _ _ _ _ Hi1). }
  intros [v|err] w2 [Hr2 Hpost]; pose proof (eng_inv_rely _ _ _ _ _ _ _ _ Hi1 Hr2) as Hi2;
    assert (Hcs2 : seq_at w2 cs = c) by (by rewrite (er_cs _ _ _ _ _ _ Hr2), (er_cs _ _ _ _ _ _ Hr1)); wp_steps.
  2:{ destruct Hpost as [-> _]. split; [by apply consumed_nil | done]. }
  rename s' into w3, H0 into Hr3. assert (Hcs3 : seq_at w3 cs = c) by (by rewrite (er_cs _ _ _ _ _ _ Hr3)).
  destruct (flag_at w3 (p_running p)); cbn [negb]; [|wp_steps; split; [by apply consumed_nil | done]].
  destruct (Z.ltb_spec v (c + 1)); [wp_steps; split; [by apply consumed_nil | done]|].
  wp_steps. rename s' into w4, H1 into Hr4. specialize (Hpost ltac:(lia)).
  pose proof (eng_inv_rely _ _ _ _ _ _ _ _ Hi2 Hr3) as Hi3. pose proof (eng_inv_rely _ _ _ _ _ _ _ _ Hi3 Hr4) as Hi4.
  assert (Hr24 : R w2 w4) by (by etrans). assert (Hcs4 : seq_at w4 cs = c) by (by rewrite (er_cs _ _ _ _ _ _ Hr4)).
  assert (Hf2 : front cs w2 = c + 1) by (unfold front; lia).
  destruct (readable_window val b cs unconstrained N (c + 1) v w2 Hi2 Hf2 Hpost) as [Hv1 Hv2].
  assert (Hb : batch_inv val b cs unconstrained N c v [] (c + 1) [] w4).
  { split_and!; [done | unfold front; lia | lia | lia | lia | lia | |].
    - intros q Hq. apply (er_available _ _ _ _ _ _ _ Hr24); [unfold in_window; rewrite Hf2, (ei_size _ _ _ _ _ _ _ Hi2); lia|].
      destruct Hpost as (_ & _ & Hre & Hpu). by apply (available_of b w2 q v); [apply Hpu | | lia].
    - replace (c + 1 - (c + 1)) with 0 by lia. unfold delivered. by rewrite seqZ_nil. }
  cbn [logged on_batch_start]. pose proof (hr_batch _ Hret h ((v -! (c + 1)) +! 1) (v -! seq_at w4 cs)) as Hcb.
  destruct (on_batch_start hd h _ _) as [h2 cb]. destruct Hcb as [r Hcb]. cbn in Hcb. subst cb. wp_steps.
  cbn [run_callback]. wp_steps. destruct r as [[]|err].
  - wp_steps. apply wp_catch. eapply wp_mono; [apply (wp_probe_batch fuel N c v); [lia | lia | done]|].
    intros [r h3] w5 Hpr. by wp_steps.
  - unfold Sequence.set. wp_steps. apply wp_consumer_poison. intros w6 Hw6 Hp6. apply wp_bind, wp_store. intros w7 Hr7. wp_steps. apply probed_flag.
    eapply probed_rely; [|exact Hr7]. rewrite seq_at_set_eq in Hw6. revert Hw6. nowrap. intros Hw6.
    split; [apply consumed_nil; lia | done].
Qed.

(** C19: A probe ([try_run_once]), against producers and other consumers that keep to
    their part and callbacks that return: [Ok true] means that the handler was
    called for at least one event, for exactly the sequences after the one
    released before, in order, each once, with the payload published, and that
    they are released; [Ok false] and an alert mean that it was not called;
    [Poisoned] that the producers are poisoned and the sequence is frozen below
    the failed event.  And whatever the handler and the other threads do, a
    probe that finds the processor claimed answers [Ok false] at once and
    touches nothing, and any other leaves the processor unclaimed on every
    path: nothing to do, a contended handler, an error, a panic of a callback. *)
Theorem probe_delivers fuel N h w :
  eng_inv val b cs unconstrained N (front cs w) w -> seq_at w cs < i64_max -> (Z.to_nat N < fuel)%nat ->
  wp R (try_run_once (logged eh hd) touched name fuel p (h, []))
    (fun rh w' => probed (seq_at w cs) rh.1 rh.2.2 w') w /\
  forall X (any : EventHandler T X) tch x e k w, claim_settled x e k w (try_run_once any tch name fuel p x e k w).
Proof.
  intros Hi Hmax Hfuel. split; [|intros; apply probe_settles]. unfold try_run_once, claim_running. wp_steps. rename s' into w1, H0 into Hr1.
  pose proof (eng_inv_rely _ _ _ _ _ _ _ _ Hi Hr1) as Hi1. pose proof (er_cs _ _ _ _ _ _ Hr1) as Hc1.
  destruct (flag_at w1 (p_running p)); cbn [negb fst snd]; wp_steps.
  { split; [by apply consumed_nil | done]. }
  assert (Hend : forall (rh : result bool DisruptorError * (H * list (Z * T * bool))) w', probed (seq_at w cs) rh.1 rh.2.2 w' -> wp R (store (set_flag (p_running p) false))
    (fun _ w'' => probed (seq_at w cs) rh.1 rh.2.2 w'') w').
  { intros rh w' Hp. wp_steps. apply probed_flag. by eapply probed_rely. }
  unfold try_lock. wp_steps. cbn [fst snd]. rename s' into w2, H0 into Hr2.
  pose proof (eng_inv_flag N (front cs w) (p_running p) true w1 Hi1) as Hi1'.
  pose proof (eng_inv_rely _ _ _ _ _ _ _ _ Hi1' Hr2) as Hi2. pose proof (er_cs _ _ _ _ _ _ Hr2) as Hc2.
  change (seq_at (set_flag (p_running p) true w1) cs) with (seq_at w1 cs) in Hc2.
  destruct (flag_at w2 (p_handler_lock p)); [apply wp_ret, wp_ret|wp_steps].
  { apply (Hend (Ok false, (h, []))). split; [apply consumed_nil | split; [done|]]; cbn; unfold seq_at in *; cbn; congruence. }
  apply wp_touched. intros k0. destruct (touched k0 (h, [])) as [h3 log3] eqn:Ht.
  pose proof (Htouch k0 h []) as Hlog. rewrite Ht in Hlog. cbn in Hlog. subst log3. wp_steps.
  set (w3 := set_flag (p_handler_lock p) true w2).
  assert (Hi3 : eng_inv val b cs unconstrained N (front cs w3) w3).
  { replace (front cs w3) with (front cs w) by (unfold front, seq_at in *; cbn; congruence). by apply eng_inv_flag. }
  assert (Hc3 : seq_at w3 cs = seq_at w cs) by (unfold seq_at in *; cbn; congruence).
  eapply wp_mono; [apply (wp_probe fuel N h3 w3 Hi3); [lia | done]|].
  rewrite Hc3. intros rh w4 Hp. apply wp_store. intros w5 Hr5. apply Hend, probed_flag. by eapply probed_rely.
Qed.

End Probe.

(** ** A gap in the probe *)

Lemma probe_panics {T H} (handler : EventHandler T H) name fuel (p : BatchEventProcessor T) h msg k (w : World T) :
  needs_contiguity_check (p_barrier p) = false -> dependent_sequences (p_barrier p) = [] ->
  flag_at w (p_running p) = true -> flag_at w (alerted (p_barrier p)) = false ->
  -1 <= seq_at w (p_sequence p) < seq_at w (cursor (p_barrier p)) -> seq_at w (cursor (p_barrier p)) <= i64_max ->
  (forall h n d, snd (on_batch_start handler h n d) = Unwinds msg) ->
  exists k', probe handler name fuel p h idle k w = Panicked msg k' w.
Proof.
  intros Hnc Hdeps Hrun Hal Hc Hv Hb.
  assert (Hget : exists k', try_get_available_sequence fuel (p_barrier p) (seq_at w (p_sequence p) +! 1) idle (S k) w =
                   Done (Ok (seq_at w (cursor (p_barrier p)))) k' w).
  { unfold try_get_available_sequence, resolve_highest_published. rewrite Hdeps, Hnc.
    unfold try_, bind, check_alert, is_alerted, load, atomic, Sequence.get, load, atomic, bind, ret. cbn [fst snd negb orb].
    unfold idle. rewrite Hal. cbn. rewrite Hal. by eexists. }
  destruct Hget as [k' Hget]. eexists. unfold probe. erewrite bind_done by reflexivity. cbv beta zeta. cbn [fst snd]. change (idle k w) with w.
  erewrite bind_done by exact Hget. cbv beta iota. erewrite bind_done by reflexivity. cbn [fst snd].
  change (idle k' w) with w. rewrite Hrun. cbn [negb].
  destruct (Z.ltb_spec (seq_at w (cursor (p_barrier p))) (seq_at w (p_sequence p) +! 1)) as [Hlt|]; [revert Hlt; nowrap; lia|].
  erewrite bind_done by reflexivity. match goal with |- context [on_batch_start handler h ?x ?y] =>
    pose proof (Hb h x y) as Hcb; destruct (on_batch_start handler h x y) as [h2 cb] end.
  cbn in Hcb. subst cb. reflexivity.
Qed.

(** [on_batch_start] runs outside the [catch_unwind] of [try_run_once]: if it
    panics there, the panic leaves the probe without the pipeline being
    poisoned or a failure recorded, although events are waiting (in [run] the
    same panic poisons the pipeline: [processor_exit]).  Here with a single
    producer, nothing upstream and nobody else moving. *)
Lemma probe_batch_start_panic {T H} (handler : EventHandler T H) touched name fuel (p : BatchEventProcessor T) h msg k (w : World T) :
  processor_wf p -> p_running p <> alerted (p_barrier p) ->
  sequencer (p_barrier p) = World.Single -> needs_contiguity_check (p_barrier p) = false -> dependent_sequences (p_barrier p) = [] ->
  flag_at w (p_running p) = false -> flag_at w (p_handler_lock p) = false -> flag_at w (alerted (p_barrier p)) = false ->
  -1 <= seq_at w (p_sequence p) < seq_at w (cursor (p_barrier p)) -> seq_at w (cursor (p_barrier p)) <= i64_max ->
  (forall h n d, snd (on_batch_start handler h n d) = Unwinds msg) ->
  exists k' w', try_run_once handler touched name fuel p h idle k w = Panicked msg k' w' /\
    poisoned World.Single w' = poisoned World.Single w /\ failure World.Single w' = failure World.Single w /\
    seq_at w' (p_sequence p) = seq_at w (p_sequence p).
Proof.
  intros [Hlr Hla _ _] Hra Hsq Hnc Hdeps Hrun Hlock Hal Hc Hv Hb.
  set (w1 := set_flag (p_running p) true w). set (w2 := set_flag (p_handler_lock p) true w1).
  destruct (probe_panics handler name fuel p (touched (S (S k)) h) msg (S (S k)) w2) as [k' Hp]; try done.
  - unfold w2, w1. rewrite flag_at_set_ne by done. apply flag_at_set_eq.
  - unfold w2, w1. by rewrite !flag_at_set_ne.
  - assert (Hlk : try_lock touched p h idle (S k) w1 = Done (Some (touched (S (S k)) h)) (S (S k)) w2).
    { unfold try_lock. erewrite bind_done by reflexivity. cbn [fst snd]. change (idle (S k) w1) with w1.
      unfold w1 at 1. rewrite flag_at_set_ne by done. by rewrite Hlock. }
    assert (Hcl : claim_running p idle k w = Done true (S k) w1).
    { unfold claim_running, atomic. change (idle k w) with w. by rewrite Hrun. }
    do 2 eexists. split.
    { unfold try_run_once. rewrite (bind_done _ _ _ _ _ _ _ _ Hcl). cbn [negb]. eapply with_guard_panic; [|reflexivity].
      rewrite (bind_done _ _ _ _ _ _ _ _ Hlk). eapply with_guard_panic; [exact Hp | reflexivity]. }
    by split_and!.
Qed.
