(* ===== verification/Builder.v ===== *)
(** * Builder: from builder calls to a running pipeline (disruptor/builder/fluent.rs,
    core.rs, consumer.rs, handle.rs)

    The fluent builders collect consumers stage by stage; [build] hands them to
    [create_disruptor_core], which gives every consumer a sequence, a barrier on
    the consumers of the previous stage and a thread, and gates the producers on
    the last stage; the handle then publishes until it is shut down.  Handlers
    are opaque values ([Hd]) that end up in the threads they were given for. *)
From S2P Require Import Prelude Effects Errors RingBuffer World Sequence Gating Single Multi Availability Sequencer.
From S2P Require Import Waiting WaitStrategy Barrier ConsumerEngine Delivery Progress Threads Core.

(** [ConsumerInfo]: the starter closure is the handler and its access kind. *)
Record ConsumerInfo (Hd : Type) : Type := mkInfo {
  info_handler : Hd;
  info_thread_name : option string;
  info_cpu_affinity : option Z;
  info_stage_index : nat;
  info_access : ConsumerAccess
}.
Arguments mkInfo {Hd}.
Arguments info_handler {Hd} _.
Arguments info_thread_name {Hd} _.
Arguments info_cpu_affinity {Hd} _.
Arguments info_stage_index {Hd} _.
Arguments info_access {Hd} _.

(** [SharedBuilderState] *)
Record SharedBuilderState (Hd : Type) : Type := mkShared {
  size : Z;
  slot_padding : SlotPadding;
  bs_wait_strategy : WaitStrategy;
  bs_consumers : list (ConsumerInfo Hd);
  current_thread_name : option string;
  current_cpu_affinity : option Z;
  current_stage_index : nat
}.
Arguments mkShared {Hd}.
Arguments size {Hd} _.
Arguments slot_padding {Hd} _.
Arguments bs_wait_strategy {Hd} _.
Arguments bs_consumers {Hd} _.
Arguments current_thread_name {Hd} _.
Arguments current_cpu_affinity {Hd} _.
Arguments current_stage_index {Hd} _.

Section Fluent.
Context {Hd : Type}.
Implicit Types (s : SharedBuilderState Hd).

(** [SharedBuilderState::new] *)
Definition shared_new (size : Z) (wait_strategy : WaitStrategy) : SharedBuilderState Hd :=
  mkShared size PadNone wait_strategy [] None None 0.

(** [take_thread_meta] *)
Definition take_thread_meta s : option string * option Z * SharedBuilderState Hd :=
  (current_thread_name s, current_cpu_affinity s,
   mkShared (size s) (slot_padding s) (bs_wait_strategy s) (bs_consumers s) None None (current_stage_index s)).

(** [push]; [Err]: the assertion of [assert_access_compatible] panics. *)
Definition push s (info : ConsumerInfo Hd) (access : ConsumerAccess) : result (SharedBuilderState Hd) string :=
  if access_compatible (map (fun c => (info_stage_index c, info_access c)) (bs_consumers s)) (current_stage_index s) access
  then Ok (mkShared (size s) (slot_padding s) (bs_wait_strategy s) (bs_consumers s ++ [info])
             (current_thread_name s) (current_cpu_affinity s) (current_stage_index s))
  else Err "cannot mix mutable handlers (WorkerPool / &mut E) with read-only fan-out (&E) on the same stage".

(** [consumer_info_mutable] *)
Definition consumer_info_mutable (handler : Hd) (thread_name : option string) (cpu_affinity : option Z) (stage_index : nat) :
    ConsumerInfo Hd := mkInfo handler thread_name cpu_affinity stage_index Mutable.

(** [consumer_info_readonly] *)
Definition consumer_info_readonly (on_event : Hd) (thread_name : option string) (cpu_affinity : option Z) (stage_index : nat) :
    ConsumerInfo Hd := mkInfo on_event thread_name cpu_affinity stage_index Readonly.

(** [add_mut_closure] (the wrapped closure: [handler], then [Ok]) *)
Definition add_mut_closure s (handler : Hd) : result (SharedBuilderState Hd) string :=
  let '(name, cpu, s) := take_thread_meta s in
  push s (consumer_info_mutable handler name cpu (current_stage_index s)) Mutable.

(** [add_mut_handler] *)
Definition add_mut_handler s (handler : Hd) : result (SharedBuilderState Hd) string :=
  let '(name, cpu, s) := take_thread_meta s in
  push s (consumer_info_mutable handler name cpu (current_stage_index s)) Mutable.

(** [add_fanout] *)
Definition add_fanout s (handler : Hd) : result (SharedBuilderState Hd) string :=
  let '(name, cpu, s) := take_thread_meta s in
  push s (consumer_info_readonly handler name cpu (current_stage_index s)) Readonly.

(** [advance_stage] *)
Definition advance_stage s : SharedBuilderState Hd :=
  mkShared (size s) (slot_padding s) (bs_wait_strategy s) (bs_consumers s) (current_thread_name s)
    (current_cpu_affinity s) (S (current_stage_index s)).

(** The type states of a builder: [SingleProducerBuilder] or
    [MultiProducerBuilder] without and with consumers, and [DependentBuilder]. *)
Inductive TypeState : Type := NoConsumers | HasConsumers | DependentBuilder.

(** The methods of the three. *)
Inductive Call : Type :=
| pin_at_core (core_id : Z)
| thread_name (name : string)
| with_slot_padding (p : SlotPadding)
| with_cache_line_padding (enabled : bool)
| handle_events_with (handler : Hd)
| handle_events_with_handler (handler : Hd)
| also_partition_with (handler : Hd)
| also_partition_with_handler (handler : Hd)
| fan_out_events_with (handler : Hd)
| and_then.

(** The configuration methods. *)
Definition set_cpu s (core_id : Z) : SharedBuilderState Hd :=
  mkShared (size s) (slot_padding s) (bs_wait_strategy s) (bs_consumers s) (current_thread_name s) (Some core_id) (current_stage_index s).
Definition set_name s (name : string) : SharedBuilderState Hd :=
  mkShared (size s) (slot_padding s) (bs_wait_strategy s) (bs_consumers s) (Some name) (current_cpu_affinity s) (current_stage_index s).
Definition set_padding s (p : SlotPadding) : SharedBuilderState Hd :=
  mkShared (size s) p (bs_wait_strategy s) (bs_consumers s) (current_thread_name s) (current_cpu_affinity s) (current_stage_index s).

Definition map_ok {A B E} (f : A -> B) (r : result A E) : result B E :=
  match r with Ok a => Ok (f a) | Err e => Err e end.

(** One method call: [None] if the type state does not have the method,
    [Some (Err _)] if it panics. *)
Definition call (b : TypeState * SharedBuilderState Hd) (c : Call) :
    option (result (TypeState * SharedBuilderState Hd) string) :=
  let '(ts, s) := b in
  match c, ts with
  | pin_at_core core_id, _ => Some (Ok (ts, set_cpu s core_id))
  | thread_name name, _ => Some (Ok (ts, set_name s name))
  | with_slot_padding p, _ => Some (Ok (ts, set_padding s p))
  | with_cache_line_padding enabled, _ => Some (Ok (ts, set_padding s (if enabled then CacheLine128 else PadNone)))
  | handle_events_with h, (NoConsumers | DependentBuilder) => Some (map_ok (pair HasConsumers) (add_mut_closure s h))
  | handle_events_with_handler h, (NoConsumers | DependentBuilder) => Some (map_ok (pair HasConsumers) (add_mut_handler s h))
  | also_partition_with h, HasConsumers => Some (map_ok (pair HasConsumers) (add_mut_closure s h))
  | also_partition_with_handler h, HasConsumers => Some (map_ok (pair HasConsumers) (add_mut_handler s h))
  | fan_out_events_with h, _ => Some (map_ok (pair HasConsumers) (add_fanout s h))
  | and_then, HasConsumers => Some (Ok (DependentBuilder, advance_stage s))
  | _, _ => None
  end.

(** A chain of calls. *)
Fixpoint calls (b : TypeState * SharedBuilderState Hd) (cs : list Call) :
    option (result (TypeState * SharedBuilderState Hd) string) :=
  match cs with
  | [] => Some (Ok b)
  | c :: cs =>
      match call b c with
      | Some (Ok b') => calls b' cs
      | r => r
      end
  end.

(** ** What a chain of calls builds *)

(** Stages in order, none skipped, one access kind per stage. *)
Record staged (cs : list (ConsumerInfo Hd)) : Prop := {
  sg_sorted : forall i j c c', (i <= j)%nat -> cs !! i = Some c -> cs !! j = Some c' ->
    (info_stage_index c <= info_stage_index c')%nat;
  sg_contiguous : forall c n, c ∈ cs -> (n <= info_stage_index c)%nat -> exists c', c' ∈ cs /\ info_stage_index c' = n;
  sg_access : forall c c', c ∈ cs -> c' ∈ cs -> info_stage_index c = info_stage_index c' -> info_access c = info_access c'
}.

(** Where the builder stands: its consumers reach up to the stage before the
    current one, or into it. *)
Definition builder_inv (b : TypeState * SharedBuilderState Hd) : Prop :=
  staged (bs_consumers b.2) /\
  match b.1 with
  | NoConsumers => bs_consumers b.2 = [] /\ current_stage_index b.2 = 0%nat
  | HasConsumers => (forall c, c ∈ bs_consumers b.2 -> (info_stage_index c <= current_stage_index b.2)%nat) /\
      exists c, c ∈ bs_consumers b.2 /\ info_stage_index c = current_stage_index b.2
  | DependentBuilder => (forall c, c ∈ bs_consumers b.2 -> (info_stage_index c < current_stage_index b.2)%nat) /\
      exists c, c ∈ bs_consumers b.2 /\ S (info_stage_index c) = current_stage_index b.2
  end.

Lemma access_compatible_spec (cs : list (ConsumerInfo Hd)) n a :
  access_compatible (map (fun c => (info_stage_index c, info_access c)) cs) n a = true <->
  forall c, c ∈ cs -> info_stage_index c = n -> info_access c = a.
Proof.
  unfold access_compatible. rewrite forallb_forall. split.
  - intros H c Hc Hn. specialize (H (info_stage_index c, info_access c)). cbn in H.
    rewrite Hn, bool_decide_eq_true_2 in H by done. cbn in H.
    assert (Hin : In (n, info_access c) (map (fun c => (info_stage_index c, info_access c)) cs))
      by (rewrite <- Hn; apply (in_map (fun c => (info_stage_index c, info_access c))); by apply list_elem_of_In).
    specialize (H Hin). apply negb_true_iff, bool_decide_eq_false in H. by destruct (decide (info_access c = a)).
  - intros H x Hx. apply in_map_iff in Hx as (c & <- & Hc). cbn. apply list_elem_of_In in Hc.
    destruct (decide (info_stage_index c = n)) as [Hn|Hn].
    + rewrite (H c Hc Hn). rewrite (bool_decide_eq_false_2 (a <> a)) by auto. by rewrite andb_false_r.
    + by rewrite bool_decide_eq_false_2.
Qed.

(** Appending a consumer of the current stage. *)
Lemma staged_snoc cs info n :
  staged cs -> info_stage_index info = n ->
  (forall c, c ∈ cs -> (info_stage_index c <= n)%nat) ->
  (n = 0%nat \/ exists c, c ∈ cs /\ (n <= S (info_stage_index c))%nat) ->
  (forall c, c ∈ cs -> info_stage_index c = n -> info_access c = info_access info) ->
  staged (cs ++ [info]).
Proof.
  intros [Hs Hc Ha] <- Hle Hprev Hacc. constructor.
  - intros i j c c' Hij Hi Hj. apply lookup_snoc_Some in Hi as [[Hi1 Hi]|[-> <-]], Hj as [[Hj1 Hj]|[-> <-]];
      [exact (Hs i j c c' Hij Hi Hj) | | lia | done]. apply Hle. by eapply list_elem_of_lookup_2.
  - intros c m Hin Hm. apply elem_of_app in Hin as [Hin| ->%list_elem_of_singleton].
    { destruct (Hc c m Hin Hm) as (c' & ? & ?). exists c'. set_solver. }
    destruct (decide (m = info_stage_index info)) as [->|Hne]; [exists info; set_solver|].
    destruct Hprev as [?|(c & Hin & Hc')]; [lia|]. destruct (Hc c m Hin ltac:(lia)) as (c' & ? & ?).
    exists c'. set_solver.
  - intros c c'. rewrite !elem_of_app, !list_elem_of_singleton. intros [Hin| ->] [Hin'| ->] Heq; [by apply Ha | by apply Hacc | | done].
    symmetry. by apply Hacc.
Qed.

(** A successful registration. *)
Lemma push_inv ts s info a s' :
  builder_inv (ts, s) -> info_stage_index info = current_stage_index s -> info_access info = a ->
  push s info a = Ok s' -> builder_inv (HasConsumers, s').
Proof.
  intros [Hst Hts] Hn Ha. unfold push. destruct (access_compatible _ _ _) eqn:Hac; [|done]. intros [= <-].
  rewrite access_compatible_spec in Hac.
  assert (Hle : forall c, c ∈ bs_consumers s -> (info_stage_index c <= current_stage_index s)%nat).
  { intros c Hc. destruct ts; cbn in Hts; [destruct Hts as [Hnil _]; rewrite Hnil in Hc; set_solver | by apply Hts |].
    apply Nat.lt_le_incl. by apply Hts. }
  split; cbn.
  - apply (staged_snoc _ _ (current_stage_index s)); try done; [|intros; rewrite Ha; auto].
    destruct ts; cbn in Hts; [left; apply Hts | right | right]; destruct Hts as [_ (c & Hc & Hcs)]; exists c; split; try done; lia.
  - split; [|exists info; split; [set_solver | done]].
    intros c [Hc| ->%list_elem_of_singleton]%elem_of_app; [by apply Hle | lia].
Qed.

Lemma call_inv b c b' : builder_inv b -> call b c = Some (Ok b') -> builder_inv b'.
Proof.
  destruct b as [ts s]. intros Hinv.
  assert (Hset : forall s', bs_consumers s' = bs_consumers s -> current_stage_index s' = current_stage_index s ->
            builder_inv (ts, s')).
  { intros s' H1 H2. destruct Hinv as [H3 H4]. split; cbn in *; rewrite ?H1, ?H2; done. }
  assert (Hadd : forall f h, f = add_mut_closure \/ f = add_mut_handler \/ f = add_fanout ->
            map_ok (pair HasConsumers) (f s h) = Ok b' -> builder_inv b').
  { intros f h Hf Hr. destruct (f s h) as [s'|] eqn:Hfs; [|done]. injection Hr as <-.
    destruct Hf as [->|[->| ->]]; cbn in Hfs;
      (eapply (push_inv ts); [| | | exact Hfs]); [by apply Hset | done | done | by apply Hset | done | done | by apply Hset | done | done]. }
  destruct c, ts; cbn [call]; intros Hc; try done; try (injection Hc as <-; by apply Hset);
    try (injection Hc as Hc; eapply Hadd; [|exact Hc]; tauto).
  injection Hc as <-. destruct Hinv as [Hst [Hle (c & Hc & Hcs)]]. split; [done|]. cbn in *. split.
  - intros c' Hc'. specialize (Hle c' Hc'). lia.
  - exists c. split; [done | lia].
Qed.

Lemma calls_inv cs b b' : builder_inv b -> calls b cs = Some (Ok b') -> builder_inv b'.
Proof.
  revert b. induction cs as [|c cs IH]; intros b Hinv; cbn [calls]; [by intros [= <-]|].
  destruct (call b c) as [[b1|]|] eqn:Hc; try done. intros H. eapply IH; [|exact H]. by eapply call_inv.
Qed.

(** No call changes the size. *)
Lemma call_size b c b' : call b c = Some (Ok b') -> size b'.2 = size b.2.
Proof.
  destruct b as [ts s].
  destruct c, ts; cbn [call]; try done; unfold add_mut_closure, add_mut_handler, add_fanout, take_thread_meta, push;
    try destruct (access_compatible _ _ _); by intros [= <-].
Qed.

Lemma calls_size cs b b' : calls b cs = Some (Ok b') -> size b'.2 = size b.2.
Proof.
  revert b. induction cs as [|c cs IH]; intros b; cbn [calls]; [by intros [= <-]|].
  destruct (call b c) as [[b1|]|] eqn:Hc; try done. intros H. rewrite (IH _ H). by eapply call_size.
Qed.

Lemma shared_new_inv n ws : builder_inv (NoConsumers, shared_new n ws).
Proof. split; [|done]. constructor; cbn; [intros; done | set_solver | set_solver]. Qed.

(** The state of a builder is well-formed after any chain of calls its types
    allow: consumers come in stages, in order and without gaps, all of a stage
    with one access kind; the first type state has none, [HasConsumers] has one
    in the current stage, [DependentBuilder] has them all in earlier stages and
    one in the stage just before; and the requested size is untouched. *)
Theorem builder_chain_typed n ws chain b :
  calls (NoConsumers, shared_new n ws) chain = Some (Ok b) -> builder_inv b /\ size b.2 = n.
Proof. intros H. split; [exact (calls_inv _ _ _ (shared_new_inv n ws) H) | exact (calls_size _ _ _ H)]. Qed.

End Fluent.
Arguments Call : clear implicits.

(** ** Assembly *)

(** The addresses the allocations of an assembly return: the cursor, the
    shutdown flag, and for the [i]-th consumer its sequence, thread and barrier
    alert, for the [i]-th stage its work sequence. *)
Record Allocator : Type := mkAllocator {
  new_cursor : loc;
  new_shutdown_flag : loc;
  new_sequence : nat -> loc;
  new_thread : nat -> loc;
  new_alert : nat -> loc;
  new_work_sequence : nat -> loc
}.

(** What the closure of a consumer thread captured: it runs
    [start_consumer_thread] with [start_mutable_consumer] or
    [start_readonly_consumer], by the access kind. *)
Record Started (Hd : Type) : Type := mkStarted {
  st_info : ConsumerInfo Hd;
  st_name : string;
  st_barrier : ProcessingSequenceBarrier;
  st_sequence : loc;
  st_mode : RunMode;
  st_thread : loc
}.
Arguments mkStarted {Hd}.
Arguments st_info {Hd} _.
Arguments st_name {Hd} _.
Arguments st_barrier {Hd} _.
Arguments st_sequence {Hd} _.
Arguments st_mode {Hd} _.
Arguments st_thread {Hd} _.

Section Assembly.
Context {T Hd : Type}.
Abbreviation W := (World T).
Implicit Types (w : W) (info : ConsumerInfo Hd).

Context (alloc : Allocator) (spawns : nat -> bool).

(** The spawning half of [start_consumer_thread]: a fresh sequence and a named
    thread; [spawns i]: the operating system gives the [i]-th one. *)
Definition spawn_consumer (i : nat) info (default_name : string) (b : ProcessingSequenceBarrier) (mode : RunMode) : M W (Started Hd) :=
  let* _ := Sequence.new (new_sequence alloc i) INITIAL_CURSOR_VALUE in
  let name := default default_name (info_thread_name info) in
  if spawns i then
    let* _ := store (set_thread (new_thread alloc i) ThreadRunning) in
    ret (mkStarted info name b (new_sequence alloc i) mode (new_thread alloc i))
  else panic "Failed to spawn consumer thread".

(** The starters. *)
Definition starter (i : nat) info (b : ProcessingSequenceBarrier) (mode : RunMode) : M W (Started Hd) :=
  match info_access info with
  | Mutable => spawn_consumer i info "disruptor-consumer" b mode
  | Readonly =>
      match mode with
      | WorkPool _ => panic "readonly fan-out must use RunMode::Sequential (got WorkPool — assembly bug)"
      | Sequential => spawn_consumer i info "disruptor-fanout" b mode
      end
  end.

(** The dependent sequences of a consumer of stage [stage_index]; [inr]: a
    panic. *)
Definition dependencies (stage_index : nat) (stage_sequences : list (list loc)) : list loc + string :=
  match stage_index with
  | O => inl []
  | S previous =>
      match stage_sequences !! previous with
      | None => inr "consumer stages must be contiguous"
      | Some [] => inr "dependent consumer stage must have upstream consumers"
      | Some seqs => inl seqs
      end
  end.

(** The [for] loop over the consumers. *)
Fixpoint start_consumers (sq : SequencerEnum) (ws : WaitStrategy) (modes : list RunMode) (i : nat)
    (infos : list (ConsumerInfo Hd)) (stage_sequences : list (list loc)) (started : list (Started Hd)) :
    M W (list (Started Hd) * list (list loc)) :=
  match infos with
  | [] => ret (started, stage_sequences)
  | info :: infos =>
      match dependencies (info_stage_index info) stage_sequences with
      | inr msg => panic msg
      | inl dependent_sequences =>
          let* c := Sequencer.get_cursor (dispatch sq) in
          let* b := Barrier.new c ws dependent_sequences sq (new_alert alloc i) in
          match modes !! info_stage_index info with
          | None => panic "missing RunMode"
          | Some run_mode =>
              let* t := starter i info b run_mode in
              start_consumers sq ws modes (S i) infos
                (alter (fun seqs => seqs ++ [st_sequence t]) (info_stage_index info) stage_sequences) (started ++ [t])
          end
      end
  end.

(** [consumers.iter().map(|c| c.stage_index).max().map_or(0, |m| m + 1)] *)
Definition stage_count (infos : list (ConsumerInfo Hd)) : nat :=
  match infos with
  | [] => 0%nat
  | _ => S (list_max (map info_stage_index infos))
  end.

(** [new_work_sequence] for the stages that are pools. *)
Definition alloc_work (m : RunMode) : M W unit :=
  match m with
  | WorkPool l => Sequence.new l INITIAL_CURSOR_VALUE
  | Sequential => ret tt
  end.

(** [Consumer::new] *)
Definition consumer_of (t : Started Hd) : Consumer := mkConsumer (Some (st_thread t)) (st_name t).

(** [create_disruptor_core] *)
Definition create_disruptor_core (size : Z) (event_factory : nat -> T) (ws : WaitStrategy)
    (infos : list (ConsumerInfo Hd)) (is_multi_producer : bool) (padding : SlotPadding) :
    M W (DisruptorCore * list (Started Hd)) :=
  match RingBuffer.new_with_padding size event_factory padding with
  | Err _ => panic "Failed to create ring buffer"
  | Ok rb =>
      let* _ := write (upd_ring (fun _ => rb)) in
      let sq := if is_multi_producer then World.Multi else World.Single in
      let* _ := (if is_multi_producer then Multi.new size ws (new_cursor alloc)
                 else Single.new_unique size ws (new_cursor alloc)) in
      let* _ := write (set_flag (new_shutdown_flag alloc) false) in
      match stage_run_modes (new_work_sequence alloc) (map (fun c => (info_stage_index c, info_access c)) infos) (stage_count infos) with
      | None => panic "index out of bounds"
      | Some modes =>
          let* _ := for_each modes alloc_work in
          let* (started, stage_sequences) :=
            start_consumers sq ws modes 0 infos (replicate (stage_count infos) []) [] in
          let gating_sequences := default [] (list.last stage_sequences) in
          let* _ := (match gating_sequences with
                     | [] => ret tt
                     | _ => Sequencer.add_gating_sequences (dispatch sq) gating_sequences
                     end) in
          ret (mkCore sq (negb is_multi_producer) (map consumer_of started) (new_shutdown_flag alloc) gating_sequences, started)
      end
  end.

(** ** The topology that results *)

(** The sequences of the consumers of stage [n], in the order of registration. *)
Fixpoint members (i : nat) (infos : list (ConsumerInfo Hd)) (n : nat) : list loc :=
  match infos with
  | [] => []
  | info :: infos =>
      if decide (info_stage_index info = n) then new_sequence alloc i :: members (S i) infos n
      else members (S i) infos n
  end.

Lemma members_app i xs ys n : members i (xs ++ ys) n = members i xs n ++ members (i + length xs) ys n.
Proof.
  revert i. induction xs as [|x xs IH]; intros i; cbn [app members length]; [by rewrite Nat.add_0_r|].
  rewrite IH, <- Nat.add_succ_comm. by case_decide.
Qed.

Lemma members_none i infos n : (forall c, c ∈ infos -> info_stage_index c <> n) -> members i infos n = [].
Proof.
  revert i. induction infos as [|c infos IH]; intros i H; cbn [members]; [done|].
  rewrite decide_False by (apply H; set_solver). apply IH. intros c' Hc'. apply H. set_solver.
Qed.

Lemma members_some i infos n c : c ∈ infos -> info_stage_index c = n -> members i infos n <> [].
Proof.
  revert i. induction infos as [|c' infos IH]; intros i; [by intros ?%not_elem_of_nil|].
  intros [->|Hc]%elem_of_cons Hn; cbn [members]; [by rewrite decide_True|]. case_decide; [done | by apply IH].
Qed.

Lemma members_elem i infos n l :
  l ∈ members i infos n -> exists j c, infos !! j = Some c /\ info_stage_index c = n /\ l = new_sequence alloc (i + j).
Proof.
  revert i. induction infos as [|c infos IH]; intros i; cbn [members]; [by intros ?%not_elem_of_nil|].
  assert (Htl : l ∈ members (S i) infos n ->
    exists j c0, (c :: infos) !! j = Some c0 /\ info_stage_index c0 = n /\ l = new_sequence alloc (i + j)).
  { intros H. destruct (IH _ H) as (j & c' & ? & ? & ->). exists (S j), c'. by rewrite Nat.add_succ_r. }
  case_decide; [|done]. intros [->|Hin]%elem_of_cons; [|by apply Htl]. exists 0%nat, c. by rewrite Nat.add_0_r.
Qed.

Lemma members_NoDup i infos n : (forall x y, new_sequence alloc x = new_sequence alloc y -> x = y) -> NoDup (members i infos n).
Proof.
  intros Hinj. revert i. induction infos as [|c infos IH]; intros i; cbn [members]; [constructor|].
  case_decide; [|apply IH]. constructor; [|apply IH]. intros (j & ? & _ & _ & Heq)%members_elem. apply Hinj in Heq. lia.
Qed.

(** Consumers that already run leave the shape of the sequencer alone. *)
Definition assembly_rely (sq : SequencerEnum) w w' : Prop :=
  cursor_loc sq w' = cursor_loc sq w /\ gating sq w' = gating sq w.

(** The mode of a consumer: it shares its stage with other mutable ones, or it
    is alone or read-only. *)
Definition expected_mode (all : list (ConsumerInfo Hd)) info : RunMode :=
  if (1 <? length (members 0 all (info_stage_index info)))%nat && bool_decide (info_access info = Mutable)
  then WorkPool (new_work_sequence alloc (info_stage_index info)) else Sequential.

(** The [i]-th consumer as it should be started: on its own sequence, waiting
    for exactly the consumers of the previous stage (for the cursor on the
    first one), in the mode of its stage. *)
Definition wired (all : list (ConsumerInfo Hd)) (sq : SequencerEnum) (i : nat) info (t : Started Hd) : Prop :=
  st_info t = info /\ st_sequence t = new_sequence alloc i /\ st_thread t = new_thread alloc i /\
  cursor (st_barrier t) = new_cursor alloc /\ sequencer (st_barrier t) = sq /\
  dependent_sequences (st_barrier t) =
    match info_stage_index info with O => [] | S previous => members 0 all previous end /\
  st_mode t = expected_mode all info.

(** The sequencer while consumers are being added. *)
Definition assembling (sq : SequencerEnum) w : Prop := cursor_loc sq w = new_cursor alloc /\ gating sq w = [].

Lemma stage_count_le (all : list (ConsumerInfo Hd)) c : c ∈ all -> (info_stage_index c < stage_count all)%nat.
Proof.
  intros Hc. assert (Hm : (info_stage_index c <= list_max (map info_stage_index all))%nat).
  { pose proof (proj1 (list_max_le (map info_stage_index all) _) (Nat.le_refl _)) as Hf. rewrite List.Forall_forall in Hf.
    apply Hf, in_map, list_elem_of_In, Hc. }
  destruct all; [by apply not_elem_of_nil in Hc|]. cbn [stage_count] in *. lia.
Qed.

(** The dependencies found in the middle of the loop are those of the whole
    list, since the later consumers are in the same or later stages. *)
Lemma dependencies_spec done_ info infos :
  staged (done_ ++ info :: infos) ->
  dependencies (info_stage_index info) (map (members 0 done_) (seq 0 (stage_count (done_ ++ info :: infos)))) =
    inl (match info_stage_index info with O => [] | S previous => members 0 (done_ ++ info :: infos) previous end).
Proof.
  set (all := done_ ++ info :: infos). intros Hst. unfold dependencies.
  destruct (info_stage_index info) as [|p] eqn:Hn; [done|].
  assert (Hin : info ∈ all) by (unfold all; set_solver).
  pose proof (stage_count_le all info Hin) as Hlt.
  rewrite list_lookup_fmap, lookup_seq_lt by lia. cbn [fmap option_fmap option_map Nat.add].
  assert (Hlater : forall c, c ∈ info :: infos -> info_stage_index c <> p).
  { intros c Hc Hp. apply list_elem_of_lookup in Hc as [j Hj].
    pose proof (sg_sorted _ Hst (length done_) (length done_ + j) info c) as Hs.
    unfold all in Hs. rewrite !lookup_app_r, Nat.sub_diag in Hs by lia.
    replace (length done_ + j - length done_)%nat with j in Hs by lia. specialize (Hs ltac:(lia) eq_refl Hj). lia. }
  assert (Hall : members 0 all p = members 0 done_ p).
  { unfold all. rewrite members_app, (members_none _ (info :: infos) p Hlater). apply app_nil_r. }
  destruct (sg_contiguous _ Hst info p Hin ltac:(lia)) as (c & Hc & Hcp).
  pose proof (members_some 0 all p c Hc Hcp) as Hne. rewrite Hall in Hne |- *. by destruct (members 0 done_ p).
Qed.

Lemma stages_snoc done_ info n :
  alter (fun seqs => seqs ++ [new_sequence alloc (length done_)]) (info_stage_index info) (map (members 0 done_) (seq 0 n)) =
  map (members 0 (done_ ++ [info])) (seq 0 n).
Proof.
  apply list_eq. intros j. destruct (decide (j < n)%nat) as [Hj|Hj].
  2:{ rewrite !lookup_ge_None_2; [done | |]; rewrite ?length_alter, length_map, length_seq; lia. }
  assert (Hl : forall f : nat -> list loc, map f (seq 0 n) !! j = Some (f j)).
  { intros f. rewrite list_lookup_fmap, lookup_seq_lt by done. done. }
  rewrite Hl, members_app. cbn [members Nat.add]. destruct (decide (info_stage_index info = j)) as [->|Hne].
  - by rewrite list_lookup_alter_eq, Hl.
  - by rewrite list_lookup_alter_ne, Hl, app_nil_r.
Qed.

(** In a staged list, the access kind of a stage is that of its consumers. *)
Lemma stage_access_spec (all : list (ConsumerInfo Hd)) info :
  staged all -> info ∈ all ->
  stage_access (map (fun c => (info_stage_index c, info_access c)) all) (info_stage_index info) = info_access info.
Proof.
  intros Hst Hin. unfold stage_access.
  set (l := filter _ _). destruct (list.last (map snd l)) as [a|] eqn:Hl; cbn.
  - apply last_Some_elem_of, list_elem_of_fmap in Hl as ([n a'] & -> & Hl). unfold l in Hl.
    apply list_elem_of_filter in Hl as [Hn Hl]. cbn in Hn. apply list_elem_of_fmap in Hl as (c & [= -> ->] & Hc).
    by apply (sg_access _ Hst).
  - apply last_None, fmap_nil_inv in Hl. exfalso.
    assert (Hx : (info_stage_index info, info_access info) ∈ l).
    { apply list_elem_of_filter. split; [done|]. apply list_elem_of_fmap. by exists info. }
    rewrite Hl in Hx. by apply not_elem_of_nil in Hx.
Qed.

Lemma stage_width_members (all : list (ConsumerInfo Hd)) i n :
  stage_width (map (fun c => (info_stage_index c, info_access c)) all) n = length (members i all n).
Proof.
  unfold stage_width. revert i. induction all as [|c all IH]; intros i; cbn [map members]; [done|].
  rewrite filter_cons. cbn [fst]. case_decide; cbn [length]; by rewrite (IH (S i)).
Qed.

(** The run modes of a staged list. *)
Lemma modes_expected (all : list (ConsumerInfo Hd)) :
  staged all -> exists modes,
    stage_run_modes (new_work_sequence alloc) (map (fun c => (info_stage_index c, info_access c)) all) (stage_count all) = Some modes /\
    forall info, info ∈ all -> modes !! info_stage_index info = Some (expected_mode all info).
Proof.
  intros Hst. destruct (stage_run_modes_lookup (new_work_sequence alloc)
    (map (fun c => (info_stage_index c, info_access c)) all) (stage_count all)) as (modes & Hm & _ & Hl).
  { apply forallb_forall. intros x Hx. apply in_map_iff in Hx as (c & <- & Hc). apply Nat.ltb_lt. cbn.
    by apply stage_count_le, list_elem_of_In. }
  exists modes. split; [done|]. intros info Hin. rewrite Hl by (by apply stage_count_le).
  rewrite stage_access_spec by done. rewrite (stage_width_members all 0). unfold expected_mode. f_equal.
  destruct (Nat.ltb_spec 1 (length (members 0 all (info_stage_index info)))); cbn [andb]; repeat case_bool_decide; naive_solver lia.
Qed.

(** ** The assembly goes through *)

Context (Hspawn : forall i, spawns i = true).

Lemma twp_spawn (e : env W) sq i info name b mode k w :
  respects (assembly_rely sq) e -> assembling sq w ->
  twp e (spawn_consumer i info name b mode) (fun t _ w' => assembling sq w' /\
    st_info t = info /\ st_barrier t = b /\ st_sequence t = new_sequence alloc i /\ st_mode t = mode /\ st_thread t = new_thread alloc i) k w.
Proof.
  intros He Ha. unfold spawn_consumer, Sequence.new. twp_steps. rewrite Hspawn. twp_steps.
  set (w1 := set_seq _ _ w). destruct (He k w1) as [Hc Hg]. destruct Ha as [Hc0 Hg0].
  split_and!; try done; unfold assembling, cursor_loc, gating in *; destruct sq; cbn in *; split; congruence.
Qed.

Lemma twp_starter (e : env W) sq (all : list (ConsumerInfo Hd)) i info b k w :
  respects (assembly_rely sq) e -> assembling sq w ->
  twp e (starter i info b (expected_mode all info)) (fun t _ w' => assembling sq w' /\
    st_info t = info /\ st_barrier t = b /\ st_sequence t = new_sequence alloc i /\
    st_mode t = expected_mode all info /\ st_thread t = new_thread alloc i) k w.
Proof.
  intros He Ha. unfold starter. destruct (info_access info) eqn:Hacc; [by apply twp_spawn|].
  assert (Hm : expected_mode all info = Sequential) by (unfold expected_mode; by rewrite Hacc, andb_false_r).
  rewrite Hm. by apply twp_spawn.
Qed.

Lemma twp_start_consumers (e : env W) sq ws modes (all infos done_ : list (ConsumerInfo Hd)) started k w :
  respects (assembly_rely sq) e -> staged all -> all = done_ ++ infos ->
  (forall info, info ∈ all -> modes !! info_stage_index info = Some (expected_mode all info)) ->
  assembling sq w -> length started = length done_ ->
  (forall i info, done_ !! i = Some info -> exists t, started !! i = Some t /\ wired all sq i info t) ->
  twp e (start_consumers sq ws modes (length done_) infos (map (members 0 done_) (seq 0 (stage_count all))) started)
    (fun r _ w' => assembling sq w' /\ r.2 = map (members 0 all) (seq 0 (stage_count all)) /\ length r.1 = length all /\
       forall i info, all !! i = Some info -> exists t, r.1 !! i = Some t /\ wired all sq i info t) k w.
Proof.
  intros He Hst. revert done_ started k w.
  induction infos as [|info infos IH]; intros done_ started k w -> Hmodes Ha Hlen Hdone; cbn [start_consumers].
  { rewrite app_nil_r in *. by apply twp_ret. }
  rewrite dependencies_spec by done. apply twp_bind.
  assert (Hcur : twp e (Sequencer.get_cursor (dispatch sq)) (fun c k' w' => c = new_cursor alloc /\ w' = w /\ k' = k) k w).
  { destruct Ha as [Hc _]. unfold cursor_loc in Hc. destruct sq; apply twp_read; done. }
  eapply twp_mono; [exact Hcur|]. intros c k1 w1 (-> & -> & ->). unfold Barrier.new. twp_steps.
  rewrite Hmodes by set_solver. apply twp_bind.
  eapply twp_mono; [apply twp_starter; [done|]|].
  { destruct Ha as [Hc Hg]. unfold assembling, cursor_loc, gating in *. by destruct sq. }
  intros t k2 w2 (Ha2 & Hi & Hb & Hs & Hm & Hth). rewrite Hs, stages_snoc.
  replace (S (length done_)) with (length (done_ ++ [info])) by (rewrite length_app; cbn; lia).
  apply IH; [by rewrite <- app_assoc | done | done | rewrite !length_app; cbn; lia |].
  intros i info' Hi'. apply lookup_snoc_Some in Hi' as [[Hlt Hi']|[-> <-]].
  - destruct (Hdone i info' Hi') as (t' & Ht' & Hw'). exists t'. split; [|done]. by apply lookup_app_l_Some.
  - exists t. split; [rewrite <- Hlen; by apply list_lookup_middle|]. unfold wired. by rewrite Hb.
Qed.

Lemma twp_new_sequencer (e : env W) (multi : bool) n ws sz k w :
  let sq := if multi then World.Multi else World.Single in
  respects (assembly_rely sq) e -> 0 <= n <= 62 -> sz = 2 ^ n ->
  twp e (if multi then Multi.new sz ws (new_cursor alloc) else Single.new_unique sz ws (new_cursor alloc))
    (fun _ _ w' => assembling sq w') k w.
Proof.
  intros sq He Hn ->. assert (Hp : is_power_of_two (2 ^ n) = true) by (apply is_power_of_two_spec; exists n; split; [lia | done]).
  assert (Hi : i64_try_from (2 ^ n) = Some (2 ^ n)).
  { unfold i64_try_from. assert (2 ^ n <= 2 ^ 62) by (apply Z.pow_le_mono_r; lia).
    assert (2 ^ 62 <= i64_max) by (by vm_compute).
    destruct (Z.leb_spec (2 ^ n) i64_max); [done | lia]. }
  destruct multi; unfold Multi.new, Single.new_unique, Single.new, Sequence.new_with_initial_value, Sequence.new.
  - rewrite Hp, Hi. cbn [negb]. by twp_steps.
  - rewrite Hi. twp_steps. match goal with |- context [e k ?w1] => destruct (He k w1) as [Hc Hg] end. split; [exact Hc | exact Hg].
Qed.

Lemma twp_alloc_work (e : env W) sq modes k w :
  assembling sq w -> twp e (for_each modes alloc_work) (fun _ _ w' => assembling sq w') k w.
Proof.
  intros Ha. apply (twp_for_each e (fun _ _ w' => assembling sq w')); [|done]. clear w k Ha.
  intros [|l] ms w k [Hc Hg]; cbn [alloc_work]; [by twp_steps|]. unfold Sequence.new. twp_steps.
  unfold assembling, cursor_loc, gating in *. by destruct sq.
Qed.

Lemma twp_add_gating (e : env W) sq ls k w :
  respects (assembly_rely sq) e -> assembling sq w -> NoDup ls ->
  twp e (match ls with [] => ret tt | _ => Sequencer.add_gating_sequences (dispatch sq) ls end)
    (fun _ _ w' => gating sq w' = ls) k w.
Proof.
  intros He [_ Hg] Hnd. destruct ls as [|l ls]; [by apply twp_ret|].
  destruct (He k w) as [_ Hg1]. rewrite Hg in Hg1.
  assert (Hrcu : rcu_closure (l :: ls) [] = l :: ls) by exact (foldl_push_new_id (l :: ls) [] Hnd).
  destruct sq; cbn [dispatch single_ops multi_ops Sequencer.add_gating_sequences];
    unfold Single.add_gating_sequences, Multi.add_gating_sequences, add_gating_sequences_rcu; twp_steps;
    cbn [gating] in *; cbn; by rewrite Hg1.
Qed.

(** The last stage of a builder that may be built is the current one. *)
Lemma built_stage_count s :
  builder_inv (HasConsumers, s) -> stage_count (bs_consumers s) = S (current_stage_index s).
Proof.
  intros [_ [Hle (c & Hc & Hcs)]]. cbn in *.
  assert (Hm : list_max (map info_stage_index (bs_consumers s)) = current_stage_index s).
  { apply Nat.le_antisymm.
    - apply list_max_le, List.Forall_forall. intros n Hn. apply in_map_iff in Hn as (c' & <- & Hc'). by apply Hle, list_elem_of_In.
    - pose proof (stage_count_le (bs_consumers s) c Hc) as Hlt. rewrite <- Hcs. destruct (bs_consumers s) as [|c0 cs]; [by apply not_elem_of_nil in Hc|]. cbn [stage_count] in Hlt. lia. }
  unfold stage_count. rewrite Hm. destruct (bs_consumers s); [set_solver | done].
Qed.

Context (Hinj : forall x y, new_sequence alloc x = new_sequence alloc y -> x = y).

Lemma twp_create (e : env W) (multi : bool) n factory s k w :
  let sq := if multi then World.Multi else World.Single in
  builder_inv (HasConsumers, s) -> respects (assembly_rely sq) e -> 0 <= n <= 62 -> size s = 2 ^ n ->
  twp e (create_disruptor_core (size s) factory (bs_wait_strategy s) (bs_consumers s) multi (slot_padding s))
    (fun r _ w' => core_sequencer r.1 = sq /\ consumers r.1 = map consumer_of r.2 /\ length r.2 = length (bs_consumers s) /\
       core_gating r.1 = members 0 (bs_consumers s) (current_stage_index s) /\ gating sq w' = core_gating r.1 /\
       core_wf r.1 /\ unique_producer_capability r.1 = negb multi /\
       forall i info, bs_consumers s !! i = Some info -> exists t, r.2 !! i = Some t /\ wired (bs_consumers s) sq i info t) k w.
Proof.
  intros sq Hinv He Hn Hsz. pose proof (proj1 Hinv) as Hst. cbn in Hst. unfold create_disruptor_core.
  pose proof (ring_new_spec (size s) factory (slot_padding s)) as Hring.
  destruct (RingBuffer.new_with_padding _ _ _) as [rb|err].
  2:{ destruct (proj2 (Hring ltac:(rewrite Hsz; split; [lia|]; transitivity (2 ^ 62); [apply Z.pow_le_mono_r; lia | done])) n Hn Hsz). }
  twp_steps. eapply twp_mono; [by apply (twp_new_sequencer e multi n)|]. intros [] k1 w1 Ha. twp_steps.
  destruct (modes_expected (bs_consumers s) Hst) as (modes & -> & Hmodes). twp_steps.
  eapply twp_mono; [apply (twp_alloc_work e sq)|].
  { destruct Ha as [Hc Hg]. unfold sq, assembling, cursor_loc, gating in *. by destruct multi. }
  intros [] k2 w2 Ha2. twp_steps.
  replace (replicate (stage_count (bs_consumers s)) []) with (map (members 0 []) (seq 0 (stage_count (bs_consumers s)))).
  2:{ generalize 0%nat at 2. generalize (stage_count (bs_consumers s)) as m. clear.
      induction m as [|m IH]; intros i; cbn; [done|]. by rewrite IH. }
  eapply twp_mono; [by apply (twp_start_consumers e sq (bs_wait_strategy s) modes (bs_consumers s) (bs_consumers s) [])|].
  intros [started ss] k3 w3 (Ha3 & Hss & Hlen & Hw). cbn [fst snd] in *. rewrite Hss.
  rewrite (built_stage_count s Hinv), seq_S, map_app. cbn [map Nat.add]. rewrite last_snoc. cbn [default].
  twp_steps. eapply twp_mono; [apply (twp_add_gating e sq); [done | done | by apply members_NoDup]|].
  intros [] k4 w4 Hg. twp_steps. split_and!; try done.
  intros Hc. cbn in Hc. destruct Hinv as [_ [_ (c & Hc' & _)]]. cbn in Hc'.
  destruct started; [|done]. destruct (bs_consumers s); [set_solver | done].
Qed.

(** C6: Whatever chain of builder calls type-checks and does not panic, [build]
    (with a power-of-two size) goes through while the first consumers already
    run, and the pipeline has the shape the chain describes: one thread per
    registration, in order; a consumer of the first stage waits for the
    cursor, a consumer of a later one for exactly the consumers of the stage
    before it; the mutable consumers of a stage with several of them share its
    work sequence, the others run alone; and the producers are gated on
    exactly the consumers of the last stage; the core of a single producer
    holds its sole capability. *)
Theorem build_spec (e : env W) (multi : bool) n ws factory chain s k w :
  let sq := if multi then World.Multi else World.Single in
  calls (NoConsumers, shared_new (2 ^ n) ws) chain = Some (Ok (HasConsumers, s)) ->
  0 <= n <= 62 -> respects (assembly_rely sq) e ->
  exists core started k' w',
    create_disruptor_core (size s) factory (bs_wait_strategy s) (bs_consumers s) multi (slot_padding s) e k w =
      Done (core, started) k' w' /\
    core_sequencer core = sq /\ consumers core = map consumer_of started /\ length started = length (bs_consumers s) /\
    core_gating core = members 0 (bs_consumers s) (current_stage_index s) /\ gating sq w' = core_gating core /\
    core_wf core /\ unique_producer_capability core = negb multi /\
    forall i info, bs_consumers s !! i = Some info -> exists t, started !! i = Some t /\ wired (bs_consumers s) sq i info t.
Proof.
  intros sq Hchain Hn He. pose proof (calls_size _ _ _ Hchain) as Hsz. cbn in Hsz. pose proof (calls_inv _ _ _ (shared_new_inv _ _) Hchain) as Hinv.
  pose proof (twp_create e multi n factory s k w Hinv He Hn Hsz) as H. unfold twp in H.
  destruct (create_disruptor_core _ _ _ _ _ _ e k w) as [[core started] k' w'| |]; try done.
  by exists core, started, k', w'.
Qed.

End Assembly.
