(* ===== verification/WorkerPool.v ===== *)
(** * WorkerPool: work sharing between the workers of a pool

    The claim protocol of [run_work_processor_loop_impl]
    (disruptor/consumer_engine.rs) for any number of workers, one rule per
    atomic action on the shared work cursor and the workers' sequences.  A
    worker that stops (shutdown, alert, fatal error) after its claim never
    handles it.  Producers and downstream stages gate on the workers'
    sequences: the invariant shows that the slowest of them never passes an
    event that has not been handled. *)
From S2P Require Import Prelude Errors.

(** Where a worker is in its loop. *)
Inductive worker_pc : Type :=
| Looping                 (** at [work_sequence.load] *)
| Loaded (current : Z)    (** at [advertise_work_sequence_if_changed] *)
| Advertised (current : Z) (** at [compare_exchange(current, current + 1)] *)
| Claimed (claimed : Z)   (** waiting for, then handling [claimed] *)
| Handled (claimed : Z)   (** at [consumer_sequence.set(claimed)] *)
| Stopped (lost : option Z). (** out of the loop, with a claim it gave up *)

Record pool : Type := mkPool {
  work_sequence : Z;
  consumer_sequence : nat -> Z;
  pcs : nat -> worker_pc;
  handled : list Z
}.

Definition upd {A} (f : nat -> A) (i : nat) (v : A) : nat -> A :=
  fun j => if decide (j = i) then v else f j.

Lemma upd_eq {A} (f : nat -> A) i v : upd f i v i = v.
Proof. unfold upd. by rewrite decide_True. Qed.

Lemma upd_ne {A} (f : nat -> A) i v j : j <> i -> upd f i v j = f j.
Proof. intros. unfold upd. by rewrite decide_False. Qed.

(** The claim a worker has taken and not handled. *)
Definition open_claim (pc : worker_pc) : option Z :=
  match pc with
  | Claimed c => Some c
  | Stopped lost => lost
  | _ => None
  end.

Section Pool.
Context (workers : nat) (Hworkers : (0 < workers)%nat).
Implicit Types p : pool.

Inductive step : pool -> pool -> Prop :=
| step_load ws cs pc hs i :
    (i < workers)%nat -> pc i = Looping ->
    step (mkPool ws cs pc hs) (mkPool ws cs (upd pc i (Loaded ws)) hs)
| step_advertise ws cs pc hs i current :
    (i < workers)%nat -> pc i = Loaded current ->
    step (mkPool ws cs pc hs)
         (mkPool ws (if current =? cs i then cs else upd cs i current) (upd pc i (Advertised current)) hs)
| step_cas_won ws cs pc hs i :
    (i < workers)%nat -> pc i = Advertised ws ->
    step (mkPool ws cs pc hs) (mkPool (ws + 1) cs (upd pc i (Claimed (ws + 1))) hs)
| step_cas_lost ws cs pc hs i current :
    (i < workers)%nat -> pc i = Advertised current -> current <> ws ->
    step (mkPool ws cs pc hs) (mkPool ws cs (upd pc i Looping) hs)
| step_handle ws cs pc hs i c :
    (i < workers)%nat -> pc i = Claimed c ->
    step (mkPool ws cs pc hs) (mkPool ws cs (upd pc i (Handled c)) (c :: hs))
| step_release ws cs pc hs i c :
    (i < workers)%nat -> pc i = Handled c ->
    step (mkPool ws cs pc hs) (mkPool ws (upd cs i c) (upd pc i Looping) hs)
| step_stop ws cs pc hs i :
    (i < workers)%nat -> (forall c, pc i <> Handled c) ->
    step (mkPool ws cs pc hs) (mkPool ws cs (upd pc i (Stopped (open_claim (pc i)))) hs).

(** [new_work_sequence] and fresh consumer sequences. *)
Definition initial p : Prop :=
  work_sequence p = INITIAL_CURSOR_VALUE /\ handled p = [] /\
  forall i, consumer_sequence p i = INITIAL_CURSOR_VALUE /\ pcs p i = Looping.

Definition reachable p : Prop := exists p0, initial p0 /\ rtc step p0 p.

Record inv p : Prop := {
  inv_start : -1 <= work_sequence p;
  inv_seq : forall i, -1 <= consumer_sequence p i <= work_sequence p;
  inv_loaded : forall i c, pcs p i = Loaded c -> consumer_sequence p i <= c <= work_sequence p;
  inv_adv : forall i c, pcs p i = Advertised c -> consumer_sequence p i = c /\ c <= work_sequence p;
  inv_open : forall i c, open_claim (pcs p i) = Some c ->
               (i < workers)%nat /\ consumer_sequence p i < c <= work_sequence p /\ c ∉ handled p;
  inv_handled : forall i c, pcs p i = Handled c -> consumer_sequence p i < c <= work_sequence p;
  inv_unique : forall i j c, open_claim (pcs p i) = Some c -> open_claim (pcs p j) = Some c -> i = j;
  inv_nodup : NoDup (handled p);
  inv_range : forall c, c ∈ handled p -> 0 <= c <= work_sequence p;
  inv_cover : forall c, 0 <= c <= work_sequence p -> c ∈ handled p \/ exists i, open_claim (pcs p i) = Some c
}.

Lemma pool_inv_initial p : initial p -> inv p.
Proof.
  intros (Hw & Hh & Hi). unfold INITIAL_CURSOR_VALUE in *. constructor; rewrite ?Hw, ?Hh; try lia.
  - intros i. destruct (Hi i). lia.
  - intros i c. destruct (Hi i) as [_ ->]. done.
  - intros i c. destruct (Hi i) as [_ ->]. done.
  - intros i c. destruct (Hi i) as [_ ->]. done.
  - intros i c. destruct (Hi i) as [_ ->]. done.
  - intros i j c. destruct (Hi i) as [_ ->]. done.
  - constructor.
  - set_solver.
Qed.

(** A move of worker [i] that opens no claim, closes none and leaves the
    shared cursor and the handled sequences alone. *)
Lemma inv_local ws cs cs' pc hs i pc' :
  inv (mkPool ws cs pc hs) ->
  (forall j, j <> i -> cs' j = cs j) ->
  open_claim pc' = open_claim (pc i) ->
  cs i <= cs' i <= ws ->
  (forall c, open_claim pc' = Some c -> cs' i < c) ->
  (forall c, pc' = Loaded c -> cs' i <= c <= ws) ->
  (forall c, pc' = Advertised c -> cs' i = c) ->
  (forall c, pc' <> Handled c) ->
  inv (mkPool ws cs' (upd pc i pc') hs).
Proof.
  intros [] Hcs Ho Hv Hc Hl Ha Hh. cbn in *.
  assert (Hopen : forall j, open_claim (upd pc i pc' j) = open_claim (pc j)).
  { intros j. destruct (decide (j = i)) as [->|]; [by rewrite upd_eq | by rewrite upd_ne]. }
  constructor; cbn; try done.
  - intros j. specialize (inv_seq0 j). destruct (decide (j = i)) as [->|]; [lia | by rewrite Hcs].
  - intros j c. destruct (decide (j = i)) as [->|]; [rewrite upd_eq; auto | rewrite upd_ne, Hcs by done; auto].
  - intros j c. destruct (decide (j = i)) as [->|]; [rewrite upd_eq | rewrite upd_ne, Hcs by done; auto].
    intros He. rewrite <- (Ha c He). lia.
  - intros j c Hj. rewrite Hopen in Hj. destruct (inv_open0 j c Hj) as (? & ? & ?).
    destruct (decide (j = i)) as [->|]; [|by rewrite Hcs].
    rewrite <- Ho in Hj. specialize (Hc c Hj). split_and!; [done | lia | lia | done].
  - intros j c. destruct (decide (j = i)) as [->|]; [rewrite upd_eq; by intros ?%Hh | rewrite upd_ne, Hcs by done; auto].
  - intros j k c. rewrite !Hopen. apply inv_unique0.
  - intros c Hc'. destruct (inv_cover0 c Hc') as [?|[j Hj]]; [by left | right; exists j; by rewrite Hopen].
Qed.

(** Winning the compare-and-swap opens the claim of the next sequence. *)
Lemma inv_claim ws cs pc hs i :
  inv (mkPool ws cs pc hs) -> (i < workers)%nat -> pc i = Advertised ws ->
  inv (mkPool (ws + 1) cs (upd pc i (Claimed (ws + 1))) hs).
Proof.
  intros [] Hi Hpc. cbn in *. destruct (inv_adv0 i ws Hpc) as [Hcs _].
  assert (Hfresh : forall j, open_claim (pc j) <> Some (ws + 1)).
  { intros j Hj. destruct (inv_open0 _ _ Hj) as (_ & ? & _). lia. }
  assert (Hne : forall j c, j <> i -> open_claim (upd pc i (Claimed (ws + 1)) j) = Some c -> open_claim (pc j) = Some c)
    by (intros j c Hj; by rewrite upd_ne).
  constructor; cbn; try done; try lia.
  - intros j. specialize (inv_seq0 j). lia.
  - intros j c. destruct (decide (j = i)) as [->|]; [by rewrite upd_eq|]. rewrite upd_ne by done.
    intros Hj. specialize (inv_loaded0 j c Hj). lia.
  - intros j c. destruct (decide (j = i)) as [->|]; [by rewrite upd_eq|]. rewrite upd_ne by done.
    intros Hj. destruct (inv_adv0 j c Hj). split; [done | lia].
  - intros j c. destruct (decide (j = i)) as [->|].
    + rewrite upd_eq. cbn. intros [= <-]. split_and!; [done | lia | lia |]. intros Hin%inv_range0. lia.
    + rewrite upd_ne by done. intros Hj. destruct (inv_open0 j c Hj) as (? & ? & ?). split_and!; [done | lia | lia | done].
  - intros j c. destruct (decide (j = i)) as [->|]; [by rewrite upd_eq|]. rewrite upd_ne by done.
    intros Hj. specialize (inv_handled0 j c Hj). lia.
  - intros j k c. destruct (decide (j = i)) as [->|]; destruct (decide (k = i)) as [->|]; [done | | |].
    + rewrite upd_eq, upd_ne by done. cbn. intros [= <-] ?%Hfresh. done.
    + rewrite upd_eq, upd_ne by done. cbn. intros Hj [= <-]. by apply Hfresh in Hj.
    + rewrite !upd_ne by done. apply inv_unique0.
  - intros c Hc. specialize (inv_range0 c Hc). lia.
  - intros c Hc. destruct (Z.eq_dec c (ws + 1)) as [->|]; [right; exists i; by rewrite upd_eq|].
    destruct (inv_cover0 c ltac:(lia)) as [?|[j Hj]]; [by left | right; exists j].
    rewrite upd_ne; [done|]. intros ->. by rewrite Hpc in Hj.
Qed.

(** Handling a claim closes it. *)
Lemma inv_handle ws cs pc hs i c :
  inv (mkPool ws cs pc hs) -> pc i = Claimed c ->
  inv (mkPool ws cs (upd pc i (Handled c)) (c :: hs)).
Proof.
  intros [] Hpc. cbn in *.
  assert (Hopen : open_claim (pc i) = Some c) by (by rewrite Hpc).
  destruct (inv_open0 i c Hopen) as (Hi & Hc & Hnin).
  assert (Hother : forall j d, open_claim (upd pc i (Handled c) j) = Some d -> j <> i /\ open_claim (pc j) = Some d /\ d <> c).
  { intros j d. destruct (decide (j = i)) as [->|]; [by rewrite upd_eq|]. rewrite upd_ne by done.
    intros Hj. split_and!; [done | done |]. intros ->. apply n. by eapply inv_unique0. }
  constructor; cbn; try done.
  - intros j d. destruct (decide (j = i)) as [->|]; [by rewrite upd_eq | rewrite upd_ne by done; auto].
  - intros j d. destruct (decide (j = i)) as [->|]; [by rewrite upd_eq | rewrite upd_ne by done; auto].
  - intros j d (Hj & Hd & Hne)%Hother. destruct (inv_open0 j d Hd) as (? & ? & ?). split_and!; [done | lia | lia | set_solver].
  - intros j d. destruct (decide (j = i)) as [->|]; [rewrite upd_eq; by intros [= <-] | rewrite upd_ne by done; auto].
  - intros j k d (Hj & Hd & _)%Hother (Hk & Hd' & _)%Hother. by eapply inv_unique0.
  - by constructor.
  - intros d [->|Hd]%elem_of_cons; [|auto]. specialize (inv_seq0 i). lia.
  - intros d Hd. destruct (Z.eq_dec d c) as [->|]; [left; set_solver|].
    destruct (inv_cover0 d Hd) as [?|[j Hj]]; [left; set_solver | right; exists j].
    rewrite upd_ne; [done|]. intros ->. congruence.
Qed.

Lemma pool_inv_step p p' : inv p -> step p p' -> inv p'.
Proof.
  intros Hinv Hst. destruct Hst as [ws cs pc hs i Hi Hpc|ws cs pc hs i cur Hi Hpc|ws cs pc hs i Hi Hpc|
    ws cs pc hs i cur Hi Hpc Hne|ws cs pc hs i c Hi Hpc|ws cs pc hs i c Hi Hpc|ws cs pc hs i Hi Hpc];
    pose proof (inv_seq _ Hinv i) as Hs; cbn in Hs.
  - apply (inv_local ws cs); try done; try lia; [by rewrite Hpc|]. intros c [= <-]. lia.
  - pose proof (inv_loaded _ Hinv i cur Hpc) as Hl. cbn in Hl.
    assert (Hadv : (if cur =? cs i then cs else upd cs i cur) i = cur)
      by (destruct (Z.eqb_spec cur (cs i)); [done | apply upd_eq]).
    apply (inv_local ws cs); try done; rewrite ?Hadv.
    + intros j Hj. destruct (cur =? cs i); [done | by apply upd_ne].
    + by rewrite Hpc.
    + lia.
    + by intros c [= <-].
  - by apply inv_claim.
  - apply (inv_local ws cs); try done; try lia. by rewrite Hpc.
  - by apply inv_handle.
  - pose proof (inv_handled _ Hinv i c Hpc) as Hl. cbn in Hl.
    apply (inv_local ws cs); try done; rewrite ?upd_eq; try done; try lia; [intros; by apply upd_ne | by rewrite Hpc].
  - apply (inv_local ws cs); try done; try lia. cbn. intros c Hc. apply (inv_open _ Hinv i c Hc).
Qed.

Lemma pool_inv_reachable p : reachable p -> inv p.
Proof. intros (p0 & H0 & Hr). apply pool_inv_initial in H0. induction Hr; eauto using pool_inv_step. Qed.

(** C22: In every state any number of workers can reach: no event is handled
    twice, no two workers hold the same claim, and every event up to the
    slowest worker's sequence, on which producers and the next stage gate, has
    been handled, also when workers gave up claims they had taken. *)
Theorem pool_exactly_once p :
  reachable p ->
  NoDup (handled p) /\
  (forall i j c, open_claim (pcs p i) = Some c -> open_claim (pcs p j) = Some c -> i = j) /\
  (forall q, 0 <= q -> (forall i, (i < workers)%nat -> q <= consumer_sequence p i) -> q ∈ handled p).
Proof.
  intros Hr. pose proof (pool_inv_reachable _ Hr) as Hi. split_and!; [apply Hi | apply Hi |].
  intros q Hq Hmin. pose proof (Hmin 0%nat Hworkers) as H0. pose proof (inv_seq _ Hi 0).
  destruct (inv_cover _ Hi q ltac:(lia)) as [?|[i Hc]]; [done|].
  destruct (inv_open _ Hi i q Hc) as (Hw & Hlt & _). specialize (Hmin i Hw). lia.
Qed.

End Pool.
