(* ===== verification/Workers.v ===== *)
(** * Workers: the worker loop refines the worker pool

    [WorkerPool] gives the claim protocol of any number of workers as a
    transition system on abstract states.  Here one worker runs the code of
    [run_work_processor_loop_impl] (disruptor/consumer_engine.rs) on the shared
    memory, while the other workers, the producers and everyone else move as
    the transition system and the barrier allow.  Every atomic action of the
    worker on the shared cursor and on its own sequence is a rule of the
    transition system, so the invariant proved of all reachable states holds of
    the memory, and each event it handles is one it has claimed. *)
From stdpp Require Import sorting.
From S2P Require Import Prelude Effects Errors RingBuffer World Sequence Single Multi Availability Sequencer.
From S2P Require Import Waiting WaitStrategy Barrier ConsumerEngine Delivery Progress WorkerPool.

(** ** Facts about the pool *)

Section PoolFacts.
Context (workers : nat).

Lemma step_handled_mono p p' c : step workers p p' -> c ∈ handled p -> c ∈ handled p'.
Proof. intros []; set_solver. Qed.

Lemma steps_handled_mono p p' c : rtc (step workers) p p' -> c ∈ handled p -> c ∈ handled p'.
Proof. induction 1; eauto using step_handled_mono. Qed.

Lemma reachable_steps p p' : reachable workers p -> rtc (step workers) p p' -> reachable workers p'.
Proof. intros (p0 & H0 & Hr) Hs. exists p0. split; [done | by etrans]. Qed.

Lemma omap_length_le {A B} (f : A -> option B) l : (length (omap f l) <= length l)%nat.
Proof. induction l as [|a l IH]; cbn; [done|]. destruct (f a); cbn; lia. Qed.

(** Claims run ahead of what is handled by at most one per worker. *)
Lemma claims_ahead p C :
  (0 < workers)%nat -> reachable workers p -> -1 <= C -> (forall c, c ∈ handled p -> c <= C) ->
  work_sequence p <= C + Z.of_nat workers.
Proof.
  intros Hw Hr HC Hall. pose proof (pool_inv_reachable workers Hw p Hr) as Hinv.
  destruct (Z.le_gt_cases (work_sequence p) C) as [|Hgt]; [lia|].
  set (open := seqZ (C + 1) (work_sequence p - C)).
  assert (Hsub : open ⊆+ omap (fun j => open_claim (pcs p j)) (seq 0 workers)).
  { apply NoDup_submseteq; [apply NoDup_seqZ|]. intros c [H1 H2]%elem_of_seqZ.
    destruct (inv_cover _ _ Hinv c) as [Hh|[j Hj]]; [lia | apply Hall in Hh; lia|].
    apply list_elem_of_omap. exists j. split; [|done]. apply elem_of_seq. destruct (inv_open _ _ Hinv j c Hj). lia. }
  apply submseteq_length in Hsub. unfold open in Hsub. rewrite length_seqZ in Hsub.
  pose proof (omap_length_le (fun j => open_claim (pcs p j)) (seq 0 workers)) as Hlen. rewrite length_seq in Hlen. lia.
Qed.

End PoolFacts.

Section Workers.
Context {T : Type} (val : Z -> T) (b : ProcessingSequenceBarrier) (wl : loc).
Context (workers : nat) (css : nat -> loc) (i : nat).
Abbreviation W := (World T).
Abbreviation sq := (sequencer b).
Abbreviation cs := (css i).
Implicit Types (w : W) (p : pool).

(** The sequences of the workers, the work cursor, the producers' cursor and
    the upstream sequences are different objects, as far as worker [i] writes
    them. *)
Record pool_layout : Prop := {
  ly_i : (i < workers)%nat;
  ly_inj : forall j, (j < workers)%nat -> css j = cs -> j = i;
  ly_work : forall j, (j < workers)%nat -> css j <> wl;
  ly_cs : cs <> cursor b /\ cs ∉ dependent_sequences b;
  ly_wl : wl <> cursor b /\ wl ∉ dependent_sequences b
}.

(** The memory of the pool: the work cursor and the workers' sequences are
    those of the abstract state, what was handled was published, and the events
    no worker has claimed, and the one worker [i] has claimed, are as they were
    published. *)
Record pool_rel p w : Prop := {
  pl_reach : reachable workers p;
  pl_work : work_sequence p = seq_at w wl;
  pl_cs : forall j, (j < workers)%nat -> consumer_sequence p j = seq_at w (css j);
  pl_seen : forall c, c ∈ handled p -> c <= seq_at w (cursor b);
  pl_data : forall q, front cs w <= q <= seq_at w (cursor b) -> published sq w q ->
              work_sequence p < q \/ pcs p i = Claimed q ->
              RingBuffer.get (w_ring w) q = Some (val q)
}.

(** The sequence space is not exhausted. *)
Definition room w : Prop := -1 <= seq_at w (cursor b) /\ seq_at w (cursor b) + Z.of_nat workers + 1 < i64_max.

(** A rule of another worker. *)
Definition others p p' : Prop :=
  step workers p p' /\ pcs p' i = pcs p i /\ consumer_sequence p' i = consumer_sequence p i.

(** What the other threads do while worker [i] runs: the other workers follow
    the transition system, producers keep within a lap of what the worker has
    not released, nobody else writes its sequence. *)
Record work_rely w w' : Prop := {
  wk_barrier : barrier_rely b (front cs w) w w';
  wk_cs : seq_at w' cs = seq_at w cs;
  wk_poison : poisoned sq w = true -> poisoned sq w' = true;
  wk_wf : RingBuffer.wf (w_ring w) -> RingBuffer.wf (w_ring w');
  wk_size : RingBuffer.buffer_size (w_ring w') = RingBuffer.buffer_size (w_ring w);
  wk_room : room w -> room w';
  wk_pool : forall p, pool_rel p w -> exists p', rtc others p p' /\ pool_rel p' w'
}.

Lemma wk_front w w' : work_rely w w' -> front cs w' = front cs w.
Proof. intros H. unfold front. by rewrite (wk_cs _ _ H). Qed.

Lemma wk_view w w' : work_rely w w' -> view_rely sq (front cs w) w w'.
Proof. intros H. apply (wk_barrier _ _ H). Qed.

#[global] Instance work_rely_wait : WaitRely work_rely.
Proof.
  constructor.
  - split.
    + intros w. constructor; try done. intros p Hp. by exists p.
    + intros w1 w2 w3 H1 H2. constructor.
      * etrans; [apply (wk_barrier _ _ H1)|]. rewrite <- (wk_front _ _ H1). apply (wk_barrier _ _ H2).
      * by rewrite (wk_cs _ _ H2), (wk_cs _ _ H1).
      * intros. by apply (wk_poison _ _ H2), (wk_poison _ _ H1).
      * intros. by apply (wk_wf _ _ H2), (wk_wf _ _ H1).
      * by rewrite (wk_size _ _ H2), (wk_size _ _ H1).
      * intros. by apply (wk_room _ _ H2), (wk_room _ _ H1).
      * intros p Hp. destruct (wk_pool _ _ H1 p Hp) as (p2 & Hs2 & Hp2). destruct (wk_pool _ _ H2 p2 Hp2) as (p3 & Hs3 & Hp3).
        exists p3. split; [by etrans | done].
  - intros w w' l Hr. apply (wk_view _ _ Hr).
  - intros w w' Hr. apply (wk_barrier _ _ Hr).
  - intros w d Hd. constructor; try done; [by apply wr_sleep|]. intros p []. exists p. split; [done|]. by constructor.
Qed.

(** The state of the barrier and the ring for worker [i]. *)
Record own_inv N w : Prop := {
  ow_ok : barrier_ok b (front cs w) w;
  ow_size : Sequencer.buffer_size sq w = N;
  ow_ring : RingBuffer.buffer_size (w_ring w) = N;
  ow_wf : RingBuffer.wf (w_ring w);
  ow_front : 0 <= front cs w;
  ow_room : room w
}.

Lemma own_inv_rely N w w' : own_inv N w -> work_rely w w' -> own_inv N w'.
Proof.
  intros [] Hr. constructor; rewrite ?(wk_front _ _ Hr).
  - by apply (br_ok _ _ _ _ (wk_barrier _ _ Hr)).
  - by rewrite (vr_bsz _ _ _ _ (wk_view _ _ Hr)).
  - by rewrite (wk_size _ _ Hr).
  - by apply (wk_wf _ _ Hr).
  - done.
  - by apply (wk_room _ _ Hr).
Qed.

(** The calls worker [i] has completed since [p0]: sequences it claimed, in
    order, nobody had handled before, with the payload published. *)
Definition own_log p0 p (log : list (Z * T * bool)) w : Prop :=
  exists qs, log = map (fun q => (q, val q, false)) qs /\ StronglySorted Z.lt qs /\
    forall q, q ∈ qs -> q ∈ handled p /\ q ∉ handled p0 /\ q <= seq_at w cs.

(** Worker [i] is at [pc] of an abstract state that matches the memory. *)
Record snapshot N p0 p (pc : worker_pc) log w : Prop := {
  sn_steps : rtc (step workers) p0 p;
  sn_rel : pool_rel p w;
  sn_pc : pcs p i = pc;
  sn_own : own_inv N w;
  sn_log : own_log p0 p log w
}.

Lemma others_steps p p' : rtc others p p' -> rtc (step workers) p p' /\ pcs p' i = pcs p i.
Proof.
  induction 1 as [|p1 p2 p3 (Hs & Hp & _) _ [IH1 IH2]]; [done|]. split; [by econstructor | by rewrite IH2].
Qed.

Lemma snapshot_rely N p0 p pc log w w' :
  snapshot N p0 p pc log w -> work_rely w w' ->
  exists p', rtc (step workers) p p' /\ snapshot N p0 p' pc log w'.
Proof.
  intros [Hs Hrel Hpc Ho (qs & Hl & Hsort & Hq)] Hr. destruct (wk_pool _ _ Hr p Hrel) as (p' & [Hs' Hpc']%others_steps & Hrel').
  exists p'. split; [done|]. constructor; [by etrans | done | by rewrite Hpc' | by eapply own_inv_rely |].
  exists qs. split_and!; [done | done |]. intros q Hin. destruct (Hq q Hin) as (? & ? & ?).
  split_and!; [by eapply steps_handled_mono | done | by rewrite (wk_cs _ _ Hr)].
Qed.

Lemma snapshot_inv N p0 p pc log w : snapshot N p0 p pc log w -> (0 < workers)%nat -> inv workers p.
Proof. intros H Hw. apply pool_inv_reachable; [done | apply (sn_rel _ _ _ _ _ _ H)]. Qed.

(** ** The worker's own moves *)

Context (Hly : pool_layout).

Lemma workers_pos : (0 < workers)%nat.
Proof. pose proof (ly_i Hly). lia. Qed.

Lemma published_set_seq l v w q :
  barrier_of b w -> l <> cursor b -> published sq (set_seq l v w) q <-> published sq w q.
Proof.
  intros [Hc _] Hl. unfold published. rewrite Hc in Hl. destruct (sequencer b); [|done]. cbn in *.
  by rewrite seq_at_set_ne.
Qed.

(** Moving a sequence the barrier does not look at. *)
Lemma own_inv_set N l v w :
  own_inv N w -> l <> cursor b -> l ∉ dependent_sequences b -> (l = cs -> seq_at w cs <= v) ->
  own_inv N (set_seq l v w).
Proof.
  intros [[Hof Hwf Hdeps Hlap Hmax] Hsz Hrs Hrw Hfr Hroom] Hl Hd Hv.
  assert (Hcv : seq_at (set_seq l v w) (cursor b) = seq_at w (cursor b)) by (by apply seq_at_set_ne).
  assert (Hbs : Sequencer.buffer_size sq (set_seq l v w) = Sequencer.buffer_size sq w) by (by destruct (sequencer b)).
  assert (Hf : front cs w <= front cs (set_seq l v w)).
  { unfold front. destruct (decide (l = cs)) as [->|]; [rewrite seq_at_set_eq; specialize (Hv eq_refl); lia | by rewrite seq_at_set_ne]. }
  constructor; [| by rewrite Hbs | done | done | lia | unfold room; by rewrite Hcv].
  constructor.
  - destruct Hof. split; [|done]. by destruct (sequencer b).
  - unfold view_wf in *. by destruct (sequencer b).
  - intros Hne. destruct (Hdeps Hne) as (d & Hd1 & Hd2). exists d. split; [done|].
    rewrite Hcv, seq_at_set_ne; [done|]. by intros ->.
  - rewrite Hcv, Hbs. lia.
  - by rewrite Hcv.
Qed.

(** A rule that leaves the memory alone. *)
Lemma snapshot_local N p0 p pc pc' log w :
  snapshot N p0 p pc log w ->
  step workers p (mkPool (work_sequence p) (consumer_sequence p) (upd (pcs p) i pc') (handled p)) ->
  (forall q, pc' = Claimed q -> pc = Claimed q) ->
  exists p', snapshot N p0 p' pc' log w /\ handled p' = handled p.
Proof.
  intros [Hs [] Hpc Ho Hlog] Hst Hq.
  exists (mkPool (work_sequence p) (consumer_sequence p) (upd (pcs p) i pc') (handled p)). split; [|done]. constructor; [by eapply rtc_r | | apply upd_eq | done | done].
  constructor; cbn; try done.
  - eapply reachable_steps; [done|]. by apply rtc_once.
  - intros q Hr Hp Hc. apply pl_data0; [done | done|]. rewrite upd_eq in Hc. destruct Hc as [?|?]; [by left | right; rewrite Hpc; auto].
Qed.

(** A rule that also moves the worker's own sequence. *)
Lemma snapshot_set N p0 p pc pc' v log w :
  snapshot N p0 p pc log w -> seq_at w cs <= v ->
  step workers p (mkPool (work_sequence p) (upd (consumer_sequence p) i v) (upd (pcs p) i pc') (handled p)) ->
  (forall q, pc' <> Claimed q) ->
  exists p', snapshot N p0 p' pc' log (set_seq cs v w) /\ handled p' = handled p.
Proof.
  intros [Hs [] Hpc Ho (qs & Hl & Hsort & Hqs)] Hv Hst Hq. destruct (ly_cs Hly) as [Hc Hd].
  assert (Hcv : seq_at (set_seq cs v w) (cursor b) = seq_at w (cursor b)) by (by apply seq_at_set_ne).
  exists (mkPool (work_sequence p) (upd (consumer_sequence p) i v) (upd (pcs p) i pc') (handled p)). split; [|done].
  constructor; [by eapply rtc_r | | apply upd_eq | by apply own_inv_set |].
  - constructor; cbn.
    + eapply reachable_steps; [done|]. by apply rtc_once.
    + rewrite seq_at_set_ne; [done|]. apply (ly_work Hly), (ly_i Hly).
    + intros j Hj. destruct (decide (j = i)) as [->|Hne]; [by rewrite upd_eq, seq_at_set_eq|].
      rewrite upd_ne by done. rewrite seq_at_set_ne; [auto|]. intros He. apply Hne. by apply (ly_inj Hly).
    + intros c Hin. rewrite Hcv. auto.
    + intros q Hr Hp Hcl. rewrite Hcv in Hr. unfold front in Hr. rewrite seq_at_set_eq in Hr.
      apply published_set_seq in Hp; [|apply Ho|done]. rewrite upd_eq in Hcl.
      apply pl_data0; [unfold front; lia | done|]. destruct Hcl as [?|?]; [by left | by apply Hq in H].
  - exists qs. split_and!; [done | done |]. intros q Hin. destruct (Hqs q Hin) as (? & ? & ?).
    split_and!; [done | done | rewrite seq_at_set_eq; lia].
Qed.

Lemma snapshot_load N p0 p log w :
  snapshot N p0 p Looping log w -> exists p', snapshot N p0 p' (Loaded (seq_at w wl)) log w.
Proof.
  intros Hsn. pose proof Hsn as [_ Hrel Hpc _ _]. rewrite <- (pl_work _ _ Hrel).
  edestruct (snapshot_local N p0 p Looping (Loaded (work_sequence p))) as (p' & H & _); [done | | done | by exists p'].
  destruct p; cbn in *. by apply step_load; [apply Hly|].
Qed.

(** [advertise_work_sequence_if_changed]: with and without a store. *)
Lemma snapshot_advertise N p0 p c log w :
  snapshot N p0 p (Loaded c) log w ->
  (c = seq_at w cs -> exists p', snapshot N p0 p' (Advertised c) log w) /\
  (c <> seq_at w cs -> exists p', snapshot N p0 p' (Advertised c) log (set_seq cs c w)).
Proof.
  intros Hsn. pose proof Hsn as [_ Hrel Hpc _ _]. pose proof (snapshot_inv _ _ _ _ _ _ Hsn workers_pos) as Hinv.
  pose proof (inv_loaded _ _ Hinv i c Hpc) as Hle. pose proof (pl_cs _ _ Hrel i (ly_i Hly)) as Hcs. rewrite Hcs in Hle.
  pose proof (step_advertise workers (work_sequence p) (consumer_sequence p) (pcs p) (handled p) i c (ly_i Hly) Hpc) as Hst.
  rewrite Hcs in Hst. destruct p as [pw pcs' pp ph]; cbn in *. split; intros He.
  - subst c. rewrite Z.eqb_refl in Hst.
    destruct (snapshot_local N p0 _ _ (Advertised (seq_at w cs)) log w Hsn Hst) as (p' & H & _); [done | by exists p'].
  - destruct (Z.eqb_spec c (seq_at w cs)); [done|].
    edestruct (snapshot_set N p0) as (p' & H & _); [exact Hsn | | exact Hst | done | by exists p']. lia.
Qed.

(** The compare-and-swap on the work cursor. *)
Lemma snapshot_lost N p0 p c log w :
  snapshot N p0 p (Advertised c) log w -> seq_at w wl <> c -> exists p', snapshot N p0 p' Looping log w.
Proof.
  intros Hsn Hne. pose proof Hsn as [_ Hrel Hpc _ _]. rewrite <- (pl_work _ _ Hrel) in Hne.
  edestruct (snapshot_local N p0 p (Advertised c) Looping) as (p' & H & _); [done | | done | by exists p'].
  destruct p; cbn in *. eapply step_cas_lost; [apply Hly | done | done].
Qed.

Lemma snapshot_won N p0 p c log w :
  snapshot N p0 p (Advertised c) log w -> seq_at w wl = c ->
  exists p', snapshot N p0 p' (Claimed (c + 1)) log (set_seq wl (c + 1) w).
Proof.
  intros [Hs [] Hpc Ho (qs & Hl & Hsort & Hqs)] He. destruct (ly_wl Hly) as [Hc Hd]. pose proof (ly_i Hly) as Hi.
  assert (Hcv : seq_at (set_seq wl (c + 1) w) (cursor b) = seq_at w (cursor b)) by (by apply seq_at_set_ne).
  assert (Hcss : forall j, (j < workers)%nat -> seq_at (set_seq wl (c + 1) w) (css j) = seq_at w (css j)).
  { intros j Hj. apply seq_at_set_ne. intros Heq. by apply (ly_work Hly j Hj). }
  rewrite He in pl_work0. rewrite <- pl_work0 in Hpc.
  pose proof (step_cas_won workers (work_sequence p) (consumer_sequence p) (pcs p) (handled p) i Hi Hpc) as Hst.
  exists (mkPool (work_sequence p + 1) (consumer_sequence p) (upd (pcs p) i (Claimed (c + 1))) (handled p)).
  destruct p as [pw pcs' pp ph]; cbn in *. subst pw.
  constructor; [by eapply rtc_r | | apply upd_eq | apply own_inv_set; try done; intros Heq; by destruct (ly_work Hly i Hi) |].
  - constructor; cbn.
    + eapply reachable_steps; [done|]. by apply rtc_once.
    + by rewrite seq_at_set_eq.
    + intros j Hj. rewrite Hcss by done. auto.
    + intros x Hin. rewrite Hcv. auto.
    + intros q Hr Hp Hcl. unfold front in Hr. rewrite Hcv, Hcss in Hr by done. apply published_set_seq in Hp; [|apply Ho|done].
      rewrite upd_eq in Hcl. apply pl_data0; [done | done | left]. destruct Hcl as [?|[= <-]]; lia.
  - exists qs. split_and!; [done | done |]. intros q Hin. rewrite Hcss by done. auto.
Qed.

(** Leaving the loop, with the claim that is open. *)
Lemma snapshot_stop N p0 p pc log w :
  snapshot N p0 p pc log w -> (forall c, pc <> Handled c) ->
  exists p', snapshot N p0 p' (Stopped (open_claim pc)) log w /\ handled p' = handled p.
Proof.
  intros Hsn Hne. pose proof Hsn as [_ _ Hpc _ _]. apply (snapshot_local N p0 p pc); [done | | done].
  rewrite <- Hpc. destruct p; cbn in *. apply step_stop; [apply Hly | by rewrite Hpc].
Qed.

(** A rule that closes or gives up the claim [c] when its slot is written. *)
Lemma snapshot_write N p0 p c pc' hs rb' log w :
  snapshot N p0 p (Claimed c) log w ->
  step workers p (mkPool (work_sequence p) (consumer_sequence p) (upd (pcs p) i pc') hs) ->
  (forall q, pc' <> Claimed q) -> (forall x, x ∈ hs <-> x ∈ handled p \/ (x = c /\ x ∈ hs)) ->
  c <= seq_at w (cursor b) -> RingBuffer.wf rb' -> RingBuffer.buffer_size rb' = RingBuffer.buffer_size (w_ring w) ->
  (forall q, front cs w <= q <= seq_at w (cursor b) -> q <> c -> RingBuffer.get rb' q = RingBuffer.get (w_ring w) q) ->
  snapshot N p0 (mkPool (work_sequence p) (consumer_sequence p) (upd (pcs p) i pc') hs) pc' log (upd_ring (fun _ => rb') w).
Proof.
  intros Hsn Hst Hq Hhs Hc Hwf Hsz Hget. pose proof (snapshot_inv _ _ _ _ _ _ Hsn workers_pos) as Hinv.
  destruct Hsn as [Hs [] Hpc Ho (qs & Hl & Hsort & Hqs)].
  destruct (inv_open _ _ Hinv i c ltac:(by rewrite Hpc)) as (_ & Hle & _).
  constructor; [by eapply rtc_r | | apply upd_eq | |].
  - constructor; cbn; try done.
    + eapply reachable_steps; [done|]. by apply rtc_once.
    + intros x [?|[-> _]]%Hhs; auto.
    + intros q Hr Hp Hcl. rewrite upd_eq in Hcl. destruct Hcl as [Hcl|Hcl]; [|by apply Hq in Hcl].
      change (front cs w <= q <= seq_at w (cursor b)) in Hr. rewrite Hget; [|done | lia].
      apply pl_data0; [done | | by left]. unfold published in *. by destruct (sequencer b).
  - destruct Ho. constructor; cbn; try done; [|by rewrite Hsz]. by destruct ow_ok0.
  - exists qs. split_and!; [done | done|]. intros q Hin. destruct (Hqs q Hin) as (? & ? & ?). split_and!; [cbn; apply Hhs; by left | done | done].
Qed.

(** Handling the claim, and advertising it as done. *)
Lemma snapshot_release N p0 p c log w :
  snapshot N p0 p (Handled c) log w -> c ∈ handled p -> c ∉ handled p0 ->
  exists p', snapshot N p0 p' Looping (log ++ [(c, val c, false)]) (set_seq cs c w).
Proof.
  intros Hsn Hin Hout. pose proof (snapshot_inv _ _ _ _ _ _ Hsn workers_pos) as Hinv.
  pose proof Hsn as [_ Hrel Hpc _ (qs & Hl & Hsort & Hqs)].
  pose proof (inv_handled _ _ Hinv i c Hpc) as Hlt. rewrite (pl_cs _ _ Hrel i (ly_i Hly)) in Hlt.
  destruct (snapshot_set N p0 p (Handled c) Looping c log w Hsn) as (p' & [Hs' Hrel' Hpc' Ho' (qs' & Hl' & Hsort' & Hqs')] & Hh); [lia | | done|].
  { destruct p; cbn in *. apply step_release; [apply Hly | done]. }
  exists p'. constructor; try done. exists (qs ++ [c]). split_and!.
  - by rewrite Hl, map_app.
  - apply StronglySorted_app_2; [|done | by repeat constructor]. intros x y Hx ->%list_elem_of_singleton.
    destruct (Hqs x Hx) as (_ & _ & ?). lia.
  - intros q [Hq | ->%list_elem_of_singleton]%elem_of_app; rewrite seq_at_set_eq, Hh; [|by split_and!].
    destruct (Hqs q Hq) as (? & ? & ?). split_and!; [done | done | lia].
Qed.

(** Reporting a failure changes nothing the pool looks at. *)
Definition same_view w w' : Prop :=
  w_seqs w' = w_seqs w /\ w_ring w' = w_ring w /\ (forall q, published sq w' q <-> published sq w q) /\
  (view_wf sq w -> view_wf sq w') /\ cursor_loc sq w' = cursor_loc sq w /\
  Sequencer.buffer_size sq w' = Sequencer.buffer_size sq w.

Lemma snapshot_frame N p0 p pc log w w' : same_view w w' -> snapshot N p0 p pc log w -> snapshot N p0 p pc log w'.
Proof.
  intros (Hq & Hr & Hp & Hv & Hc & Hb) [Hs [] Hpc Ho Hlog].
  assert (Hse : forall l, seq_at w' l = seq_at w l) by (intros; unfold seq_at; by rewrite Hq).
  assert (Hf : front cs w' = front cs w) by (unfold front; by rewrite Hse).
  constructor; try done.
  - constructor; [done | by rewrite Hse | intros; rewrite Hse; auto | intros; rewrite Hse; auto|].
    intros q. rewrite Hf, Hse, Hr, Hp. apply pl_data0.
  - destruct Ho as [[[Ho1 Ho2] ? Hd ? ?] ? ? ? ? ?]. constructor; rewrite ?Hf, ?Hb, ?Hr; try done; [|unfold room; by rewrite Hse].
    constructor; rewrite ?Hse, ?Hb; try done; [by split; rewrite ?Hc | auto |].
    intros Hne. destruct (Hd Hne) as (d & ? & ?). exists d. by rewrite Hse.
  - destruct Hlog as (qs & ? & ? & Hqs). exists qs. split_and!; [done | done|]. intros. rewrite Hse. auto.
Qed.

Lemma wp_worker_poison N p0 pc log f (Q : unit -> W -> Prop) w :
  (exists p, snapshot N p0 p pc log w) ->
  (forall p w', snapshot N p0 p pc log w' -> poisoned sq w' = true -> Q tt w') ->
  wp work_rely (poison_with_failure b f) Q w.
Proof.
  intros [p Hsn] HQ.
  assert (Hmove : forall p w1 w2 w3, snapshot N p0 p pc log w1 -> work_rely w1 w2 -> same_view w2 w3 -> exists p', snapshot N p0 p' pc log w3).
  { intros p1 w1 w2 w3 H1 H2 H3. destruct (snapshot_rely _ _ _ _ _ _ _ H1 H2) as (p2 & _ & H). exists p2. by eapply snapshot_frame. }
  assert (Hsig : forall ws w1, (exists p, snapshot N p0 p pc log w1) -> poisoned sq w1 = true ->
            wp work_rely (signal_all_when_blocking ws) Q w1).
  { intros ws w1 [p1 H1] Hp1. destruct ws; cbn [signal_all_when_blocking]; try by eapply wp_ret, HQ.
    apply wp_store. intros w2 Hr. destruct (Hmove p1 w1 w2 (upd_wait (fun b0 => mkBlockingState (bs_alerted b0) (bs_notified b0 + 1)) w2)) as [p2 H2];
      [done | done | by destruct (sequencer b)|]. apply (HQ p2); [done|]. pose proof (wk_poison _ _ Hr Hp1). by destruct (sequencer b). }
  unfold poison_with_failure. destruct (sequencer b) eqn:Hsq; cbn [dispatch single_ops multi_ops Sequencer.record_failure Sequencer.poison];
    apply wp_bind, wp_store; intros w1 Hr1.
  - destruct (Hmove p w w1 (upd_single (fun s => match sp_first_failure s with None => sp_set_failure (Some f) s | Some _ => s end) w1)) as [p1 H1];
      [done | done | unfold same_view, published, view_wf; rewrite Hsq; cbn; destruct (sp_first_failure _); split_and!; done|].
    apply wp_bind, wp_store. intros w2 Hr2. apply wp_bind, wp_read. apply Hsig; [|done].
    eapply Hmove; [exact H1 | exact Hr2 |]. unfold same_view. by rewrite Hsq.
  - destruct (Hmove p w w1 (upd_multi (fun s => match mp_first_failure s with None => mp_set_failure (Some f) s | Some _ => s end) w1)) as [p1 H1];
      [done | done | unfold same_view, published, view_wf; rewrite Hsq; cbn; destruct (mp_first_failure _); split_and!; first [done | intros []; by constructor]|].
    apply wp_bind, wp_store. intros w2 Hr2. apply wp_bind, wp_read. apply Hsig; [|done].
    eapply Hmove; [exact H1 | exact Hr2 |]. unfold same_view, view_wf. rewrite Hsq. split_and!; first [done | intros []; by constructor].
Qed.

(** ** The loop *)

(** What a wait has reported: published from [lo] to [v]. *)
Definition cached (lo v : Z) w : Prop :=
  lo <= v -> v <= seq_at w (cursor b) /\ forall q, lo <= q <= v -> published sq w q.

Lemma cached_rely N lo v w w' :
  own_inv N w -> front cs w <= lo -> cached lo v w -> work_rely w w' -> cached lo v w'.
Proof.
  intros Ho Hlo Hc Hr Hv. destruct (Hc Hv) as [H1 H2]. split; [etrans; [exact H1 | apply (wk_view _ _ Hr)]|].
  intros q Hq. apply (vr_published _ _ _ _ (wk_view _ _ Hr)); [|by apply H2].
  pose proof (bo_lap _ _ _ (ow_ok _ _ Ho)). lia.
Qed.

Lemma cached_set N l lo lo' v x w :
  own_inv N w -> l <> cursor b -> lo <= lo' -> cached lo v w -> cached lo' v (set_seq l x w).
Proof.
  intros Ho Hl Hlo Hc Hv. destruct Hc as [H1 H2]; [lia|]. split; [by rewrite seq_at_set_ne|].
  intros q Hq. apply published_set_seq; [apply Ho | done | apply H2; lia].
Qed.

(** Worker [i] is at [pc], and what was cached above its sequence holds. *)
Definition at_pc N p0 pc log v w : Prop := (exists p, snapshot N p0 p pc log w) /\ cached (front cs w) v w.

Lemma at_pc_rely N p0 pc log v w w' : at_pc N p0 pc log v w -> work_rely w w' -> at_pc N p0 pc log v w'.
Proof.
  intros [[p H] Hc] Hr. split.
  - destruct (snapshot_rely _ _ _ _ _ _ _ H Hr) as (p' & _ & H'). by exists p'.
  - rewrite (wk_front _ _ Hr). eapply cached_rely; [apply (sn_own _ _ _ _ _ _ H) | lia | done | done].
Qed.

Lemma at_pc_stop N p0 pc log v w :
  at_pc N p0 pc log v w -> (forall c, pc <> Handled c) -> exists p, snapshot N p0 p (Stopped (open_claim pc)) log w.
Proof. intros [[p H] _] Hne. destruct (snapshot_stop _ _ _ _ _ _ H Hne) as (p' & H' & _). by exists p'. Qed.

(** The work cursor does not wrap. *)
Lemma work_room N p0 p pc log w : snapshot N p0 p pc log w -> -1 <= seq_at w wl < i64_max.
Proof.
  intros H. pose proof (snapshot_inv _ _ _ _ _ _ H workers_pos) as Hinv. pose proof H as [_ Hrel _ Ho _].
  destruct (ow_room _ _ Ho) as [H1 H2]. rewrite <- (pl_work _ _ Hrel). split; [apply Hinv|].
  pose proof (claims_ahead workers p (seq_at w (cursor b)) workers_pos (pl_reach _ _ Hrel) H1 (pl_seen _ _ Hrel)). lia.
Qed.

Context {H : Type} (hd : EventHandler T H) (stop : StopFlag) (context : ConsumerContext).
Context (Hret : handler_returns hd) (Hws : durations_ok (wait_strategy b)).

Lemma wp_advertise N p0 c log v last w :
  at_pc N p0 (Loaded c) log v w -> last = seq_at w cs ->
  wp work_rely (advertise_work_sequence_if_changed cs last c)
    (fun '(last', _) w' => at_pc N p0 (Advertised c) log v w' /\ last' = seq_at w' cs /\ last' = c) w.
Proof.
  intros Hat ->. unfold advertise_work_sequence_if_changed, Sequence.set. destruct (Z.eqb_spec c (seq_at w cs)) as [He|Hne].
  - apply wp_ret. destruct Hat as [[p Hsn] Hc]. destruct (proj1 (snapshot_advertise _ _ _ _ _ _ Hsn) He) as [p' H'].
    split_and!; [split; [by exists p' | done] | done | done].
  - apply wp_bind, wp_store. intros w1 Hr. pose proof (at_pc_rely _ _ _ _ _ _ _ Hat Hr) as [[p Hsn] Hc].
    rewrite <- (wk_cs _ _ Hr) in Hne. destruct (proj2 (snapshot_advertise _ _ _ _ _ _ Hsn) Hne) as [p' H']. apply wp_ret.
    split_and!; [|by rewrite seq_at_set_eq | done]. split; [by exists p'|].
    pose proof (inv_loaded _ _ (snapshot_inv _ _ _ _ _ _ Hsn workers_pos) i c (sn_pc _ _ _ _ _ _ Hsn)) as Hle.
    rewrite (pl_cs _ _ (sn_rel _ _ _ _ _ _ Hsn) i (ly_i Hly)) in Hle.
    eapply cached_set; [apply (sn_own _ _ _ _ _ _ Hsn) | apply Hly | | exact Hc].
    unfold front. rewrite seq_at_set_eq. lia.
Qed.

Lemma wp_claim_work fuel N p0 log v last w :
  at_pc N p0 Looping log v w -> last = seq_at w cs ->
  wp work_rely (claim_work cs wl stop fuel last)
    (fun '(r, _) w' => match r with
                       | None => exists p, snapshot N p0 p (Stopped None) log w'
                       | Some c => at_pc N p0 (Claimed c) log v w'
                       end) w.
Proof.
  intros Hat0 Hlast0. apply (wp_loop work_rely (fun last w' => at_pc N p0 Looping log v w' /\ last = seq_at w' cs)); [|done].
  intros last' w0 [Hat Hlast]. apply wp_bind, (wp_should_continue work_rely). intros go w1 Hr1.
  pose proof (at_pc_rely _ _ _ _ _ _ _ Hat Hr1) as Hat1.
  destruct go; cbn [negb]; [|apply wp_ret; by apply (at_pc_stop _ _ _ _ _ _ Hat1)].
  unfold Sequence.get. apply wp_bind, wp_load. intros w2 Hr2. pose proof (at_pc_rely _ _ _ _ _ _ _ Hat1 Hr2) as [[p2 Hs2] Hc2].
  pose proof (work_room _ _ _ _ _ _ Hs2) as Hroom. destruct (snapshot_load _ _ _ _ _ Hs2) as [p3 Hs3]. nowrap.
  apply wp_bind. eapply wp_mono.
  { apply (wp_advertise N p0 (seq_at w2 wl) log v); [split; [by exists p3 | done]|]. by rewrite (wk_cs _ _ Hr2), (wk_cs _ _ Hr1). }
  intros [last1 ch] w3 (Hat3 & Hl3 & ->). cbn [fst]. unfold Sequence.compare_and_set. apply wp_bind, wp_atomic. intros w4 Hr4.
  pose proof (at_pc_rely _ _ _ _ _ _ _ Hat3 Hr4) as [[p4 Hs4] Hc4].
  destruct (Z.eqb_spec (seq_at w4 wl) (seq_at w2 wl)) as [He|Hne]; cbn [fst snd].
  - apply wp_ret. destruct (snapshot_won _ _ _ _ _ _ Hs4 He) as [p5 Hs5]. split; [by exists p5|].
    eapply cached_set; [apply (sn_own _ _ _ _ _ _ Hs4) | apply Hly | | exact Hc4]. unfold front.
    rewrite seq_at_set_ne; [lia|]. intros Heq. by apply (ly_work Hly i (ly_i Hly)).
  - destruct (snapshot_lost _ _ _ _ _ _ Hs4 Hne) as [p5 Hs5]. apply wp_bind, (wp_pause work_rely); [done|].
    intros w5 Hr5. apply wp_ret. split; [eapply at_pc_rely; [|exact Hr5]; split; [by exists p5 | done]|].
    by rewrite (wk_cs _ _ Hr5), (wk_cs _ _ Hr4).
Qed.

Lemma claimed_front N p0 p c log w : snapshot N p0 p (Claimed c) log w -> front cs w <= c.
Proof.
  intros Hs. pose proof (snapshot_inv _ _ _ _ _ _ Hs workers_pos) as Hinv.
  destruct (inv_open _ _ Hinv i c ltac:(by rewrite (sn_pc _ _ _ _ _ _ Hs))) as (_ & Hlt & _).
  rewrite (pl_cs _ _ (sn_rel _ _ _ _ _ _ Hs) i (ly_i Hly)) in Hlt. unfold front. lia.
Qed.

Lemma wp_await_claimed fuel N p0 c log v w :
  at_pc N p0 (Claimed c) log v w -> (Z.to_nat N < fuel)%nat ->
  wp work_rely (await_claimed b stop fuel c v)
    (fun r w' => match r with
                 | None => exists p, snapshot N p0 p (Stopped (Some c)) log w'
                 | Some v' => c <= v' /\ (exists p, snapshot N p0 p (Claimed c) log w') /\ cached c v' w'
                 end) w.
Proof.
  intros [[p Hs] Hc] Hf.
  apply (wp_loop work_rely (fun x w' => (exists p, snapshot N p0 p (Claimed c) log w') /\ cached c x w')).
  2:{ split; [by exists p|]. intros Hv. pose proof (claimed_front _ _ _ _ _ _ Hs). destruct Hc as [H1 H2]; [lia|].
      split; [done|]. intros q Hq. apply H2. lia. }
  intros x w0 [[p1 Hs1] Hc1]. destruct (Z.ltb_spec x c); [|apply wp_ret; split_and!; [done | by exists p1 | done]].
  assert (Hmove : forall w1 w2, (exists p, snapshot N p0 p (Claimed c) log w1) -> work_rely w1 w2 -> exists p, snapshot N p0 p (Claimed c) log w2).
  { intros w1 w2 [p2 H2] Hr. destruct (snapshot_rely _ _ _ _ _ _ _ H2 Hr) as (p3 & _ & H3). by exists p3. }
  apply wp_bind, (wp_should_continue work_rely). intros go w1 Hr1. destruct (Hmove w0 w1) as [p2 Hs2]; [by exists p1 | done|].
  destruct go; cbn [negb]; [|apply wp_ret; destruct (snapshot_stop _ _ _ _ _ _ Hs2) as (p3 & H3 & _); [done | by exists p3]].
  pose proof (sn_own _ _ _ _ _ _ Hs2) as Ho2. pose proof (claimed_front _ _ _ _ _ _ Hs2) as Hfr.
  apply wp_bind. eapply wp_mono.
  { apply (wp_stop_wait_for work_rely (fun w => front cs w = front cs w1) b (front cs w1) c); [done | | | done | apply Ho2 |].
    - pose proof (ow_front _ _ Ho2). lia.
    - intros y z Hy Hr. rewrite (wk_front _ _ Hr). split; [done|]. rewrite <- Hy. apply (wk_barrier _ _ Hr).
    - by rewrite (ow_size _ _ Ho2). }
  intros [y|e] w2 [Hr2 Hrd]; destruct (Hmove w1 w2) as [p3 Hs3]; [by exists p2 | done | | by exists p2 | done |].
  - apply wp_ret. split; [by exists p3|]. intros Hy. destruct Hrd as (_ & _ & Hre & Hp). split; [|done].
    eapply reached_cursor; [apply (sn_own _ _ _ _ _ _ Hs3) | done].
  - apply wp_bind, (wp_wait_error work_rely). intros brk w3 Hr3. destruct (Hmove w2 w3) as [p4 Hs4]; [by exists p3 | done|].
    destruct brk; [apply wp_ret; destruct (snapshot_stop _ _ _ _ _ _ Hs4) as (p5 & H5 & _); [done | by exists p5]|].
    apply wp_bind, (wp_pause work_rely); [done|]. intros w4 Hr4. apply wp_ret. split; [eapply Hmove; [by exists p4 | done]|].
    intros Hx. lia.
Qed.

(** How the worker ends: stopped, with the calls it completed on record, and
    at most one more call, a failed one, whose claim it gives up and after which
    the producers are poisoned. *)
Definition worker_done N p0 (log : list (Z * T * bool)) w : Prop :=
  exists p lost L, snapshot N p0 p (Stopped lost) L w /\
    (log = L \/ exists c, lost = Some c /\ log = L ++ [(c, val c, true)] /\ poisoned sq w = true).

Lemma stopped_done N p0 p lost log w : snapshot N p0 p (Stopped lost) log w -> worker_done N p0 log w.
Proof. intros Hs. exists p, lost, log. auto. Qed.

(** The event of the claim is there as it was published. *)
Lemma wp_claimed_event N p0 p c log w (Q : T -> W -> Prop) :
  snapshot N p0 p (Claimed c) log w -> c <= seq_at w (cursor b) -> published sq w c -> Q (val c) w ->
  wp work_rely (event_at c) Q w.
Proof.
  intros Hs Hc Hp HQ. apply wp_bind, wp_read. pose proof (claimed_front _ _ _ _ _ _ Hs).
  rewrite (pl_data _ _ (sn_rel _ _ _ _ _ _ Hs) c); [by apply wp_ret | lia | done | right; apply (sn_pc _ _ _ _ _ _ Hs)].
Qed.

Lemma cached_ring f lo v w : cached lo v w -> cached lo v (upd_ring f w).
Proof. intros Hc Hv. destruct (Hc Hv) as [H1 H2]. split; [done|]. intros q Hq. apply H2 in Hq. unfold published in *. by destruct (sequencer b). Qed.

(** The handler's write to its slot, with the rule that goes with it. *)
Lemma wp_claimed_write N p0 p c pc' hs event log w (Q : unit -> W -> Prop) :
  snapshot N p0 p (Claimed c) log w -> c <= seq_at w (cursor b) ->
  step workers p (mkPool (work_sequence p) (consumer_sequence p) (upd (pcs p) i pc') hs) ->
  (forall q, pc' <> Claimed q) -> (forall x, x ∈ hs <-> x ∈ handled p \/ (x = c /\ x ∈ hs)) ->
  (forall rb', let w' := upd_ring (fun _ => rb') w in
     snapshot N p0 (mkPool (work_sequence p) (consumer_sequence p) (upd (pcs p) i pc') hs) pc' log w' -> Q tt w') ->
  wp work_rely (write_event c event) Q w.
Proof.
  intros Hs Hc Hst Hq Hhs HQ. pose proof (sn_own _ _ _ _ _ _ Hs) as Ho. pose proof (claimed_front _ _ _ _ _ _ Hs).
  pose proof (bo_lap _ _ _ (ow_ok _ _ Ho)) as Hlap. rewrite (ow_size _ _ Ho) in Hlap. pose proof (ow_ring _ _ Ho).
  apply wp_bind, wp_read. destruct (set_frame (w_ring w) c event (ow_wf _ _ Ho)) as (rb' & -> & Hwf' & Hs' & _ & Hfr).
  apply wp_write, HQ. apply (snapshot_write N p0 p c); try done. intros q Hr Hne. apply Hfr; [done | lia].
Qed.

(** After the wait: the callbacks, and the release or the end. *)
Lemma wp_handle_claimed N p0 p c v h log w :
  snapshot N p0 p (Claimed c) log w -> c <= v -> cached c v w ->
  wp work_rely (handle_claimed (logged None hd) b cs context c v (h, log))
    (fun r w' => match r with
                 | inl (v', last, (_, log')) => at_pc N p0 Looping log' v' w' /\ last = seq_at w' cs
                 | inr (_, log') => worker_done N p0 log' w'
                 end) w.
Proof.
  intros Hs Hcv Hca. destruct (Hca Hcv) as [Hv Hp]. unfold handle_claimed. cbn [logged on_batch_start].
  pose proof (hr_batch _ Hret h 1 ((v -! c) +! 1)) as Hcb. destruct (on_batch_start hd h _ _) as [h1 cb]. destruct Hcb as [r Hcb].
  cbn in Hcb. subst cb. apply wp_bind. cbn [run_callback]. apply wp_ret. destruct r as [[]|e].
  2:{ apply wp_bind. destruct (snapshot_stop _ _ _ _ _ _ Hs) as (p1 & Hs1 & _); [done|].
      eapply wp_worker_poison; [by exists p1|]. intros p2 w2 Hs2 _. apply wp_ret. by eapply stopped_done. }
  apply wp_bind. eapply wp_claimed_event; [exact Hs | lia | apply Hp; lia|]. cbn [logged on_event].
  pose proof (hr_event _ Hret h1 (val c) c (c =? v)) as Hcb. destruct (on_event hd h1 (val c) c (c =? v)) as [[h2 ev] cb].
  destruct Hcb as [r Hcb]. cbn in Hcb. subst cb. pose proof (sn_pc _ _ _ _ _ _ Hs) as Hpc.
  pose proof (inv_open _ _ (snapshot_inv _ _ _ _ _ _ Hs workers_pos) i c ltac:(by rewrite Hpc)) as (_ & _ & Hnh).
  apply wp_bind. destruct r as [[]|e].
  - eapply (wp_claimed_write _ _ _ _ (Handled c) (c :: handled p)); [exact Hs | lia | | done | set_solver |].
    { destruct p; cbn in *. apply step_handle; [apply Hly | done]. }
    intros rb' w1 Hs1. apply wp_bind. cbn [run_callback]. apply wp_ret, wp_bind, wp_store. intros w2 Hr2. apply wp_ret.
    destruct (snapshot_rely _ _ _ _ _ _ _ Hs1 Hr2) as (p2 & Hst2 & Hs2).
    destruct (snapshot_release N p0 p2 c log w2 Hs2) as [p3 Hs3].
    { eapply steps_handled_mono; [exact Hst2|]. cbn. set_solver. }
    { intros Hin. apply Hnh. eapply steps_handled_mono; [apply (sn_steps _ _ _ _ _ _ Hs) | done]. }
    split; [|by rewrite seq_at_set_eq]. split; [by exists p3|].
    eapply cached_set; [apply (sn_own _ _ _ _ _ _ Hs2) | apply Hly | |].
    2:{ eapply cached_rely; [apply (sn_own _ _ _ _ _ _ Hs1) | apply (claimed_front _ _ _ _ _ _ Hs) | by apply cached_ring | exact Hr2]. }
    unfold front. rewrite seq_at_set_eq. lia.
  - eapply (wp_claimed_write _ _ _ _ (Stopped (Some c)) (handled p)); [exact Hs | lia | | done | set_solver |].
    { pose proof (step_stop workers (work_sequence p) (consumer_sequence p) (pcs p) (handled p) i (ly_i Hly)) as Hst.
      rewrite Hpc in Hst. destruct p; cbn in *. by apply Hst. }
    intros rb' w1 Hs1. apply wp_bind. cbn [run_callback]. apply wp_ret, wp_bind.
    eapply wp_worker_poison; [by eexists|]. intros p2 w2 Hs2 Hpo. apply wp_ret.
    exists p2, (Some c), log. split; [done|]. right. by exists c.
Qed.

Lemma wp_work_step fuel N p0 v last h log w :
  (Z.to_nat N < fuel)%nat -> at_pc N p0 Looping log v w -> last = seq_at w cs ->
  wp work_rely (work_step (logged None hd) b cs wl stop context fuel (v, last, (h, log)))
    (fun r w' => match r with
                 | inl (v', last, (_, log')) => at_pc N p0 Looping log' v' w' /\ last = seq_at w' cs
                 | inr (_, log') => worker_done N p0 log' w'
                 end) w.
Proof.
  intros Hf Hat Hlast. apply wp_bind, (wp_should_continue work_rely). intros go w1 Hr1.
  pose proof (at_pc_rely _ _ _ _ _ _ _ Hat Hr1) as Hat1. rewrite <- (wk_cs _ _ Hr1) in Hlast.
  destruct go; cbn [negb]; [|apply wp_ret; destruct (at_pc_stop _ _ _ _ _ _ Hat1) as [p Hs]; [done | by eapply stopped_done]].
  apply wp_bind. eapply wp_mono; [by apply wp_claim_work|]. intros [[c|] last'] w2; cbn beta iota.
  2:{ intros [p Hs]. apply wp_ret. by eapply stopped_done. }
  intros Hat2. apply wp_bind. eapply wp_mono; [by apply wp_await_claimed|]. intros [v'|] w3; cbn beta iota.
  2:{ intros [p Hs]. apply wp_ret. by eapply stopped_done. }
  intros (Hcv & [p Hs] & Hca). by apply (wp_handle_claimed N p0 p).
Qed.

(** What holds when the loop starts. *)
Lemma at_pc_start N p0 w w1 :
  pool_rel p0 w -> pcs p0 i = Looping -> own_inv N w -> work_rely w w1 -> at_pc N p0 Looping [] INITIAL_CURSOR_VALUE w1.
Proof.
  intros Hrel Hpc Ho Hr. apply (at_pc_rely N p0 Looping [] INITIAL_CURSOR_VALUE w); [|done]. split.
  - exists p0. constructor; try done. exists []. split_and!; [done | constructor |]. intros q []%not_elem_of_nil.
  - intros Hlt. pose proof (ow_front _ _ Ho). unfold INITIAL_CURSOR_VALUE in Hlt. lia.
Qed.

Lemma wp_work_loop fuel N h p0 w :
  pool_rel p0 w -> pcs p0 i = Looping -> own_inv N w -> (Z.to_nat N < fuel)%nat ->
  wp work_rely (run_work_processor_loop_impl (logged None hd) b cs wl stop context fuel (h, []))
    (fun '(_, log) w' => worker_done N p0 log w') w.
Proof.
  intros Hrel Hpc Ho Hf. unfold run_work_processor_loop_impl, Sequence.get. apply wp_bind, wp_load. intros w1 Hr1.
  pose proof (at_pc_start _ _ _ _ Hrel Hpc Ho Hr1) as Hat.
  apply (wp_loop work_rely (fun '(v, last, (_, log)) w' => at_pc N p0 Looping log v w' /\ last = seq_at w' cs)); [|done].
  intros [[v last] [h1 log]] w2 [Hat2 Hlast]. eapply wp_mono; [by apply wp_work_step|].
  by intros [[[v2 last2] [h2 log2]]|[h2 log2]] w3.
Qed.

(** C4: The worker loop, against other workers that follow the pool's transition
    system and producers that keep within a lap, is itself a run of that
    system: at the end it stands at the pool's stopped state, every call of its
    handler that succeeded was for a sequence it had claimed and nobody had
    handled before, in increasing order and with the payload published, and at
    most one more call was made, a failed one, whose claim is given up and
    after which the producers are poisoned. *)
Theorem worker_loop_refines fuel N h p0 w :
  pool_rel p0 w -> pcs p0 i = Looping -> own_inv N w -> (Z.to_nat N < fuel)%nat ->
  wp work_rely (run_work_processor_loop_impl (logged None hd) b cs wl stop context fuel (h, []))
    (fun '(_, log) w' => worker_done N p0 log w') w.
Proof. apply wp_work_loop. Qed.

(** ** A worker that is told to stop *)

Section Stop.
Context (Hnb : wait_strategy b <> BlockingWaitStrategy).
Context (e : env W) (He : respects work_rely e) (k0 : nat) (Hstop : stop_raised e stop b k0).

Lemma ends_claim_work fuel last k w :
  (k0 - k < fuel)%nat -> ends e (claim_work cs wl stop fuel last) (fun _ _ _ => True) k w.
Proof.
  intros Hk. apply (ends_loop e _ (fun _ _ _ => True) _ k0); [|done|done]. intros x w1 k1 _.
  apply (ends_should_continue e stop b k0); [done | done |]. intros Hlt.
  set (m := bind _ _). assert (Hh : halts m /\ advances m).
  { split; unfold m, Sequence.get, advertise_work_sequence_if_changed, Sequence.set, Sequence.compare_and_set, pause; [halts | advances]. }
  eapply ends_mono; [apply ends_advances; [apply Hh | apply Hh]|]. intros [|] k2 w2 [Hk2 _]; [|done]. split_and!; [lia | done | done].
Qed.

Lemma ends_wait_claimed fuel N p0 p c log k w :
  snapshot N p0 p (Claimed c) log w -> (Z.to_nat N < fuel)%nat -> (k0 - k < fuel)%nat ->
  ends e (stop_wait_for fuel stop b c) (fun _ k' w' => (k <= k')%nat /\ work_rely w w') k w.
Proof.
  intros Hs Hf Hk. pose proof (sn_own _ _ _ _ _ _ Hs) as Ho. pose proof (claimed_front _ _ _ _ _ _ Hs) as Hfr.
  assert (Hlo : 0 <= front cs w <= c) by (pose proof (ow_front _ _ Ho); lia).
  assert (HP : forall x y, front cs x = front cs w -> work_rely x y -> front cs y = front cs w /\ barrier_rely b (front cs w) x y).
  { intros y z Hy Hr. rewrite (wk_front _ _ Hr). split; [done|]. rewrite <- Hy. apply (wk_barrier _ _ Hr). }
  assert (Hsz : (Z.to_nat (Sequencer.buffer_size sq w) < fuel)%nat) by (by rewrite (ow_size _ _ Ho)).
  eapply ends_mono; [apply ends_advances; [apply advances_stop_wait|]; apply (ends_wp work_rely); [done | |]|].
  - apply (wp_stop_wait_for work_rely (fun w' => front cs w' = front cs w) b (front cs w) c fuel stop w Hws Hlo HP eq_refl); [apply Ho | done].
  - apply (ends_stop_wait_for b (front cs w) c fuel Hlo Hws Hnb work_rely _ HP e He stop k0); [done | done | apply Ho | done | done].
  - intros r k' w' (Hk' & _ & Hr & _). by split.
Qed.

Lemma ends_await_claimed fuel N p0 c log v k w :
  (exists p, snapshot N p0 p (Claimed c) log w) -> (Z.to_nat N < fuel)%nat -> (k0 - k < fuel)%nat ->
  ends e (await_claimed b stop fuel c v) (fun _ _ _ => True) k w.
Proof.
  intros Hs Hf Hk. apply (ends_loop e _ (fun _ k' w' => (k <= k')%nat /\ exists p, snapshot N p0 p (Claimed c) log w') _ k0); [|by split|done].
  intros x w1 k1 [Hk1 [p1 Hs1]]. destruct (Z.ltb_spec x c); [|done].
  assert (Hmove : forall p w1 w2, snapshot N p0 p (Claimed c) log w1 -> work_rely w1 w2 -> exists p', snapshot N p0 p' (Claimed c) log w2).
  { intros p w2 w3 H2 Hr. destruct (snapshot_rely _ _ _ _ _ _ _ H2 Hr) as (p3 & _ & H3). by exists p3. }
  apply (ends_should_continue e stop b k0); [done | done |]. intros Hlt.
  destruct (Hmove p1 w1 (e k1 w1)) as [p2 Hs2]; [done | apply He|].
  apply ends_bind. eapply ends_mono; [apply (ends_wait_claimed fuel N p0 p2 c log); [done | done | lia]|].
  intros r k2 w2 [Hk2 Hr2]. destruct (Hmove p2 (e k1 w1) w2 Hs2 Hr2) as [p3 Hs3].
  destruct r as [y|err]; [apply ends_ret; split_and!; [lia | done | lia | by exists p3]|].
  set (m := bind _ _). assert (Hh : halts m /\ advances m).
  { split; unfold m, wait_error_is_terminal, should_continue, pause; [halts | advances]. }
  assert (Hwp : wp work_rely m (fun _ w' => work_rely w2 w') w2).
  { apply wp_bind, (wp_wait_error work_rely). intros brk w3 Hr3. destruct brk; [by apply wp_ret|].
    apply wp_bind, (wp_pause work_rely); [done|]. intros w4 Hr4. apply wp_ret. by etrans. }
  eapply ends_mono; [apply ends_advances; [apply Hh | apply (ends_wp work_rely); [done | exact Hwp | apply Hh]]|].
  intros [z|z] k3 w3 (Hk3 & _ & Hr3); [|done]. split_and!; [lia | done | lia | by apply (Hmove p3 w2)].
Qed.

Lemma ends_work_step fuel N p0 v last h log k w :
  (Z.to_nat N < fuel)%nat -> (k0 - k < fuel)%nat -> at_pc N p0 Looping log v w -> last = seq_at w cs ->
  ends e (work_step (logged None hd) b cs wl stop context fuel (v, last, (h, log)))
    (fun r k' _ => match r with inl _ => (k < k')%nat /\ (k < k0)%nat | inr _ => True end) k w.
Proof.
  intros Hf Hk Hat Hlast. apply (ends_should_continue e stop b k0); [done | done |]. intros Hlt.
  pose proof (at_pc_rely _ _ _ _ _ _ _ Hat (He k w)) as Hat1. rewrite <- (wk_cs _ _ (He k w)) in Hlast.
  assert (Hadv1 : advances (claim_work (T := T) cs wl stop fuel last)).
  { unfold claim_work, should_continue, Sequence.get, advertise_work_sequence_if_changed, Sequence.set, Sequence.compare_and_set, pause. advances. }
  apply ends_bind. eapply ends_mono.
  { apply ends_advances; [exact Hadv1|]. apply (ends_wp work_rely); [done | by apply (wp_claim_work fuel N p0 log v) | apply ends_claim_work; lia]. }
  intros [[c|] last'] k2 w2 (Hk2 & _ & Hp2); [|done].
  assert (Hadv2 : advances (await_claimed (T := T) b stop fuel c v)).
  { unfold await_claimed, wait_error_is_terminal, should_continue, pause. pose proof (advances_stop_wait (T := T) fuel stop b c). advances; auto. }
  apply ends_bind. eapply ends_mono.
  { apply ends_advances; [exact Hadv2|]. apply (ends_await_claimed fuel N p0 c log); [apply Hp2 | done | lia]. }
  intros [v'|] k3 w3 [Hk3 _]; [|done].
  assert (Hh : halts (handle_claimed (logged None hd) b cs context c v' (h, log)) /\ advances (handle_claimed (logged None hd) b cs context c v' (h, log))).
  { pose proof (halts_poison (T := T)). pose proof (advances_poison (T := T)).
    split; unfold handle_claimed, run_callback, event_at, write_event, Sequence.set; [halts | advances]; auto. }
  eapply ends_mono; [apply ends_advances; apply Hh|]. intros [x|x] k4 w4 [Hk4 _]; [lia | done].
Qed.

(** C10: A worker that is told to stop stops: from the action on at which its stop
    flag is raised, whatever the others do, the loop (with a polling wait
    strategy) returns, from the contention for a claim as from the wait for its
    publication, and what it leaves behind is what the pool's transition system
    allows. *)
Theorem worker_loop_stops fuel N h p0 w :
  pool_rel p0 w -> pcs p0 i = Looping -> own_inv N w -> (Z.to_nat N < fuel)%nat -> (k0 < fuel)%nat ->
  exists h' log k' w',
    run_work_processor_loop_impl (logged None hd) b cs wl stop context fuel (h, []) e 0%nat w = Done (h', log) k' w' /\
    worker_done N p0 log w'.
Proof.
  intros Hrel Hpc Ho Hf Hk.
  edestruct (wp_ends work_rely e (run_work_processor_loop_impl (logged None hd) b cs wl stop context fuel (h, [])))
    as ([h' log] & k' & w' & Hrun & Hpost); [done | by apply (wp_work_loop fuel N) | | by exists h', log, k', w'].
  apply ends_bind, ends_load.
  apply (ends_loop e _ (fun '(v, last, (_, log)) _ w' => at_pc N p0 Looping log v w' /\ last = seq_at w' cs) _ k0); [| |lia].
  - intros [[v last] [h1 log]] w1 k1 [Hat Hlast]. eapply ends_mono; [apply (ends_wp work_rely); [done | |]|].
    + by apply (wp_work_step fuel N p0).
    + apply (ends_work_step fuel N p0); [done | lia | done | done].
    + intros [[[v2 last2] [h2 log2]]|[h2 log2]] k2 w2 [Hk2 Hl2]; [|done]. split_and!; [lia | lia | apply Hl2 | apply Hl2].
  - split; [by apply (at_pc_start _ _ w) | done].
Qed.

End Stop.

End Workers.
