(* ===== verification/Producer.v ===== *)
(** * Producer: [SimpleProducer] (disruptor/producer.rs)

    Claim, update the slot, publish.  The update closure is code of the
    application: it changes the event and returns, or panics after changing
    it.  A panic between claim and publish poisons the pipeline. *)
From stdpp Require Import pretty.
From S2P Require Import Prelude Effects Errors RingBuffer World Sequence Single Multi Availability Sequencer.
From S2P Require Import Waiting WaitStrategy Barrier ConsumerEngine.

(** [TryPublishError] *)
Inductive TryPublishError : Type :=
| Full
| Contended
| MissingFreeSlots (deficit : Z)
| InvalidBatchSize (requested capacity : Z)
| TryPoisoned
| TryShutdown
| TryReentrantPublish.

(** [TryPublishError::is_terminal] *)
Definition is_terminal (e : TryPublishError) : bool :=
  match e with TryPoisoned | TryShutdown => true | _ => false end.

(** [TryPublishError::is_transient] *)
Definition is_transient (e : TryPublishError) : bool :=
  match e with Full | Contended | MissingFreeSlots _ => true | _ => false end.

(** [SimpleProducer]: its sequencer and whether it holds the unique capability. *)
Record SimpleProducer : Type := mkProducer {
  sequencer : SequencerEnum;
  unique_claim : bool
}.

(** [SimpleProducer::new] *)
Definition new (sq : SequencerEnum) : SimpleProducer := mkProducer sq false.

(** [SimpleProducer::new_unique] *)
Definition new_unique : SimpleProducer := mkProducer World.Single true.

(** [SimpleProducer::duplicate_for_multi] *)
Definition duplicate_for_multi (p : SimpleProducer) : SimpleProducer := mkProducer (sequencer p) false.

(** An update closure for one event: the event it leaves, and its panic. *)
Definition update (T : Type) : Type := T -> T * option string.

(** An update closure for a batch: how many events it takes from the iterator,
    what it does to each, and its panic. *)
Record batch_update (T : Type) : Type := mkBatchUpdate {
  bu_take : nat;
  bu_map : Z -> T -> T;
  bu_panic : option string
}.
Arguments bu_take {T} _.
Arguments bu_map {T} _ _ _.
Arguments bu_panic {T} _.

Section Producer.
Context {T : Type} (current_thread_name : string).
Abbreviation W := (World T).
Implicit Types (w : W) (p : SimpleProducer).

(** [Drop for PoisonOnPanic] (the log line is left out). *)
Definition poison_guard_drop (sq : SequencerEnum) (first_sequence last_sequence : Z) : M W unit :=
  let message :=
    if first_sequence =? last_sequence
    then "producer update panicked after claim and before publish"
    else "producer batch update panicked after claiming sequences " +:+
         pretty first_sequence +:+ "..=" +:+ pretty last_sequence in
  let failure := with_sequence first_sequence
                   (with_thread_name current_thread_name (failure_new ProducerPanic message)) in
  let* _ := Sequencer.record_failure (dispatch sq) failure in
  Sequencer.poison (dispatch sq).

(** [claim_next], [claim_next_n], [try_claim_next], [try_claim_next_n],
    [claim_remaining_capacity] *)
Definition claim_next (fuel : nat) p : M W (result Z DisruptorError) :=
  if unique_claim p then Single.cap_next fuel else Sequencer.next (dispatch (sequencer p)) fuel.
Definition claim_next_n (fuel : nat) p (n : Z) : M W (result Z DisruptorError) :=
  if unique_claim p then Single.cap_next_n fuel n else Sequencer.next_n (dispatch (sequencer p)) fuel n.
Definition try_claim_next p : M W (option Z) :=
  if unique_claim p then Single.cap_try_next else Sequencer.try_next (dispatch (sequencer p)).
Definition try_claim_next_n p (n : Z) : M W (option Z) :=
  if unique_claim p then Single.cap_try_next_n n else Sequencer.try_next_n (dispatch (sequencer p)) n.
Definition claim_remaining_capacity p : M W Z :=
  if unique_claim p then Single.cap_remaining_capacity else Sequencer.remaining_capacity (dispatch (sequencer p)).

(** [current_sequence] *)
Definition current_sequence p : M W Z :=
  let* c := Sequencer.get_cursor (dispatch (sequencer p)) in Sequence.get c.

(** [first_failure] *)
Definition first_failure p : M W (option FailureRecord) :=
  Sequencer.first_failure (dispatch (sequencer p)).

(** [classify_try_rejection] *)
Definition classify_try_rejection p (fallback : TryPublishError) : M W TryPublishError :=
  let* poisoned := Sequencer.is_poisoned (dispatch (sequencer p)) in
  if poisoned then ret TryPoisoned else
  let* closed := Sequencer.is_closed (dispatch (sequencer p)) in
  if closed then ret TryShutdown else ret fallback.

(** [update(event)] on the slot of [sequence]. *)
Definition run_update (u : update T) (sequence : Z) : M W unit :=
  let* event := event_at sequence in
  let '(event', panicked) := u event in
  let* _ := write_event sequence event' in
  match panicked with
  | None => ret tt
  | Some msg => panic msg
  end.

(** [update(iter)] on [batch_iter_mut(start, end)]. *)
Definition run_batch_update (u : batch_update T) (start_sequence end_sequence : Z) : M W unit :=
  let* _ := for_each (RingBuffer.drain (bu_take u) (RingBuffer.batch_iter_mut start_sequence end_sequence))
              (fun sequence =>
                 let* event := event_at sequence in write_event sequence (bu_map u sequence event)) in
  match bu_panic u with
  | None => ret tt
  | Some msg => panic msg
  end.

(** Between claim and publish: the closure runs under the poison guard. *)
Definition fill_and_publish p (u : update T) (sequence : Z) : M W unit :=
  let* _ := on_unwind (run_update u sequence) (poison_guard_drop (sequencer p) sequence sequence) in
  Sequencer.publish (dispatch (sequencer p)) sequence.

Definition fill_and_publish_batch (fuel : nat) p (u : batch_update T) (start_sequence end_sequence : Z) : M W unit :=
  let* _ := on_unwind (run_batch_update u start_sequence end_sequence)
              (poison_guard_drop (sequencer p) start_sequence end_sequence) in
  Sequencer.publish_range (dispatch (sequencer p)) fuel start_sequence end_sequence.

(** [try_publish] *)
Definition try_publish p (u : update T) : M W (result Z TryPublishError) :=
  let* claim := try_claim_next p in
  match claim with
  | None =>
      let* remaining := claim_remaining_capacity p in
      let transient := if 0 <? remaining then Contended else Full in
      let* e := classify_try_rejection p transient in
      ret (Err e)
  | Some sequence =>
      let* _ := fill_and_publish p u sequence in
      ret (Ok sequence)
  end.

(** [try_batch_publish] *)
Definition try_batch_publish (fuel : nat) p (n : Z) (u : batch_update T) : M W (result Z TryPublishError) :=
  let* capacity := Sequencer.get_buffer_size (dispatch (sequencer p)) in
  if (n =? 0) || (capacity <? n) then
    let* e := classify_try_rejection p (InvalidBatchSize n capacity) in ret (Err e) else
  match i64_try_from n with
  | None => let* e := classify_try_rejection p (InvalidBatchSize n capacity) in ret (Err e)
  | Some batch_size =>
      let* claim := try_claim_next_n p batch_size in
      match claim with
      | None =>
          let* remaining := claim_remaining_capacity p in
          let deficit := Z.max 0 (n - Z.max remaining 0) in
          let transient := if deficit =? 0 then Contended else MissingFreeSlots deficit in
          let* e := classify_try_rejection p transient in
          ret (Err e)
      | Some end_sequence =>
          let start_sequence := end_sequence -! (batch_size -! 1) in
          let* _ := fill_and_publish_batch fuel p u start_sequence end_sequence in
          ret (Ok end_sequence)
      end
  end.

(** [publish] *)
Definition publish (fuel : nat) p (u : update T) : M W (result Z DisruptorError) :=
  let? sequence := claim_next fuel p in
  let* _ := fill_and_publish p u sequence in
  ret (Ok sequence).

(** [batch_publish] *)
Definition batch_publish (fuel : nat) p (n : Z) (u : batch_update T) : M W (result Z DisruptorError) :=
  let* capacity := Sequencer.get_buffer_size (dispatch (sequencer p)) in
  if (n =? 0) || (capacity <? n) then
    ret (Err (InvalidSequence (match i64_try_from n with Some v => v | None => i64_max end))) else
  match i64_try_from n with
  | None => ret (Err (InvalidSequence i64_max))
  | Some batch_size =>
      let? end_sequence := claim_next_n fuel p batch_size in
      let start_sequence := end_sequence -! (batch_size -! 1) in
      let* _ := fill_and_publish_batch fuel p u start_sequence end_sequence in
      ret (Ok end_sequence)
  end.

End Producer.
