(* ===== verification/ProducerSpec.v ===== *)
(** * ProducerSpec: what publishing guarantees

    For the unique single producer against its consumers, and for the panic of
    an update closure on either sequencer. *)
From S2P Require Import Prelude Effects Errors RingBuffer World Sequence Single Multi Availability Sequencer.
From S2P Require Import Waiting WaitStrategy Barrier ConsumerEngine Producer.

Section ProducerSpec.
Context {T : Type} (thread_name : string).
Abbreviation W := (World T).
Implicit Types w : W.

Definition cursor_value w : Z := seq_at w (sp_cursor (w_single w)).

(** What consumers do to the producer: they keep to the rely of claims and
    leave the slots of claimed, unpublished sequences alone. *)
Record publish_rely w w' : Prop := {
  pr_claim : claim_rely w w';
  pr_wf : RingBuffer.wf (w_ring w) -> RingBuffer.wf (w_ring w');
  pr_claimed : forall q, cursor_value w < q <= sp_next_value (w_single w) ->
                 RingBuffer.get (w_ring w') q = RingBuffer.get (w_ring w) q
}.

Lemma pr_cursor_value w w' : publish_rely w w' -> cursor_value w' = cursor_value w.
Proof.
  intros [Hc _ _]. unfold cursor_value. rewrite (cr_cursor _ _ Hc). apply (cr_cursor_value _ _ Hc).
Qed.

#[local] Instance publish_rely_preorder : PreOrder publish_rely.
Proof.
  split; [intros w; by constructor|]. intros w1 w2 w3 H1 H2. constructor.
  - etrans; [apply (pr_claim _ _ H1) | apply (pr_claim _ _ H2)].
  - intros. by apply (pr_wf _ _ H2), (pr_wf _ _ H1).
  - intros q Hq. rewrite (pr_claimed _ _ H2); [by apply (pr_claimed _ _ H1)|].
    by rewrite (pr_cursor_value _ _ H1), (cr_next _ _ (pr_claim _ _ H1)).
Qed.

Lemma ring_stable : stable publish_rely (fun w => RingBuffer.wf (w_ring w)).
Proof. intros w w' H []. auto. Qed.

Lemma minimum_loop_keeps R (P : W -> Prop) ls minimum : stable R P -> keeps R P (Sequence.minimum_loop ls minimum).
Proof.
  intros Hst. revert minimum. induction ls as [|l ls IH]; intros minimum; cbn [Sequence.minimum_loop]; [apply keeps_ret|].
  apply keeps_bind; [by apply keeps_load | intros; apply IH].
Qed.

(** A claim leaves the event store alone. *)
Lemma cap_next_keeps_ring fuel : keeps publish_rely (fun w => RingBuffer.wf (w_ring w)) (cap_next (T := T) fuel).
Proof.
  pose proof ring_stable as Hst.
  unfold cap_next, cap_next_n, next_n_inner, capacity_wait, claim_state_error, gating_minimum,
    Single.buffer_size_i64, next_value, cached_value, Single.cursor, set_cached_value, set_next_value,
    Sequence.set_volatile, get_minimum_sequence_with_default.
  keeps; by apply minimum_loop_keeps.
Qed.

(** The publication of [s]: at [w0], where the claim has been made, its slot is
    free and holds [event]; the slot is overwritten with what the update makes
    of that event, the others go on to [w1], where the slot still holds it, and
    the cursor moves to [s]. *)
Definition publication (u : update T) (s : Z) w w' : Prop :=
  exists w0 w1 event rb, claim_frame w w0 /\ claim_free w0 s /\ RingBuffer.get (w_ring w0) s = Some event /\
    RingBuffer.set (w_ring w0) s (fst (u event)) = Some rb /\ publish_rely (upd_ring (fun _ => rb) w0) w1 /\
    claim_free w1 s /\ RingBuffer.get (w_ring w1) s = Some (fst (u event)) /\ cursor_value w1 < s /\
    publish_rely (set_seq (sp_cursor (w_single w1)) s w1) w' /\ sp_next_value (w_single w') = s.

(** What the update does to the ring. *)
Lemma wp_run_update R (u : update T) s (Q : unit -> W -> Prop) w :
  RingBuffer.wf (w_ring w) -> (forall event, snd (u event) = None) ->
  (forall event rb', RingBuffer.get (w_ring w) s = Some event -> RingBuffer.set (w_ring w) s (fst (u event)) = Some rb' ->
     RingBuffer.get rb' s = Some (fst (u event)) -> Q tt (upd_ring (fun _ => rb') w)) ->
  wp R (run_update u s) Q w.
Proof.
  intros Hwf Hu HQ. unfold run_update, event_at, write_event. wp_steps.
  destruct (get_some (w_ring w) s Hwf) as [event Hev]. rewrite Hev. apply wp_ret.
  specialize (Hu event). destruct (u event) as [event' panicked] eqn:Hue. cbn in Hu. subst panicked. wp_steps.
  destruct (set_frame (w_ring w) s event' Hwf) as (rb' & Hset & _ & _ & Hget & _). rewrite Hset. wp_steps.
  apply (HQ event); by rewrite ?Hue.
Qed.

Lemma wp_publish_single s w0 (Q : unit -> W -> Prop) :
  (forall w1 w', publish_rely w0 w1 -> publish_rely (set_seq (sp_cursor (w_single w1)) s w1) w' -> Q tt w') ->
  wp publish_rely (Single.publish s) Q w0.
Proof.
  intros HQ. unfold Single.publish, Single.cursor, Sequence.set. wp_steps. rename s' into w1.
  rewrite <- (cr_cursor _ _ (pr_claim _ _ H)).
  assert (H1 : forall w', publish_rely (set_seq (sp_cursor (w_single w1)) s w1) w' -> Q tt w') by (intros; by eapply HQ).
  destruct (sp_needs_signal _); [|apply wp_ret, H1; reflexivity].
  destruct (sp_wait_strategy _); cbn [signal_all_when_blocking]; try (apply wp_ret, H1; reflexivity).
  apply wp_store. intros w2 Hr. apply H1. etrans; [exact Hr|]. constructor; [by constructor | done | done].
Qed.

Lemma wp_unique_publish fuel (u : update T) w :
  inv w -> RingBuffer.wf (w_ring w) -> (forall event, snd (u event) = None) ->
  sp_next_value (w_single w) + 1 <= i64_max -> cursor_value w <= sp_next_value (w_single w) ->
  wp publish_rely (publish thread_name fuel new_unique u)
    (fun r w' => match r with
                 | Ok s => s = sp_next_value (w_single w) + 1 /\ publication u s w w'
                 | Err e => (e = Shutdown \/ e = Poisoned) /\
                            sp_next_value (w_single w') = sp_next_value (w_single w)
                 end) w.
Proof.
  intros Hinv Hwf Hu Hmax Hcur. apply wp_try. eapply wp_mono.
  { apply wp_and; [apply (wp_rely claim_rely); [by intros x y []|]; by apply wp_cap_next_n|].
    by apply cap_next_keeps_ring. }
  pose proof (inv_bsz _ Hinv). rewrite bool_decide_eq_true_2 by lia.
  intros [s|err] w1 [(Hi1 & Hf1 & Hr1) Hwf1]; [|naive_solver].
  destruct Hr1 as (-> & Hn1 & Hfree1). set (s := sp_next_value (w_single w) + 1) in *.
  assert (Hc1 : cursor_value w1 < s).
  { unfold cursor_value in *. rewrite (cf_cursor _ _ Hf1). destruct (cf_cursor_value _ _ Hf1); lia. }
  unfold fill_and_publish. wp_step. wp_step. apply wp_on_unwind, wp_run_update; [done | done |].
  intros event rb' Hev Hset Hget. apply wp_publish_single. intros w2 w3 H2 H3. wp_steps. split; [done|].
  assert (Hcv2 : cursor_value w2 = cursor_value w1) by exact (pr_cursor_value _ _ H2).
  exists w1, w2, event, rb'. split_and!; [done..| | | | | ].
  - exact (claim_free_rely (upd_ring (fun _ => rb') w1) w2 s Hfree1 (pr_claim _ _ H2)).
  - rewrite (pr_claimed _ _ H2); [done|]. change (cursor_value w1 < s <= sp_next_value (w_single w1)). lia.
  - by rewrite Hcv2.
  - done.
  - rewrite (cr_next _ _ (pr_claim _ _ H3)). cbn. by rewrite (cr_next _ _ (pr_claim _ _ H2)).
Qed.


Lemma halts_publish_single s : halts (Single.publish (T := T) s).
Proof. unfold Single.publish, Single.cursor, Sequence.set, signal_all_when_blocking. halts. Qed.

(** C15: The blocking [publish] of the unique producer comes back: if from some
    action of the schedule on the consumers have caught up with the slot it
    needs, or the pipeline is closed or poisoned, then enough fuel gives a
    result: the sequence published, or that error. *)
Theorem unique_publish_returns (e : env W) k0 (u : update T) w :
  inv w -> RingBuffer.wf (w_ring w) -> (forall event, snd (u event) = None) ->
  sp_next_value (w_single w) + 1 <= i64_max -> cursor_value w <= sp_next_value (w_single w) ->
  respects publish_rely e ->
  unblocked_from e (sp_next_value (w_single w) + 1 - sp_buffer_size_i64 (w_single w)) k0 ->
  exists r k' w', publish thread_name (S k0) new_unique u e 0%nat w = Done r k' w' /\
    match r with
    | Ok s => s = sp_next_value (w_single w) + 1 /\ publication u s w w'
    | Err err => (err = Shutdown \/ err = Poisoned) /\ sp_next_value (w_single w') = sp_next_value (w_single w)
    end.
Proof.
  intros Hinv Hwf Hu Hmax Hcur He Hun. pose proof (inv_bsz _ Hinv).
  apply (wp_ends publish_rely); [done | by apply wp_unique_publish |]. unfold publish.
  apply ends_try. eapply ends_mono; [apply twp_ends, (twp_cap_next_n e k0 1); [done | lia | done | | done]|].
  { intros k x. apply He. }
  intros [s|err] k1 w1 _; [|done]. apply ends_bind, ends_bind.
  assert (Hh : halts (on_unwind (run_update u s) (poison_guard_drop thread_name (sequencer new_unique) s s))).
  { unfold on_unwind. apply halts_bind; [|intros [[]|msg]; [apply halts_ret|]].
    - intros e' k w'. unfold ends, catch_unwind. assert (Hr : halts (run_update u s)).
      { unfold run_update, event_at, write_event. halts. }
      specialize (Hr e' k w'). unfold ends in Hr. by destruct (run_update u s e' k w').
    - unfold poison_guard_drop. cbn [dispatch single_ops Sequencer.record_failure Sequencer.poison sequencer new_unique].
      unfold Single.record_failure, Single.poison, signal_all_when_blocking. halts. }
  eapply ends_mono; [apply Hh|]. intros [] k2 w2 _. eapply ends_mono; [apply halts_publish_single|]. done.
Qed.

(** ** A panic between claim and publish *)

(** The others report failures and publish, but not the sequence [s], which is
    claimed by this producer. *)
Record claimed_rely sq (s : Z) w w' : Prop := {
  qr_failure : failure_rely sq w w';
  qr_claimed : ~ published sq w s -> ~ published sq w' s
}.

(** The drop of the guard: poisoned, with a failure on record, [s] unpublished. *)
Lemma twp_poison_guard_drop (e : env W) sq s first last k w :
  respects (claimed_rely sq s) e -> ~ published sq w s ->
  twp e (poison_guard_drop thread_name sq first last)
    (fun _ _ w' => poisoned sq w' = true /\ is_Some (failure sq w') /\ ~ published sq w' s) k w.
Proof.
  intros He Hn.
  set (Q := fun w' => poisoned sq w' = true /\ is_Some (failure sq w') /\ ~ published sq w' s).
  assert (Hstep : forall k w, Q w -> Q (e k w)).
  { intros j x (Hp & [f Hf] & Hx). destruct (He j x) as [[Hk Hpo] Hc]. split_and!; [by apply Hpo | exists f; by apply Hk | by apply Hc]. }
  assert (Hsig : forall ws k w, Q w -> twp e (signal_all_when_blocking ws) (fun _ _ w' => Q w') k w).
  { intros ws j x Hx. destruct ws; cbn [signal_all_when_blocking]; try by apply twp_ret.
    apply twp_store. apply (Hstep j) in Hx. by destruct sq. }
  set (P := fun w' => is_Some (failure sq w') /\ ~ published sq w' s).
  assert (HstepP : forall k w, P w -> P (e k w)).
  { intros j x ([f Hf] & Hx). destruct (He j x) as [[Hk Hpo] Hc]. split; [exists f; by apply Hk | by apply Hc]. }
  assert (Hn1 : ~ published sq (e k w) s) by (by apply (He k w)).
  unfold poison_guard_drop. destruct sq; cbn [dispatch single_ops multi_ops Sequencer.record_failure Sequencer.poison].
  - apply twp_bind, twp_store, twp_bind, twp_store, twp_bind, twp_read. apply Hsig.
    match goal with |- Q (upd_single _ (e ?j ?x)) => assert (HP1 : P x) end.
    { split; [|cbn; destruct (sp_first_failure _); done]. cbn. destruct (sp_first_failure (w_single (e k w))) eqn:Hf; [exists f; by rewrite Hf | by eexists]. }
    apply (HstepP (S k)) in HP1 as [HP1 HP2]. by split_and!.
  - apply twp_bind, twp_store, twp_bind, twp_store, twp_bind, twp_read. apply Hsig.
    match goal with |- Q (upd_multi _ (e ?j ?x)) => assert (HP1 : P x) end.
    { split; [|cbn; destruct (mp_first_failure _); done]. cbn.
      destruct (mp_first_failure (w_multi (e k w))) eqn:Hf; [exists f; by rewrite Hf | by eexists]. }
    apply (HstepP (S k)) in HP1 as [HP1 HP2]. by split_and!.
Qed.

(** C26: An update closure that panics after the claim: the panic reaches the
    caller of [publish], the claimed sequence is never published, and the
    pipeline is poisoned with a failure on record, so that a slot that was
    claimed and not filled is never exposed to consumers. *)
Theorem publish_panic_poisons (e : env W) fuel p (u : update T) msg s k k1 w w1 :
  respects (claimed_rely (sequencer p) s) e ->
  claim_next fuel p e k w = Done (Ok s) k1 w1 ->
  RingBuffer.wf (w_ring w1) -> ~ published (sequencer p) w1 s ->
  (forall event, snd (u event) = Some msg) ->
  exists k' w', publish thread_name fuel p u e k w = Panicked msg k' w' /\
    poisoned (sequencer p) w' = true /\ is_Some (failure (sequencer p) w') /\
    ~ published (sequencer p) w' s.
Proof.
  intros He Hclaim Hwf Hn Hu.
  assert (Hrun : exists rb', run_update u s e k1 w1 = Panicked msg k1 (upd_ring (fun _ => rb') w1)).
  { unfold run_update, event_at, write_event, bind, read, silent. cbn [fst snd].
    destruct (get_some (w_ring w1) s Hwf) as [event ->]. cbn [ret].
    specialize (Hu event). destruct (u event) as [event' panicked]. cbn in Hu. subst panicked.
    destruct (set_frame (w_ring w1) s event' Hwf) as (rb' & -> & _). exists rb'. done. }
  destruct Hrun as [rb' Hrun].
  assert (Hn' : ~ published (sequencer p) (upd_ring (fun _ => rb') w1) s) by (by destruct (sequencer p)).
  pose proof (twp_poison_guard_drop e (sequencer p) s s s k1 _ He Hn') as Hd. unfold twp in Hd.
  unfold publish, try_, bind at 1. rewrite Hclaim. unfold fill_and_publish, on_unwind, catch_unwind, bind.
  rewrite Hrun. destruct (poison_guard_drop _ _ _ _ e k1 _) as [[] k2 w2| |]; try done. by exists k2, w2.
Qed.

(** ** Rejections of the non-blocking path *)

Lemma twp_gating_min (e : env W) ls d k w :
  twp e (Sequence.get_minimum_sequence_with_default ls d) (fun _ _ _ => True) k w.
Proof. eapply twp_mono; [apply twp_minimum_bound | done]. Qed.

Lemma twp_remaining_inner (e : env W) k w : twp e remaining_capacity_inner (fun _ _ _ => True) k w.
Proof.
  unfold remaining_capacity_inner, next_value, gating_minimum, Single.buffer_size_i64. twp_steps.
  eapply twp_mono; [apply twp_gating_min|]. intros. by twp_steps.
Qed.

Lemma twp_claim_remaining (e : env W) p k w : twp e (claim_remaining_capacity p) (fun _ _ _ => True) k w.
Proof.
  unfold claim_remaining_capacity. destruct (unique_claim p); [apply twp_remaining_inner|].
  destruct (sequencer p); cbn [dispatch single_ops multi_ops Sequencer.remaining_capacity].
  - unfold Single.remaining_capacity, try_acquire_claim. twp_steps. destruct (fst _); twp_steps; [done|].
    eapply twp_mono; [apply twp_remaining_inner|]. intros. unfold release_claim. by twp_steps.
  - unfold Multi.remaining_capacity, Multi.cursor, Multi.gating_sequences, Multi.buffer_size_i64, Sequence.get. twp_steps.
    eapply twp_mono; [apply twp_gating_min|]. intros. by twp_steps.
Qed.

(** A terminal pipeline stays terminal while the rejection is classified. *)
Section Terminal.
Context (e : env W) (p : SimpleProducer) (c : bool).
Abbreviation tm := (terminal (sequencer p) c).
Context (He : forall k w, tm w -> tm (e k w)).
Context (Hu : unique_claim p = true -> sequencer p = World.Single).

Let R (w w' : W) : Prop := tm w -> tm w'.

Lemma terminal_stable : stable R tm.
Proof. intros w w' Hw Hr. by apply Hr. Qed.

Lemma remaining_keeps_terminal : keeps R tm (claim_remaining_capacity p).
Proof.
  pose proof terminal_stable as Hst. unfold claim_remaining_capacity.
  assert (Hinner : keeps R tm remaining_capacity_inner).
  { unfold remaining_capacity_inner, next_value, gating_minimum, Single.buffer_size_i64, get_minimum_sequence_with_default.
    keeps. by apply minimum_loop_keeps. }
  destruct (unique_claim p); [exact Hinner|].
  destruct (sequencer p); cbn [dispatch single_ops multi_ops Sequencer.remaining_capacity].
  - unfold Single.remaining_capacity, try_acquire_claim, release_claim. keeps; done.
  - unfold Multi.remaining_capacity, Multi.cursor, Multi.gating_sequences, Multi.buffer_size_i64, Sequence.get,
      get_minimum_sequence_with_default. keeps. by apply minimum_loop_keeps.
Qed.

Lemma twp_try_claim_terminal k w :
  tm w -> 1 <= Sequencer.buffer_size (sequencer p) w ->
  twp e (try_claim_next p) (fun r _ w' => r = None /\ tm w') k w.
Proof.
  intros Ht Hb. unfold try_claim_next. destruct (unique_claim p) eqn:Hup.
  - pose proof (He k w Ht) as Ht1. pose proof (He (S k) _ Ht1) as Ht2. destruct Ht1 as [Hc1 Hp1], Ht2 as [Hc2 Hp2].
    rewrite (Hu eq_refl) in *. cbn [closed poisoned Sequencer.buffer_size] in *.
    unfold cap_try_next, cap_try_next_n, Single.buffer_size_i64. twp_steps.
    destruct (Z.ltb_spec (sp_buffer_size_i64 (w_single w)) 1); [lia|].
    change (1 <? 1) with false. cbn [orb]. unfold claim_state_error. twp_steps.
    rewrite Hc1. destruct c; twp_steps; [done|]. rewrite (Hp2 eq_refl). by twp_steps.
  - pose proof (twp_terminal_try_next_n (sequencer p) e c 1 k w He Ht ltac:(lia)) as H.
    destruct (sequencer p); exact H.
Qed.

Lemma twp_classify_terminal fallback k w :
  tm w -> twp e (classify_try_rejection p fallback) (fun err _ _ => is_terminal err = true) k w.
Proof.
  intros Ht. pose proof (He k w Ht) as Ht1. pose proof (He (S k) _ Ht1) as Ht2.
  destruct Ht1 as [_ Hp1], Ht2 as [Hc2 _]. unfold classify_try_rejection.
  destruct (sequencer p); cbn [dispatch single_ops multi_ops Sequencer.is_poisoned Sequencer.is_closed closed poisoned] in *;
    unfold Single.is_poisoned, Single.is_closed, Multi.is_poisoned, Multi.is_closed; twp_steps;
    (match goal with |- context [if ?b then ret TryPoisoned else _] => destruct b eqn:Hb' end; twp_steps; [done|]);
    rewrite Hc2; (destruct c; [by twp_steps | specialize (Hp1 eq_refl); congruence]).
Qed.

End Terminal.

(** A non-blocking publish on a terminal pipeline says so: it is rejected with
    [Poisoned] or [Shutdown], never with an error that invites a retry. *)
Theorem try_publish_terminal (e : env W) p (u : update T) c k w :
  (forall k w, terminal (sequencer p) c w -> terminal (sequencer p) c (e k w)) ->
  (unique_claim p = true -> sequencer p = World.Single) ->
  terminal (sequencer p) c w -> 1 <= Sequencer.buffer_size (sequencer p) w ->
  exists err k' w', try_publish thread_name p u e k w = Done (Err err) k' w' /\
    is_terminal err = true /\ is_transient err = false.
Proof.
  intros He Hu Ht Hb.
  enough (twp e (try_publish thread_name p u) (fun r _ _ => exists err, r = Err err /\ is_terminal err = true) k w) as H.
  { unfold twp in H. destruct (try_publish thread_name p u e k w) as [r k' w'| |]; try done.
    destruct H as (err & -> & Hterm). exists err, k', w'. split_and!; [done | done | by destruct err]. }
  unfold try_publish. twp_step. eapply twp_mono; [by apply (twp_try_claim_terminal e p c)|].
  intros r k1 w1 [-> Ht1]. twp_step.
  eapply twp_mono; [eapply twp_wp; [| by apply (remaining_keeps_terminal e p c) | apply twp_claim_remaining]|].
  { intros j x Hx. by apply He. }
  intros rem k2 w2 [_ Ht2]. cbv zeta. twp_step.
  eapply twp_mono; [by apply (twp_classify_terminal e p c)|]. intros err k3 w3 Herr. apply twp_ret. by exists err.
Qed.

End ProducerSpec.
