(* ===== verification/MultiPublish.v ===== *)
(** * MultiPublish: publishing through a multi-producer sequencer

    [publish] and [batch_publish] of [SimpleProducer] (disruptor/producer.rs)
    when the sequencer is the multi-producer one: the sequences are claimed by
    compare-and-swap (see [MultiClaim]), the closures fill their slots, and the
    availability store makes them visible, in any order relative to the other
    producers. *)
From S2P Require Import Prelude Effects Errors RingBuffer World Sequence Single Multi Availability Sequencer.
From S2P Require Import Waiting WaitStrategy Barrier ConsumerEngine Producer.

(** The iterator cut short: the first sequences, in order. *)
Lemma drain_prefix fuel start end_ :
  in_i64 start -> in_i64 (end_ + 1) ->
  drain fuel (batch_iter_mut start end_) = seqZ start (Z.min (Z.of_nat fuel) (end_ - start + 1)).
Proof.
  unfold batch_iter_mut. revert start. induction fuel as [|fuel IH]; intros start Hs He.
  - cbn [drain]. by rewrite seqZ_nil by lia.
  - cbn [drain]. unfold RingBuffer.next at 1. cbn [current last]. destruct (Z.ltb_spec end_ start); [by rewrite seqZ_nil by lia|].
    nowrap. rewrite IH by i64_lia. rewrite (seqZ_cons start) by lia. do 2 f_equal; lia.
Qed.

Section MultiPublish.
Context {T : Type} (thread_name : string).
Abbreviation W := (World T).
Implicit Types w : W.

(** What the others do to sequences a producer has claimed and not published:
    they keep away from their slots, in the ring and in the availability store. *)
Record held_rely (low high : Z) w w' : Prop := {
  hr_avail : Availability.publish_rely low high w w';
  hr_slots : forall q, low <= q <= high -> RingBuffer.get (w_ring w') q = RingBuffer.get (w_ring w) q
}.

Lemma held_avail low high (e : env W) : respects (held_rely low high) e -> respects (Availability.publish_rely low high) e.
Proof. intros He k w. apply He. Qed.

Section Held.
Context (low high : Z) (v : Z -> option T).

(** The claimed slots hold [v]. *)
Definition holds w : Prop := forall q, low <= q <= high -> RingBuffer.get (w_ring w) q = v q.

Lemma holds_stable : stable (held_rely low high) holds.
Proof. intros w w' H Hr q Hq. rewrite (hr_slots _ _ _ _ Hr) by done. auto. Qed.

Lemma holds_signal : stays (held_rely low high) holds (Multi.signal (T := T)).
Proof. pose proof holds_stable. unfold Multi.signal, signal_all_when_blocking. stays. Qed.

Lemma holds_set_available q : stays (held_rely low high) holds (set_available (T := T) q).
Proof. pose proof holds_stable. unfold set_available, check_index. stays. Qed.

(** What is in the claimed slots survives the publication. *)
Lemma holds_publish q : stays (held_rely low high) holds (Multi.publish (T := T) q).
Proof. apply stays_bind; [apply holds_set_available | intros; apply holds_signal]. Qed.

Lemma holds_publish_range fuel a b : stays (held_rely low high) holds (Multi.publish_range (T := T) fuel a b).
Proof.
  pose proof holds_stable. unfold Multi.publish_range. destruct (b <? a); [apply stays_ret|].
  apply stays_bind; [apply stays_read|]. intros s. apply stays_bind; [|intros; apply holds_signal].
  destruct (legacy s); [apply stays_for_each; intros; apply holds_set_available|].
  apply stays_loop. intros q. destruct (q <=? b); [|apply stays_ret]. apply stays_atomic; [done|].
  intros w Hw. by destruct (publish_word (w_multi w) q b).
Qed.

End Held.

(** ** Filling the slots *)

(** The closure runs between two actions: nobody else moves meanwhile. *)
Lemma run_update_total (e : env W) (u : update T) s k w :
  RingBuffer.wf (w_ring w) -> (forall event, snd (u event) = None) ->
  exists event rb', RingBuffer.get (w_ring w) s = Some event /\ RingBuffer.get rb' s = Some (fst (u event)) /\
    run_update u s e k w = Done tt k (upd_ring (fun _ => rb') w).
Proof.
  intros Hwf Hu. destruct (get_some (w_ring w) s Hwf) as [event Hget].
  destruct (set_frame (w_ring w) s (fst (u event)) Hwf) as (rb' & Hset & _ & _ & Hs & _). exists event, rb'. split_and!; [done | done|].
  unfold run_update, event_at, write_event, bind, read, silent. cbn [fst snd]. rewrite Hget. cbn [ret].
  specialize (Hu event). destruct (u event) as [event' o]. cbn in Hu, Hset. subst o. by rewrite Hset.
Qed.

(** A batch closure changes the slots it takes, each once. *)
Lemma map_slots_total (e : env W) (f : Z -> T -> T) low high qs k w :
  RingBuffer.wf (w_ring w) -> high - low < RingBuffer.buffer_size (w_ring w) ->
  NoDup qs -> (forall q, q ∈ qs -> low <= q <= high) ->
  exists rb', RingBuffer.wf rb' /\ RingBuffer.buffer_size rb' = RingBuffer.buffer_size (w_ring w) /\
    (forall q, low <= q <= high ->
       RingBuffer.get rb' q = if decide (q ∈ qs) then f q <$> RingBuffer.get (w_ring w) q else RingBuffer.get (w_ring w) q) /\
    for_each qs (fun q => let* event := event_at q in write_event q (f q event)) e k w = Done tt k (upd_ring (fun _ => rb') w).
Proof.
  intros Hwf Hn Hnd. revert w Hwf Hn. induction Hnd as [|q qs Hq Hnd IH]; intros w Hwf Hn Hin.
  - exists (w_ring w). split_and!; [done | done | |by destruct w]. intros q _. by rewrite decide_False by apply not_elem_of_nil.
  - destruct (get_some (w_ring w) q Hwf) as [event Hget].
    destruct (set_frame (w_ring w) q (f q event) Hwf) as (rb1 & Hset & Hwf1 & Hs1 & Hsame & Hfr).
    destruct (IH (upd_ring (fun _ => rb1) w)) as (rb' & Hwf' & Hs' & Hall & Hrun); [done | cbn; lia | set_solver |].
    exists rb'. split_and!; [done | by rewrite Hs'| |].
    + intros x Hx. rewrite Hall by done. cbn. destruct (decide (x = q)) as [->|Hne].
      * rewrite decide_False by done. rewrite decide_True by set_solver. by rewrite Hget, Hsame.
      * pose proof (Hin q ltac:(set_solver)). rewrite Hfr by lia.
        destruct (decide (x ∈ qs)); [rewrite decide_True by set_solver | rewrite decide_False by set_solver]; done.
    + cbn [for_each]. unfold bind at 1, event_at at 1, write_event at 1, bind, read, silent. cbn [fst snd]. rewrite Hget. cbn [ret].
      rewrite Hset. exact Hrun.
Qed.

(** ** The two calls *)

(** [publish] once the sequence is claimed. *)
Lemma twp_fill_and_publish (e : env W) p (u : update T) s k w :
  sequencer p = World.Multi -> respects (held_rely s s) e -> 0 <= s < i64_max ->
  mp_wf (w_multi w) -> RingBuffer.wf (w_ring w) ->
  slot_value (w_multi w) s = unpublished_value (w_multi w) s -> (forall event, snd (u event) = None) ->
  twp e (fill_and_publish thread_name p u s)
    (fun _ _ w' => is_available_internal (w_multi w') s = true /\
       exists event, RingBuffer.get (w_ring w) s = Some event /\ RingBuffer.get (w_ring w') s = Some (fst (u event))) k w.
Proof.
  intros Hp He Hs Hwf Hrw Hun Hu. destruct (run_update_total e u s k w Hrw Hu) as (event & rb' & Hget & Hget' & Hrun).
  unfold fill_and_publish, on_unwind, catch_unwind. apply twp_bind, twp_bind. unfold twp at 1. rewrite Hrun. apply twp_ret.
  rewrite Hp. cbn [dispatch multi_ops Sequencer.publish].
  eapply twp_mono.
  - eapply (twp_stays _ (holds s s (fun _ => Some (fst (u event)))) _ _ _ _ _ He (holds_publish _ _ _ s)).
    + intros q Hq. by replace q with s by lia.
    + apply (twp_publish_one e s); [done | by apply held_avail | done | done].
  - intros [] k' w' [Ha Hh]. split; [done|]. exists event. split; [done|]. apply Hh. lia.
Qed.

(** C16: [publish] on a multi-producer pipeline: once the claim has given [s], and
    while nobody else touches the slot of [s], the call returns [s], consumers
    see [s] as published, and its slot holds what the closure made of the event
    that was there. *)
Theorem multi_publish_exposes (e : env W) fuel p (u : update T) s k k1 w w1 :
  sequencer p = World.Multi -> claim_next fuel p e k w = Done (Ok s) k1 w1 ->
  respects (held_rely s s) e -> 0 <= s < i64_max -> mp_wf (w_multi w1) -> RingBuffer.wf (w_ring w1) ->
  slot_value (w_multi w1) s = unpublished_value (w_multi w1) s -> (forall event, snd (u event) = None) ->
  exists k' w', publish thread_name fuel p u e k w = Done (Ok s) k' w' /\
    is_available_internal (w_multi w') s = true /\
    exists event, RingBuffer.get (w_ring w1) s = Some event /\ RingBuffer.get (w_ring w') s = Some (fst (u event)).
Proof.
  intros Hp Hclaim He Hs Hwf Hrw Hun Hu. pose proof (twp_fill_and_publish e p u s k1 w1 Hp He Hs Hwf Hrw Hun Hu) as H.
  unfold publish, try_, bind at 1. rewrite Hclaim. unfold bind, twp in *.
  destruct (fill_and_publish thread_name p u s e k1 w1) as [[] k' w'| |]; try done. by exists k', w'.
Qed.

(** What a batch closure leaves in the slot of [q]: it takes the first
    [bu_take u] of the batch. *)
Definition batch_slot (u : batch_update T) (low q : Z) (old : option T) : option T :=
  if q <? low + Z.of_nat (bu_take u) then bu_map u q <$> old else old.

Lemma run_batch_total (e : env W) (u : batch_update T) low high k w :
  RingBuffer.wf (w_ring w) -> high - low < RingBuffer.buffer_size (w_ring w) -> 0 <= low <= high -> high < i64_max ->
  bu_panic u = None ->
  exists rb', (forall q, low <= q <= high -> RingBuffer.get rb' q = batch_slot u low q (RingBuffer.get (w_ring w) q)) /\
    run_batch_update u low high e k w = Done tt k (upd_ring (fun _ => rb') w).
Proof.
  intros Hwf Hn Hl Hh Hu. unfold run_batch_update. rewrite Hu, drain_prefix by i64_lia.
  set (qs := seqZ _ _). destruct (map_slots_total e (bu_map u) low high qs k w) as (rb' & _ & _ & Hall & Hrun); [done | done | apply NoDup_seqZ | |].
  { intros q [H1 H2]%elem_of_seqZ. lia. }
  exists rb'. split; [|unfold bind at 1; by rewrite Hrun].
  intros q Hq. rewrite Hall by done. unfold batch_slot. destruct (decide (q ∈ qs)) as [Hin|Hin].
  - apply elem_of_seqZ in Hin. destruct (Z.ltb_spec q (low + Z.of_nat (bu_take u))); [done | lia].
  - destruct (Z.ltb_spec q (low + Z.of_nat (bu_take u))); [|done]. exfalso. apply Hin, elem_of_seqZ. lia.
Qed.

(** [batch_publish] on a multi-producer pipeline: once the claim has given the
    range that ends in [high], the call returns [high], every sequence of the
    range is published, the slots the closure took hold what it made of them,
    and the slots it left hold the events that were there. *)
Theorem multi_batch_publish_exposes (e : env W) fuel p n (u : batch_update T) high k k1 w w1 :
  let low := high - (n - 1) in
  sequencer p = World.Multi -> 1 <= n <= mp_buffer_size (w_multi w) -> n <= i64_max ->
  claim_next_n fuel p n e k w = Done (Ok high) k1 w1 ->
  respects (held_rely low high) e -> 0 <= low -> high < i64_max -> mp_wf (w_multi w1) -> RingBuffer.wf (w_ring w1) ->
  n <= slots (w_multi w1) -> n <= RingBuffer.buffer_size (w_ring w1) ->
  (forall q, low <= q <= high -> slot_value (w_multi w1) q = unpublished_value (w_multi w1) q) ->
  bu_panic u = None -> (Z.to_nat n < fuel)%nat ->
  exists k' w', batch_publish thread_name fuel p n u e k w = Done (Ok high) k' w' /\
    forall q, low <= q <= high -> is_available_internal (w_multi w') q = true /\
      RingBuffer.get (w_ring w') q = batch_slot u low q (RingBuffer.get (w_ring w1) q).
Proof.
  intros low Hp Hn Hmax Hclaim He Hl Hh Hwf Hrw Hs Hrs Hun Hu Hf.
  destruct (run_batch_total e u low high k1 w1) as (rb' & Hall & Hrun); [done | lia | lia | done | done |].
  assert (Hpub : twp e (Multi.publish_range fuel low high) (fun _ _ w' => (forall q, low <= q <= high -> is_available_internal (w_multi w') q = true) /\
            holds low high (fun q => batch_slot u low q (RingBuffer.get (w_ring w1) q)) w') k1 (upd_ring (fun _ => rb') w1)).
  { apply (twp_stays _ _ _ _ _ _ _ He (holds_publish_range _ _ _ _ _ _)); [exact Hall|].
    apply twp_publish_range; [done | by apply held_avail | lia | done | cbn [w_multi upd_ring]; lia | done | replace (high + 1 - low) with n by lia; done]. }
  unfold batch_publish. rewrite Hp. cbn [dispatch multi_ops get_buffer_size]. unfold Multi.get_buffer_size.
  unfold bind at 1, read, silent. cbn [fst snd].
  destruct (Z.eqb_spec n 0); [lia|]. destruct (Z.ltb_spec (mp_buffer_size (w_multi w)) n); [lia|]. cbn [orb].
  unfold i64_try_from. destruct (Z.leb_spec n i64_max); [|lia].
  unfold try_, bind at 1. rewrite Hclaim. cbv zeta. nowrap. fold low.
  unfold fill_and_publish_batch, on_unwind, catch_unwind, bind. rewrite Hrun, Hp. cbn [ret dispatch multi_ops Sequencer.publish_range].
  unfold twp in Hpub. destruct (Multi.publish_range fuel low high e k1 _) as [[] k' w'| |]; try done. cbn [ret].
  exists k', w'. split; [done|]. intros q Hq. split; [by apply Hpub | by apply (proj2 Hpub)].
Qed.

End MultiPublish.
