(* ===== verification/EndToEnd.v ===== *)
(** * EndToEnd: a producer and a consumer together

    The delivery theorem of [Delivery] holds against every environment that
    keeps to the consumer's rely.  Here the environment is the producer's own
    code: between any two actions of the consumer it makes any number of
    [try_publish] calls (disruptor/producer.rs), and from some action on the
    stop flag is up.  The calls keep to the rely, so what the producer
    publishes is what the consumer's handler is given. *)
From S2P Require Import Prelude Effects Errors RingBuffer World Sequence Single Multi Availability Sequencer.
From S2P Require Import Waiting WaitStrategy Barrier ConsumerEngine Delivery Progress Producer ProducerSpec.

Section EndToEnd.
Context {T : Type} (val : Z -> T) (thread_name : string).
Abbreviation W := (World T).
Implicit Types w : W.

(** ** One call of the producer *)

(** What a non-blocking claim does to the rest of the memory: nothing. *)
Record untouched w w' : Prop := {
  ut_clock : w_clock w' = w_clock w;
  ut_flags : w_flags w' = w_flags w;
  ut_ring : w_ring w' = w_ring w;
  ut_gating : sp_gating_sequences (w_single w') = sp_gating_sequences (w_single w);
  ut_cursor : sp_cursor (w_single w') = sp_cursor (w_single w);
  ut_poisoned : sp_poisoned (w_single w') = sp_poisoned (w_single w);
  ut_seqs : forall l, l <> sp_cursor (w_single w) -> seq_at w' l = seq_at w l
}.

Lemma minimum_keeps ls d (P : W -> Prop) : keeps eq P (Sequence.get_minimum_sequence_with_default (T := T) ls d).
Proof.
  unfold Sequence.get_minimum_sequence_with_default. apply minimum_loop_keeps. by intros w w' H <-.
Qed.

Lemma untouched_refl w : untouched w w.
Proof. by constructor. Qed.

Lemma untouched_trans w1 w2 w3 : untouched w1 w2 -> untouched w2 w3 -> untouched w1 w3.
Proof.
  intros [] []. constructor; try congruence. intros l Hl. rewrite ut_seqs1 by congruence. auto.
Qed.

Lemma wp_minimum_same ls d w : wp eq (Sequence.get_minimum_sequence_with_default ls d) (fun _ w' => untouched w w') w.
Proof. apply minimum_keeps. apply untouched_refl. Qed.

Lemma untouched_single f w :
  (forall s, sp_gating_sequences (f s) = sp_gating_sequences s /\
     sp_cursor (f s) = sp_cursor s /\ sp_poisoned (f s) = sp_poisoned s) ->
  untouched w (upd_single f w).
Proof. intros Hf. destruct (Hf (w_single w)) as (? & ? & ?). by constructor. Qed.

Lemma untouched_cursor v w : untouched w (set_seq (sp_cursor (w_single w)) v w).
Proof. constructor; try done. intros l Hl. by apply seq_at_set_ne. Qed.

Lemma wp_claim_untouched w : wp eq (try_claim_next (T := T) new_unique) (fun _ w' => untouched w w') w.
Proof.
  unfold try_claim_next, cap_try_next, cap_try_next_n, claim_state_error, try_next_n_inner, Sequence.set_volatile, set_next_value,
    Single.has_available_capacity_internal, Single.buffer_size_i64, next_value, cached_value, set_cached_value, Single.cursor, gating_minimum, i64_try_from.
  cbn [unique_claim new_unique]. change (usize_try_from 1) with (Some 1). pose proof (untouched_refl w).
  repeat (first [apply wp_store; intros ? ?; cbn [fst snd] | wp_step | progress case_match]; subst; try done); try by apply untouched_single.
  eapply wp_mono; [apply wp_minimum_same|]. intros m w' Hut. cbn beta in Hut.
  match goal with H : untouched ?x ?x |- _ => rename x into w1 end.
  assert (Hc : untouched w1 (upd_single (sp_set_cached m) w')).
  { eapply untouched_trans; [|by apply untouched_single]. eapply untouched_trans; [apply untouched_cursor | exact Hut]. }
  repeat (first [wp_step | progress case_match]; subst; try done).
  eapply untouched_trans; [exact Hc | by apply untouched_single].
Qed.

(** ** One call *)

(** The closure of the call that claims [q] leaves [val q] in the slot. *)
Definition next_update w : update T := fun _ => (val (sp_next_value (w_single w) +! 1), None).

Definition call w : M W (result Z TryPublishError) := try_publish thread_name new_unique (next_update w).

(** The sequencer is between two publications. *)
Record ready w : Prop := {
  rd_inv : inv w;
  rd_wf : RingBuffer.wf (w_ring w);
  rd_cursor : cursor_value w = sp_next_value (w_single w);
  rd_max : sp_next_value (w_single w) + 1 < i64_max;
  rd_ring : RingBuffer.buffer_size (w_ring w) = sp_buffer_size_i64 (w_single w)
}.

(** What a call does: nothing that shows, or the next sequence is published
    with its value, once the slot is free. *)
Record quiet w w' : Prop := {
  qt_inv : inv w';
  qt_bsz : sp_buffer_size_i64 (w_single w') = sp_buffer_size_i64 (w_single w);
  qt_untouched : untouched w w';
  qt_seqs : forall l, seq_at w' l = seq_at w l
}.

Definition published_next w w' : Prop :=
  exists w1 rb' f, let s := sp_next_value (w_single w) + 1 in
    quiet w w1 /\ sp_next_value (w_single w1) = s /\ claim_free w1 s /\
    RingBuffer.set (w_ring w) s (val s) = Some rb' /\
    w' = upd_wait f (set_seq (sp_cursor (w_single w)) s (upd_ring (fun _ => rb') w1)).

Definition called w w' : Prop :=
  (quiet w w' /\ sp_next_value (w_single w') = sp_next_value (w_single w)) \/ published_next w w'.

Lemma wp_call_claim w :
  ready w ->
  wp eq (try_claim_next new_unique)
    (fun r w' => quiet w w' /\
       match r with
       | Some s => s = sp_next_value (w_single w) + 1 /\ sp_next_value (w_single w') = s /\ claim_free w' s
       | None => sp_next_value (w_single w') = sp_next_value (w_single w)
       end) w.
Proof.
  intros Hr. eapply wp_mono; [apply wp_and; [apply wp_claim_untouched | apply (wp_rely claim_rely eq); [by intros x y -> | apply cap_try_next_n_safe]]|].
  - apply Hr.
  - pose proof (rd_max _ Hr). lia.
  - intros r w' (Hu & Hi & Hf & Hpost). split; [|destruct r; naive_solver]. constructor; [done | apply Hf | done |].
    intros l. destruct (decide (l = sp_cursor (w_single w))) as [->|]; [|by apply (ut_seqs _ _ Hu)].
    destruct (cf_cursor_value _ _ Hf) as [->| ->]; [done|]. symmetry. apply (rd_cursor _ Hr).
Qed.

(** The rejection only looks. *)
Lemma wp_rejection w :
  wp eq (let* remaining := claim_remaining_capacity new_unique in
         let transient := if 0 <? remaining then Contended else Full in
         let* e := classify_try_rejection new_unique transient in
         ret (Err (A := Z) e)) (fun _ w' => w' = w) w.
Proof.
  assert (Hst : stable eq (fun w' => w' = w)) by (by intros x y -> <-).
  assert (Hk : keeps eq (fun w' => w' = w) (claim_remaining_capacity (T := T) new_unique)).
  { unfold claim_remaining_capacity. cbn [unique_claim new_unique cap_remaining_capacity].
    unfold cap_remaining_capacity, remaining_capacity_inner, next_value, gating_minimum, Single.buffer_size_i64. keeps; apply minimum_keeps. }
  apply wp_bind. eapply wp_mono; [by apply Hk|]. intros rem w' ->. cbv zeta. apply wp_bind.
  eapply wp_mono; [|intros e w' Hw; apply wp_ret; exact Hw].
  assert (Hc : keeps eq (fun w' => w' = w) (classify_try_rejection (T := T) new_unique (if 0 <? rem then Contended else Full))).
  { unfold classify_try_rejection. cbn [new_unique sequencer dispatch single_ops Sequencer.is_poisoned Sequencer.is_closed].
    unfold Single.is_poisoned, Single.is_closed. keeps. }
  by apply Hc.
Qed.

Lemma wp_call w : ready w -> wp eq (call w) (fun _ w' => called w w') w.
Proof.
  intros Hr. pose proof (inv_next _ (rd_inv _ Hr)) as Hrange. pose proof (rd_max _ Hr) as Hmax. unfold call, try_publish. apply wp_bind. eapply wp_mono; [by apply wp_call_claim|].
  intros [s|] w1 [Hq Hpost].
  2:{ eapply wp_mono; [apply wp_rejection|]. intros r w' ->. by left. }
  destruct Hpost as (Hs & Hn & Hfree).
  pose proof (ut_ring _ _ (qt_untouched _ _ Hq)) as Hring.
  unfold fill_and_publish. apply wp_bind, wp_bind, wp_on_unwind.
  unfold run_update, event_at, write_event. apply wp_bind, wp_bind, wp_read.
  assert (Hwf : RingBuffer.wf (w_ring w1)) by (rewrite Hring; apply Hr). destruct (get_some (w_ring w1) s Hwf) as [ev ->]. apply wp_ret. unfold next_update.
  nowrap.
  apply wp_bind, wp_bind, wp_read. destruct (set_frame (w_ring w1) s (val s) Hwf) as (rb' & Hset & _).
  rewrite <- Hs, Hset. apply wp_write, wp_ret.
  assert (Hw1 : forall f w', w' = upd_wait f (set_seq (sp_cursor (w_single w)) s (upd_ring (fun _ => rb') w1)) -> called w w').
  { intros f w' ->. right. exists w1, rb', f. rewrite Hs in *. by rewrite <- Hring. }
  pose proof (ut_cursor _ _ (qt_untouched _ _ Hq)) as Hc.
  unfold Sequencer.publish, dispatch, single_ops, Single.publish, Single.cursor, Sequence.set. cbn [sequencer new_unique].
  apply wp_bind, wp_read, wp_bind, wp_store. intros w2 <-. apply wp_bind, wp_read. cbn [upd_ring w_single]. rewrite Hc.
  assert (Hid : called w (set_seq (sp_cursor (w_single w)) s (upd_ring (fun _ => rb') w1))) by (by apply (Hw1 id)).
  destruct (sp_needs_signal _); [|by repeat apply wp_ret].
  destruct (sp_wait_strategy _); cbn [signal_all_when_blocking]; try (by repeat apply wp_ret).
  apply wp_store. intros w3 <-. apply wp_ret. by eapply Hw1.
Qed.

(** ** The calls keep to the consumer's rely *)

Section Composition.
Context (b : ProcessingSequenceBarrier) (cs : loc) (Hsingle : Barrier.sequencer b = World.Single).

Lemma quiet_rely w w' : quiet w w' -> engine_rely val b cs unconstrained w w'.
Proof.
  intros [Hi Hb [] Hs]. assert (Hq : forall q, published World.Single w' q <-> published World.Single w q).
  { intros q. cbn. by rewrite ut_cursor0, Hs. }
  constructor; rewrite ?Hsingle; try (by rewrite ?ut_ring0).
  - constructor; rewrite ?Hsingle.
    + constructor; rewrite ?Hsingle; cbn; try done; [intros; by rewrite Hs | intros q _ ?; by rewrite ut_cursor0, Hs].
    + by rewrite ut_clock0.
    + intros [[Hof1 Hof2] Hwf Hd Hlap Hm]. rewrite Hsingle in *. cbn in *. constructor; rewrite ?Hsingle, ?Hs; cbn; try done.
      * split; rewrite ?Hsingle; [cbn; by rewrite ut_cursor0 | done].
      * intros Hne. destruct (Hd Hne) as (d & ? & ?). exists d. by rewrite !Hs.
      * rewrite Hb. done.
  - cbn. by rewrite ut_poisoned0.
  - intros _ q _ Hn Hp. destruct Hn. eapply available_back; [|intros d _; apply Hs | exact Hp]. rewrite Hsingle. apply Hq.
Qed.

(** The cursor store, after the slot was written. *)
Lemma publish_rely_step f rb' w :
  let c := sp_cursor (w_single w) in let s := seq_at w c + 1 in
  inv w -> RingBuffer.wf (w_ring w) -> cs ∈ sp_gating_sequences (w_single w) -> claim_free w s -> s < i64_max ->
  RingBuffer.buffer_size (w_ring w) = sp_buffer_size_i64 (w_single w) ->
  RingBuffer.set (w_ring w) s (val s) = Some rb' ->
  engine_rely val b cs unconstrained w (upd_wait f (set_seq c s (upd_ring (fun _ => rb') w))).
Proof.
  intros c s Hi Hwf Hcs Hfree Hmax Hrs Hset. set (w' := upd_wait _ _).
  assert (Hne : cs <> c) by (intros ->; by apply (inv_cursor _ Hi)).
  destruct (set_frame (w_ring w) s (val s) Hwf) as (rb2 & Hset2 & Hwf' & Hs' & Hget & Hfr).
  rewrite Hset in Hset2. injection Hset2 as <-.
  assert (Hc : seq_at w' c = s) by apply seq_at_set_eq.
  assert (Ho : forall l, l <> c -> seq_at w' l = seq_at w l) by (intros; by apply (seq_at_set_ne c l s w)).
  assert (Hmono : forall l, seq_at w l <= seq_at w' l).
  { intros l. destruct (decide (l = c)) as [->|]; [rewrite Hc; lia | by rewrite Ho]. }
  assert (Hf : front cs w' = front cs w) by (unfold front; by rewrite Ho).
  pose proof (Hfree cs Hcs) as Hlap.
  constructor; rewrite ?Hsingle; try done; [| by apply Ho | |].
  - constructor; rewrite ?Hsingle.
    + constructor; rewrite ?Hsingle; try done. intros q _ Hp. cbn in *. etrans; [exact Hp | apply Hmono].
    + done.
    + intros [[Hof1 Hof2] _ Hd Hl Hm]. rewrite Hsingle in *. cbn in Hof1. fold c in Hof1.
      constructor; rewrite ?Hsingle, ?Hof1, ?Hc; [by split; rewrite ?Hsingle | done | | unfold front; cbn; lia | done].
      intros Hdn. destruct (Hd Hdn) as (d & Hin & Hle). exists d. split; [done|]. rewrite Hof1 in Hle.
      destruct (decide (d = c)) as [->|]; [by rewrite Hc | rewrite Ho by done; lia].
  - intros q [Hq1 Hq2] [Hp _]. rewrite Hsingle in *. cbn in Hp, Hq2. fold c in Hp. apply Hfr; [lia|]. unfold front in *. lia.
  - intros _ q [Hq1 Hq2] Hn [Hp Hd]. rewrite Hsingle in *. change (q <= seq_at w' c) in Hp. rewrite Hc in Hp.
    destruct (decide (q = s)) as [->|Hqs]; [done|]. destruct Hn. split; rewrite ?Hsingle; [cbn; fold c; lia|].
    rewrite Forall_forall in Hd |- *. intros d Hin. specialize (Hd d Hin). cbn in Hd.
    destruct (decide (d = c)) as [->|]; [lia | by rewrite <- Ho].
Qed.

Lemma called_rely w w' : ready w -> cs ∈ sp_gating_sequences (w_single w) -> called w w' -> engine_rely val b cs unconstrained w w'.
Proof.
  intros Hr Hcs [[Hq _]|(w1 & rb' & f & Hq & Hn & Hfree & Hset & ->)]; [by apply quiet_rely|].
  etrans; [by apply quiet_rely|]. destruct Hq as [Hi Hb Hu Hs]. pose proof Hu as [].
  assert (Hcv : seq_at w1 (sp_cursor (w_single w1)) + 1 = sp_next_value (w_single w) + 1).
  { rewrite ut_cursor0, Hs. pose proof (rd_cursor _ Hr) as H. unfold cursor_value in H. lia. }
  rewrite <- Hcv, <- ut_cursor0. apply publish_rely_step; rewrite ?Hcv, ?ut_ring0, ?ut_gating0, ?Hb; try done; apply Hr.
Qed.

(** ** Producer and consumer *)

Lemma ring_wf_iff (rb : RingBuffer T) :
  RingBuffer.wf rb <->
  let k := Z.log2 (RingBuffer.buffer_size rb) in
  k <= 62 /\ RingBuffer.buffer_size rb = 2 ^ k /\ RingBuffer.index_mask rb = 2 ^ k - 1.
Proof.
  split; [intros (k & Hk & Hs & Hm)|intros (Hk & Hs & Hm); eexists; split; [split; [apply Z.log2_nonneg | exact Hk] | done]].
  cbv zeta. rewrite Hs, Z.log2_pow2 by lia. split_and!; [lia | done | done].
Qed.

Lemma ready_iff w :
  ready w <->
    (1 <= sp_buffer_size_i64 (w_single w) <= 4611686018427387904) /\
    (-1 <= sp_next_value (w_single w) <= i64_max) /\ -1 <= sp_cached_value (w_single w) /\
    sp_cached_value (w_single w) <= sp_next_value (w_single w) /\
    Forall (fun l => sp_cached_value (w_single w) <= seq_at w l) (sp_gating_sequences (w_single w)) /\
    sp_cursor (w_single w) ∉ sp_gating_sequences (w_single w) /\
    (let k := Z.log2 (RingBuffer.buffer_size (w_ring w)) in
     k <= 62 /\ RingBuffer.buffer_size (w_ring w) = 2 ^ k /\ RingBuffer.index_mask (w_ring w) = 2 ^ k - 1) /\
    cursor_value w = sp_next_value (w_single w) /\ sp_next_value (w_single w) + 1 < i64_max /\
    RingBuffer.buffer_size (w_ring w) = sp_buffer_size_i64 (w_single w).
Proof.
  rewrite Forall_forall, <- ring_wf_iff. split; [intros [[] ? ? ? ?]; tauto|].
  intros (? & ? & ? & ? & ? & ? & ? & ? & ? & ?). constructor; [by constructor | done..].
Qed.

#[global] Instance ready_dec w : Decision (ready w).
Proof.
  refine (match decide _ with left H => left (proj2 (ready_iff w) H) | right H => right (fun Hr => H (proj1 (ready_iff w) Hr)) end).
Defined.

(** The producer calls while its sequencer is in order, and the consumer's
    sequence gates it. *)
Definition producer_turn w : W :=
  if decide (ready w /\ cs ∈ sp_gating_sequences (w_single w))
  then match call w idle 0%nat w with Done _ _ w' => w' | _ => w end
  else w.

Lemma producer_turn_rely w : engine_rely val b cs unconstrained w (producer_turn w).
Proof.
  unfold producer_turn. destruct (decide _) as [[Hr Hcs]|]; [|reflexivity].
  pose proof (wp_call w Hr idle 0%nat ltac:(by intros k x)) as Hwp.
  destruct (call w idle 0%nat w); [by apply called_rely | done | done].
Qed.

(** Between the consumer's actions [k] and [k + 1] the producer calls [calls k]
    times; from action [k0] on the consumer's stop flag [stop] is up. *)
Definition producing (calls : nat -> nat) (stop : loc) (k0 : nat) : env W := fun k w =>
  let w' := Nat.iter (calls k) producer_turn w in
  if (k0 <=? k)%nat then set_flag stop true w' else w'.

Lemma producing_respects calls stop k0 : respects (engine_rely val b cs unconstrained) (producing calls stop k0).
Proof.
  intros k w. unfold producing. etrans.
  - instantiate (1 := Nat.iter (calls k) producer_turn w). induction (calls k) as [|n IH]; [reflexivity|].
    cbn [Nat.iter nat_rect]. etrans; [exact IH | apply producer_turn_rely].
  - destruct (k0 <=? k)%nat; [|reflexivity]. set (w' := Nat.iter _ _ _). constructor; try done.
    constructor; [by constructor | done|]. intros []. by constructor.
Qed.

Context {H : Type} (hd : EventHandler T H) (eh : option (ExceptionHandler T)) (context : ConsumerContext).
Context (Hret : handler_returns hd) (Heh : decides eh).
Context (Hws : durations_ok (wait_strategy b)) (Hnb : wait_strategy b <> BlockingWaitStrategy).

(** Producer and consumer together: against the producer's own code, which
    makes any number of [try_publish] calls between any two actions of the
    consumer, and a stop flag that is raised in the end, the sequential loop
    returns and its handler was called for the published sequences in order,
    without a gap, each once and with the value its publisher wrote. *)
Theorem end_to_end calls stop k0 fuel N h w :
  eng_inv val b cs unconstrained N (front cs w) w -> seq_at w cs < i64_max -> (Z.to_nat N < fuel)%nat -> (k0 < fuel)%nat ->
  exists h' log k' w',
    run_sequential_batch_loop_impl (logged eh hd) eh b cs (External stop) context fuel (h, [])
      (producing calls stop k0) 0%nat w = Done (h', log) k' w' /\
    consumed val b cs (seq_at w cs) [] log w'.
Proof.
  intros Hi Hmax Hf Hk.
  apply (sequential_loop_ends val b cs unconstrained hd eh (External stop) context Hret Heh Hws Hnb _ (producing_respects calls stop k0) k0) with (N := N); try done.
  intros j x Hj. unfold producing. destruct (Nat.leb_spec k0 j); [apply flag_at_set_eq | lia].
Qed.

End Composition.
End EndToEnd.
