(* ===== verification/Chain.v ===== *)
(** * Chain: a producer and a chain of consumers together

    Stages that read and rewrite the events in place, one behind the other, and
    a last consumer behind them.  Between any two actions of the last consumer
    the producer makes [try_publish] calls (disruptor/producer.rs) and the
    stages make turns of their sequential loops (disruptor/consumer_engine.rs);
    each of these calls and turns runs to its end before the next one begins.
    The invariant [J] of the chain -- the slots between two neighbours hold what
    the stages in front have made of the published values -- is kept by every
    one of them and by the last consumer. *)
From S2P Require Import Prelude Effects Errors RingBuffer World Sequence Single Multi Availability Sequencer.
From S2P Require Import Waiting WaitStrategy Barrier ConsumerEngine Delivery Progress Producer ProducerSpec EndToEnd.

(** A closure handler that makes [f q event] of the event of sequence [q]. *)
Definition transformer {T} (f : Z -> T -> T) : EventHandler T unit :=
  mkHandler T unit (fun _ event q _ => (tt, f q event, Returns (Ok tt))) (fun _ _ _ => (tt, Returns (Ok tt)))
    (fun _ => (tt, Returns (Ok tt))) (fun _ => (tt, Returns (Ok tt))) (fun _ _ => (tt, Returns (Ok tt))).

(** A stage: its barrier, its sequence, what it does to an event, and how its
    loop is started. *)
Record Stage (T : Type) : Type := mkStage {
  st_barrier : ProcessingSequenceBarrier;
  st_sequence : loc;
  st_apply : Z -> T -> T;
  st_stop : StopFlag;
  st_context : ConsumerContext;
  st_fuel : nat
}.
Arguments mkStage {T} _ _ _ _ _ _.
Arguments st_barrier {T} _.
Arguments st_sequence {T} _.
Arguments st_apply {T} _ _ _.
Arguments st_stop {T} _.
Arguments st_context {T} _.
Arguments st_fuel {T} _.

(** ** One turn of a stage *)

Section Turn.
Context {T : Type} (st : Stage T).
Abbreviation W := (World T).
Implicit Types w : W.
Abbreviation b := (st_barrier st).
Abbreviation ss := (st_sequence st).
Abbreviation f := (st_apply st).

(** A turn of the outer loop, from between two batches. *)
Definition stage_step (next : Z) : M W (Z * unit + unit) :=
  sequential_step (transformer f) None b ss (st_stop st) (st_context st) (st_fuel st) (next, tt).

(** Everything but the ring and the sequences is left alone; time may pass. *)
Record steady w w' : Prop := {
  sd_flags : w_flags w' = w_flags w;
  sd_wait : w_wait w' = w_wait w;
  sd_single : w_single w' = w_single w;
  sd_multi : w_multi w' = w_multi w;
  sd_threads : w_threads w' = w_threads w;
  sd_clock : w_clock w <= w_clock w'
}.

#[global] Instance steady_preorder : PreOrder steady.
Proof. split; [by constructor|]. intros w1 w2 w3 [] []. constructor; (congruence || lia). Qed.

(** Only time passes. *)
Record resting w w' : Prop := {
  rs_steady : steady w w';
  rs_seqs : w_seqs w' = w_seqs w;
  rs_ring : w_ring w' = w_ring w
}.

#[global] Instance resting_wait : WaitRely resting.
Proof.
  constructor.
  - split; [by intros w; constructor|]. intros w1 w2 w3 [] []. constructor; [by etrans | congruence | congruence].
  - intros w w' l []. unfold seq_at. by rewrite rs_seqs0.
  - by intros w w' [[] _ _].
  - intros w d Hd. constructor; [constructor; try done; cbn; lia | done | done].
Qed.

Lemma resting_seq w w' l : resting w w' -> seq_at w' l = seq_at w l.
Proof. intros []. unfold seq_at. by rewrite rs_seqs0. Qed.

Lemma resting_barrier_rely b' lo w w' : resting w w' -> barrier_rely b' lo w w'.
Proof.
  intros Hr. pose proof Hr as [[] Hs Hg]. assert (Hseq : forall l, seq_at w' l = seq_at w l) by (intros; by apply resting_seq).
  assert (Hv : view_rely (Barrier.sequencer b') lo w w').
  { constructor; unfold view_wf, cursor_loc, Sequencer.buffer_size, published; destruct (Barrier.sequencer b');
      rewrite ?sd_single0, ?sd_multi0; try done; intros; by rewrite Hseq. }
  constructor; [done | done|]. intros [Hof Hwf Hd Hl Hm]. constructor.
  - destruct Hof as [H1 H2]. split; [by rewrite (vr_cursor _ _ _ _ Hv) | done].
  - by apply (vr_wf _ _ _ _ Hv).
  - intros Hne. destruct (Hd Hne) as (d & ? & ?). exists d. by rewrite !Hseq.
  - by rewrite Hseq, (vr_bsz _ _ _ _ Hv).
  - by rewrite Hseq.
Qed.

(** The events above [c] and up to [v] have been rewritten, as far as a lap
    can tell. *)
Record passed_over (c v : Z) w w' : Prop := {
  po_wf : RingBuffer.wf (w_ring w');
  po_size : RingBuffer.buffer_size (w_ring w') = RingBuffer.buffer_size (w_ring w);
  po_get : forall q, v - RingBuffer.buffer_size (w_ring w) < q <= c + RingBuffer.buffer_size (w_ring w) ->
             RingBuffer.get (w_ring w') q = if decide (c < q <= v) then f q <$> RingBuffer.get (w_ring w) q else RingBuffer.get (w_ring w) q
}.

Lemma passed_over_nil c w : RingBuffer.wf (w_ring w) -> passed_over c c w w.
Proof. intros Hwf. constructor; [done | done|]. intros q _. rewrite decide_False by lia. done. Qed.

Lemma passed_over_ring c v w w1 w2 : w_ring w2 = w_ring w1 -> passed_over c v w w1 -> passed_over c v w w2.
Proof. intros E []. constructor; by rewrite E. Qed.

(** One more event. *)
Lemma passed_over_snoc c v w w' event rb' :
  passed_over c v w w' -> c <= v < c + RingBuffer.buffer_size (w_ring w) ->
  RingBuffer.get (w_ring w') (v + 1) = Some event -> RingBuffer.set (w_ring w') (v + 1) (f (v + 1) event) = Some rb' ->
  passed_over c (v + 1) w (upd_ring (fun _ => rb') w').
Proof.
  intros [Hwf Hs Hget] Hv Hev Hset. destruct (set_frame (w_ring w') (v + 1) (f (v + 1) event) Hwf) as (rb2 & Hset2 & Hwf' & Hs' & Hown & Hfr).
  rewrite Hset in Hset2. injection Hset2 as <-. constructor; cbn [upd_ring w_ring]; [done | by rewrite Hs'|].
  intros q Hq. destruct (decide (q = v + 1)) as [->|Hne].
  - rewrite decide_True by lia. rewrite Hown. rewrite Hget in Hev by lia. rewrite decide_False in Hev by lia. by rewrite Hev.
  - rewrite Hfr by (rewrite ?Hs; lia). rewrite Hget by lia. destruct (decide (c < q <= v)), (decide (c < q <= v + 1)); (done || lia).
Qed.

(** What a turn does: it takes the stage's sequence up to what the barrier
    allows, and rewrites the events it passes. *)
Record stage_moved w w' : Prop := {
  sm_steady : steady w w';
  sm_other : forall l, l <> ss -> seq_at w' l = seq_at w l;
  sm_own : seq_at w ss <= seq_at w' ss;
  sm_reached : seq_at w' ss = seq_at w ss \/ reached (cursor b) (dependent_sequences b) (seq_at w' ss) w;
  sm_ring : passed_over (seq_at w ss) (seq_at w' ss) w w'
}.

Lemma stage_moved_resting w w' : RingBuffer.wf (w_ring w) -> resting w w' -> stage_moved w w'.
Proof.
  intros Hwf Hr. pose proof (resting_seq w w') as Hs. constructor.
  - apply Hr.
  - intros. by apply Hs.
  - by rewrite Hs.
  - left. by apply Hs.
  - rewrite Hs by done. eapply passed_over_ring; [apply Hr | by apply passed_over_nil].
Qed.

(** Half-way through a batch: the stage's sequence is where it was. *)
Definition half_way c (next : Z) w w' : Prop := steady w w' /\ w_seqs w' = w_seqs w /\ passed_over c (next - 1) w w'.

Lemma half_way_resting c next w w1 w2 : half_way c next w w1 -> resting w1 w2 -> half_way c next w w2.
Proof.
  intros (H1 & H2 & H3) []. split_and!; [by etrans | congruence | by eapply passed_over_ring].
Qed.

Lemma wp_transform_batch fuel c v w w1 :
  -1 <= c <= v -> v <= c + RingBuffer.buffer_size (w_ring w) -> v < i64_max -> half_way c (c + 1) w w1 ->
  wp resting (process_batch (transformer f) None b ss (st_context st) fuel v (c + 1) tt)
    (fun r w' => match r with inl (next, _) => next = v + 1 /\ half_way c (v + 1) w w' | inr _ => False end) w1.
Proof.
  intros Hc Hv Hmax H1. unfold process_batch.
  apply (wp_loop resting (fun '(next, _) w' => c + 1 <= next <= v + 1 /\ half_way c next w w')); [|split; [lia | done]].
  intros [next []] w2 [Hn H2]. unfold process_event. destruct (Z.leb_spec next v) as [Hle|Hgt].
  2:{ apply wp_ret. replace next with (v + 1) in * by lia. done. }
  destruct H2 as (Hst & Hsq & Hpo). apply wp_bind, wp_bind, wp_read.
  destruct (get_some (w_ring w2) next (po_wf _ _ _ _ Hpo)) as [event Hev]. rewrite Hev. apply wp_ret. cbn [transformer on_event].
  apply wp_bind, wp_bind, wp_read. destruct (set_frame (w_ring w2) next (f next event) (po_wf _ _ _ _ Hpo)) as (rb' & Hset & _).
  rewrite Hset. apply wp_write. apply wp_bind. cbn [run_callback]. apply wp_ret, wp_ret. nowrap. split; [lia|].
  split_and!; [by destruct Hst; constructor | done |].
  replace next with (next - 1 + 1) in Hev, Hset by lia. replace (next + 1 - 1) with (next - 1 + 1) by lia.
  eapply passed_over_snoc; [exact Hpo | lia | exact Hev | exact Hset].
Qed.

Lemma wp_stage_step w :
  RingBuffer.wf (w_ring w) -> -1 <= seq_at w ss -> durations_ok (wait_strategy b) ->
  barrier_ok b (seq_at w ss + 1) w -> Sequencer.buffer_size (Barrier.sequencer b) w = RingBuffer.buffer_size (w_ring w) ->
  (Z.to_nat (RingBuffer.buffer_size (w_ring w)) < st_fuel st)%nat ->
  wp resting (stage_step (seq_at w ss + 1)) (fun _ w' => stage_moved w w') w.
Proof.
  intros Hwf Hc Hws Hok Hbs Hf. set (c := seq_at w ss) in *. unfold stage_step, sequential_step.
  assert (Hrest : forall w', resting w w' -> stage_moved w w') by (intros; by apply stage_moved_resting).
  assert (Hokr : forall w', resting w w' -> barrier_ok b (c + 1) w') by (intros w' Hr; by apply (br_ok _ _ _ _ (resting_barrier_rely b (c + 1) w w' Hr))).
  apply wp_bind, (wp_should_continue resting). intros go w1 H1. destruct go; cbn [negb]; [|by apply wp_ret, Hrest].
  apply wp_bind. eapply wp_mono; [apply (wp_stop_wait_for resting (fun _ => True) b (c + 1) (c + 1)); [done | lia | | done | by apply Hokr |]|].
  { intros x y _ Hr. split; [done | by apply resting_barrier_rely]. }
  { by rewrite (vr_bsz _ _ _ _ (br_view _ _ _ _ (resting_barrier_rely b (c + 1) w w1 H1))), Hbs. }
  intros [v|err] w2 [H2 Hpost]; assert (H02 : resting w w2) by (by etrans).
  - destruct (Z.ltb_spec v (c + 1)); [by apply wp_ret, Hrest|]. destruct Hpost as (_ & _ & Hre & _).
    pose proof (reached_cursor b (c + 1) v w2 (Hokr w2 H02) Hre) as Hcur. pose proof (bo_lap _ _ _ (Hokr w2 H02)) as Hlap.
    pose proof (bo_max _ _ _ (Hokr w2 H02)). rewrite (vr_bsz _ _ _ _ (br_view _ _ _ _ (resting_barrier_rely b (c + 1) w w2 H02))), Hbs in Hlap.
    unfold take_batch. apply wp_bind, wp_load. intros w3 H3. cbn [transformer on_batch_start]. cbv zeta.
    apply wp_bind. cbn [run_callback]. apply wp_ret, wp_bind.
    assert (H03 : resting w w3) by (by etrans).
    eapply wp_mono; [apply (wp_transform_batch (st_fuel st) c v w w3); [lia | lia | lia |]|].
    { split_and!; [apply H03 | apply H03 |]. replace (c + 1 - 1) with c by lia.
      eapply passed_over_ring; [apply H03 | by apply passed_over_nil]. }
    intros [[next []]|[]] w4; [|done]. intros [-> H4]. apply wp_bind, wp_store. intros w5 H5. apply wp_ret.
    pose proof (half_way_resting _ _ _ _ _ H4 H5) as (Hst & Hsq & Hpo). replace (v + 1 - 1) with v in Hpo by lia.
    assert (Hown : seq_at (set_seq ss v w5) ss = v) by apply seq_at_set_eq.
    constructor; rewrite ?Hown.
    + destruct Hst; by constructor.
    + intros l Hl. rewrite seq_at_set_ne by done. unfold seq_at. by rewrite Hsq.
    + fold c. lia.
    + right. unfold reached in *. destruct (dependent_sequences b); [|intros d Hd; specialize (Hre d Hd)];
        by rewrite <- (resting_seq w w2).
    + fold c. by apply (passed_over_ring c v w w5).
  - apply wp_bind, (wp_wait_error resting). intros brk w3 H3. destruct brk; [apply wp_ret, Hrest; by etrans|].
    apply wp_bind, (wp_pause resting); [intros d [= <-]; lia|]. intros w4 H4. apply wp_ret, Hrest. by repeat (etrans; [eassumption|]).
Qed.

End Turn.

(** ** The chain *)

Section Chain.
Context {T : Type} (val : Z -> T) (thread_name : string) (b : ProcessingSequenceBarrier) (cs : loc).
Context (sts : list (Stage T)) (N : Z).
Abbreviation W := (World T).
Implicit Types w : W.
Abbreviation n := (length sts).

(** The sequences along the chain: the cursor, those of the stages, that of the
    last consumer. *)
Definition locs : list loc := cursor b :: map st_sequence sts ++ [cs].
Definition loc_at (k : nat) : loc := nth k locs cs.
Definition position (k : nat) w : Z := seq_at w (loc_at k).

(** What a barrier behind [k] stages depends on. *)
Definition upstream (k : nat) : list loc := match k with O => [] | S _ => [loc_at k] end.

(** What the first [k] stages make of the published values. *)
Fixpoint made (k : nat) : Z -> T :=
  match k with
  | O => val
  | S k => match sts !! k with Some st => fun q => st_apply st q (made k q) | None => made k end
  end.

Record stage_wf (k : nat) (st : Stage T) : Prop := {
  sw_single : Barrier.sequencer (st_barrier st) = World.Single;
  sw_contiguity : needs_contiguity_check (st_barrier st) = false;
  sw_cursor : cursor (st_barrier st) = cursor b;
  sw_deps : dependent_sequences (st_barrier st) = upstream k;
  sw_waits : durations_ok (wait_strategy (st_barrier st));
  sw_fuel : (Z.to_nat N < st_fuel st)%nat
}.

(** The links of the chain, as the builder makes them. *)
Record chain_wf : Prop := {
  cw_single : Barrier.sequencer b = World.Single;
  cw_contiguity : needs_contiguity_check b = false;
  cw_nodup : NoDup locs;
  cw_deps : dependent_sequences b = upstream n;
  cw_stage : forall k st, sts !! k = Some st -> stage_wf k st
}.

(** The sequencer between two calls. *)
Record standing w : Prop := {
  sg_inv : inv w;
  sg_wf : RingBuffer.wf (w_ring w);
  sg_next : cursor_value w = sp_next_value (w_single w);
  sg_max : sp_next_value (w_single w) < i64_max;
  sg_ring : RingBuffer.buffer_size (w_ring w) = sp_buffer_size_i64 (w_single w)
}.

(** Nobody overtakes the one in front, and the producer is within a lap of the
    last consumer, which gates it. *)
Record placed w : Prop := {
  pl_size : sp_buffer_size_i64 (w_single w) = N;
  pl_cursor : sp_cursor (w_single w) = cursor b;
  pl_gate : cs ∈ sp_gating_sequences (w_single w);
  pl_low : -1 <= position (S n) w;
  pl_lap : position O w <= position (S n) w + N;
  pl_order : Forall (fun k => position (S k) w <= position k w) (seq 0 (S n))
}.

Lemma placed_iff w :
  placed w <->
    sp_buffer_size_i64 (w_single w) = N /\ sp_cursor (w_single w) = cursor b /\
    cs ∈ sp_gating_sequences (w_single w) /\ -1 <= position (S n) w /\ position O w <= position (S n) w + N /\
    Forall (fun k => position (S k) w <= position k w) (seq 0 (S n)).
Proof. split; [by intros []|]. intros (? & ? & ? & ? & ? & ?). by constructor. Qed.

#[global] Instance placed_dec w : Decision (placed w).
Proof.
  refine (match decide _ with left H => left (proj2 (placed_iff w) H) | right H => right (fun Hp => H (proj1 (placed_iff w) Hp)) end).
Defined.

(** Between two neighbours, the slots hold what has been made so far. *)
Definition data w : Prop :=
  forall k q, (k < n)%nat -> position (S k) w < q <= position k w -> RingBuffer.get (w_ring w) q = Some (made k q).

Definition J w : Prop := standing w /\ placed w /\ data w.

Lemma ready_standing w : ready w -> standing w.
Proof. intros []. constructor; (done || lia). Qed.

Lemma standing_ready w : standing w -> sp_next_value (w_single w) + 1 < i64_max -> ready w.
Proof. intros [] ?. by constructor. Qed.

(** *** Positions *)

Lemma locs_length : length locs = S (S n).
Proof. unfold locs. cbn. rewrite length_app, length_map. cbn. lia. Qed.

Lemma loc_at_lookup k : (k <= S n)%nat -> locs !! k = Some (loc_at k).
Proof.
  intros Hk. unfold loc_at. rewrite nth_lookup. destruct (lookup_lt_is_Some_2 locs k) as [l Hl]; [rewrite locs_length; lia | by rewrite Hl].
Qed.

Lemma loc_at_cursor : loc_at O = cursor b.
Proof. done. Qed.

Lemma loc_at_stage k st : sts !! k = Some st -> loc_at (S k) = st_sequence st.
Proof.
  intros Hk. pose proof (lookup_lt_Some _ _ _ Hk). unfold loc_at, locs. cbn [nth].
  rewrite app_nth1 by (rewrite length_map; lia). rewrite nth_lookup, list_lookup_fmap, Hk. done.
Qed.

Lemma loc_at_last : loc_at (S n) = cs.
Proof. unfold loc_at, locs. cbn [nth]. rewrite app_nth2 by (rewrite length_map; lia). rewrite length_map, Nat.sub_diag. done. Qed.

Context (Hwf : chain_wf).

Lemma loc_at_inj i j : (i <= S n)%nat -> (j <= S n)%nat -> loc_at i = loc_at j -> i = j.
Proof.
  intros Hi Hj E. apply (NoDup_lookup locs i j (loc_at i)); [apply Hwf | by apply loc_at_lookup | rewrite E; by apply loc_at_lookup].
Qed.

Lemma order_one k w : placed w -> (k <= n)%nat -> position (S k) w <= position k w.
Proof. intros Hp Hk. pose proof (pl_order _ Hp) as Ho. rewrite Forall_forall in Ho. apply Ho, elem_of_seq. lia. Qed.

Lemma order i j w : placed w -> (i <= j <= S n)%nat -> position j w <= position i w.
Proof.
  intros Hp [Hij Hj]. induction Hij as [|j Hij IH]; [lia|]. etrans; [apply order_one; [done | lia] | apply IH; lia].
Qed.

(** The positions all lie within one lap of the last consumer. *)
Lemma position_lap k w : placed w -> (k <= S n)%nat -> position (S n) w <= position k w <= position (S n) w + N.
Proof.
  intros Hp Hk. pose proof (order k (S n) w Hp ltac:(lia)). pose proof (order O k w Hp ltac:(lia)). pose proof (pl_lap _ Hp). lia.
Qed.

Lemma reached_upstream k v w : (k <= n)%nat -> reached (cursor b) (upstream k) v w <-> v <= position k w.
Proof.
  intros Hk. unfold position. destruct k as [|k]; cbn [upstream reached]; [done|]. split; [intros H; by apply H, list_elem_of_singleton|].
  by intros H d ->%list_elem_of_singleton.
Qed.

(** The sequences available to the last consumer. *)
Lemma available_position q w : placed w -> available b w q <-> q <= position n w.
Proof.
  intros Hp. unfold available. rewrite (cw_single Hwf), (cw_deps Hwf). cbn [published]. rewrite (pl_cursor _ Hp).
  change (seq_at w (cursor b)) with (position O w). destruct n as [|m] eqn:Hn; cbn [upstream].
  - split; [by intros [] | by split].
  - rewrite Forall_singleton. split; [by intros []|]. intros Hq. split; [|done].
    pose proof (order O (S m) w Hp ltac:(lia)). unfold position in *. lia.
Qed.

(** *** A stage's turn keeps the invariant *)

Section Move.
Context (k : nat) (st : Stage T) w w' (Hk : sts !! k = Some st) (Hs : standing w) (Hp : placed w).
Context (Hm : stage_moved st w w').
Let c := position (S k) w.
Let c' := position (S k) w'.

Lemma move_k : (k < n)%nat.
Proof. by apply lookup_lt_Some in Hk. Qed.

Lemma move_other i : (i <= S n)%nat -> i <> S k -> position i w' = position i w.
Proof.
  intros Hi Hne. pose proof move_k. unfold position. apply (sm_other _ _ _ Hm). rewrite <- (loc_at_stage k st Hk).
  intros E. apply Hne, loc_at_inj; (done || lia).
Qed.

Lemma move_own : c <= c' <= position k w.
Proof.
  pose proof move_k. unfold c, c', position. rewrite (loc_at_stage k st Hk).
  split; [apply (sm_own _ _ _ Hm)|]. destruct (sm_reached _ _ _ Hm) as [->|Hre].
  - rewrite <- (loc_at_stage k st Hk). apply (order_one k w Hp). lia.
  - destruct (cw_stage Hwf k st Hk). rewrite sw_cursor0, sw_deps0 in Hre. apply reached_upstream in Hre; [done | lia].
Qed.

Lemma move_placed : placed w'.
Proof.
  pose proof move_k. pose proof move_own. destruct (sm_steady _ _ _ Hm).
  pose proof (move_other O ltac:(lia) ltac:(lia)) as Hzero. pose proof (move_other (S n) ltac:(lia) ltac:(lia)) as Hlast.
  constructor; rewrite ?sd_single0, ?Hzero, ?Hlast; try apply Hp.
  apply Forall_forall. intros j Hj%elem_of_seq. pose proof (order_one j w Hp ltac:(lia)) as Hj1.
  destruct (decide (j = S k)) as [->|Hjk].
  - rewrite (move_other (S (S k))) by lia. unfold c, c' in *. lia.
  - rewrite (move_other j) by lia. destruct (decide (j = k)) as [->|]; [unfold c' in *; lia|]. rewrite (move_other (S j)) by lia. done.
Qed.

(** What the slots of the lap hold afterwards. *)
Lemma move_get q :
  position (S n) w < q <= position (S n) w + N ->
  RingBuffer.get (w_ring w') q =
    if decide (c < q <= c') then st_apply st q <$> RingBuffer.get (w_ring w) q else RingBuffer.get (w_ring w) q.
Proof.
  intros Hq. pose proof move_k. pose proof move_own.
  pose proof (position_lap (S k) w Hp ltac:(lia)). pose proof (position_lap k w Hp ltac:(lia)).
  assert (Hsz : RingBuffer.buffer_size (w_ring w) = N) by (rewrite (sg_ring _ Hs); apply (pl_size _ Hp)).
  unfold c, c' in *. unfold position in *. rewrite (loc_at_stage k st Hk) in *.
  apply (po_get _ _ _ _ _ (sm_ring _ _ _ Hm)). rewrite Hsz. lia.
Qed.

Lemma move_data : data w -> data w'.
Proof.
  pose proof move_k. pose proof move_own as Ho. intros Hd j q Hj Hq.
  assert (Hmade : made (S k) q = st_apply st q (made k q)) by (cbn [made]; by rewrite Hk).
  pose proof (position_lap (S j) w Hp ltac:(lia)). pose proof (position_lap j w Hp ltac:(lia)).
  destruct (decide (j = k)) as [->|Hjk].
  { rewrite (move_other k) in Hq by lia. fold c' in Hq. rewrite move_get by (unfold c in *; lia). rewrite decide_False by lia.
    apply Hd; unfold c in *; lia. }
  assert (HSj : position (S j) w' = position (S j) w) by (apply move_other; lia). rewrite HSj in Hq.
  destruct (decide (j = S k)) as [->|HjSk].
  { fold c' in Hq. pose proof (position_lap k w Hp ltac:(lia)). rewrite move_get by lia. destruct (decide (c < q <= c')).
    - rewrite (Hd k q) by (unfold c in *; lia). by rewrite Hmade.
    - apply Hd; unfold c in *; lia. }
  rewrite (move_other j) in Hq by lia. rewrite move_get by lia. rewrite decide_False; [by apply Hd|].
  destruct (Nat.lt_ge_cases j k).
  - pose proof (order (S j) k w Hp ltac:(lia)). lia.
  - pose proof (order (S k) j w Hp ltac:(lia)). unfold c in *. lia.
Qed.

Lemma move_standing : standing w'.
Proof.
  destruct Hs as [Hi Hw Hn Hmx Hr]. destruct (sm_steady _ _ _ Hm). pose proof move_k.
  assert (Hcur : seq_at w' (sp_cursor (w_single w)) = seq_at w (sp_cursor (w_single w))).
  { rewrite (pl_cursor _ Hp). apply (move_other O); lia. }
  constructor; rewrite ?sd_single0; try done.
  - destruct Hi. constructor; rewrite ?sd_single0; try done. intros l Hl. etrans; [by apply inv_gating|].
    destruct (decide (l = st_sequence st)) as [->|]; [apply (sm_own _ _ _ Hm) | by rewrite (sm_other _ _ _ Hm)].
  - apply (po_wf _ _ _ _ _ (sm_ring _ _ _ Hm)).
  - unfold cursor_value. by rewrite sd_single0, Hcur.
  - rewrite (po_size _ _ _ _ _ (sm_ring _ _ _ Hm)). done.
Qed.

Lemma move_J : J w -> J w'.
Proof. intros (_ & _ & Hd). split_and!; [apply move_standing | apply move_placed | by apply move_data]. Qed.

End Move.

(** *** What the last consumer relies on *)

Lemma front_position w : front cs w = position (S n) w + 1.
Proof. unfold front, position. by rewrite loc_at_last. Qed.

(** The barrier of the last consumer, when the cursor stays and the others move up. *)
Lemma steady_barrier_rely w w' :
  steady w w' -> placed w' -> seq_at w' (sp_cursor (w_single w)) = seq_at w (sp_cursor (w_single w)) ->
  (forall l, seq_at w l <= seq_at w' l) -> barrier_rely b (front cs w) w w'.
Proof.
  intros [] Hp Hc Hmono. pose proof (cw_single Hwf) as Hsg.
  constructor; rewrite ?Hsg; [|done|].
  - constructor; rewrite ?Hsg; unfold view_wf, cursor_loc, Sequencer.buffer_size, published; rewrite ?sd_single0; try done. by rewrite Hc.
  - intros [Hof Hvw Hd Hl Hm]. rewrite Hsg in *. destruct Hof as [Hof1 Hof2]. rewrite Hsg in Hof1, Hof2. cbn in Hof1, Hl.
    constructor; rewrite ?Hsg; cbn; rewrite ?sd_single0, ?Hof1, ?Hc, <- ?Hof1; try done.
    + by split; rewrite ?Hsg; cbn; rewrite ?sd_single0.
    + intros Hne. rewrite (cw_deps Hwf) in Hne |- *. destruct n as [|m] eqn:En; [done|]. exists (loc_at (S m)).
      split; [by apply list_elem_of_singleton|]. rewrite Hof1, <- Hc, <- Hof1. apply (order O (S m) w' Hp). lia.
Qed.

Lemma stage_moved_rely k st w w' :
  sts !! k = Some st -> standing w -> placed w -> stage_moved st w w' -> engine_rely (made n) b cs J w w'.
Proof.
  intros Hk Hs Hp Hm. pose proof (move_k k st Hk) as Hkn.
  pose proof (move_placed k st w w' Hk Hp Hm) as Hp'. pose proof (move_own k st w w' Hk Hp Hm) as Ho. cbv zeta in Ho.
  pose proof (move_other k st w w' Hk Hm) as Hot. pose proof (move_get k st w w' Hk Hs Hp Hm) as Hget. cbv zeta in Hget.
  assert (Hsz : Sequencer.buffer_size (Barrier.sequencer b) w = N) by (rewrite (cw_single Hwf); apply (pl_size _ Hp)).
  assert (Hw : forall q, in_window b cs w q -> position (S n) w < q <= position (S n) w + N).
  { intros q Hq. unfold in_window in Hq. rewrite front_position, Hsz in Hq. lia. }
  assert (Hcs : seq_at w' cs = seq_at w cs).
  { rewrite <- loc_at_last. apply (Hot (S n)); lia. }
  constructor.
  - apply steady_barrier_rely; [apply Hm | done | rewrite (pl_cursor _ Hp); apply (Hot O); lia |].
    intros l. destruct (decide (l = st_sequence st)) as [->|]; [apply (sm_own _ _ _ Hm) | by rewrite (sm_other _ _ _ Hm)].
  - done.
  - rewrite (cw_single Hwf). cbn. by rewrite (sd_single _ _ (sm_steady _ _ _ Hm)).
  - intros _. apply (po_wf _ _ _ _ _ (sm_ring _ _ _ Hm)).
  - apply (po_size _ _ _ _ _ (sm_ring _ _ _ Hm)).
  - by apply (move_J k st).
  - intros q Hq Hav. apply available_position in Hav; [|done]. rewrite Hget by auto.
    rewrite decide_False; [done|]. pose proof (order (S k) n w Hp ltac:(lia)). lia.
  - intros (_ & _ & Hd) q Hq Hn Hav. rewrite available_position in Hn, Hav by done.
    assert (Hkn' : n = S k).
    { destruct (decide (n = S k)) as [|Hne]; [done|]. rewrite (Hot n) in Hav by lia. lia. }
    rewrite Hkn' in Hav, Hn |- *. rewrite Hget by auto. rewrite decide_True by lia. rewrite (Hd k q) by lia. cbn [made]. by rewrite Hk.
Qed.

(** A turn of stage [k]. *)
Definition stage_turn (k : nat) w : W :=
  match sts !! k with
  | Some st => match stage_step st (seq_at w (st_sequence st) +! 1) idle 0%nat w with Done _ _ w' => w' | _ => w end
  | None => w
  end.

Lemma stage_barrier_ok k st w : sts !! k = Some st -> standing w -> placed w -> barrier_ok (st_barrier st) (position (S k) w + 1) w.
Proof.
  intros Hk Hs Hp. pose proof (move_k k st Hk) as Hkn. destruct (cw_stage Hwf k st Hk).
  pose proof (position_lap (S k) w Hp ltac:(lia)) as Hlap. pose proof (position_lap O w Hp ltac:(lia)).
  constructor; unfold barrier_of, view_wf; rewrite ?sw_single0, ?sw_cursor0, ?sw_contiguity0, ?sw_deps0; cbn [cursor_loc Sequencer.buffer_size].
  - by rewrite (pl_cursor _ Hp).
  - done.
  - intros Hne. destruct k as [|k]; [done|]. exists (loc_at (S k)). split; [by apply list_elem_of_singleton|]. apply (order O (S k) w Hp). lia.
  - rewrite (pl_size _ Hp). change (seq_at w (cursor b)) with (position O w). pose proof (pl_lap _ Hp). lia.
  - pose proof (sg_next _ Hs) as Hn. unfold cursor_value in Hn. rewrite (pl_cursor _ Hp) in Hn. rewrite Hn. apply (sg_max _ Hs).
Qed.

Lemma stage_turn_rely k w : standing w -> placed w -> engine_rely (made n) b cs J w (stage_turn k w).
Proof.
  intros Hs Hp. unfold stage_turn. destruct (sts !! k) as [st|] eqn:Hk; [|reflexivity].
  pose proof (move_k k st Hk) as Hkn. pose proof (cw_stage Hwf k st Hk) as [].
  assert (Hpos : seq_at w (st_sequence st) = position (S k) w) by (unfold position; by rewrite (loc_at_stage k st Hk)).
  pose proof (position_lap (S k) w Hp ltac:(lia)) as Hlap. pose proof (pl_low _ Hp) as Hlow.
  pose proof (stage_barrier_ok k st w Hk Hs Hp) as Hok. pose proof (reached_upstream O (position (S k) w) w ltac:(lia)) as _.
  pose proof (order O (S k) w Hp ltac:(lia)) as Hle. pose proof (bo_max _ _ _ Hok) as Hmax. rewrite sw_cursor0 in Hmax.
  change (seq_at w (cursor b)) with (position O w) in Hmax. rewrite Hpos. nowrap.
  assert (Hbs : RingBuffer.buffer_size (w_ring w) = N) by (rewrite (sg_ring _ Hs); apply (pl_size _ Hp)).
  assert (Hwp : wp resting (stage_step st (position (S k) w + 1)) (fun _ w' => stage_moved st w w') w).
  { rewrite <- Hpos. apply wp_stage_step; rewrite ?Hpos, ?Hbs, ?sw_single0; try done; [apply (sg_wf _ Hs) | lia | apply (pl_size _ Hp)]. }
  specialize (Hwp idle 0%nat ltac:(by intros i x)).
  destruct (stage_step st (position (S k) w + 1) idle 0%nat w) as [r k' w'| |]; [|reflexivity|reflexivity].
  by apply (stage_moved_rely k st).
Qed.

(** *** A call of the producer keeps it too *)

(** What the chain sees of a call: nothing, or one more published event. *)
Record call_effect w w' : Prop := {
  ce_standing : standing w';
  ce_size : sp_buffer_size_i64 (w_single w') = sp_buffer_size_i64 (w_single w);
  ce_cursor : sp_cursor (w_single w') = sp_cursor (w_single w);
  ce_gating : sp_gating_sequences (w_single w') = sp_gating_sequences (w_single w);
  ce_other : forall l, l <> sp_cursor (w_single w) -> seq_at w' l = seq_at w l;
  ce_moved : (w_ring w' = w_ring w /\ seq_at w' (sp_cursor (w_single w)) = seq_at w (sp_cursor (w_single w))) \/
             (let s := seq_at w (sp_cursor (w_single w)) + 1 in
              seq_at w' (sp_cursor (w_single w)) = s /\ RingBuffer.set (w_ring w) s (val s) = Some (w_ring w') /\
              forall l, l ∈ sp_gating_sequences (w_single w) -> s - sp_buffer_size_i64 (w_single w) <= seq_at w l)
}.

Lemma quiet_standing w w' :
  standing w -> quiet w w' -> sp_next_value (w_single w') = sp_next_value (w_single w) -> standing w'.
Proof.
  intros [] [Hi Hb [] Hs] Hn. constructor; rewrite ?ut_ring, ?Hb, ?Hn; try done. unfold cursor_value. by rewrite ut_cursor, Hs.
Qed.

Lemma called_effect w w' : ready w -> called val w w' -> call_effect w w'.
Proof.
  intros Hr [[Hq Hn]|(w1 & rb' & f & Hq & Hn & Hfree & Hset & ->)].
  - pose proof (quiet_standing w w' (ready_standing w Hr) Hq Hn). destruct Hq as [Hi Hb Hu Hs]. destruct Hu. constructor; auto.
  - destruct Hq as [Hi Hb Hu Hs]. destruct Hu. set (s := sp_next_value (w_single w) + 1) in *.
    assert (Hc : seq_at w (sp_cursor (w_single w)) + 1 = s) by (pose proof (rd_cursor _ Hr) as Hcv; unfold cursor_value in Hcv; lia).
    set (w' := upd_wait _ _). assert (Hcur : seq_at w' (sp_cursor (w_single w)) = s) by apply seq_at_set_eq.
    assert (Hot : forall l, l <> sp_cursor (w_single w) -> seq_at w' l = seq_at w l) by (intros l Hl; etrans; [|apply Hs]; by apply (seq_at_set_ne _ l s (upd_ring (fun _ => rb') w1))).
    destruct (set_frame (w_ring w) s (val s) (rd_wf _ Hr)) as (rb2 & Hset2 & Hwf2 & Hsz2 & _). rewrite Hset in Hset2. injection Hset2 as <-.
    constructor; try done.
    + destruct Hi. constructor; try done.
      * constructor; try done. intros l Hl. change (l ∈ sp_gating_sequences (w_single w1)) in Hl.
        rewrite Hot; [rewrite <- Hs; by apply inv_gating|]. intros ->. rewrite ut_cursor in inv_cursor. by apply inv_cursor.
      * unfold cursor_value. change (w_single w') with (w_single w1). rewrite ut_cursor, Hcur. done.
      * change (w_single w') with (w_single w1). rewrite Hn. apply (rd_max _ Hr).
      * change (w_single w') with (w_single w1). change (w_ring w') with rb'. rewrite Hsz2, Hb. apply (rd_ring _ Hr).
    + right. cbv zeta. rewrite Hc. split_and!; [done | done |]. intros l Hl. rewrite <- Hs, <- Hb. apply Hfree. by rewrite ut_gating.
Qed.

Section CallMove.
Context w w' (Hs : standing w) (Hp : placed w) (Hce : call_effect w w').

Lemma call_other i : (i <= S n)%nat -> i <> O -> position i w' = position i w.
Proof.
  intros Hi Hne. unfold position. apply (ce_other _ _ Hce). rewrite (pl_cursor _ Hp). change (cursor b) with (loc_at O).
  intros E. apply Hne, loc_at_inj; (done || lia).
Qed.

Lemma call_cursor : position O w <= position O w' <= position (S n) w + N.
Proof.
  pose proof (position_lap O w Hp ltac:(lia)) as Hl. unfold position in *. rewrite loc_at_last in *. cbn [loc_at] in *. change (loc_at O) with (cursor b) in *.
  rewrite <- (pl_cursor _ Hp) in *. destruct (ce_moved _ _ Hce) as [[_ ->]|(-> & _ & Hfree)]; [lia|].
  specialize (Hfree cs (pl_gate _ Hp)). rewrite (pl_size _ Hp) in Hfree. lia.
Qed.

Lemma call_placed : placed w'.
Proof.
  pose proof call_cursor. pose proof (call_other (S n) ltac:(lia) ltac:(lia)) as Hlast. destruct Hce.
  constructor; rewrite ?ce_size0, ?ce_cursor0, ?ce_gating0, ?Hlast; try apply Hp; [lia|].
  apply Forall_forall. intros j Hj%elem_of_seq. pose proof (order_one j w Hp ltac:(lia)).
  rewrite (call_other (S j)) by lia. destruct j as [|j]; [lia | by rewrite call_other by lia].
Qed.

(** The slots of what is not released are left alone. *)
Lemma call_get q :
  position (S n) w < q <= position O w' ->
  RingBuffer.get (w_ring w') q = if decide (position O w < q) then Some (val q) else RingBuffer.get (w_ring w) q.
Proof.
  intros Hq. pose proof call_cursor as Hc. unfold position in Hc, Hq |- *. change (loc_at O) with (cursor b) in *.
  rewrite <- (pl_cursor _ Hp) in *. destruct (ce_moved _ _ Hce) as [[-> E]|(E & Hset & _)]; rewrite E in *.
  - rewrite decide_False by lia. done.
  - destruct (set_frame (w_ring w) (seq_at w (sp_cursor (w_single w)) + 1) (val (seq_at w (sp_cursor (w_single w)) + 1)) (sg_wf _ Hs)) as (rb2 & Hset2 & _ & _ & Hown & Hfr).
    rewrite Hset in Hset2. injection Hset2 as <-. destruct (decide (_ < q)).
    + replace q with (seq_at w (sp_cursor (w_single w)) + 1) by lia. done.
    + apply Hfr; [lia|]. rewrite (sg_ring _ Hs), (pl_size _ Hp). lia.
Qed.

Lemma call_data : data w -> data w'.
Proof.
  intros Hd j q Hj Hq. pose proof call_cursor. pose proof (call_other (S j) ltac:(lia) ltac:(lia)) as HSj. rewrite HSj in Hq.
  pose proof (position_lap (S j) w Hp ltac:(lia)). pose proof (order O j w Hp ltac:(lia)).
  destruct j as [|j].
  - rewrite call_get by lia. destruct (decide _); [done | apply (Hd O); lia].
  - rewrite (call_other (S j)) in Hq by lia. rewrite call_get by lia. rewrite decide_False by lia. by apply (Hd (S j)).
Qed.

Lemma call_J : J w -> J w'.
Proof. intros (_ & _ & Hd). split_and!; [apply (ce_standing _ _ Hce) | apply call_placed | by apply call_data]. Qed.

End CallMove.

(** The rely of a consumer right behind the cursor, strengthened to the chain. *)
Lemma called_chain_rely w w' : ready w -> placed w -> called val w w' -> engine_rely (made n) b cs J w w'.
Proof.
  intros Hr Hp Hc. pose proof (ready_standing _ Hr) as Hs. pose proof (called_effect _ _ Hr Hc) as Hce.
  pose proof (called_rely val b cs (cw_single Hwf) w w' Hr (pl_gate _ Hp) Hc) as [].
  pose proof (call_placed w w' Hp Hce) as Hp'.
  constructor; try done; [by apply call_J|]. intros HJ q Hq Hn Hav. pose proof Hn as Hn'. pose proof Hav as Hav'.
  rewrite available_position in Hn', Hav' by done. specialize (er_new I q Hq Hn Hav).
  assert (Hz : n = O).
  { destruct (decide (n = O)) as [|Hne]; [done|]. rewrite (call_other w w' Hp Hce n) in Hav' by lia. lia. }
  rewrite Hz. exact er_new.
Qed.

(** *** The last consumer's own moves *)

(** What the invariant looks at: the sequencer, the sequences and the ring. *)
Lemma J_same w w' : w_single w' = w_single w -> w_seqs w' = w_seqs w -> w_ring w' = w_ring w -> J w -> J w'.
Proof.
  intros E1 E2 E3 ([Hi Hw Hn Hm Hr] & [] & Hd). assert (Hs : forall l, seq_at w' l = seq_at w l) by (intros; unfold seq_at; by rewrite E2).
  assert (Hpos : forall k, position k w' = position k w) by (intros; apply Hs). split_and!.
  - constructor; rewrite ?E1, ?E3; try done.
    + destruct Hi. constructor; rewrite ?E1; try done. intros l Hl. rewrite Hs. by apply inv_gating.
    + unfold cursor_value. by rewrite E1, Hs.
  - constructor; rewrite ?E1, ?Hpos; try done. eapply Forall_impl; [exact pl_order0|]. intros k Hk. cbn beta. by rewrite !Hpos.
  - intros k q Hk Hq. rewrite !Hpos in Hq. rewrite E3. by apply Hd.
Qed.

Lemma in_window_position w q : placed w -> in_window b cs w q -> position (S n) w < q <= position (S n) w + N.
Proof.
  intros Hp Hq. unfold in_window in Hq. rewrite front_position, (cw_single Hwf) in Hq. cbn [Sequencer.buffer_size] in Hq. rewrite (pl_size _ Hp) in Hq. lia.
Qed.

#[global] Instance chain_companion : Companion b cs J.
Proof.
  constructor.
  - intros w d _. by apply J_same.
  - intros w q event rb' ([Hi Hw Hn Hm Hr] & Hp & Hd) Hq Hav Hset. apply in_window_position in Hq; [|done]. apply available_position in Hav; [|done].
    destruct (set_frame (w_ring w) q event Hw) as (rb2 & Hset2 & Hw' & Hs' & _ & Hfr). rewrite Hset in Hset2. injection Hset2 as <-.
    split_and!; [constructor; cbn; try done; [by destruct Hi; constructor | by rewrite Hs'] | by destruct Hp; constructor |].
    intros k q' Hk Hq'. change (position (S k) w < q' <= position k w) in Hq'. cbn [upd_ring w_ring].
    pose proof (order (S k) n w Hp ltac:(lia)). pose proof (position_lap k w Hp ltac:(lia)). pose proof (order O k w Hp ltac:(lia)).
    pose proof (position_lap O w Hp ltac:(lia)). rewrite Hfr; [by apply Hd | lia |]. rewrite Hr, (pl_size _ Hp). lia.
  - intros w v ([Hi Hw Hn Hm Hr] & Hp & Hd) Hv Hav. rewrite front_position in Hv, Hav.
    assert (Hle : v <= position n w).
    { destruct (decide (v <= position (S n) w)); [pose proof (order_one n w Hp ltac:(lia)); lia|].
      apply available_position; [done|]. apply Hav. lia. }
    assert (Hlast : position (S n) (set_seq cs v w) = v) by (unfold position; rewrite loc_at_last; apply seq_at_set_eq).
    assert (Hot : forall k, (k <= n)%nat -> position k (set_seq cs v w) = position k w).
    { intros k Hk. unfold position. apply seq_at_set_ne. rewrite <- loc_at_last. intros E. apply loc_at_inj in E; lia. }
    pose proof (position_lap O w Hp ltac:(lia)) as HlapO.
    assert (Hcur : seq_at (set_seq cs v w) (sp_cursor (w_single w)) = seq_at w (sp_cursor (w_single w))).
    { rewrite (pl_cursor _ Hp). apply (Hot O). lia. }
    split_and!.
    + constructor; try done.
      * destruct Hi. constructor; try done. intros l Hl. etrans; [by apply inv_gating|].
        destruct (decide (l = cs)) as [->|]; [|by rewrite seq_at_set_ne].
        rewrite seq_at_set_eq. unfold position in Hv. rewrite loc_at_last in Hv. lia.
      * change (cursor_value (set_seq cs v w)) with (seq_at (set_seq cs v w) (sp_cursor (w_single w))). rewrite Hcur. exact Hn.
    + pose proof Hp as []. constructor; rewrite ?Hlast, ?(Hot O) by lia; try done; [lia | lia |].
      apply Forall_forall. intros k Hk%elem_of_seq. rewrite (Hot k) by lia.
      destruct (decide (k = n)) as [->|]; [by rewrite Hlast | rewrite (Hot (S k)) by lia; apply order_one; [done | lia]].
    + intros k q Hk Hq. rewrite (Hot k), (Hot (S k)) in Hq by lia. by apply Hd.
Qed.

(** ** The chain as the environment of its last consumer *)

Inductive Turn : Type := ProducerCall | StageTurn (k : nat).

(** One call, or one turn, while the sequence space lasts; the test says no more
    than that in a state that satisfies the invariant ([turn_is_made]). *)
Definition chain_turn w (t : Turn) : W :=
  if decide (ready w /\ placed w) then
    match t with
    | ProducerCall => match call val thread_name w idle 0%nat w with Done _ _ w' => w' | _ => w end
    | StageTurn k => stage_turn k w
    end
  else w.

Lemma turn_is_made w : J w -> sp_next_value (w_single w) + 1 < i64_max -> ready w /\ placed w.
Proof. intros (Hs & Hp & _) Hm. split; [by apply standing_ready | done]. Qed.

Lemma chain_turn_rely w t : engine_rely (made n) b cs J w (chain_turn w t).
Proof.
  unfold chain_turn. destruct (decide _) as [[Hr Hp]|]; [|reflexivity].
  destruct t as [|k]; [|by apply stage_turn_rely; [apply ready_standing|]].
  pose proof (wp_call val thread_name w Hr idle 0%nat ltac:(by intros j x)) as Hwp.
  destruct (call val thread_name w idle 0%nat w); [by apply called_chain_rely | done | done].
Qed.

(** Between the last consumer's actions [k] and [k + 1] the turns [script k] are
    made, in this order; from action [k0] on the stop flag [stop] is up. *)
Definition chained (script : nat -> list Turn) (stop : loc) (k0 : nat) : env W := fun k w =>
  let w' := foldl chain_turn w (script k) in
  if (k0 <=? k)%nat then set_flag stop true w' else w'.

Lemma chained_respects script stop k0 : respects (engine_rely (made n) b cs J) (chained script stop k0).
Proof.
  intros k w. unfold chained. etrans.
  - instantiate (1 := foldl chain_turn w (script k)). revert w. induction (script k) as [|t ts IH]; intros w; [reflexivity|].
    cbn [foldl]. etrans; [apply chain_turn_rely | apply IH].
  - destruct (k0 <=? k)%nat; [|reflexivity]. set (w' := foldl _ _ _). constructor; try done; [|by apply J_same].
    constructor; [by constructor | done|]. intros []. by constructor.
Qed.

(** The slots the last consumer may be given hold what the whole chain makes. *)
Definition last_data w : Prop :=
  forall q, position (S n) w < q <= position n w -> RingBuffer.get (w_ring w) q = Some (made n q).

Lemma chain_eng_inv w : J w -> last_data w -> eng_inv (made n) b cs J N (front cs w) w.
Proof.
  intros HJ Hl. pose proof HJ as (Hs & Hp & _). pose proof (cw_single Hwf) as Hsg. pose proof (cw_nodup Hwf) as Hnd.
  assert (Hcur : seq_at w (cursor b) = sp_next_value (w_single w)) by (rewrite <- (sg_next _ Hs); unfold cursor_value; by rewrite (pl_cursor _ Hp)).
  constructor; rewrite ?Hsg; cbn [Sequencer.buffer_size]; try done.
  - constructor; rewrite ?Hsg; cbn [Sequencer.buffer_size].
    + split; rewrite Hsg; [cbn; by rewrite (pl_cursor _ Hp) | apply (cw_contiguity Hwf)].
    + done.
    + intros Hne. rewrite (cw_deps Hwf) in Hne |- *. destruct n as [|m] eqn:En; [done|]. exists (loc_at (S m)).
      split; [by apply list_elem_of_singleton|]. apply (order O (S m) w Hp). lia.
    + rewrite front_position, (pl_size _ Hp). change (seq_at w (cursor b)) with (position O w). pose proof (pl_lap _ Hp). lia.
    + rewrite Hcur. apply (sg_max _ Hs).
  - apply (pl_size _ Hp).
  - rewrite (sg_ring _ Hs). apply (pl_size _ Hp).
  - apply (sg_wf _ Hs).
  - rewrite front_position. pose proof (pl_low _ Hp). lia.
  - intros q Hq Hw Hav. apply Hl. apply available_position in Hav; [|done]. rewrite front_position in Hq. lia.
  - rewrite <- loc_at_last, (cw_deps Hwf). split; [change (cursor b) with (loc_at O); intros E; apply loc_at_inj in E; lia|].
    destruct n as [|m] eqn:En; cbn [upstream]; [by apply not_elem_of_nil|]. intros E%list_elem_of_singleton.
    rewrite <- En in E. apply loc_at_inj in E; lia.
Qed.

Context {H : Type} (hd : EventHandler T H) (eh : option (ExceptionHandler T)) (context : ConsumerContext).
Context (Hret : handler_returns hd) (Heh : decides eh).
Context (Hws : durations_ok (wait_strategy b)) (Hnb : wait_strategy b <> BlockingWaitStrategy).

(** C2: Producer, stages and last consumer together: against the code of the
    producer and of every stage, which make any number of [try_publish] calls and
    loop turns in any order between any two actions of the last consumer, the
    loop of the last consumer returns once its stop flag is up, and its handler
    was called for the published sequences in order, without a gap, each once,
    and with what the stages, one after the other, have made of the value its
    publisher wrote -- never with an event that a stage has not finished. *)
Theorem chain_end_to_end script stop k0 fuel h w :
  J w -> last_data w -> (Z.to_nat N < fuel)%nat -> (k0 < fuel)%nat ->
  exists h' log k' w',
    run_sequential_batch_loop_impl (logged eh hd) eh b cs (External stop) context fuel (h, [])
      (chained script stop k0) 0%nat w = Done (h', log) k' w' /\
    consumed (made n) b cs (seq_at w cs) [] log w'.
Proof.
  intros HJ Hl Hf Hk. pose proof (chain_eng_inv w HJ Hl) as Hi. pose proof HJ as (Hs & Hp & _).
  assert (Hmax : seq_at w cs < i64_max).
  { rewrite <- loc_at_last. fold (position (S n) w). pose proof (order O (S n) w Hp ltac:(lia)) as Ho. pose proof (sg_max _ Hs).
    pose proof (sg_next _ Hs) as Hn. unfold cursor_value in Hn. rewrite (pl_cursor _ Hp) in Hn. unfold position in *. change (loc_at O) with (cursor b) in Ho. lia. }
  apply (sequential_loop_ends (made n) b cs J hd eh (External stop) context Hret Heh Hws Hnb _ (chained_respects script stop k0) k0) with (N := N); try done.
  intros j x Hj. unfold chained. destruct (Nat.leb_spec k0 j); [apply flag_at_set_eq | lia].
Qed.

End Chain.
