(* ===== verification/Handle.v ===== *)
(** * Handle: the runtime handle of a built pipeline (disruptor/builder/handle.rs,
    builder/core.rs)

    [DisruptorHandle] owns the core and a producer.  Publishing goes through the
    producer until the handle is shut down; [halt], [shutdown],
    [shutdown_timeout] and [Drop] take the pipeline down once, [into_producer]
    stops the consumers and gives the producer away with the claim path open. *)
From S2P Require Import Prelude Effects Errors World Sequence Gating Single Multi Availability Sequencer.
From S2P Require Import Waiting WaitStrategy Barrier ConsumerEngine Threads Core Producer.

(** [DisruptorHandle] (the producer mode is the variant of the core's
    sequencer). *)
Record DisruptorHandle : Type := mkHandle {
  handle_core : DisruptorCore;
  handle_producer : SimpleProducer;
  is_shutdown : bool
}.

(** [DisruptorCore::create_producer] *)
Definition core_create_producer (core : DisruptorCore) : SimpleProducer := Producer.new (core_sequencer core).

(** [DisruptorCore::take_initial_producer]: the capability leaves the core. *)
Definition take_initial_producer (core : DisruptorCore) : SimpleProducer * DisruptorCore :=
  if unique_producer_capability core then
    (Producer.new_unique,
     mkCore (core_sequencer core) false (consumers core) (shutdown_flag core) (core_gating core))
  else (core_create_producer core, core).

(** [DisruptorHandle::new] *)
Definition handle_new (core : DisruptorCore) : DisruptorHandle :=
  let '(producer, core) := take_initial_producer core in mkHandle core producer false.

(** [consumer_count] *)
Definition consumer_count (h : DisruptorHandle) : nat := length (consumers (handle_core h)).

Section Handle.
Context {T : Type} (current_thread_name : string).
Abbreviation W := (World T).
Implicit Types (w : W) (h : DisruptorHandle).

(** The four publishing methods. *)
Definition handle_publish (fuel : nat) h (u : update T) : M W (result Z DisruptorError) :=
  if is_shutdown h then ret (Err Shutdown) else Producer.publish current_thread_name fuel (handle_producer h) u.
Definition handle_try_publish h (u : update T) : M W (result Z TryPublishError) :=
  if is_shutdown h then ret (Err TryShutdown) else Producer.try_publish current_thread_name (handle_producer h) u.
Definition handle_batch_publish (fuel : nat) h (n : Z) (u : batch_update T) : M W (result Z DisruptorError) :=
  if is_shutdown h then ret (Err Shutdown) else Producer.batch_publish current_thread_name fuel (handle_producer h) n u.
Definition handle_try_batch_publish (fuel : nat) h (n : Z) (u : batch_update T) : M W (result Z TryPublishError) :=
  if is_shutdown h then ret (Err TryShutdown) else Producer.try_batch_publish current_thread_name fuel (handle_producer h) n u.

(** [shutdown_timeout] *)
Definition shutdown_timeout (fuel : nat) h (timeout : Z) : M W (result unit DisruptorError * DisruptorHandle) :=
  if is_shutdown h then ret (Ok tt, h) else
  let* (r, core) := shutdown_with_timeout fuel (handle_core h) (Some timeout) in
  ret (r, mkHandle core (handle_producer h) true).

(** [shutdown] *)
Definition handle_shutdown (fuel : nat) h : M W DisruptorHandle :=
  if is_shutdown h then ret h else
  let* (_, core) := shutdown_with_timeout fuel (handle_core h) None in
  ret (mkHandle core (handle_producer h) true).

(** [halt] *)
Definition handle_halt (fuel : nat) h : M W DisruptorHandle :=
  if is_shutdown h then ret h else
  let* core := Core.halt fuel (handle_core h) in
  ret (mkHandle core (handle_producer h) true).

(** [Drop for DisruptorHandle]: a bounded drain of two seconds. *)
Definition drop_handle (fuel : nat) h : M W DisruptorHandle :=
  if is_shutdown h then ret h else
  let* (_, h) := shutdown_timeout fuel h 2000000000 in ret h.

(** [into_producer]: the consumers are stopped, the producer moves out and a
    fresh one takes its place; then the handle, shut down, is dropped. *)
Definition into_producer (fuel : nat) h : M W SimpleProducer :=
  let* core := stop_consumers_keep_claims fuel (handle_core h) in
  let placeholder := core_create_producer core in
  let* _ := drop_handle fuel (mkHandle core placeholder true) in
  ret (handle_producer h).

(** [is_poisoned], [first_failure], [is_claim_closed] *)
Definition handle_is_poisoned h : M W bool := Sequencer.is_poisoned (dispatch (core_sequencer (handle_core h))).
Definition handle_first_failure h : M W (option FailureRecord) :=
  Sequencer.first_failure (dispatch (core_sequencer (handle_core h))).
Definition is_claim_closed h : M W bool := Sequencer.is_closed (dispatch (core_sequencer (handle_core h))).

(** [CloneableProducer] (builder/fluent.rs): a checked producer whose copies
    share the pipeline. *)
Record CloneableProducer : Type := mkCloneable { cp_producer : SimpleProducer }.

(** [CloneableProducer::new] and [DisruptorHandle::cloneable_producer] *)
Definition cloneable_new (sq : SequencerEnum) : CloneableProducer := mkCloneable (Producer.new sq).
Definition cloneable_producer h : CloneableProducer := cloneable_new (core_sequencer (handle_core h)).

(** [Clone for CloneableProducer] and [create_producer] *)
Definition cloneable_clone (c : CloneableProducer) : CloneableProducer := mkCloneable (duplicate_for_multi (cp_producer c)).
Definition cloneable_create_producer (c : CloneableProducer) : SimpleProducer := duplicate_for_multi (cp_producer c).

(** Its publishing methods go through a duplicate. *)
Definition cloneable_publish (fuel : nat) (c : CloneableProducer) (u : update T) : M W (result Z DisruptorError) :=
  Producer.publish current_thread_name fuel (duplicate_for_multi (cp_producer c)) u.
Definition cloneable_try_publish (c : CloneableProducer) (u : update T) : M W (result Z TryPublishError) :=
  Producer.try_publish current_thread_name (duplicate_for_multi (cp_producer c)) u.
Definition cloneable_batch_publish (fuel : nat) (c : CloneableProducer) (n : Z) (u : batch_update T) : M W (result Z DisruptorError) :=
  Producer.batch_publish current_thread_name fuel (duplicate_for_multi (cp_producer c)) n u.
Definition cloneable_try_batch_publish (fuel : nat) (c : CloneableProducer) (n : Z) (u : batch_update T) : M W (result Z TryPublishError) :=
  Producer.try_batch_publish current_thread_name fuel (duplicate_for_multi (cp_producer c)) n u.

(** ** One way down *)

(** A handle as [handle_new] and the stop methods leave it. *)
Record handle_wf h w : Prop := {
  hw_core : core_wf (handle_core h);
  hw_unique : unique_claim (handle_producer h) = true -> core_sequencer (handle_core h) = World.Single;
  hw_stopped : is_shutdown h = true ->
    closed (core_sequencer (handle_core h)) w = true /\ consumers (handle_core h) = [] /\ core_gating (handle_core h) = []
}.

(** Taken down: nothing is left running or gating, and claims are closed. *)
Definition down h h' w' : Prop :=
  is_shutdown h' = true /\ closed (core_sequencer (handle_core h)) w' = true /\
  stopped (handle_core h) w' (handle_core h') /\ handle_producer h' = handle_producer h.

Lemma stopped_wf core w core' : stopped core w core' -> consumers core' = [] /\ core_gating core' = [] /\
  core_sequencer core' = core_sequencer core /\ core_wf core'.
Proof. intros [-> _ _ _]. by split_and!. Qed.

Lemma down_wf h h' w w' : handle_wf h w -> down h h' w' -> handle_wf h' w'.
Proof.
  intros [Hc Hu Hs] (Hsd & Hcl & Hst & Hp). destruct (stopped_wf _ _ _ Hst) as (H1 & H2 & H3 & H4).
  constructor; [done | by rewrite H3, Hp | by rewrite H3].
Qed.

(** How the memory moves while a handle goes down. *)
Abbreviation Gh h := (core_grow (core_sequencer (handle_core h)) (shutdown_flag (handle_core h))).
Abbreviation Rh h := (core_rely (core_sequencer (handle_core h)) (shutdown_flag (handle_core h))).

Lemma wpx_shutdown_timeout fuel h timeout w :
  handle_wf h w -> is_shutdown h = false ->
  wpx (Rh h) (shutdown_timeout fuel h timeout)
    (fun r w' => Gh h w w' /\ down h r.2 w' /\ drain_outcome (handle_core h) (Some timeout) w r.1 w')
    (left_running (handle_core h) (Some timeout) w) w.
Proof.
  intros Hwf Hs. unfold shutdown_timeout. rewrite Hs. apply wpx_bind.
  eapply wpx_mono; [apply wpx_shutdown, Hwf|]. intros [r core'] w' (Hg & Hc & Hst & Ho). by apply wpx_ret.
Qed.

(** What a stop method does to a running handle, whichever it is. *)
Inductive Stop : Type :=
| SShutdown
| SShutdownTimeout (timeout : Z)
| SHalt
| SDrop.

Definition stop_with (s : Stop) (fuel : nat) h : M W DisruptorHandle :=
  match s with
  | SShutdown => handle_shutdown fuel h
  | SShutdownTimeout timeout => let* (_, h) := shutdown_timeout fuel h timeout in ret h
  | SHalt => handle_halt fuel h
  | SDrop => drop_handle fuel h
  end.

(** The timeout it drains with. *)
Definition stop_timeout (s : Stop) : option Z :=
  match s with
  | SShutdown | SHalt => None
  | SShutdownTimeout timeout => Some timeout
  | SDrop => Some 2000000000
  end.

Lemma wpx_stop_with s fuel h w :
  handle_wf h w -> is_shutdown h = false ->
  wpx (Rh h) (stop_with s fuel h) (fun h' w' => Gh h w w' /\ down h h' w')
    (left_running (handle_core h) (stop_timeout s) w) w.
Proof.
  intros Hwf Hs. destruct s; cbn [stop_with stop_timeout].
  - unfold handle_shutdown. rewrite Hs. apply wpx_bind. eapply wpx_mono; [apply wpx_shutdown, Hwf|].
    intros [r core'] w' (Hg & Hc & Hst & _). by apply wpx_ret.
  - apply wpx_bind. eapply wpx_mono; [by apply wpx_shutdown_timeout|]. intros [r h'] w' (Hg & Hd & _). by apply wpx_ret.
  - apply wpx_wp. unfold handle_halt. rewrite Hs. wp_steps. eapply wp_mono; [apply wp_halt, Hwf|].
    intros core' w' (Hg & Hc & Hst). by wp_steps.
  - unfold drop_handle. rewrite Hs. apply wpx_bind. eapply wpx_mono; [by apply wpx_shutdown_timeout|].
    intros [r h'] w' (Hg & Hd & _). by apply wpx_ret.
Qed.

(** A handle that refuses everything without touching the memory. *)
Record inert h : Prop := {
  in_stop : forall s fuel, stop_with s fuel h = ret h;
  in_timeout : forall fuel t, shutdown_timeout fuel h t = ret (Ok tt, h);
  in_publish : forall fuel u, handle_publish fuel h u = ret (Err Shutdown);
  in_try_publish : forall u, handle_try_publish h u = ret (Err TryShutdown);
  in_batch : forall fuel n u, handle_batch_publish fuel h n u = ret (Err Shutdown);
  in_try_batch : forall fuel n u, handle_try_batch_publish fuel h n u = ret (Err TryShutdown)
}.

Lemma shutdown_inert h : is_shutdown h = true -> inert h.
Proof.
  intros Hs. constructor; intros;
    unfold shutdown_timeout, handle_publish, handle_try_publish, handle_batch_publish, handle_try_batch_publish; rewrite ?Hs; try done.
  destruct s; cbn [stop_with]; unfold handle_shutdown, shutdown_timeout, handle_halt, drop_handle; by rewrite Hs.
Qed.

(** A fresh handle over a built core is well-formed. *)
Lemma handle_new_wf core w :
  core_wf core -> (unique_producer_capability core = true -> core_sequencer core = World.Single) ->
  handle_wf (handle_new core) w /\ is_shutdown (handle_new core) = false.
Proof.
  intros Hwf Hu. unfold handle_new, take_initial_producer. destruct (unique_producer_capability core) eqn:Hc;
    (split; [constructor|]; try done); intros _; by apply Hu.
Qed.

(** Every way of stopping a handle ([shutdown], [shutdown_timeout], [halt],
    [Drop]) that returns leaves it down whatever the other threads do
    meanwhile: claims closed, consumers told and joined, their sequences out of
    the gating set, the handle still well-formed; and a handle that is down
    refuses to publish with [Shutdown], and stopping it again does nothing,
    without touching the memory.  The one panic is that of a timeout without a
    representable deadline: claims are closed and the consumers left running. *)
Theorem handle_lifecycle s fuel h w :
  handle_wf h w ->
  wpx (Rh h) (stop_with s fuel h)
    (fun h' w' => closed (core_sequencer (handle_core h)) w' = true /\ consumer_count h' = 0%nat /\
       (is_shutdown h = false -> down h h' w') /\ handle_wf h' w' /\ inert h')
    (fun msg w' => is_shutdown h = false /\ left_running (handle_core h) (stop_timeout s) w msg w') w.
Proof.
  intros Hwf. unfold consumer_count. destruct (is_shutdown h) eqn:Hs.
  - destruct (hw_stopped _ _ Hwf Hs) as (Hc & Hcs & _). pose proof (shutdown_inert h Hs) as Hin.
    rewrite (in_stop _ Hin). apply wpx_ret. by rewrite Hcs.
  - eapply wpx_conseq; [by apply wpx_stop_with | |by intros]. intros h' w' [_ Hd]. pose proof (down_wf _ _ _ _ Hwf Hd) as Hwf'.
    destruct Hd as (Hs' & Hc & Hst & Hp). destruct (hw_stopped _ _ Hwf' Hs') as (_ & Hcs & _). rewrite Hcs.
    split_and!; [done | done | done | done | by apply shutdown_inert].
Qed.

(** ** Giving the producer away *)

(** Meanwhile nobody closes or opens the claim path. *)
Definition claims_rely sq sd w w' : Prop := core_rely sq sd w w' /\ closed sq w' = closed sq w.

Lemma keeps_closed_stop fuel core c :
  keeps (claims_rely (core_sequencer core) (shutdown_flag core)) (fun w => closed (core_sequencer core) w = c)
    (stop_consumers_keep_claims fuel core).
Proof.
  assert (Hst : stable (claims_rely (core_sequencer core) (shutdown_flag core)) (fun w => closed (core_sequencer core) w = c)).
  { intros x y Hx [_ Hy]. congruence. }
  assert (Hrec : forall f, keeps (claims_rely (core_sequencer core) (shutdown_flag core))
            (fun w => closed (core_sequencer core) w = c) (Sequencer.record_failure (dispatch (core_sequencer core)) f)).
  { intros f. destruct (core_sequencer core); cbn; unfold Single.record_failure, Multi.record_failure;
      apply keeps_store; try done; intros w Hw; cbn in *; [by destruct (sp_first_failure _) | by destruct (mp_first_failure _)]. }
  assert (Hrem : forall s, keeps (claims_rely (core_sequencer core) (shutdown_flag core))
            (fun w => closed (core_sequencer core) w = c) (Sequencer.remove_gating_sequence (dispatch (core_sequencer core)) fuel s)).
  { intros s. rewrite dispatch_remove. unfold remove_gating_sequence_cas, compare_and_swap. keeps. intros w Hw. cbn.
    case_decide; [|done]. unfold set_gating. by destruct (core_sequencer core). }
  unfold stop_consumers_keep_claims, join_consumer, join. keeps; auto.
Qed.

(** [into_producer] stops and joins the consumers, takes their sequences out of
    the gating set, and gives back the handle's own producer with the claim
    path as it was: the returned producer can go on publishing, gated by none
    of the stopped consumers. *)
Theorem into_producer_keeps_claims fuel h w :
  handle_wf h w ->
  wp (claims_rely (core_sequencer (handle_core h)) (shutdown_flag (handle_core h))) (into_producer fuel h)
    (fun p w' => p = handle_producer h /\
       closed (core_sequencer (handle_core h)) w' = closed (core_sequencer (handle_core h)) w /\
       joined (consumers (handle_core h)) w' /\
       (forall s, s ∈ core_gating (handle_core h) -> s ∉ gating (core_sequencer (handle_core h)) w')) w.
Proof.
  intros Hwf. unfold into_producer. wp_steps.
  eapply wp_mono; [apply wp_and; [by apply (keeps_closed_stop fuel (handle_core h) (closed (core_sequencer (handle_core h)) w) w)|]|].
  { eapply wp_rely; [|apply (wp_stop_consumers fuel (handle_core h) w), Hwf]. by intros x y []. }
  intros core' w' [Hc [_ Hst]]. unfold drop_handle. cbn [is_shutdown]. wp_steps.
  split_and!; [done | done | apply (st_joined _ _ _ Hst) | apply (st_released _ _ _ Hst)].
Qed.

(** ** The unique capability *)

(** The ways to come by a producer of a pipeline: the handle's initial one
    ([DisruptorHandle::new]), a checked one of the core ([create_producer], also
    the placeholder of [into_producer]), a [CloneableProducer] of the pipeline
    or of an existing one. *)
Inductive mints : DisruptorCore * list SimpleProducer -> DisruptorCore * list SimpleProducer -> Prop :=
| mint_initial core ps :
    mints (core, ps) ((take_initial_producer core).2, ps ++ [(take_initial_producer core).1])
| mint_create core ps : mints (core, ps) (core, ps ++ [core_create_producer core])
| mint_cloneable core ps : mints (core, ps) (core, ps ++ [cp_producer (cloneable_new (core_sequencer core))])
| mint_duplicate core ps p : p ∈ ps -> mints (core, ps) (core, ps ++ [duplicate_for_multi p]).

(** How many capabilities there are: the core's and the producers'. *)
Definition capabilities (s : DisruptorCore * list SimpleProducer) : nat :=
  ((if unique_producer_capability s.1 then 1 else 0) + length (filter (fun p => unique_claim p = true) s.2))%nat.

Lemma mints_capabilities s s' : mints s s' -> capabilities s' = capabilities s /\ core_sequencer s'.1 = core_sequencer s.1.
Proof.
  assert (Hplain : forall core ps p, unique_claim p = false -> capabilities (core, ps ++ [p]) = capabilities (core, ps)).
  { intros core ps p Hp. unfold capabilities. cbn [fst snd]. rewrite filter_app, length_app, filter_cons_False; [cbn; lia|].
    by rewrite Hp. }
  intros []; cbn [fst]; (split; [|try done]); try (by apply Hplain).
  - unfold take_initial_producer. destruct (unique_producer_capability core) eqn:Hc; cbn [fst snd]; [|by apply Hplain].
    unfold capabilities. cbn [fst snd unique_producer_capability]. rewrite Hc, filter_app, length_app, filter_cons_True by done. cbn. lia.
  - unfold take_initial_producer. by destruct (unique_producer_capability core).
Qed.

(** Every producer belongs to the pipeline. *)
Definition belongs (s : DisruptorCore * list SimpleProducer) : Prop :=
  (unique_producer_capability s.1 = true -> core_sequencer s.1 = World.Single) /\
  forall p, p ∈ s.2 -> sequencer p = core_sequencer s.1.

Lemma mints_belongs s s' : mints s s' -> belongs s -> belongs s'.
Proof.
  assert (Hadd : forall core ps p, belongs (core, ps) -> sequencer p = core_sequencer core -> belongs (core, ps ++ [p])).
  { intros core ps p [H1 H2] Hp. split; [done|]. cbn in *. intros q [Hq|Hq]%elem_of_app; [by apply H2|].
    by apply list_elem_of_singleton in Hq as ->. }
  intros [core ps|core ps|core ps|core ps p Hp] Hb; [|by apply Hadd..|].
  - unfold take_initial_producer. destruct (unique_producer_capability core) eqn:Hc; [|by apply Hadd].
    destruct Hb as [H1 H2]. cbn in *. apply Hadd; [|by rewrite H1]. split; [done|]. cbn. by apply H2.
  - apply Hadd; [done|]. exact (proj2 Hb p Hp).
Qed.

(** The capability of a single-producer pipeline is linear: however producers
    are made and duplicated, at most one of them ever has the unchecked claim
    path, a pipeline without the capability (a multi-producer one) has none,
    and every producer claims from the pipeline's own sequencer. *)
Lemma unique_producer_linear core core' ps :
  (unique_producer_capability core = true -> core_sequencer core = World.Single) ->
  rtc mints (core, []) (core', ps) ->
  (length (filter (fun p => unique_claim p = true) ps) <= if unique_producer_capability core then 1 else 0)%nat /\
  core_sequencer core' = core_sequencer core /\ forall p, p ∈ ps -> sequencer p = core_sequencer core.
Proof.
  intros Hcap Hsteps.
  assert (Hall : forall s s', rtc mints s s' -> belongs s -> capabilities s' = capabilities s /\
            core_sequencer s'.1 = core_sequencer s.1 /\ belongs s').
  { intros s s'. induction 1 as [s|s1 s2 s3 H12 _ IH]; intros Hb; [done|].
    destruct (mints_capabilities _ _ H12) as [H1 H2]. destruct (IH (mints_belongs _ _ H12 Hb)) as (H3 & H4 & H5).
    split_and!; [congruence.. | done]. }
  destruct (Hall _ _ Hsteps) as (H1 & H2 & H3); [split; [done|]; by intros p ?%not_elem_of_nil|].
  unfold capabilities in H1. cbn [fst snd] in *. cbn in H1. split_and!; [lia | done|]. intros p Hp. rewrite <- H2. by apply H3.
Qed.

End Handle.
