(* ===== verification/Pipeline.v ===== *)
(** * Pipeline: from the entry points to a pipeline that is down again
    (disruptor/builder/entry.rs, fluent.rs, handle.rs)

    [build_single_producer] and [build_multi_producer] start a builder, its
    methods register consumers, [build] assembles the core ([Builder]) and
    wraps it in a handle ([Handle]).  The file composes the parts into the life
    of a pipeline. *)
From S2P Require Import Prelude Effects Errors RingBuffer World Sequence Gating Single Multi Availability Sequencer.
From S2P Require Import Waiting WaitStrategy Barrier ConsumerEngine Threads Core Builder Producer Handle.

(** [SingleProducerBuilder] and [MultiProducerBuilder], by [is_multi]; inside a
    [DependentBuilder] is one of the two. *)
Record ProducerBuilder (T Hd : Type) : Type := mkBuilder {
  event_factory : nat -> T;
  is_multi : bool;
  builder_state : TypeState * SharedBuilderState Hd
}.
Arguments mkBuilder {T Hd}.
Arguments event_factory {T Hd} _.
Arguments is_multi {T Hd} _.
Arguments builder_state {T Hd} _.

Section Pipeline.
Context {T Hd : Type}.
Abbreviation W := (World T).
Implicit Types (w : W) (b : ProducerBuilder T Hd) (h : DisruptorHandle).

(** [SingleProducerBuilder::new] and [MultiProducerBuilder::new] *)
Definition single_builder_new (size : Z) (factory : nat -> T) (ws : WaitStrategy) : ProducerBuilder T Hd :=
  mkBuilder factory false (NoConsumers, shared_new size ws).
Definition multi_builder_new (size : Z) (factory : nat -> T) (ws : WaitStrategy) : ProducerBuilder T Hd :=
  mkBuilder factory true (NoConsumers, shared_new size ws).

(** [build_single_producer] and [build_multi_producer] *)
Definition build_single_producer := single_builder_new.
Definition build_multi_producer := multi_builder_new.

(** A chain of method calls on either builder. *)
Definition chain_calls b (cs : list (Call Hd)) : option (result (ProducerBuilder T Hd) string) :=
  option_map (map_ok (mkBuilder (event_factory b) (is_multi b))) (calls (builder_state b) cs).

(** [build], of both builders; only [HasConsumers] has it.  What the consumer
    threads captured comes along. *)
Definition build (alloc : Allocator) (spawns : nat -> bool) b : option (M W (DisruptorHandle * list (Started Hd))) :=
  match builder_state b with
  | (HasConsumers, s) => Some (
      let* (core, started) := create_disruptor_core alloc spawns (Builder.size s) (event_factory b) (bs_wait_strategy s)
                                (bs_consumers s) (is_multi b) (slot_padding s) in
      ret (handle_new core, started))
  | _ => None
  end.

(** [DisruptorHandle::create_producer]: multi mode only. *)
Definition create_producer h : option SimpleProducer :=
  match core_sequencer (handle_core h) with
  | World.Single => None
  | World.Multi => Some (core_create_producer (handle_core h))
  end.

(** ** What a chain registers *)

(** The calls that register a consumer. *)
Definition registers (c : Call Hd) : bool :=
  match c with
  | pin_at_core _ | thread_name _ | with_slot_padding _ | with_cache_line_padding _ | and_then => false
  | _ => true
  end.
Definition registrations (cs : list (Call Hd)) : nat := length (List.filter registers cs).

Lemma call_registers (x : TypeState * SharedBuilderState Hd) c y : call x c = Some (Ok y) ->
  length (bs_consumers y.2) = (length (bs_consumers x.2) + if registers c then 1 else 0)%nat.
Proof.
  destruct x as [ts s].
  destruct c, ts; cbn [call registers]; try done; unfold add_mut_closure, add_mut_handler, add_fanout, take_thread_meta, push;
    try destruct (access_compatible _ _ _); intros [= <-]; cbn; rewrite ?length_app; cbn; lia.
Qed.

Lemma calls_register cs (x y : TypeState * SharedBuilderState Hd) : calls x cs = Some (Ok y) ->
  length (bs_consumers y.2) = (length (bs_consumers x.2) + registrations cs)%nat.
Proof.
  unfold registrations. revert x. induction cs as [|c cs IH]; intros x; cbn [calls]; [intros [= <-]; cbn; lia|].
  destruct (call x c) as [[x1|]|] eqn:Hc; try done. intros H. rewrite (IH _ H), (call_registers _ _ _ Hc).
  cbn [List.filter]. destruct (registers c); cbn [length]; lia.
Qed.

Lemma members_width alloc (cs : list (ConsumerInfo Hd)) i n : (length (members alloc i cs n) <= length cs)%nat.
Proof.
  revert i. induction cs as [|c cs IH]; intros i; cbn [members length]; [done|].
  specialize (IH (S i)). case_decide; cbn [length]; lia.
Qed.

(** A chain that ends in a builder that can be built. *)
Lemma chain_built alloc spawns (b0 b : ProducerBuilder T Hd) cs m :
  chain_calls b0 cs = Some (Ok b) -> build alloc spawns b = Some m ->
  exists s, calls (builder_state b0) cs = Some (Ok (HasConsumers, s)) /\
    m = (let* (core, started) := create_disruptor_core alloc spawns (Builder.size s) (event_factory b0) (bs_wait_strategy s)
                                (bs_consumers s) (is_multi b0) (slot_padding s) in
         ret (handle_new core, started)).
Proof.
  unfold chain_calls, build. destruct (calls _ cs) as [[[ts s]|]|]; try done. intros [= <-]. cbn [builder_state event_factory is_multi].
  destruct ts; try done. intros [= <-]. by exists s.
Qed.

(** ** The life of a pipeline *)

(** A handle that is down: nobody gates the sequencer any more. *)
Lemma down_ungated h h' w w' :
  core_grow (core_sequencer (handle_core h)) (shutdown_flag (handle_core h)) w w' -> down h h' w' ->
  gating (core_sequencer (handle_core h)) w = core_gating (handle_core h) ->
  gating (core_sequencer (handle_core h)) w' = [].
Proof.
  intros Hg (_ & _ & Hst & _) He. pose proof (cg_gating _ _ _ _ Hg) as Hsub. rewrite He in Hsub.
  destruct (gating _ w') as [|s ls] eqn:Hls; [done|]. exfalso.
  apply (st_released _ _ _ Hst s); [|rewrite Hls; set_solver]. eapply sublist_elem; [exact Hsub | set_solver].
Qed.

(** What [build] hands out. *)
Record built (multi : bool) (registered : nat) h w : Prop := {
  bt_wf : handle_wf h w;
  bt_open : is_shutdown h = false;
  bt_consumers : consumer_count h = registered;
  bt_gating : gating (core_sequencer (handle_core h)) w = core_gating (handle_core h);
  bt_gated : core_gating (handle_core h) <> [];
  bt_width : (length (core_gating (handle_core h)) <= registered)%nat;
  bt_unique : unique_claim (handle_producer h) = negb multi;
  bt_create : create_producer h = if multi then Some (Producer.new World.Multi) else None
}.

Section Life.
Context (alloc : Allocator) (spawns : nat -> bool).
Context (current_thread_name : string).
Context (Hspawn : forall i, spawns i = true).
Context (Hinj : forall x y, new_sequence alloc x = new_sequence alloc y -> x = y).

Lemma twp_build (e : env W) (b0 b : ProducerBuilder T Hd) n ws chain m k w :
  let sq := if is_multi b0 then World.Multi else World.Single in
  builder_state b0 = (NoConsumers, shared_new (2 ^ n) ws) ->
  chain_calls b0 chain = Some (Ok b) -> build alloc spawns b = Some m ->
  0 <= n <= 62 -> respects (assembly_rely sq) e ->
  twp e m (fun r _ w' => built (is_multi b0) (registrations chain) r.1 w' /\ core_sequencer (handle_core r.1) = sq /\
    length r.2 = registrations chain) k w.
Proof.
  intros sq Hb0 Hchain Hbuild Hn He. destruct (chain_built _ _ _ _ _ _ Hchain Hbuild) as (s & Hcalls & ->). rewrite Hb0 in Hcalls.
  pose proof (calls_inv _ _ _ (shared_new_inv _ _) Hcalls) as Hinv. pose proof (calls_size _ _ _ Hcalls) as Hsz.
  pose proof (calls_register _ _ _ Hcalls) as Hreg. cbn [fst snd bs_consumers shared_new length Nat.add] in Hsz, Hreg.
  twp_steps. eapply twp_mono; [by apply (twp_create alloc spawns Hspawn Hinj e (is_multi b0) n)|].
  intros [core started] k1 w1 (Hsq & Hcs & Hlen & Hcg & Hg & Hwf & Hcap & _). cbn [fst snd] in *. rewrite <- Hsq in Hg.
  assert (Hne : core_gating core <> []).
  { destruct Hinv as [_ [_ (c & Hc & Hst)]]. rewrite Hcg. by apply (members_some alloc 0 _ _ c). }
  destruct (handle_new_wf core w1 Hwf) as [Hw Ho].
  { rewrite Hcap, Hsq. by destruct (is_multi b0). }
  assert (Hcore : core_sequencer (handle_core (handle_new core)) = core_sequencer core /\
                  core_gating (handle_core (handle_new core)) = core_gating core /\
                  consumers (handle_core (handle_new core)) = consumers core).
  { unfold handle_new, take_initial_producer. by destruct (unique_producer_capability core). }
  destruct Hcore as (E1 & E2 & E3). twp_steps. cbn [fst snd]. split_and!; [|by rewrite E1 | lia].
  constructor; rewrite ?E1, ?E2; try done.
  - unfold consumer_count. rewrite E3, Hcs, length_map. lia.
  - rewrite Hcg. etrans; [apply members_width | lia].
  - unfold handle_new, take_initial_producer. rewrite Hcap. by destruct (is_multi b0).
  - unfold create_producer, core_create_producer. rewrite E1, Hsq. by destruct (is_multi b0).
Qed.
(** Down for good: claims closed, every consumer thread joined, nobody gating
    the sequencer, and a handle that refuses everything. *)
Record finished_life sq h h' w' : Prop := {
  fl_closed : closed sq w' = true;
  fl_joined : joined (consumers (handle_core h)) w';
  fl_gating : gating sq w' = [];
  fl_consumers : consumer_count h' = 0%nat;
  fl_inert : inert (T := T) current_thread_name h'
}.

Lemma stop_finishes multi r sq h h' w w' :
  built multi r h w -> core_sequencer (handle_core h) = sq ->
  core_grow (core_sequencer (handle_core h)) (shutdown_flag (handle_core h)) w w' -> down h h' w' -> finished_life sq h h' w'.
Proof.
  intros Hb <- Hg Hdn. pose proof Hdn as (Hs & Hc & Hst & _). destruct (stopped_wf _ _ _ Hst) as (Hcs & _).
  constructor; [done | apply (st_joined _ _ _ Hst) | eapply down_ungated; [exact Hg | exact Hdn | apply (bt_gating _ _ _ _ Hb)]
    | by unfold consumer_count; rewrite Hcs | by apply shutdown_inert].
Qed.

(** [shutdown_timeout] of a running handle returns. *)
Lemma ends_shutdown_timeout (e : env W) k0 fuel d h k w :
  respects (core_rely (core_sequencer (handle_core h)) (shutdown_flag (handle_core h))) e -> ticks e ->
  obeys (handle_core h) e k0 -> 0 <= d -> (k0 < fuel)%nat -> (Z.to_nat d + 2 < fuel)%nat ->
  (length (gating (core_sequencer (handle_core h)) w) < fuel)%nat ->
  ends e (shutdown_timeout fuel h d) (fun _ _ _ => True) k w.
Proof.
  intros He Ht Ho Hd0 H1 H2 H3. unfold shutdown_timeout. destruct (is_shutdown h); [done|].
  apply ends_bind. eapply ends_mono; [by apply (ends_shutdown (handle_core h) e k0)|]. by intros [r core] k1 w1 _.
Qed.

(** C17: The life of a pipeline: start a builder of either kind with a power of
    two, register consumers by any chain of calls that type-checks and does not
    panic, [build], and stop.  [build] goes through while the first consumers
    already run and hands out an open handle with one thread per registration;
    a single-producer handle owns the sole unchecked producer and mints no
    other, a multi-producer handle mints checked ones.  Whichever way it is
    stopped and whatever the other threads do meanwhile, a stop that returns
    leaves it down for good: claims closed, every consumer joined, nobody left
    that gates the sequencer, and every later operation refused without
    touching the memory.  The one panic of a stop is that of a timeout that
    ends after the last representable [Instant], with claims closed and the
    consumers left running.  A stop with a timeout comes to one of the two
    ends, if time passes and consumers finish once they are told to. *)
Theorem pipeline_life (e : env W) (multi : bool) n factory ws chain b m k w :
  let sq := if multi then World.Multi else World.Single in
  chain_calls ((if multi then build_multi_producer else build_single_producer) (2 ^ n) factory ws) chain = Some (Ok b) ->
  build alloc spawns b = Some m -> 0 <= n <= 62 -> respects (assembly_rely sq) e ->
  exists h started k' w', m e k w = Done (h, started) k' w' /\
    built multi (registrations chain) h w' /\ length started = registrations chain /\
    (forall s fuel, wpx (core_rely sq (shutdown_flag (handle_core h))) (stop_with s fuel h)
       (fun h' w'' => finished_life sq h h' w'') (left_running (handle_core h) (stop_timeout s) w') w') /\
    (forall e1 k0 fuel d k1, respects (core_rely sq (shutdown_flag (handle_core h))) e1 -> ticks e1 ->
       obeys (handle_core h) e1 k0 -> 0 <= d -> (k0 < fuel)%nat -> (Z.to_nat d + 2 < fuel)%nat -> (registrations chain < fuel)%nat ->
       match shutdown_timeout fuel h d e1 k1 w' with
       | Done (r, h') _ w2 => finished_life sq h h' w2 /\ drain_outcome (handle_core h) (Some d) w' r w2
       | Panicked msg _ w2 => left_running (handle_core h) (Some d) w' msg w2
       | NoFuel => False
       end).
Proof.
  intros sq Hchain Hbuild Hn He.
  set (b0 := (if multi then build_multi_producer else build_single_producer) (2 ^ n) factory ws) in *.
  assert (Hb0 : builder_state b0 = (NoConsumers, shared_new (2 ^ n) ws) /\ is_multi b0 = multi) by (unfold b0; by destruct multi).
  destruct Hb0 as [Hb0 Hmulti].
  pose proof (twp_build e b0 b n ws chain m k w Hb0 Hchain Hbuild Hn) as H. rewrite Hmulti in H. fold sq in H. specialize (H He).
  unfold twp in H. destruct (m e k w) as [[h started] k' w'| |]; try done. destruct H as (Hb & Hsq & Hlen). cbn [fst snd] in *.
  exists h, started, k', w'. split_and!; try done.
  - intros s fuel. rewrite <- Hsq. eapply wpx_mono; [by apply wpx_stop_with; destruct Hb|]. intros h' w2 [Hg Hdn].
    by eapply stop_finishes.
  - intros e1 k0 fuel d k1 He1 Ht Ho Hd0 H1 H2 H3. rewrite <- Hsq in He1.
    pose proof (wpx_ends _ e1 _ _ _ k1 w' He1 (wpx_shutdown_timeout fuel h d w' (bt_wf _ _ _ _ Hb) (bt_open _ _ _ _ Hb))
      (ends_shutdown_timeout e1 k0 fuel d h k1 w' He1 Ht Ho Hd0 H1 H2 ltac:(rewrite (bt_gating _ _ _ _ Hb); pose proof (bt_width _ _ _ _ Hb); lia)))
      as Hx.
    destruct (shutdown_timeout fuel h d e1 k1 w') as [[r h'] k2 w2| |]; [|done|done].
    destruct Hx as (Hg & Hdn & Hout). split; [by eapply stop_finishes | done].
Qed.

End Life.
End Pipeline.
