(* ===== verification/Dsl.v ===== *)
(** * Dsl: the classic Disruptor facade (disruptor/disruptor.rs)

    A [Disruptor] owns a sequencer and a chain of batch event processors, each
    waiting for the one before it; [start] runs every processor on a thread of
    its own and waits for its startup, [shutdown] and [halt] take them down,
    [publish_event] and [try_publish_event] publish through a translator.  With
    a single producer, publishing serialises on a mutex, and a per-thread flag
    turns a re-entrant call from a translator into an error. *)
From stdpp Require Import pretty.
From S2P Require Import Prelude Effects Errors RingBuffer World Sequence Gating Single Multi Availability Sequencer.
From S2P Require Import Waiting WaitStrategy Barrier ConsumerEngine Threads Core Processor Producer.

(** [ProducerType] (disruptor/producer_type.rs) *)
Inductive ProducerType : Type := PTSingle | PTMulti.

(** [Disruptor] (its ring buffer and sequencer are those of the pipeline's
    memory; a thread handle is the thread's address and name). *)
Record Disruptor (T : Type) : Type := mkDisruptor {
  d_sequencer : SequencerEnum;
  d_buffer_size : Z;
  event_processors : list (BatchEventProcessor T);
  thread_handles : list (loc * string);
  started : bool;
  d_shutdown_flag : loc;
  single_publish_lock : loc
}.
Arguments mkDisruptor {T}.
Arguments d_sequencer {T} _.
Arguments d_buffer_size {T} _.
Arguments event_processors {T} _.
Arguments thread_handles {T} _.
Arguments started {T} _.
Arguments d_shutdown_flag {T} _.
Arguments single_publish_lock {T} _.

(** [Result::and] *)
Definition result_and {A B E} (r : result A E) (s : result B E) : result B E :=
  match r with Ok _ => s | Err e => Err e end.

(** A translator: what it makes of the event of a sequence, and its panic. *)
Definition translator (T : Type) : Type := T -> Z -> T * option string.

Section Dsl.
Context {T : Type}.
Abbreviation W := (World T).
Implicit Types (w : W) (d : Disruptor T).

(** [with_processors], [with_threads]: the record updates of the methods. *)
Definition with_processors (ps : list (BatchEventProcessor T)) d : Disruptor T :=
  mkDisruptor (d_sequencer d) (d_buffer_size d) ps (thread_handles d) (started d) (d_shutdown_flag d) (single_publish_lock d).
Definition with_threads (hs : list (loc * string)) (st : bool) d : Disruptor T :=
  mkDisruptor (d_sequencer d) (d_buffer_size d) (event_processors d) hs st (d_shutdown_flag d) (single_publish_lock d).

(** [Disruptor::new], with the fresh addresses. *)
Definition dsl_new (event_factory : nat -> T) (buffer_size : Z) (producer_type : ProducerType) (ws : WaitStrategy)
    (cursor shutdown_flag publish_lock : loc) : M W (result (Disruptor T) DisruptorError) :=
  if negb (is_power_of_two buffer_size) then ret (Err (InvalidBufferSize buffer_size)) else
  match RingBuffer.new buffer_size event_factory with
  | Err e => ret (Err e)
  | Ok rb =>
      let* _ := write (upd_ring (fun _ => rb)) in
      let* sq := match producer_type with
                 | PTSingle => let* _ := Single.new buffer_size ws cursor in ret World.Single
                 | PTMulti => let* _ := Multi.new buffer_size ws cursor in ret World.Multi
                 end in
      let* _ := write (set_flag shutdown_flag false) in
      let* _ := write (set_flag publish_lock false) in
      ret (Ok (mkDisruptor sq buffer_size [] [] false shutdown_flag publish_lock))
  end.

(** [Disruptor::with_defaults] *)
Definition with_defaults (event_factory : nat -> T) (buffer_size : Z) (cursor shutdown_flag publish_lock : loc) :
    M W (result (Disruptor T) DisruptorError) :=
  dsl_new event_factory buffer_size PTSingle BlockingWaitStrategy cursor shutdown_flag publish_lock.

(** ** The chain of processors *)

(** The fresh addresses of a processor and its barrier. *)
Record ProcessorAlloc : Type := mkProcessorAlloc {
  pa_alert : loc;
  pa_sequence : loc;
  pa_running : loc;
  pa_startup : loc;
  pa_lock : loc
}.

(** A processor on a barrier over [deps]; its sequence gates the producers. *)
Definition add_processor d (deps : list loc) (eh : ExceptionHandler T) (a : ProcessorAlloc) : M W (Disruptor T * loc) :=
  let* b := Barrier.new_barrier (d_sequencer d) deps (pa_alert a) in
  let* p := processor_new b eh (pa_sequence a) (pa_running a) (pa_startup a) (pa_lock a) in
  let* _ := Sequencer.add_gating_sequences (dispatch (d_sequencer d)) [p_sequence p] in
  ret (with_processors (event_processors d ++ [p]) d, p_sequence p).

(** [DisruptorBuilder]: the disruptor and [last_processor_sequences]. *)
Definition handle_events_with_exception_handler d (eh : ExceptionHandler T) (a : ProcessorAlloc) : M W (Disruptor T * list loc) :=
  let* (d, s) := add_processor d [] eh a in ret (d, [s]).

(** [handle_events_with] *)
Definition handle_events_with d (a : ProcessorAlloc) : M W (Disruptor T * list loc) :=
  handle_events_with_exception_handler d DefaultExceptionHandler a.

(** [DisruptorBuilder::then] *)
Definition then_ '((d, last_processor_sequences) : Disruptor T * list loc) (a : ProcessorAlloc) : M W (Disruptor T * list loc) :=
  let* (d, s) := add_processor d last_processor_sequences DefaultExceptionHandler a in ret (d, [s]).

(** [DisruptorBuilder::build] *)
Definition build (b : Disruptor T * list loc) : Disruptor T := fst b.

(** ** Taking it down *)

(** [self.thread_handles.iter().any(JoinHandle::is_finished)] *)
Fixpoint any_handle_finished (hs : list (loc * string)) : M W bool :=
  match hs with
  | [] => ret false
  | (l, _) :: hs =>
      let* t := load (fun w => thread_at w l) in
      match t with
      | ThreadFinished _ => ret true
      | ThreadRunning => any_handle_finished hs
      end
  end.

(** The loop of [drain_backlog]. *)
Definition drain_backlog_step d (sequences : list loc) (deadline : option Z) (cursor : Z) (_ : unit) :
    M W (unit + result unit DisruptorError) :=
  let* p := Sequencer.is_poisoned (dispatch (d_sequencer d)) in
  if p then ret (inr (Err Poisoned)) else
  let* f := any_handle_finished (thread_handles d) in
  if f then ret (inr (Err (ShutdownError "consumer thread exited before the backlog was drained"))) else
  let* consumed := Sequence.get_minimum_sequence_with_default sequences cursor in
  if cursor <=? consumed then ret (inr (Ok tt)) else
  match deadline with
  | Some dl =>
      let* t := now in
      if dl <=? t then ret (inr (Err Timeout)) else
      let* _ := pause YieldNow in ret (inl tt)
  | None => let* _ := pause YieldNow in ret (inl tt)
  end.

(** [drain_backlog] *)
Definition drain_backlog (fuel : nat) d (timeout : option Z) : M W (result unit DisruptorError) :=
  let* deadline := deadline_for timeout in
  let* c := Sequencer.get_cursor (dispatch (d_sequencer d)) in
  let* cursor := Sequence.get c in
  loop fuel (drain_backlog_step d (map p_sequence (event_processors d)) deadline cursor) tt.

(** One [join] of [halt_join]: the message it adds to the join errors. *)
Definition join_thread (fuel : nat) d '((l, thread_name) : loc * string) : M W (list string) :=
  let* r := Core.join fuel l in
  match r with
  | ExitOk => ret []
  | ExitErr e =>
      let err_msg := "event processor thread returned error: " +:+ to_string e in
      let* _ := Sequencer.record_failure (dispatch (d_sequencer d))
                  (with_thread_name thread_name (failure_new ProcessorThread err_msg)) in
      ret [err_msg]
  | ExitPanic err_msg =>
      let* _ := Sequencer.record_failure (dispatch (d_sequencer d))
                  (with_thread_name thread_name (failure_new ConsumerPanic err_msg)) in
      ret [err_msg]
  end.

(** [while let Some(handle) = self.thread_handles.pop()]: last first. *)
Fixpoint join_threads (fuel : nat) d (hs : list (loc * string)) : M W (list string) :=
  match hs with
  | [] => ret []
  | h :: hs =>
      let* e := join_thread fuel d h in
      let* es := join_threads fuel d hs in
      ret (e ++ es)
  end.

(** [halt_join]; [debug_list] is the derived [Debug] of the error messages. *)
Definition halt_join (debug_list : list string -> string) (fuel : nat) d : M W (result unit DisruptorError * Disruptor T) :=
  let* _ := store (set_flag (d_shutdown_flag d) true) in
  let* _ := for_each (event_processors d) processor_halt in
  let* join_errors := join_threads fuel d (reverse (thread_handles d)) in
  let d' := with_threads [] false d in
  match join_errors with
  | [] => ret (Ok tt, d')
  | _ => ret (Err (ShutdownError ("Some threads failed to shutdown cleanly: " +:+ debug_list join_errors)), d')
  end.

(** [shutdown_with_timeout], behind [shutdown] and [shutdown_timeout] *)
Definition dsl_shutdown (debug_list : list string -> string) (fuel : nat) d (timeout : option Z) :
    M W (result unit DisruptorError * Disruptor T) :=
  if negb (started d) then ret (Ok tt, d) else
  let* _ := Sequencer.close (dispatch (d_sequencer d)) in
  let* drain_result := drain_backlog fuel d timeout in
  let* (halt_result, d') := halt_join debug_list fuel d in
  ret (result_and drain_result halt_result, d').

(** [halt] *)
Definition dsl_halt (debug_list : list string -> string) (fuel : nat) d : M W (result unit DisruptorError * Disruptor T) :=
  if negb (started d) then ret (Ok tt, d) else
  let* _ := Sequencer.close (dispatch (d_sequencer d)) in
  halt_join debug_list fuel d.

(** ** Starting *)

(** [while !processor.is_startup_complete() { if handle.is_finished() { break } ... }] *)
Definition await_startup (fuel : nat) (p : BatchEventProcessor T) (l : loc) : M W unit :=
  loop fuel (fun _ : unit =>
    let* s := is_startup_complete p in
    if s then ret (inr tt) else
    let* t := load (fun w => thread_at w l) in
    match t with
    | ThreadFinished _ => ret (inr tt)
    | ThreadRunning => let* _ := pause YieldNow in ret (inl tt)
    end) tt.

(** The [for] loop of [start]; [inr]: an early [return].  [threads i] is the
    address of the [i]-th thread, [spawns i] whether the system gives it. *)
Fixpoint start_processors (debug_list : list string -> string) (fuel : nat) (threads : nat -> loc) (spawns : nat -> bool)
    (index : nat) (ps : list (BatchEventProcessor T)) d : M W (Disruptor T + result unit DisruptorError * Disruptor T) :=
  match ps with
  | [] => ret (inl d)
  | p :: ps =>
      if negb (spawns index) then panic "Failed to spawn event processor thread" else
      let* _ := store (set_thread (threads index) ThreadRunning) in
      let* _ := await_startup fuel p (threads index) in
      let* t := load (fun w => thread_at w (threads index)) in
      let exited_early := match t with ThreadFinished _ => true | ThreadRunning => false end in
      let d := with_threads (thread_handles d ++ [(threads index, "badbatch-processor-" +:+ pretty index)]) (started d) d in
      let* poisoned := Sequencer.is_poisoned (dispatch (d_sequencer d)) in
      if poisoned then
        let* (_, d) := halt_join debug_list fuel d in ret (inr (Err Poisoned, d))
      else if exited_early then
        let* (r, d) := halt_join debug_list fuel d in
        ret (inr (result_and r (Err (ShutdownError "event processor exited during startup")), d))
      else start_processors debug_list fuel threads spawns (S index) ps d
  end.

(** [start] *)
Definition start (debug_list : list string -> string) (fuel : nat) (threads : nat -> loc) (spawns : nat -> bool) d :
    M W (result unit DisruptorError * Disruptor T) :=
  if started d then ret (Err AlreadyRunning, d) else
  let* _ := store (set_flag (d_shutdown_flag d) false) in
  let* _ := Sequencer.reopen (dispatch (d_sequencer d)) in
  let* r := start_processors debug_list fuel threads spawns 0 (event_processors d) d in
  match r with
  | inr early => ret early
  | inl d => ret (Ok tt, with_threads (thread_handles d) true d)
  end.

(** ** Publishing *)

Section Publish.
Context (current_thread_name : string) (claim_held : loc).

(** [claim_guard]: [claim_held] is this thread's [DSL_SINGLE_CLAIM_HELD]; the
    answer is whether the mutex is held now. *)
Definition claim_guard (fuel : nat) d : M W (result bool DisruptorError) :=
  match d_sequencer d with
  | World.Single =>
      let* held := read (fun w => flag_at w claim_held) in
      if held then ret (Err ReentrantPublish) else
      let* _ := loop fuel (fun _ : unit =>
                  let* busy := atomic (fun w => (flag_at w (single_publish_lock d), set_flag (single_publish_lock d) true w)) in
                  ret (if busy then inl tt else inr tt)) tt in
      let* _ := write (set_flag claim_held true) in
      ret (Ok true)
  | World.Multi => ret (Ok false)
  end.

(** The guard's drop: the mutex, then [DslClaimHoldFlag]. *)
Definition drop_claim_guard d (held : bool) : M W unit :=
  if held then
    let* _ := store (set_flag (single_publish_lock d) false) in
    write (set_flag claim_held false)
  else ret tt.

(** The rest of a publication, once [sequence] is claimed. *)
Definition translate_and_publish d (tr : translator T) (sequence : Z) : M W unit :=
  let* _ := on_unwind (run_update (fun event => tr event sequence) sequence)
              (poison_guard_drop current_thread_name (d_sequencer d) sequence sequence) in
  Sequencer.publish (dispatch (d_sequencer d)) sequence.

(** [publish_event] *)
Definition publish_event (fuel : nat) d (tr : translator T) : M W (result unit DisruptorError) :=
  let? held := claim_guard fuel d in
  with_guard
    (let? sequence := Sequencer.next (dispatch (d_sequencer d)) fuel in
     let* _ := translate_and_publish d tr sequence in
     ret (Ok tt))
    (drop_claim_guard d held).

(** [try_publish_event] *)
Definition try_publish_event (fuel : nat) d (tr : translator T) : M W (result Z TryPublishError) :=
  let* g := claim_guard fuel d in
  match g with
  | Err ReentrantPublish => ret (Err TryReentrantPublish)
  | Err _ => ret (Err TryShutdown)
  | Ok held =>
      with_guard
        (let* claim := Sequencer.try_next (dispatch (d_sequencer d)) in
         match claim with
         | None =>
             let* remaining := Sequencer.remaining_capacity (dispatch (d_sequencer d)) in
             let transient := if 0 <? remaining then Contended else Full in
             let* poisoned := Sequencer.is_poisoned (dispatch (d_sequencer d)) in
             if poisoned then ret (Err TryPoisoned) else
             let* closed := Sequencer.is_closed (dispatch (d_sequencer d)) in
             if closed then ret (Err TryShutdown) else ret (Err transient)
         | Some sequence =>
             let* _ := translate_and_publish d tr sequence in
             ret (Ok sequence)
         end)
        (drop_claim_guard d held)
  end.

(** [get_remaining_capacity] *)
Definition get_remaining_capacity (fuel : nat) d : M W Z :=
  let* g := claim_guard fuel d in
  match g with
  | Ok held => with_guard (Sequencer.remaining_capacity (dispatch (d_sequencer d))) (drop_claim_guard d held)
  | Err _ => ret 0
  end.

End Publish.

End Dsl.
