(* ===== verification/DslSpec.v ===== *)
(** * DslSpec: what the classic facade promises (disruptor/disruptor.rs)

    Taking a started disruptor down, starting it, publishing from inside a
    translator, the chain of processors, and what a restart does not wait
    for. *)
From stdpp Require Import pretty.
From S2P Require Import Prelude Effects Errors RingBuffer World Sequence Gating Single Multi Availability Sequencer.
From S2P Require Import Waiting WaitStrategy Barrier ConsumerEngine Threads Core Processor Producer Dsl.

(** The threads of a disruptor as [Core] sees consumers. *)
Definition as_consumers (hs : list (loc * string)) : list Consumer :=
  map (fun h => mkConsumer (Some h.1) h.2) hs.

Definition as_core {T} (d : Disruptor T) : DisruptorCore :=
  mkCore (d_sequencer d) false (as_consumers (thread_handles d)) (d_shutdown_flag d) (map p_sequence (event_processors d)).

Section DslSpec.
Context {T : Type}.
Abbreviation W := (World T).
Implicit Types (w : W) (d : Disruptor T).
Abbreviation Rd d := (core_rely (d_sequencer d) (d_shutdown_flag d)).
Abbreviation Gd d := (core_grow (d_sequencer d) (d_shutdown_flag d)).

(** ** Draining is the drain of the builder's core *)

Lemma any_handle_finished_eq hs : any_handle_finished (T := T) hs = any_finished (as_consumers hs).
Proof.
  induction hs as [|[l n] hs IH]; [done|]. cbn [any_handle_finished as_consumers map any_finished join_handle fst]. by rewrite IH.
Qed.

Lemma drain_backlog_step_eq d deadline cursor u :
  drain_backlog_step d (map p_sequence (event_processors d)) deadline cursor u = drain_step (as_core d) deadline cursor u.
Proof. unfold drain_backlog_step, drain_step. by rewrite any_handle_finished_eq. Qed.

(** The backlog up to the cursor has been consumed by every processor. *)
Definition backlog_drained d (c : Z) w : Prop := forall p, p ∈ event_processors d -> c <= seq_at w (p_sequence p).

(** What an answer of [drain_backlog] means. *)
Definition backlog_outcome d (timeout : option Z) w (r : result unit DisruptorError) w' : Prop :=
  match r with
  | Ok _ => backlog_drained d (seq_at w (cursor_loc (d_sequencer d) w)) w'
  | Err Poisoned => poisoned (d_sequencer d) w' = true
  | Err (ShutdownError _) => exists h, h ∈ thread_handles d /\ finished w' h.1
  | Err Timeout => exists t, timeout = Some t /\ w_clock w + t <= w_clock w'
  | Err _ => False
  end.

Lemma wpx_drain_backlog fuel d timeout w :
  wpx (Rd d) (drain_backlog fuel d timeout) (fun r w' => Rd d w w' /\ backlog_outcome d timeout w r w')
    (fun msg w' => msg = overflow_message /\ Rd d w w' /\ unrepresentable timeout w') w.
Proof.
  unfold drain_backlog. apply wpx_bind.
  eapply wpx_mono; [apply (wpx_deadline_for (Rd d) timeout w); intros x y [Hg _]; apply (cg_clock _ _ _ _ Hg)|].
  intros dl w2 [H2 Hd]. apply wpx_wp. wp_steps. eapply wp_mono; [apply wp_get_cursor|]. intros c w3 [-> ->]. unfold Sequence.get. wp_steps.
  rename s' into w4. assert (H4 : Rd d w w4) by (by etrans).
  apply (wp_loop (Rd d) (fun _ w' => Rd d w w')); [|done]. intros [] w5 H5. rewrite drain_backlog_step_eq.
  eapply wp_mono; [apply wp_and; [apply (wp_drain_step (as_core d) timeout dl _ w w5 H5 Hd)|]|].
  - cbn. rewrite (cg_cursor _ _ _ _ (proj1 H2)). apply (cg_mono _ _ _ _ (proj1 H4)).
  - apply (keeps_drain_step (as_core d) dl (seq_at w4 (cursor_loc (d_sequencer d) w2)) w tt w5). exact H5.
  - intros [[]|r] w6 [Ho Hr]; [done|]. split; [done|]. destruct r as [[]|[]]; cbn in Ho |- *; try done.
    + intros p Hp. apply Ho. cbn. by apply list_elem_of_fmap_2.
    + destruct Ho as (c & l & Hc & Hl & Hfin). cbn in Hc. apply list_elem_of_fmap in Hc as ([l' n] & -> & Hin).
      cbn in Hl. injection Hl as <-. by exists (l', n).
Qed.

(** ** Joining *)

(** Whether a thread came to a clean end. *)
Definition clean w (h : loc * string) : Prop := thread_at w h.1 = ThreadFinished ExitOk.

(** A finished thread keeps its exit. *)
Definition exits_stay w w' : Prop := forall l x, thread_at w l = ThreadFinished x -> thread_at w' l = ThreadFinished x.

Lemma exits_stay_eq w w' : w_threads w' = w_threads w -> exits_stay w w'.
Proof. intros E l x. unfold thread_at. by rewrite E. Qed.

Definition dsl_rely d w w' : Prop := Rd d w w' /\ exits_stay w w'.

#[global] Instance dsl_rely_preorder d : PreOrder (dsl_rely d).
Proof.
  split; [intros w; split; [reflexivity | by intros l x Hx]|]. intros w1 w2 w3 [H1 E1] [H2 E2].
  split; [by etrans|]. intros l x Hx. by apply E2, E1.
Qed.

Lemma wp_join_exit d fuel l w :
  wp (dsl_rely d) (Core.join fuel l) (fun x w' => dsl_rely d w w' /\ thread_at w' l = ThreadFinished x) w.
Proof.
  apply (wp_loop (dsl_rely d) (fun _ w' => dsl_rely d w w')); [|reflexivity]. intros [] w1 H1. wp_steps.
  assert (dsl_rely d w s') by (by etrans). destruct (thread_at s' l) eqn:Ht; by wp_steps.
Qed.

(** The own moves of the owner, and the others'. *)
Definition dsl_grow d w w' : Prop := Gd d w w' /\ exits_stay w w'.

#[global] Instance dsl_grow_preorder d : PreOrder (dsl_grow d).
Proof.
  split; [intros w; split; [reflexivity | by intros l x Hx]|]. intros w1 w2 w3 [H1 E1] [H2 E2].
  split; [by etrans|]. intros l x Hx. by apply E2, E1.
Qed.

Lemma dsl_rely_grow d w w' : dsl_rely d w w' -> dsl_grow d w w'.
Proof. by intros [[] ]. Qed.

Lemma wp_dsl_record d f w :
  wp (dsl_rely d) (Sequencer.record_failure (dispatch (d_sequencer d)) f) (fun _ w' => dsl_grow d w w') w.
Proof.
  destruct (d_sequencer d) eqn:Hsq; cbn [dispatch single_ops multi_ops Sequencer.record_failure];
    unfold Single.record_failure, Multi.record_failure; wp_steps; apply dsl_rely_grow in H; (etrans; [exact H|]);
    (split; [|by apply exits_stay_eq]); rewrite Hsq; constructor; cbn; try done; by case_match.
Qed.

Lemma wp_join_threads fuel d hs w :
  wp (dsl_rely d) (join_threads fuel d hs)
    (fun es w' => dsl_grow d w w' /\ (forall h, h ∈ hs -> finished w' h.1) /\ (es = [] -> forall h, h ∈ hs -> clean w' h)) w.
Proof.
  revert w. induction hs as [|[l n] hs IH]; intros w; cbn [join_threads]; wp_steps.
  { split_and!; [done | by intros h ?%not_elem_of_nil | by intros _ h ?%not_elem_of_nil]. }
  apply (wp_mono _ _ (fun es w1 => dsl_grow d w w1 /\ exists x, thread_at w1 l = ThreadFinished x /\ (es = [] -> x = ExitOk))).
  { unfold join_thread. wp_steps. eapply wp_mono; [apply wp_join_exit|]. intros x w1 [H1 Hx]. pose proof (dsl_rely_grow _ _ _ H1).
    destruct x as [|err|msg]; wp_steps; [split; [done|]; by exists ExitOk | |];
      (eapply wp_mono; [apply wp_dsl_record|]); intros [] w2 H2; wp_steps; (split; [by etrans|]);
      (eexists; split; [by apply (proj2 H2) | done]). }
  intros es w1 (H1 & x & Hx & Hes). wp_steps. eapply wp_mono; [apply IH|]. intros es' w2 (H2 & Hfin & Hcl). wp_steps.
  pose proof (proj2 H2 l x Hx) as Hx2. split_and!; [by etrans | |].
  - intros h [->|Hin]%elem_of_cons; [by exists x | by apply Hfin].
  - intros [-> ->]%app_nil h [->|Hin]%elem_of_cons; [|by apply Hcl]. unfold clean. cbn [fst]. by rewrite Hx2, (Hes eq_refl).
Qed.

(** ** Halting *)

(** No processor runs on the disruptor's own shutdown flag. *)
Definition dsl_wf d : Prop := forall p, p ∈ event_processors d -> p_running p <> d_shutdown_flag d.

Lemma grow_dsl_flag d l b w : (b = false -> l <> d_shutdown_flag d) -> dsl_grow d w (set_flag l b w).
Proof.
  intros Hl. split; [|by apply exits_stay_eq]. constructor; try done. intros Hf.
  destruct (decide (l = d_shutdown_flag d)) as [->|]; [|by rewrite flag_at_set_ne].
  rewrite flag_at_set_eq. destruct b; [done | by destruct Hl].
Qed.

Lemma wp_processor_halt d p w :
  p_running p <> d_shutdown_flag d -> wp (dsl_rely d) (processor_halt p) (fun _ w' => dsl_grow d w w') w.
Proof.
  intros Hp. unfold processor_halt, alert. wp_steps.
  assert (Hend : forall ws w1, dsl_grow d w w1 -> wp (dsl_rely d) (signal_all_when_blocking ws) (fun _ w' => dsl_grow d w w') w1).
  { intros ws w1 H1. destruct ws; cbn [signal_all_when_blocking]; wp_steps; try done.
    etrans; [exact H1|]. etrans; [by apply dsl_rely_grow|]. split; [|by apply exits_stay_eq].
    constructor; try done; by destruct (d_sequencer d). }
  apply Hend. etrans; [by apply dsl_rely_grow|]. etrans; [by apply grow_dsl_flag|]. 
  etrans; [by apply dsl_rely_grow|]. by apply grow_dsl_flag.
Qed.

Lemma wp_halt_all d ps w :
  (forall p, p ∈ ps -> p_running p <> d_shutdown_flag d) ->
  wp (dsl_rely d) (for_each ps processor_halt) (fun _ w' => dsl_grow d w w') w.
Proof.
  intros Hps. revert w. induction ps as [|p ps IH]; intros w; cbn [for_each]; wp_steps; [done|].
  eapply wp_mono; [apply wp_processor_halt, Hps; set_solver|]. intros [] w1 H1.
  eapply wp_mono; [apply IH; set_solver|]. intros [] w2 H2. by etrans.
Qed.

(** What [halt_join] leaves behind. *)
Record taken_down d w (r : result unit DisruptorError) d' : Prop := {
  td_disruptor : d' = with_threads [] false d;
  td_told : flag_at w (d_shutdown_flag d) = true;
  td_finished : forall h, h ∈ thread_handles d -> finished w h.1;
  td_answer : match r with
              | Ok _ => forall h, h ∈ thread_handles d -> clean w h
              | Err x => exists msg, x = ShutdownError msg
              end
}.

Lemma wp_halt_join debug fuel d w :
  dsl_wf d ->
  wp (dsl_rely d) (halt_join debug fuel d) (fun rd w' => dsl_grow d w w' /\ taken_down d w' rd.1 rd.2) w.
Proof.
  intros Hwf. unfold halt_join. wp_steps. set (w1 := set_flag (d_shutdown_flag d) true s').
  assert (H1 : dsl_grow d w w1) by (etrans; [by apply dsl_rely_grow | by apply grow_dsl_flag]).
  assert (Hf1 : flag_at w1 (d_shutdown_flag d) = true) by apply flag_at_set_eq.
  eapply wp_mono; [by apply wp_halt_all|]. intros [] w2 H2. wp_steps.
  eapply wp_mono; [apply wp_join_threads|]. intros es w3 (H3 & Hfin & Hcl).
  assert (H13 : dsl_grow d w1 w3) by (by etrans). pose proof (cg_flag _ _ _ _ (proj1 H13) Hf1) as Hf3.
  assert (Hin : forall h, h ∈ thread_handles d -> h ∈ reverse (thread_handles d)) by (intros h; by rewrite elem_of_reverse).
  destruct es as [|x es]; wp_steps; (split; [by etrans|]); (constructor; [done | done | auto |]); cbn; eauto.
Qed.

(** ** Shutdown *)

Lemma backlog_outcome_grow d timeout w0 w1 w2 w3 r :
  Rd d w0 w1 -> backlog_outcome d timeout w1 r w2 -> Gd d w2 w3 -> backlog_outcome d timeout w0 r w3.
Proof.
  intros [H0 Hf] Ho H2. destruct r as [[]|[]]; cbn in *; try done.
  - intros p Hp. specialize (Ho p Hp). pose proof (cg_mono _ _ _ _ H2 (p_sequence p)). rewrite (cg_cursor _ _ _ _ H0) in Ho.
    pose proof (cg_mono _ _ _ _ H0 (cursor_loc (d_sequencer d) w0)). lia.
  - destruct Ho as (x & -> & Hx). exists x. pose proof (cg_clock _ _ _ _ H0). pose proof (cg_clock _ _ _ _ H2).
    split; [done | lia].
  - destruct Ho as (h & Hh & Hfin). exists h. split; [done|]. by apply (cg_thread _ _ _ _ H2).
  - by apply (cg_poisoned _ _ _ _ H2).
Qed.

(** What the answer of [shutdown] means: [Ok] is a drained backlog and clean
    exits, an error is why the backlog was not drained or, when it was, that a
    thread did not end well. *)
Definition shutdown_outcome d (timeout : option Z) w (r : result unit DisruptorError) w' : Prop :=
  match r with
  | Ok _ => backlog_outcome d timeout w (Ok tt) w' /\ forall h, h ∈ thread_handles d -> clean w' h
  | Err x => backlog_outcome d timeout w (Err x) w' \/
             (backlog_outcome d timeout w (Ok tt) w' /\ exists msg, x = ShutdownError msg)
  end.

(** What a shutdown leaves when the deadline cannot be represented: claims
    closed, the shutdown flag as it was, no processor halted. *)
Definition dsl_left_running d timeout w (msg : string) w' : Prop :=
  started d = true /\ msg = overflow_message /\ closed (d_sequencer d) w' = true /\ Rd d w w' /\ unrepresentable timeout w'.

Lemma wpx_dsl_shutdown debug fuel d timeout w :
  dsl_wf d ->
  wpx (dsl_rely d) (dsl_shutdown debug fuel d timeout) (fun '(r, d') w' =>
    if started d then
      d' = with_threads [] false d /\ closed (d_sequencer d) w' = true /\
      (forall h, h ∈ thread_handles d -> finished w' h.1) /\ shutdown_outcome d timeout w r w'
    else r = Ok tt /\ d' = d /\ w' = w) (dsl_left_running d timeout w) w.
Proof.
  intros Hwf. unfold dsl_left_running, dsl_shutdown. destruct (started d); cbn [negb]; [|by apply wpx_ret].
  assert (Hsub : forall x y, dsl_rely d x y -> Rd d x y) by (by intros x y []). apply wpx_seq.
  eapply wp_mono; [by apply (wp_rely _ _ _ _ _ Hsub), wp_close|]. intros [] w1 [H1 Hc]. apply wpx_bind.
  eapply wpx_conseq; [apply (wpx_rely _ _ _ _ _ _ Hsub), wpx_drain_backlog | |].
  2:{ intros msg w2 (-> & H2 & Hl). split_and!; [done | done | by apply (cg_closed _ _ _ _ (proj1 H2)) | by etrans | done]. }
  intros r w2 [H2 Ho]. apply wpx_wp. wp_steps.
  eapply wp_mono; [by apply wp_halt_join|]. intros [hr d'] w3 [[H3 _] Htd]. wp_steps.
  pose proof (backlog_outcome_grow _ _ _ _ _ _ _ H1 Ho H3) as Hout. cbn [fst snd] in Htd. destruct Htd as [-> _ Hfin Hans].
  split_and!; [done | by apply (cg_closed _ _ _ _ H3), (cg_closed _ _ _ _ (proj1 H2)) | done |].
  destruct r as [[]|x]; cbn [result_and]; [|by left]. destruct hr as [[]|x]; [done | by right].
Qed.

(** C8: [shutdown] and [shutdown_timeout] of a started disruptor, while producers,
    processors and holders of the sequencer go on: when it returns, claims are
    closed, every processor thread is finished and joined, the disruptor can be
    started again, and the answer tells whether the backlog up to the cursor at
    the call was consumed by every processor and whether every thread ended
    cleanly.  A disruptor that is not started is left alone.  The one panic is
    that of a timeout that ends after the last representable [Instant]: claims
    are closed by then, but no processor has been halted or joined. *)
Theorem dsl_shutdown_spec debug fuel d timeout w :
  dsl_wf d ->
  wpx (dsl_rely d) (dsl_shutdown debug fuel d timeout) (fun '(r, d') w' =>
    if started d then
      d' = with_threads [] false d /\ closed (d_sequencer d) w' = true /\
      (forall h, h ∈ thread_handles d -> finished w' h.1) /\ shutdown_outcome d timeout w r w'
    else r = Ok tt /\ d' = d /\ w' = w) (dsl_left_running d timeout w) w.
Proof. apply wpx_dsl_shutdown. Qed.

(** ** Start *)

(** While a disruptor starts, moreover, a processor that has started up stays
    so (on a first start, [run] clears a flag that is still clear). *)
Definition start_rely d w w' : Prop :=
  dsl_rely d w w' /\
  forall p, p ∈ event_processors d -> flag_at w (p_startup_complete p) = true -> flag_at w' (p_startup_complete p) = true.

(** The handles of threads [i], ..., [i + n - 1]. *)
Definition spawned (threads : nat -> loc) (i n : nat) : list (loc * string) :=
  map (fun j => (threads j, "badbatch-processor-" +:+ pretty j)) (seq i n).

#[global] Instance start_rely_preorder d : PreOrder (start_rely d).
Proof.
  split; [by intros w; split; [reflexivity|]|]. intros w1 w2 w3 [H1 F1] [H2 F2]. split; [by etrans|]. intros p Hp Hf. by apply F2, F1.
Qed.

Lemma wp_await_startup fuel d p l w :
  wp (start_rely d) (await_startup fuel p l)
    (fun _ w' => start_rely d w w' /\ (flag_at w' (p_startup_complete p) = true \/ finished w' l)) w.
Proof.
  apply (wp_loop _ (fun _ w' => start_rely d w w')); [|reflexivity]. intros [] w1 H1. unfold is_startup_complete. wp_steps.
  assert (H2 : start_rely d w s') by (by etrans).
  destruct (flag_at s' (p_startup_complete p)) eqn:Hs; wp_steps; [by split; [|left]|].
  assert (H3 : start_rely d w s'0) by (by etrans).
  destruct (thread_at s'0 l) eqn:Ht; cbn [pause]; wp_steps; [by etrans|]. split; [done|]. right. by eexists.
Qed.

(** What a [start] that fails leaves: as [halt_join], for the threads [hs]. *)
Definition start_failed (hs : list (loc * string)) d (r : result unit DisruptorError) d' w : Prop :=
  d' = with_threads [] false d /\ (forall h, h ∈ hs -> finished w h.1) /\
  ((r = Err Poisoned /\ poisoned (d_sequencer d) w = true) \/ exists msg, r = Err (ShutdownError msg)).

Lemma wp_poisoned_any (R : W -> W -> Prop) sq w :
  wp R (Sequencer.is_poisoned (dispatch sq)) (fun p w' => R w w' /\ p = poisoned sq w') w.
Proof. destruct sq; by apply wp_load. Qed.

(** One start: the thread is up, or it is taken for dead. *)
Lemma startup_seen d p l w1 w2 w3 :
  p ∈ event_processors d -> flag_at w1 (p_startup_complete p) = true \/ finished w1 l ->
  start_rely d w1 w2 -> start_rely d w2 w3 -> thread_at w2 l = ThreadRunning -> flag_at w3 (p_startup_complete p) = true.
Proof.
  intros Hp [Hup|[x Hx]] [[_ Hst] Hfl] [_ Hfl2] Ht; [by apply Hfl2, Hfl|]. apply Hst in Hx. congruence.
Qed.

Lemma wp_start_processors debug fuel threads spawns d up ps index w :
  (forall i, spawns i = true) -> dsl_wf d -> (forall p, p ∈ up ++ ps -> p ∈ event_processors d) ->
  (forall p, p ∈ up -> flag_at w (p_startup_complete p) = true) ->
  wp (start_rely d) (start_processors debug fuel threads spawns index ps d) (fun r w' => match r with
    | inl d' => d' = with_threads (thread_handles d ++ spawned threads index (length ps)) (started d) d /\
                forall p, p ∈ up ++ ps -> flag_at w' (p_startup_complete p) = true
    | inr (r, d') => exists n, (0 < n <= length ps)%nat /\
                start_failed (thread_handles d ++ spawned threads index n) d r d' w'
    end) w.
Proof.
  intros Hsp. revert d up index w.
  induction ps as [|p ps IH]; intros d up index w Hwf Hin Hup; cbn [start_processors]; wp_steps.
  { split; [by destruct d; unfold with_threads; cbn; rewrite app_nil_r | by rewrite app_nil_r]. }
  rewrite Hsp. cbn [negb]. wp_steps. rename s' into w0.
  assert (Hup0 : forall q, q ∈ up -> flag_at (set_thread (threads index) ThreadRunning w0) (p_startup_complete q) = true).
  { intros q Hq. apply (proj2 H q); [apply Hin; set_solver | by apply Hup]. }
  set (w0' := set_thread (threads index) ThreadRunning w0) in *. clearbody w0'. clear H w w0 Hup.
  eapply wp_mono; [apply (wp_await_startup fuel d)|]. intros [] w1 [H01 Hp]. wp_steps. rename s' into w2, H into H12.
  set (d1 := with_threads (thread_handles d ++ [(threads index, _)]) (started d) d).
  eapply wp_mono; [apply wp_poisoned_any|]. intros pz w3 [H23 Hpz].
  assert (Hsub : forall x y, start_rely d x y -> dsl_rely d x y) by (by intros x y []).
  assert (Hhalt : wp (start_rely d) (halt_join debug fuel d1) (fun rd w' => dsl_grow d1 w3 w' /\ taken_down d1 w' rd.1 rd.2) w3)
    by apply (wp_rely _ (start_rely d) _ _ _ Hsub), (wp_halt_join debug fuel d1 w3 Hwf).
  destruct pz.
  { wp_steps. eapply wp_mono; [exact Hhalt|]. intros [r d2] w4 [[H4 _] [Hd2 _ Hfin _]]. cbn [fst snd] in *. wp_steps.
    subst d2. exists 1%nat. split; [cbn; lia|]. split_and!; [done | exact Hfin |]. left. split; [done|].
    by apply (cg_poisoned _ _ _ _ H4). }
  destruct (thread_at w2 (threads index)) as [|x] eqn:Ht.
  - assert (H03 : start_rely d w0' w3) by (do 2 (etrans; [eassumption|]); done).
    eapply wp_mono; [apply (IH d1 (up ++ [p]) (S index) w3 Hwf)|].
    + intros q. rewrite <- app_assoc. apply Hin.
    + intros q [Hq|Hq]%elem_of_app; [apply (proj2 H03 q); [apply Hin; set_solver | by apply Hup0]|].
      apply list_elem_of_singleton in Hq as ->. eapply (startup_seen d); eauto. apply Hin. set_solver.
    + intros [d2|[r d2]] w4.
      * intros [-> Hps]. rewrite <- app_assoc in Hps. split; [|exact Hps]. unfold with_threads. cbn. by rewrite <- app_assoc.
      * intros (n & Hn & -> & Hfin & Hr). exists (S n). split; [cbn; lia|]. split_and!; [done | | done].
        intros h Hh. apply Hfin. cbn. by rewrite <- app_assoc.
  - wp_steps. eapply wp_mono; [exact Hhalt|]. intros [r d2] w4 [[H4 _] [Hd2 _ Hfin Hans]]. cbn [fst snd] in *. wp_steps.
    subst d2. exists 1%nat. split; [cbn; lia|]. split_and!; [done | exact Hfin |]. right.
    destruct r as [[]|err]; cbn; [by eexists|]. destruct Hans as [msg ->]. by eexists.
Qed.

(** [start]: a running disruptor refuses and is left alone.  Otherwise [Ok] is
    given only once every processor has reported its startup, each on a thread
    of its own; when one fails (it poisons the pipeline or its thread ends),
    every thread started so far is halted and joined, and the disruptor is back
    where it can be started. *)
Lemma start_spec debug fuel threads spawns d w :
  (forall i, spawns i = true) -> dsl_wf d ->
  wp (start_rely d) (start debug fuel threads spawns d) (fun '(r, d') w' =>
    if started d then r = Err AlreadyRunning /\ d' = d /\ w' = w else
    match r with
    | Ok _ => d' = with_threads (thread_handles d ++ spawned threads 0 (length (event_processors d))) true d /\
              forall p, p ∈ event_processors d -> flag_at w' (p_startup_complete p) = true
    | Err _ => exists n, (0 < n <= length (event_processors d))%nat /\
              start_failed (thread_handles d ++ spawned threads 0 n) d r d' w'
    end) w.
Proof.
  intros Hsp Hwf. unfold start. destruct (started d) eqn:Hs; [by wp_steps|]. wp_steps.
  apply (wp_mono _ _ (fun _ _ => True)).
  { destruct (d_sequencer d); cbn; unfold Single.reopen, Multi.reopen; by wp_steps. }
  intros [] w1 _. wp_steps. eapply wp_mono; [apply (wp_start_processors _ _ _ _ _ [] _ _ _ Hsp Hwf)|].
  - done.
  - by intros p ?%not_elem_of_nil.
  - intros [d2|[r d2]] w2; [intros [-> Hup]; by wp_steps|]. intros (n & Hn & Hf). wp_steps. 
    destruct r as [[]|err]; [|by exists n]. destruct Hf as (_ & _ & [[]|[msg ]]); done.
Qed.

(** *** A restart does not wait *)

(** With the other threads standing still: started threads are there, and none
    of them has made a step. *)
Lemma restart_processors debug fuel threads spawns ps d index k w :
  (forall i, spawns i = true) -> poisoned (d_sequencer d) w = false -> (0 < fuel)%nat ->
  (forall p, p ∈ ps -> flag_at w (p_startup_complete p) = true) ->
  twp idle (start_processors debug fuel threads spawns index ps d) (fun r _ w' =>
    r = inl (with_threads (thread_handles d ++ spawned threads index (length ps)) (started d) d) /\
    w_flags w' = w_flags w) k w.
Proof.
  intros Hsp Hpz Hf. revert d index k w Hpz. induction ps as [|p ps IH]; intros d index k w Hpz Hup; cbn [start_processors].
  { apply twp_ret. split; [|done]. unfold with_threads, spawned. cbn. rewrite app_nil_r. by destruct d. }
  rewrite Hsp. cbn [negb]. twp_steps. unfold idle.
  set (w1 := set_thread (threads index) ThreadRunning w).
  apply (twp_mono _ _ (fun _ _ w' => w' = w1)).
  { unfold await_startup, is_startup_complete. destruct fuel as [|fuel]; [lia|]. cbn [loop]. twp_steps. unfold idle.
    change (flag_at w1 (p_startup_complete p)) with (flag_at w (p_startup_complete p)).
    rewrite (Hup p ltac:(set_solver)). by twp_steps. }
  intros [] k1 w' ->. twp_steps. unfold idle.
  assert (Hth : thread_at w1 (threads index) = ThreadRunning) by apply lookup_total_insert_eq. rewrite Hth.
  set (d1 := with_threads (thread_handles d ++ [(threads index, _)]) (started d) d).
  assert (Hpz1 : poisoned (d_sequencer d1) w1 = false) by (unfold poisoned, d1, w1 in *; cbn; by destruct (d_sequencer d)).
  apply (twp_mono _ _ (fun b _ w' => b = false /\ w' = w1)).
  { unfold poisoned in Hpz1. destruct (d_sequencer d1); by apply twp_load. }
  intros b k2 w' [-> ->]. eapply twp_mono; [apply (IH d1 (S index) k2 w1 Hpz1)|].
  - intros q Hq. apply (Hup q). set_solver.
  - intros r k3 w3 [-> Hfl]. split; [|done]. unfold with_threads, spawned. cbn. by rewrite <- app_assoc.
Qed.

(** The startup flags are not cleared by [start] but by [run], on the new
    thread.  So when a disruptor that has run before is started again, [start]
    sees the flags of the previous run and reports success although no new
    thread has made a step: none of the processors' flags has changed, in
    particular none is running. *)
Theorem restart_does_not_wait debug fuel threads spawns d k w :
  started d = false -> (forall i, spawns i = true) -> poisoned (d_sequencer d) w = false -> (0 < fuel)%nat ->
  (forall p, p ∈ event_processors d -> p_startup_complete p <> d_shutdown_flag d) ->
  (forall p, p ∈ event_processors d -> flag_at w (p_startup_complete p) = true) ->
  exists d' k' w', start debug fuel threads spawns d idle k w = Done (Ok tt, d') k' w' /\ started d' = true /\
    forall l, l <> d_shutdown_flag d -> flag_at w' l = flag_at w l.
Proof.
  intros Hst Hsp Hpz Hf Hne Hup.
  assert (H : twp idle (start debug fuel threads spawns d) (fun rd _ w' => rd.1 = Ok tt /\ started rd.2 = true /\
            forall l, l <> d_shutdown_flag d -> flag_at w' l = flag_at w l) k w).
  { unfold start. rewrite Hst. twp_steps. unfold idle. set (w1 := set_flag (d_shutdown_flag d) false w).
    apply (twp_mono _ _ (fun _ _ w' => w_flags w' = w_flags w1 /\ poisoned (d_sequencer d) w' = false)).
    { unfold poisoned in *. destruct (d_sequencer d); cbn; unfold Single.reopen, Multi.reopen; by twp_steps. }
    intros [] k1 w2 [Hfl2 Hpz2]. twp_steps. eapply twp_mono; [apply (restart_processors _ _ _ _ _ _ _ _ _ Hsp Hpz2 Hf)|].
    - intros p Hp. unfold flag_at. rewrite Hfl2. change (flag_at w1 (p_startup_complete p) = true).
      unfold w1. rewrite flag_at_set_ne by (symmetry; auto). by apply Hup.
    - intros r k2 w3 [-> Hfl]. twp_steps. split_and!; [done | done|]. intros l Hl. unfold flag_at. rewrite Hfl, Hfl2.
      by apply flag_at_set_ne. }
  unfold twp in H. destruct (start _ _ _ _ _ _ _ _) as [[r d'] k' w'| |]; [|done|done]. cbn [fst snd] in H.
  destruct H as [-> H]. by exists d', k', w'.
Qed.

(** ** Publishing through the facade *)

Section Publish.
Context (current_thread_name : string) (claim_held : loc).

(** A call made by a translator on the same thread. *)
Lemma reentrant_claim fuel d (e : env W) k w :
  d_sequencer d = World.Single -> flag_at w claim_held = true ->
  claim_guard claim_held fuel d e k w = Done (Err ReentrantPublish) k w.
Proof. intros Hs Hh. unfold claim_guard. rewrite Hs. unfold bind, read, silent. cbn [fst snd]. by rewrite Hh. Qed.

(** The call is over, one way or the other: mutex and flag are free. *)
Definition released d {A} (o : outcome W A) : Prop :=
  match o with
  | Done _ _ w' | Panicked _ _ w' => flag_at w' claim_held = false /\ flag_at w' (single_publish_lock d) = false
  | NoFuel => True
  end.

(** The guard's drop clears both, whatever went before. *)
Lemma guard_released d A (m : M W A) (e : env W) k w :
  single_publish_lock d <> claim_held -> released d (with_guard m (drop_claim_guard claim_held d true) e k w).
Proof.
  intros Hne.
  assert (Hd : forall k1 w1, exists k2 w2, drop_claim_guard claim_held d true e k1 w1 = Done tt k2 w2 /\
            flag_at w2 claim_held = false /\ flag_at w2 (single_publish_lock d) = false).
  { intros k1 w1. eexists _, _. split; [reflexivity|]. cbn [fst snd].
    split; [apply flag_at_set_eq | rewrite flag_at_set_ne by done; apply flag_at_set_eq]. }
  unfold with_guard, catch_unwind, bind. destruct (m e k w) as [a k1 w1|msg k1 w1|]; [| |done];
    destruct (Hd k1 w1) as (k2 & w2 & -> & Hr); exact Hr.
Qed.

(** The claim guard of a single producer, when it is given. *)
Lemma claim_guard_taken fuel d (e : env W) k w :
  d_sequencer d = World.Single -> flag_at w claim_held = false ->
  claim_guard claim_held fuel d e k w = NoFuel \/ exists k' w', claim_guard claim_held fuel d e k w = Done (Ok true) k' w'.
Proof.
  intros Hs Hh. unfold claim_guard. rewrite Hs. set (body := fun _ : unit => _).
  assert (Hspin : forall w1 k1, loop fuel body tt e k1 w1 = NoFuel \/ exists k2 w2, loop fuel body tt e k1 w1 = Done tt k2 w2).
  { clear w k Hh. induction fuel as [|fuel IH]; intros w k; [by left|]. cbn [loop]. unfold bind at 1 2, body at 1 3.
    unfold bind, atomic, ret. cbn [fst snd]. destruct (flag_at (e k w) (single_publish_lock d)); [apply IH | right; by eexists _, _]. }
  unfold bind, read, silent. cbn [fst snd]. rewrite Hh.
  destruct (Hspin w k) as [->|(k2 & w2 & ->)]; [by left | right; by eexists _, _].
Qed.

Lemma guarded_released fuel d A (f : result bool DisruptorError -> M W A) m (e : env W) k w :
  d_sequencer d = World.Single -> single_publish_lock d <> claim_held -> flag_at w claim_held = false ->
  f (Ok true) = with_guard m (drop_claim_guard claim_held d true) ->
  released d (bind (claim_guard claim_held fuel d) f e k w).
Proof.
  intros Hs Hne Hh Hf. unfold bind. destruct (claim_guard_taken fuel d e k w Hs Hh) as [->|(k1 & w1 & ->)]; [done|].
  rewrite Hf. by apply guard_released.
Qed.

Lemma guarded_refused fuel d A (f : result bool DisruptorError -> M W A) a (e : env W) k w :
  d_sequencer d = World.Single -> flag_at w claim_held = true -> f (Err ReentrantPublish) = ret a ->
  bind (claim_guard claim_held fuel d) f e k w = Done a k w.
Proof. intros Hs Hh Hf. unfold bind. rewrite (reentrant_claim fuel d e k w Hs Hh). by rewrite Hf. Qed.

(** C39: The facade's publishing calls and a single producer, on any schedule.
    Called from inside a translator on the same thread they are refused at
    once, nothing being touched: no deadlock on the mutex.  Otherwise, however
    they end (an answer, an error, a panic of the translator), the mutex and
    the thread's flag are free again. *)
Theorem publish_event_guarded fuel d tr (e : env W) k w :
  d_sequencer d = World.Single -> single_publish_lock d <> claim_held ->
  if flag_at w claim_held then
    publish_event current_thread_name claim_held fuel d tr e k w = Done (Err ReentrantPublish) k w /\
    try_publish_event current_thread_name claim_held fuel d tr e k w = Done (Err TryReentrantPublish) k w /\
    get_remaining_capacity claim_held fuel d e k w = Done 0 k w
  else
    released d (publish_event current_thread_name claim_held fuel d tr e k w) /\
    released d (try_publish_event current_thread_name claim_held fuel d tr e k w) /\
    released d (get_remaining_capacity claim_held fuel d e k w).
Proof.
  intros Hs Hne. destruct (flag_at w claim_held) eqn:Hh; split_and!; by
    (eapply guarded_refused || (eapply guarded_released; [| | |reflexivity])).
Qed.

End Publish.

(** ** The chain of processors *)

(** A run of [then] calls after the first handler. *)
Fixpoint then_all (b : Disruptor T * list loc) (allocs : list ProcessorAlloc) : M W (Disruptor T * list loc) :=
  match allocs with
  | [] => ret b
  | a :: allocs => let* b := then_ b a in then_all b allocs
  end.

(** The address of the sequence of the [i]-th processor, as a list. *)
Definition nth_sequence (allocs : list ProcessorAlloc) (i : nat) : list loc :=
  from_option (fun a => [pa_sequence a]) [] (allocs !! i).

(** The [i]-th processor of a chain whose processors got the addresses
    [allocs]: on its own sequence, behind the one before it. *)
Definition linked (sq : SequencerEnum) (c : loc) (allocs : list ProcessorAlloc) (i : nat) (p : BatchEventProcessor T) : Prop :=
  cursor (p_barrier p) = c /\ Barrier.sequencer (p_barrier p) = sq /\
  [p_sequence p] = nth_sequence allocs i /\
  dependent_sequences (p_barrier p) = match i with O => [] | S j => nth_sequence allocs j end.

(** A chain under construction, and the sequences of the last processor. *)
Record chain_inv (sq : SequencerEnum) (c : loc) (allocs : list ProcessorAlloc) d (last_sequences : list loc) w : Prop := {
  ch_sequencer : d_sequencer d = sq;
  ch_length : length (event_processors d) = length allocs;
  ch_linked : forall i p, event_processors d !! i = Some p -> linked sq c allocs i p;
  ch_last : last_sequences = match length allocs with O => [] | S j => nth_sequence allocs j end;
  ch_gating : gating sq w = map pa_sequence allocs;
  ch_cursor : cursor_loc sq w = c;
  ch_initial : forall a, a ∈ allocs -> seq_at w (pa_sequence a) = INITIAL_CURSOR_VALUE
}.

(** Nobody else is at it while a chain is built. *)
Definition building sq w w' : Prop :=
  cursor_loc sq w' = cursor_loc sq w /\ gating sq w' = gating sq w /\ forall l, seq_at w' l = seq_at w l.

Lemma linked_snoc sq c allocs a i p : linked sq c allocs i p -> linked sq c (allocs ++ [a]) i p.
Proof.
  unfold linked, nth_sequence. intros (Hc & Hs & Hq & Hd).
  destruct (allocs !! i) as [x|] eqn:Hx; [|done]. apply lookup_lt_Some in Hx as Hlt.
  rewrite lookup_app_l, Hx by done. split_and!; [done | done | done|]. rewrite Hd. destruct i; [done|].
  by rewrite lookup_app_l by lia.
Qed.

Lemma twp_new_barrier (e : env W) sq deps flag k w :
  twp e (new_barrier sq deps flag) (fun b _ w' => cursor b = cursor_loc sq w /\ Barrier.sequencer b = sq /\
    dependent_sequences b = deps /\ w' = set_flag flag false w) k w.
Proof.
  destruct sq; cbn [new_barrier]; unfold single_new_barrier_typed, multi_new_barrier_typed, Barrier.new; by twp_steps.
Qed.

Lemma twp_add_gating_one (e : env W) sq l k w :
  respects (building sq) e -> NoDup (gating sq w ++ [l]) ->
  twp e (Sequencer.add_gating_sequences (dispatch sq) [l]) (fun _ _ w' =>
    gating sq w' = gating sq w ++ [l] /\ cursor_loc sq w' = cursor_loc sq w /\ forall l, seq_at w' l = seq_at w l) k w.
Proof.
  intros He Hnd. destruct (He k w) as (Hc & Hg & Hs).
  assert (Hrcu : rcu_closure [l] (gating sq w) = gating sq w ++ [l]).
  { unfold rcu_closure. rewrite (foldl_push_new_id (gating sq w) []) by (by apply NoDup_app in Hnd as []). by apply foldl_push_new_id. }
  destruct sq; cbn [dispatch single_ops multi_ops Sequencer.add_gating_sequences];
    unfold Single.add_gating_sequences, Multi.add_gating_sequences, add_gating_sequences_rcu; twp_steps;
    cbn [gating] in *; (split_and!; [cbn; by rewrite Hg | exact Hc | exact Hs]).
Qed.

Lemma twp_add_processor (e : env W) sq c allocs d deps eh a k w :
  respects (building sq) e -> chain_inv sq c allocs d deps w -> NoDup (map pa_sequence (allocs ++ [a])) ->
  twp e (add_processor d deps eh a) (fun r _ w' => chain_inv sq c (allocs ++ [a]) r.1 [r.2] w') k w.
Proof.
  intros He [Hsq Hlen Hlink Hlast Hg Hc Hini] Hnd. rewrite map_app in Hnd. cbn in Hnd. unfold add_processor. rewrite Hsq. twp_steps.
  eapply twp_mono; [apply twp_new_barrier|]. intros b k1 w1 (Hbc & Hbs & Hbd & ->). unfold processor_new, Sequence.new_with_initial_value, Sequence.new.
  twp_steps. cbn [p_sequence]. set (w2 := set_flag (pa_lock a) false _).
  assert (Hg2 : gating sq w2 = map pa_sequence allocs) by (rewrite <- Hg; unfold gating; by destruct sq).
  assert (Hc2 : cursor_loc sq w2 = c) by (rewrite <- Hc; unfold cursor_loc; by destruct sq).
  assert (Hs2 : forall l, seq_at w2 l = seq_at (set_seq (pa_sequence a) INITIAL_CURSOR_VALUE w) l) by done.
  eapply twp_mono; [apply (twp_add_gating_one e sq); [done | by rewrite Hg2]|].
  intros [] k3 w3 (Hg3 & Hc3 & Hs3). twp_steps. cbn [fst snd].
  assert (Hnth : nth_sequence (allocs ++ [a]) (length allocs) = [pa_sequence a])
    by (unfold nth_sequence; by rewrite list_lookup_middle).
  constructor; cbn.
  - done.
  - rewrite !length_app. cbn. lia.
  - intros i p [[Hlt Hi]|[-> <-]]%lookup_snoc_Some; [by apply linked_snoc, Hlink|]. rewrite Hlen.
    split_and!; [cbn; congruence | done | by rewrite Hnth |]. cbn. rewrite Hbd, Hlast.
    destruct (length allocs) eqn:Hl; [done|]. unfold nth_sequence. by rewrite lookup_app_l by lia.
  - rewrite length_app, Nat.add_1_r. by rewrite Hnth.
  - by rewrite Hg3, Hg2, map_app.
  - by rewrite Hc3.
  - intros a' [Ha|Ha]%elem_of_app; rewrite Hs3, Hs2.
    + rewrite seq_at_set_ne; [by apply Hini|]. intros Heq. apply NoDup_app in Hnd as (_ & Hd & _).
      apply (Hd (pa_sequence a')); [by apply list_elem_of_fmap_2 | rewrite Heq; set_solver].
    + apply list_elem_of_singleton in Ha as ->. apply seq_at_set_eq.
Qed.

Lemma twp_then_all (e : env W) sq c allocs done_ b k w :
  respects (building sq) e -> chain_inv sq c done_ b.1 b.2 w -> NoDup (map pa_sequence (done_ ++ allocs)) ->
  twp e (then_all b allocs) (fun r _ w' => chain_inv sq c (done_ ++ allocs) r.1 r.2 w') k w.
Proof.
  intros He. revert done_ b k w. induction allocs as [|a allocs IH]; intros done_ [d deps] k w Hinv Hnd; cbn [then_all].
  { apply twp_ret. by rewrite app_nil_r. }
  unfold then_. twp_steps. eapply twp_mono; [apply (twp_add_processor e sq c done_); [done | done|]|].
  { rewrite (cons_middle a done_ allocs), app_assoc, map_app in Hnd. by apply NoDup_app in Hnd as []. }
  intros [d1 s] k1 w1 Hinv1. twp_steps. rewrite (cons_middle a done_ allocs), app_assoc in Hnd |- *. by apply IH.
Qed.

(** A chain built with [handle_events_with] and [then] calls, from a fresh
    disruptor: one processor per call, the first on the cursor and every later
    one on exactly the processor before it, all of them starting before
    sequence 0 and all of them gating the producers, in order. *)
Theorem chain_topology (e : env W) d eh a allocs k w :
  let sq := d_sequencer d in
  respects (building sq) e -> event_processors d = [] -> gating sq w = [] -> NoDup (map pa_sequence (a :: allocs)) ->
  exists b k' w',
    (let* b := handle_events_with_exception_handler d eh a in then_all b allocs) e k w = Done b k' w' /\
    chain_inv sq (cursor_loc sq w) (a :: allocs) (build b) b.2 w'.
Proof.
  intros sq He Hps Hg Hnd.
  assert (H : twp e (let* b := handle_events_with_exception_handler d eh a in then_all b allocs)
    (fun b _ w' => chain_inv sq (cursor_loc sq w) (a :: allocs) (build b) b.2 w') k w).
  { unfold handle_events_with_exception_handler. twp_steps.
    eapply twp_mono; [apply (twp_add_processor e sq (cursor_loc sq w) [] d [] eh a k w He)|].
    - constructor; rewrite ?Hps; try done. by intros a' ?%not_elem_of_nil.
    - by apply NoDup_singleton.
    - intros [d1 s] k1 w1 Hinv. twp_steps. by apply (twp_then_all e sq _ allocs [a]). }
  unfold twp in H. destruct (bind _ _ e k w) as [b k' w'| |]; [|done|done]. by exists b, k', w'.
Qed.

End DslSpec.
