(* ===== verification/DslProgress.v ===== *)
(** * DslProgress: the classic facade's shutdown returns (disruptor/disruptor.rs)

    Taking a disruptor down waits twice: for the backlog, until a deadline, and
    for the processor threads, which have been halted by then.  The second
    wait ends because a halted processor is not started again and leaves its
    loop. *)
From S2P Require Import Prelude Effects Errors RingBuffer World Sequence Gating Single Multi Availability Sequencer.
From S2P Require Import Waiting WaitStrategy Barrier ConsumerEngine Progress Threads Core Processor Producer Dsl DslSpec.

Section DslProgress.
Context {T : Type}.
Abbreviation W := (World T).
Implicit Types (w : W) (d : Disruptor T) (p q : BatchEventProcessor T).

(** ** Halted processors *)

(** What [halt] of a processor leaves: its running flag is down, its barrier alerted. *)
Definition halted p w : Prop :=
  flag_at w (p_running p) = false /\ flag_at w (alerted (p_barrier p)) = true.

Definition told d w : Prop := flag_at w (d_shutdown_flag d) = true.

Definition all_halted d w : Prop := told d w /\ forall p, p ∈ event_processors d -> halted p w.

(** Once the shutdown flag is up, nobody starts a processor again. *)
Definition halt_stays d w w' : Prop :=
  told d w -> forall p, p ∈ event_processors d ->
    (flag_at w (p_running p) = false -> flag_at w' (p_running p) = false) /\
    (flag_at w (alerted (p_barrier p)) = true -> flag_at w' (alerted (p_barrier p)) = true).

Definition halt_rely d w w' : Prop := dsl_rely d w w' /\ halt_stays d w w'.

(** From action [k0] on, the threads of halted processors are done. *)
Definition heeds d (e : env W) (k0 : nat) : Prop :=
  forall k w, (k0 <= k)%nat -> all_halted d w -> forall h, h ∈ thread_handles d -> finished (e k w) h.1.

(** The running flags, the alerts and the shutdown flag are different flags. *)
Definition halt_wf d : Prop :=
  dsl_wf d /\ forall p q, p ∈ event_processors d -> q ∈ event_processors d -> p_running p <> alerted (p_barrier q).

#[global] Instance halt_rely_preorder d : PreOrder (halt_rely d).
Proof.
  split; [intros w; split; [reflexivity | by intros _ p _]|]. intros w1 w2 w3 [H1 S1] [H2 S2]. split; [by etrans|].
  intros Ht p Hp. pose proof (cg_flag _ _ _ _ (proj1 (proj1 H1)) Ht) as Ht2.
  destruct (S1 Ht p Hp), (S2 Ht2 p Hp). split; auto.
Qed.

Lemma halt_rely_told d w w' : halt_rely d w w' -> told d w -> told d w'.
Proof. intros [[H _] _]. apply (cg_flag _ _ _ _ (proj1 H)). Qed.

Lemma halt_rely_halted d w w' p : halt_rely d w w' -> told d w -> p ∈ event_processors d -> halted p w -> halted p w'.
Proof. intros [_ Hs] Ht Hp [Hr Ha]. destruct (Hs Ht p Hp) as [H1 H2]. by split; [apply H1 | apply H2]. Qed.

Lemma halt_rely_all_halted d w w' : halt_rely d w w' -> all_halted d w -> all_halted d w'.
Proof. intros Hr [Ht Ha]. split; [by eapply halt_rely_told|]. intros p Hp. eapply halt_rely_halted; eauto. Qed.

(** ** Halting *)

Section Halt.
Context d (Hwf : halt_wf d).

(** [progress ps w w']: what was halted in [w], and [ps], are halted in [w']. *)
Definition progress (ps : list (BatchEventProcessor T)) w w' : Prop :=
  told d w' /\ forall q, q ∈ event_processors d -> q ∈ ps \/ halted q w -> halted q w'.

Lemma progress_trans ps qs w1 w2 w3 : progress ps w1 w2 -> progress qs w2 w3 -> progress (ps ++ qs) w1 w3.
Proof.
  intros [_ H1] [Ht H2]. split; [done|]. intros q Hq [[Hin|Hin]%elem_of_app|Hh]; apply H2; auto.
Qed.

Lemma progress_rely w w' : told d w -> halt_rely d w w' -> progress [] w w'.
Proof.
  intros Ht Hr. split; [by eapply halt_rely_told|]. intros q Hq [[]%not_elem_of_nil|Hh]. eapply halt_rely_halted; eauto.
Qed.

Lemma wp_signal_halted ws w :
  told d w -> wp (halt_rely d) (signal_all_when_blocking ws) (fun _ w' => progress [] w w') w.
Proof.
  intros Ht. destruct ws; cbn [signal_all_when_blocking]; wp_steps; try (by apply progress_rely).
  all: eapply (progress_trans [] [] _ s'); [by apply progress_rely|]; split; [exact (halt_rely_told _ _ _ H Ht)|];
    by intros q _ [[]%not_elem_of_nil|Hh].
Qed.

Lemma wp_halt_one p w :
  p ∈ event_processors d -> told d w -> wp (halt_rely d) (processor_halt p) (fun _ w' => progress [p] w w') w.
Proof.
  destruct Hwf as [Hs Hd]. intros Hp Ht. unfold processor_halt, alert. wp_steps. rename s' into w1, s'0 into w3.
  pose proof (progress_rely w w1 Ht H) as [Ht1 P1]. set (w2 := set_flag (p_running p) false w1) in *.
  assert (Ht2 : told d w2) by (unfold told, w2; rewrite flag_at_set_ne; [done | by apply Hs]).
  pose proof (progress_rely w2 w3 Ht2 H0) as [Ht3 P3]. set (w4 := set_flag (alerted (p_barrier p)) true w3).
  assert (Ht4 : told d w4).
  { unfold told, w4. destruct (decide (d_shutdown_flag d = alerted (p_barrier p))) as [->|]; 
      [apply flag_at_set_eq | by rewrite flag_at_set_ne]. }
  assert (Hrun : forall q, q ∈ event_processors d -> q = p \/ halted q w -> flag_at w4 (p_running q) = false).
  { intros q Hq Hor. unfold w4. rewrite flag_at_set_ne by (by apply not_eq_sym, Hd). destruct H0 as [_ Hs0]. apply (Hs0 Ht2 q Hq).
    unfold w2. destruct (decide (p_running q = p_running p)) as [->|Hne]; [apply flag_at_set_eq|].
    rewrite flag_at_set_ne by done. destruct Hor as [->|Hh]; [done|]. apply P1; auto. }
  assert (Hal : forall q, q ∈ event_processors d -> q = p \/ halted q w -> flag_at w4 (alerted (p_barrier q)) = true).
  { intros q Hq Hor. unfold w4. destruct (decide (alerted (p_barrier q) = alerted (p_barrier p))) as [->|Hne]; [apply flag_at_set_eq|].
    rewrite flag_at_set_ne by done. destruct Hor as [->|Hh]; [done|]. destruct H0 as [_ Hs0]. apply (Hs0 Ht2 q Hq).
    unfold w2. rewrite flag_at_set_ne by (by apply Hd). apply P1; auto. }
  eapply wp_mono; [by apply wp_signal_halted|]. intros [] w5 P5.
  apply (progress_trans [p] [] w w4 w5); [|done]. split; [done|].
  intros q Hq Hor. assert (Hor' : q = p \/ halted q w) by (destruct Hor as [->%list_elem_of_singleton|]; auto).
  by split; [apply Hrun | apply Hal].
Qed.

Lemma wp_halt_each ps w :
  (forall p, p ∈ ps -> p ∈ event_processors d) -> told d w ->
  wp (halt_rely d) (for_each ps processor_halt) (fun _ w' => progress ps w w') w.
Proof.
  revert w. induction ps as [|p ps IH]; intros w Hin Ht; cbn [for_each]; wp_steps.
  { split; [done|]. by intros q _ [[]%not_elem_of_nil|Hh]. }
  eapply wp_mono; [apply wp_halt_one; [apply Hin; set_solver | done]|]. intros [] w1 H1.
  eapply wp_mono; [apply IH; [set_solver | apply H1]|]. intros [] w2 H2. by apply (progress_trans [p] ps _ w1).
Qed.

End Halt.

Lemma halts_halt_each (ps : list (BatchEventProcessor T)) : halts (for_each ps processor_halt).
Proof.
  induction ps as [|p ps IH]; cbn [for_each]; [halts|]. apply halts_bind; [|by intros []].
  unfold processor_halt, alert. halts. apply halts_signal.
Qed.

(** ** Joining *)

Section Returns.
Context d (e : env W) (k0 : nat).
Context (Hwf : halt_wf d) (He : respects (halt_rely d) e) (Htick : ticks e) (Ho : heeds d e k0).

Lemma respects_dsl : respects (dsl_rely d) e.
Proof. intros k w. apply He. Qed.

Lemma respects_core : respects (core_rely (d_sequencer d) (d_shutdown_flag d)) e.
Proof. intros k w. apply He. Qed.

(** Recording a failure touches no flag. *)
Lemma wp_record_halted f w :
  all_halted d w ->
  wp (halt_rely d) (Sequencer.record_failure (dispatch (d_sequencer d)) f) (fun _ w' => all_halted d w') w.
Proof.
  intros Hall. destruct (d_sequencer d); cbn [dispatch single_ops multi_ops Sequencer.record_failure];
    unfold Single.record_failure, Multi.record_failure; wp_steps; exact (halt_rely_all_halted d w s' H Hall).
Qed.

Lemma ends_join fuel h k w :
  (k0 < fuel)%nat -> h ∈ thread_handles d -> all_halted d w ->
  ends e (Core.join fuel h.1) (fun _ _ w' => all_halted d w') k w.
Proof.
  intros Hf Hh Hall. apply (ends_loop e _ (fun _ _ w' => all_halted d w') _ k0); [|done|lia].
  intros [] w1 k1 Ha. apply ends_bind, ends_load. pose proof (halt_rely_all_halted _ _ _ (He k1 w1) Ha) as Ha1.
  destruct (thread_at (e k1 w1) h.1) eqn:Hst; apply ends_ret; [|done]. split; [lia|]. split; [|done].
  destruct (Nat.lt_ge_cases k1 k0) as [|Hge]; [done|]. destruct (Ho k1 w1 Hge Ha h Hh) as [x Hx]. congruence.
Qed.

Lemma halts_record f : halts (Sequencer.record_failure (dispatch (T := T) (d_sequencer d)) f).
Proof.
  destruct (d_sequencer d); cbn [dispatch single_ops multi_ops Sequencer.record_failure];
    unfold Single.record_failure, Multi.record_failure; halts.
Qed.

Lemma ends_join_thread fuel h k w :
  (k0 < fuel)%nat -> h ∈ thread_handles d -> all_halted d w ->
  ends e (join_thread fuel d h) (fun _ _ w' => all_halted d w') k w.
Proof.
  destruct h as [l n]. intros Hf Hh Hall. unfold join_thread. apply ends_bind.
  eapply ends_mono; [by apply (ends_join fuel (l, n))|]. intros [|err|msg] k1 w1 H1; [done | |]; apply ends_bind;
    (eapply ends_mono; [eapply ends_wp; [exact He | by apply wp_record_halted | apply halts_record]|]); by intros [] k2 w2 [_ H2].
Qed.

Lemma ends_join_threads fuel hs k w :
  (k0 < fuel)%nat -> (forall h, h ∈ hs -> h ∈ thread_handles d) -> all_halted d w ->
  ends e (join_threads fuel d hs) (fun _ _ _ => True) k w.
Proof.
  intros Hf. revert k w. induction hs as [|h hs IH]; intros k w Hin Hall; cbn [join_threads]; [done|].
  apply ends_bind. eapply ends_mono; [apply ends_join_thread; [done | apply Hin; set_solver | done]|].
  intros es k1 w1 H1. apply ends_bind. eapply ends_mono; [apply IH; [set_solver | done]|]. done.
Qed.

Lemma ends_halt_join debug fuel k w : (k0 < fuel)%nat -> ends e (halt_join debug fuel d) (fun _ _ _ => True) k w.
Proof.
  intros Hf. unfold halt_join. apply ends_bind. unfold ends at 1, store, atomic. cbn [fst snd].
  set (w1 := set_flag (d_shutdown_flag d) true (e k w)). assert (Ht : told d w1) by apply flag_at_set_eq.
  apply ends_bind. eapply ends_mono; [eapply ends_wp; [exact He | by apply (wp_halt_each d Hwf (event_processors d)) | apply halts_halt_each]|].
  intros [] k2 w2 [_ [Ht2 P2]]. apply ends_bind.
  eapply ends_mono; [apply ends_join_threads; [done | intros h; by rewrite elem_of_reverse |]|].
  - split; [done|]. intros p Hp. apply P2; auto.
  - by intros [|] k3 w3 _.
Qed.

Lemma ends_drain_backlog fuel t k w :
  0 <= t -> (Z.to_nat t + 2 < fuel)%nat -> ends e (drain_backlog fuel d (Some t)) (fun _ _ _ => True) k w.
Proof.
  intros Hd Hf. unfold drain_backlog, deadline_for, deadline_after, now. apply ends_bind, ends_bind, ends_bind, ends_load.
  set (w1 := e k w). destruct (Z.leb_spec (w_clock w1 + t) instant_max) as [_|_]; [|done]. apply ends_ret, ends_ret, ends_bind.
  assert (Hc : forall (Q : loc -> nat -> W -> Prop), (forall l, Q l (S k) w1) ->
            ends e (Sequencer.get_cursor (dispatch (d_sequencer d))) Q (S k) w1).
  { intros Q HQ. destruct (d_sequencer d); apply HQ. }
  apply Hc. intros l. apply ends_bind, ends_load. set (w2 := e (S k) w1). set (k2 := S (S k)).
  assert (H2 : w_clock w1 + 1 <= w_clock w2) by apply Htick.
  apply (ends_loop e _ (fun _ k' w' => w_clock w1 - Z.of_nat k2 + Z.of_nat k' <= w_clock w') _ (k2 + Z.to_nat t));
    [|lia|lia].
  intros [] w' k' Hk'. rewrite drain_backlog_step_eq. apply (ends_drain_step (as_core d) e respects_core Htick); [done | lia].
Qed.

Lemma ends_dsl_shutdown debug fuel t k w :
  0 <= t -> (k0 < fuel)%nat -> (Z.to_nat t + 2 < fuel)%nat ->
  ends e (dsl_shutdown debug fuel d (Some t)) (fun _ _ _ => True) k w.
Proof.
  intros Ht H1 H2. unfold dsl_shutdown. destruct (started d); cbn [negb]; [|done]. apply ends_bind.
  eapply ends_mono; [apply (ends_close (as_core d) e respects_core)|]. intros [] k1 w1 _. apply ends_bind.
  eapply ends_mono; [by apply ends_drain_backlog|]. intros r k2 w2 _. apply ends_bind.
  eapply ends_mono; [by apply ends_halt_join|]. by intros [hr d'] k3 w3 _.
Qed.

End Returns.

(** C38: [shutdown_timeout] of a started disruptor comes to an end, if time passes,
    nobody starts a processor once the shutdown flag is up, and the threads of
    halted processors finish: the drain loop ends by its deadline, and every
    processor has been halted -- its running flag down, its barrier alerted --
    before the first join.  It returns, with the state and the answer of a
    clean shutdown, unless the deadline lies after the last representable
    [Instant]: then it panics with the processors left running. *)
Theorem dsl_shutdown_returns debug d (e : env W) k0 fuel t k w :
  halt_wf d -> respects (halt_rely d) e -> ticks e -> heeds d e k0 -> 0 <= t ->
  (k0 < fuel)%nat -> (Z.to_nat t + 2 < fuel)%nat -> started d = true ->
  match dsl_shutdown debug fuel d (Some t) e k w with
  | Done (r, d') _ w' =>
      d' = with_threads [] false d /\ closed (d_sequencer d) w' = true /\
      (forall h, h ∈ thread_handles d -> finished w' h.1) /\ shutdown_outcome d (Some t) w r w'
  | Panicked msg _ w' => dsl_left_running d (Some t) w msg w'
  | NoFuel => False
  end.
Proof.
  intros Hwf He Htick Ho Ht H1 H2 Hs.
  pose proof (wpx_ends (dsl_rely d) e _ _ _ k w (respects_dsl d e He) (wpx_dsl_shutdown debug fuel d (Some t) w (proj1 Hwf))
    (ends_dsl_shutdown d e k0 Hwf He Htick Ho debug fuel t k w Ht H1 H2)) as H. rewrite Hs in H.
  by destruct (dsl_shutdown debug fuel d (Some t) e k w) as [[r d'] k' w'| |].
Qed.

End DslProgress.
