(* ===== verification/ThreadManagement.v ===== *)
(** * ThreadManagement: named and pinned threads (disruptor/thread_management.rs)

    [ThreadContext] and [ThreadBuilder] collect a name and a core;
    [ManagedThread] joins its thread when it is dropped.  The cores of the
    machine are those the core_affinity crate reports. *)
From stdpp Require Import pretty.
From S2P Require Import Prelude Effects Errors World Core.

(** [ThreadContext] *)
Record ThreadContext : Type := mkThreadContext {
  affinity : option Z;
  name : option string;
  id : Z
}.

(** [ManagedThread]: the handle, [None] once taken, and the name. *)
Record ManagedThread : Type := mkManaged {
  handle : option loc;
  managed_name : string
}.

Section ThreadManagement.
Context (get_core_ids : option (list Z)).
Context {T : Type}.
Abbreviation W := (World T).

(** [ThreadContext::new] *)
Definition context_new : ThreadContext := mkThreadContext None None 0.

(** [get_available_cores] *)
Definition get_available_cores : list Z := default [] get_core_ids.

(** [get_first_available_core] *)
Definition get_first_available_core : option Z := head (default [] get_core_ids).

(** [validate_core_id]: [None] is the panic. *)
Definition validate_core_id (core_id : Z) : option unit :=
  if decide (core_id ∈ default [] get_core_ids) then Some tt else None.

(** [ThreadContext::pin_at_core], [ThreadContext::thread_name] *)
Definition pin_at_core (c : ThreadContext) (core_id : Z) : option ThreadContext :=
  match validate_core_id core_id with
  | None => None
  | Some _ => Some (mkThreadContext (Some core_id) (name c) (id c))
  end.
Definition thread_name (c : ThreadContext) (n : string) : ThreadContext := mkThreadContext (affinity c) (Some n) (id c).

(** [ThreadContext::get_name]: the name is taken; without one, a fresh one. *)
Definition get_name (c : ThreadContext) : string * ThreadContext :=
  match name c with
  | Some n => (n, mkThreadContext (affinity c) None (id c))
  | None => let i := id c + 1 in ("processor-" +:+ pretty i, mkThreadContext (affinity c) None i)
  end.

(** [ThreadContext::get_affinity] *)
Definition get_affinity (c : ThreadContext) : option Z * ThreadContext :=
  (affinity c, mkThreadContext None (name c) (id c)).

(** [ThreadBuilder::spawn]: the thread at [l], if the system gives it, and the
    core it will try to pin itself to. *)
Definition spawn (spawns : bool) (l : loc) (c : ThreadContext) : M W (result (ManagedThread * option Z) unit) :=
  let '(n, c) := get_name c in
  let '(core, _) := get_affinity c in
  if spawns then
    let* _ := store (set_thread l ThreadRunning) in
    ret (Ok (mkManaged (Some l) n, core))
  else ret (Err tt).

(** [ManagedThread::join] (whose own drop finds the handle taken): [Err] is the
    payload of a panic. *)
Definition managed_join (fuel : nat) (t : ManagedThread) : M W (result unit string) :=
  match handle t with
  | None => ret (Ok tt)
  | Some l =>
      let* r := Core.join fuel l in
      match r with
      | ExitPanic payload => ret (Err payload)
      | _ => ret (Ok tt)
      end
  end.

(** [ManagedThread::is_running] *)
Definition managed_is_running (t : ManagedThread) : M W bool :=
  match handle t with
  | None => ret false
  | Some l =>
      let* s := load (fun w => thread_at w l) in
      ret (match s with ThreadRunning => true | ThreadFinished _ => false end)
  end.

(** [Drop for ManagedThread] *)
Definition drop_managed (fuel : nat) (t : ManagedThread) : M W unit :=
  let* _ := managed_join fuel t in ret tt.

(** A joined thread is done, and a panic of it is reported. *)
Lemma wp_managed_join (R : W -> W -> Prop) `{!PreOrder R} fuel t w :
  wp R (managed_join fuel t) (fun r w' => R w w' /\ forall l, handle t = Some l ->
    exists x, thread_at w' l = ThreadFinished x /\ r = match x with ExitPanic payload => Err payload | _ => Ok tt end) w.
Proof.
  unfold managed_join, Core.join. destruct (handle t) as [l|]; wp_steps; [|by split].
  apply (wp_loop R (fun _ w' => R w w')); [|reflexivity]. intros [] w1 H1. wp_steps.
  assert (R w s') by (by etrans). destruct (thread_at s' l) as [|x] eqn:Ht; wp_steps; [done|].
  destruct x; wp_steps; (split; [done|]); intros l' [= <-]; eauto.
Qed.

End ThreadManagement.
