(* ===== verification/Elegant.v ===== *)
(** * Elegant: the lightweight consumer (disruptor/elegant_consumer.rs)

    [ElegantConsumer] runs a closure over the events of a ring buffer on a
    managed thread; a panic of the closure stops the consumer, marks it
    poisoned, runs a hook (poisoning the producers' sequencer) and goes on
    unwinding. *)
From stdpp Require Import pretty.
From S2P Require Import Prelude Effects Errors RingBuffer World Sequence Single Multi Availability Sequencer.
From S2P Require Import Waiting WaitStrategy Barrier ConsumerEngine Progress Threads Core ThreadManagement.

(** [ElegantConsumer]: its thread and the addresses of its atomics. *)
Record ElegantConsumer : Type := mkElegant {
  ec_thread : option ManagedThread;
  ec_sequence : loc;
  ec_shutdown : loc;
  ec_poisoned : loc
}.

(** [SimpleWaitStrategy::backoff]: the actions of one call. *)
Definition backoff (s : SimpleStrategy) : list Idle :=
  match s with
  | BusySpin => []
  | BusySpinWithHint => [SpinLoop]
  | Yielding spin_tries => replicate (Z.to_nat spin_tries) SpinLoop ++ [YieldNow]
  | Sleeping sleep_nanos => [Sleep sleep_nanos]
  end.

(** What a constructor hands out: the consumer, the core its thread pins itself
    to, and the run of that thread. *)
Record Launched (T R : Type) : Type := mkLaunched {
  launched : ElegantConsumer;
  pinned_core : option Z;
  run_thread : M (World T) R
}.
Arguments mkLaunched {T R}.
Arguments launched {T R} _.
Arguments pinned_core {T R} _.
Arguments run_thread {T R} _.

Section Elegant.
Context {T : Type} (current_thread_name : string).
Abbreviation W := (World T).
Implicit Types (w : W) (c : ElegantConsumer).

(** [PanicHook] *)
Definition PanicHook : Type := M W unit.

(** [wait_for_events] *)
Definition wait_for_events (sequence : Z) (wait_strategy : SimpleStrategy) (shutdown : loc) : M W (option Z) :=
  let* rb := read w_ring in
  let miss :=
    let* _ := for_each (backoff wait_strategy) pause in
    let* s := load (fun w => flag_at w shutdown) in
    ret (if s then None else Some sequence) in
  match RingBuffer.size rb with
  | None => panic "ring buffer length must fit into i64"
  | Some buffer_size =>
      if sequence <? buffer_size then
        let* s := load (fun w => flag_at w shutdown) in
        if negb s then ret (Some sequence) else miss
      else miss
  end.

(** What both loops do with the payload of a handler's panic. *)
Definition handler_panicked {A} (shutdown poisoned : loc) (panic_hook : option PanicHook) (payload : string) : M W A :=
  let* _ := store (set_flag shutdown true) in
  let* _ := store (set_flag poisoned true) in
  let* _ := (match panic_hook with Some hook => hook | None => ret tt end) in
  panic payload.

(** [consumer_loop]; the closure [event_handler] has the state [H]. *)
Definition consumer_loop {H} (fuel : nat) (event_handler : H -> T -> Z -> bool -> H * option string)
    (wait_strategy : SimpleStrategy) (sequence shutdown poisoned : loc) (panic_hook : option PanicHook) (h : H) : M W H :=
  loop fuel (fun '(next_sequence, h) =>
    let* s := load (fun w => flag_at w shutdown) in
    if s then ret (inr h) else
    let* available_sequence := wait_for_events next_sequence wait_strategy shutdown in
    match available_sequence with
    | None => ret (inl (next_sequence, h))
    | Some available =>
        let* (next_sequence, h) := loop fuel (fun '(next_sequence, h) =>
          if next_sequence <=? available then
            let* s := load (fun w => flag_at w shutdown) in
            if s then ret (inr (next_sequence, h)) else
            let end_of_batch := available =? next_sequence in
            let* event := event_at next_sequence in
            let '(h, panicked) := event_handler h event next_sequence end_of_batch in
            match panicked with
            | Some payload => handler_panicked shutdown poisoned panic_hook payload
            | None => ret (inl (next_sequence +! 1, h))
            end
          else ret (inr (next_sequence, h))) (next_sequence, h) in
        let* _ := store (set_seq sequence (next_sequence -! 1)) in
        ret (inl (next_sequence, h))
    end) (0, h).

(** [consumer_loop_with_state]; [initialize_state] may panic. *)
Definition consumer_loop_with_state {H S} (fuel : nat) (event_handler : H -> S -> T -> Z -> bool -> H * S * option string)
    (initialize_state : S + string) (wait_strategy : SimpleStrategy) (sequence shutdown poisoned : loc)
    (panic_hook : option PanicHook) (h : H) : M W (H * S) :=
  let* state := match initialize_state with inl state => ret state | inr payload => panic payload end in
  loop fuel (fun '(next_sequence, (h, state)) =>
    let* s := load (fun w => flag_at w shutdown) in
    if s then ret (inr (h, state)) else
    let* available_sequence := wait_for_events next_sequence wait_strategy shutdown in
    match available_sequence with
    | None => ret (inl (next_sequence, (h, state)))
    | Some available =>
        let* (next_sequence, hs) := loop fuel (fun '(next_sequence, (h, state)) =>
          if next_sequence <=? available then
            let* s := load (fun w => flag_at w shutdown) in
            if s then ret (inr (next_sequence, (h, state))) else
            let end_of_batch := available =? next_sequence in
            let* event := event_at next_sequence in
            let '(h, state, panicked) := event_handler h state event next_sequence end_of_batch in
            match panicked with
            | Some payload => handler_panicked shutdown poisoned panic_hook payload
            | None => ret (inl (next_sequence +! 1, (h, state)))
            end
          else ret (inr (next_sequence, (h, state)))) (next_sequence, (h, state)) in
        let* _ := store (set_seq sequence (next_sequence -! 1)) in
        ret (inl (next_sequence, hs))
    end) (0, (h, state)).

(** The hook of [new_with_sequencer_poison] (the log line is left out). *)
Definition sequencer_poison_hook (sq : SequencerEnum) : PanicHook :=
  let* _ := Sequencer.record_failure (dispatch sq)
              (with_thread_name current_thread_name (failure_new ConsumerPanic "elegant consumer handler panicked")) in
  Sequencer.poison (dispatch sq).

(** [spawn_plain] and [spawn_with_state], up to the new thread's own run: the
    consumer, and the core its thread pins itself to. *)
Definition spawn_elegant (get_core_ids : option (list Z)) (spawns : bool) (tname : string) (core_id : option Z)
    (thread sequence shutdown poisoned : loc) : M W (result (ElegantConsumer * option Z) unit) :=
  let* _ := write (set_seq sequence (-1)) in
  let* _ := write (set_flag shutdown false) in
  let* _ := write (set_flag poisoned false) in
  let builder := thread_name context_new tname in
  let pinned := match core_id with Some core => pin_at_core get_core_ids builder core | None => Some builder end in
  match pinned with
  | None => panic "CPU core is not available"
  | Some builder =>
      let? (t, core) := spawn spawns thread builder in
      ret (Ok (mkElegant (Some t) sequence shutdown poisoned, core))
  end.

(** [spawn_plain] names the thread after its core; [spawn_with_state] has a
    name of its own and no core. *)
Definition spawn_plain (get_core_ids : option (list Z)) (spawns : bool) (core_id : option Z) :=
  spawn_elegant get_core_ids spawns
    (match core_id with Some core => "elegant-consumer-core-" +:+ pretty core | None => "elegant-consumer" end) core_id.
Definition spawn_with_state (get_core_ids : option (list Z)) (spawns : bool) :=
  spawn_elegant get_core_ids spawns "elegant-consumer-with-state" None.

Section Constructors.
Context (get_core_ids : option (list Z)) (spawns : bool) (thread sequence shutdown poisoned : loc) (fuel : nat).

(** The thread closures of [spawn_plain] and [spawn_with_state]. *)
Definition launch_plain {H} (event_handler : H -> T -> Z -> bool -> H * option string) (h : H) (wait_strategy : SimpleStrategy)
    (core_id : option Z) (panic_hook : option PanicHook) : M W (result (Launched T H) unit) :=
  let? (c, core) := spawn_plain get_core_ids spawns core_id thread sequence shutdown poisoned in
  ret (Ok (mkLaunched c core (consumer_loop fuel event_handler wait_strategy (ec_sequence c) (ec_shutdown c) (ec_poisoned c) panic_hook h))).
Definition launch_with_state {H S} (event_handler : H -> S -> T -> Z -> bool -> H * S * option string) (h : H)
    (initialize_state : S + string) (wait_strategy : SimpleStrategy) (panic_hook : option PanicHook) :
    M W (result (Launched T (H * S)) unit) :=
  let? (c, core) := spawn_with_state get_core_ids spawns thread sequence shutdown poisoned in
  ret (Ok (mkLaunched c core (consumer_loop_with_state fuel event_handler initialize_state wait_strategy
                                (ec_sequence c) (ec_shutdown c) (ec_poisoned c) panic_hook h))).

(** [new], [new_with_panic_hook], [new_with_sequencer_poison] *)
Definition elegant_new {H} (f : H -> T -> Z -> bool -> H * option string) h ws := launch_plain f h ws None None.
Definition new_with_panic_hook {H} (f : H -> T -> Z -> bool -> H * option string) h ws (panic_hook : PanicHook) :=
  launch_plain f h ws None (Some panic_hook).
Definition new_with_sequencer_poison {H} (f : H -> T -> Z -> bool -> H * option string) h ws (sq : SequencerEnum) :=
  new_with_panic_hook f h ws (sequencer_poison_hook sq).

(** [with_affinity], [with_affinity_and_panic_hook] *)
Definition with_affinity {H} (f : H -> T -> Z -> bool -> H * option string) h ws (core_id : Z) :=
  launch_plain f h ws (Some core_id) None.
Definition with_affinity_and_panic_hook {H} (f : H -> T -> Z -> bool -> H * option string) h ws (core_id : Z) (panic_hook : PanicHook) :=
  launch_plain f h ws (Some core_id) (Some panic_hook).

(** [with_state], [with_state_and_panic_hook] *)
Definition with_state {H S} (g : H -> S -> T -> Z -> bool -> H * S * option string) h init ws := launch_with_state g h init ws None.
Definition with_state_and_panic_hook {H S} (g : H -> S -> T -> Z -> bool -> H * S * option string) h init ws (panic_hook : PanicHook) :=
  launch_with_state g h init ws (Some panic_hook).

End Constructors.

(** [current_sequence], [is_running], [is_poisoned] *)
Definition current_sequence c : M W Z := load (fun w => seq_at w (ec_sequence c)).
Definition elegant_is_running c : M W bool :=
  let* s := load (fun w => flag_at w (ec_shutdown c)) in
  if s then ret false else
  match ec_thread c with
  | None => ret false
  | Some t => managed_is_running t
  end.
Definition elegant_is_poisoned c : M W bool := load (fun w => flag_at w (ec_poisoned c)).

(** [Drop for ElegantConsumer], the drop of its [thread] field included. *)
Definition drop_elegant (fuel : nat) c : M W unit :=
  let* _ := store (set_flag (ec_shutdown c) true) in
  match ec_thread c with
  | None => ret tt
  | Some t => drop_managed fuel t
  end.

(** [shutdown]: the thread is taken and joined, then the consumer dropped. *)
Definition elegant_shutdown (fuel : nat) c : M W (result unit string) :=
  with_guard
    (let* _ := store (set_flag (ec_shutdown c) true) in
     match ec_thread c with
     | Some t => managed_join fuel t
     | None => ret (Ok tt)
     end)
    (drop_elegant fuel (mkElegant None (ec_sequence c) (ec_shutdown c) (ec_poisoned c))).

(** ** What the loop does *)

(** The other threads: flags that are up stay up, nobody else writes the
    consumer's sequence, the ring stays well-formed, poison stays. *)
Record elegant_rely c w w' : Prop := {
  er_shutdown : flag_at w (ec_shutdown c) = true -> flag_at w' (ec_shutdown c) = true;
  er_poisoned : flag_at w (ec_poisoned c) = true -> flag_at w' (ec_poisoned c) = true;
  er_sequence : seq_at w' (ec_sequence c) = seq_at w (ec_sequence c);
  er_ring : RingBuffer.wf (w_ring w) -> RingBuffer.wf (w_ring w');
  er_terminal : forall sq, poisoned sq w = true -> poisoned sq w' = true
}.

#[global] Instance elegant_rely_preorder c : PreOrder (elegant_rely c).
Proof.
  split; [by constructor|]. intros w1 w2 w3 H1 H2. constructor.
  - intros H. by apply (er_shutdown _ _ _ H2), (er_shutdown _ _ _ H1).
  - intros H. by apply (er_poisoned _ _ _ H2), (er_poisoned _ _ _ H1).
  - by rewrite (er_sequence _ _ _ H2), (er_sequence _ _ _ H1).
  - intros H. by apply (er_ring _ _ _ H2), (er_ring _ _ _ H1).
  - intros sq H. by apply (er_terminal _ _ _ H2), (er_terminal _ _ _ H1).
Qed.

(** A handler with a log of the calls made. *)
Definition logged {H} (f : H -> T -> Z -> bool -> H * option string) (x : H * list (Z * bool)) (event : T) (sequence : Z)
    (end_of_batch : bool) : (H * list (Z * bool)) * option string :=
  let '(h, panicked) := f x.1 event sequence end_of_batch in ((h, x.2 ++ [(sequence, end_of_batch)]), panicked).

(** Sequences [0 .. n-1], each a batch of its own. *)
Definition calls_upto (n : nat) : list (Z * bool) := map (fun i => (Z.of_nat i, true)) (seq 0 n).

Lemma calls_upto_S n : calls_upto (S n) = calls_upto n ++ [(Z.of_nat n, true)].
Proof. unfold calls_upto. rewrite seq_S, map_app. done. Qed.

Section Loop.
Context {H : Type} (f : H -> T -> Z -> bool -> H * option string) (ws : SimpleStrategy) (c : ElegantConsumer).
Context (Hne : ec_shutdown c <> ec_poisoned c).
Abbreviation R := (elegant_rely c).

Lemma rely_pause i w w1 : R w w1 -> wp R (pause i) (fun _ w' => R w w') w1.
Proof.
  intros H1. destruct i; cbn [pause]; wp_steps; try by etrans. etrans; [exact H1|]. etrans; [exact H0|]. by constructor.
Qed.

Lemma wp_wait_for_events q w :
  RingBuffer.wf (w_ring w) ->
  wp R (wait_for_events q ws (ec_shutdown c)) (fun r w' => R w w' /\ (r = Some q \/ r = None)) w.
Proof.
  intros Hwf. unfold wait_for_events. wp_steps. unfold RingBuffer.size, i64_try_from.
  pose proof (RingBuffer.wf_size _ Hwf) as Hs. unfold RingBuffer.buffer_size in Hs.
  destruct (Z.leb_spec (storage_len (storage (w_ring w))) i64_max); [|i64_lia].
  assert (Hmiss : forall w1, R w w1 -> wp R (
      let* _ := for_each (backoff ws) pause in
      let* s := load (fun w => flag_at w (ec_shutdown c)) in
      ret (if s then None else Some q)) (fun r w' => R w w' /\ (r = Some q \/ r = None)) w1).
  { intros w1 H1. wp_steps. eapply wp_mono; [apply (wp_for_each R (fun _ w' => R w w')); [|exact H1]|].
    - intros i l w2 H2. by apply rely_pause.
    - intros [] w2 H2. wp_steps. split; [by etrans|]. destruct (flag_at s' (ec_shutdown c)); [by right | by left]. }
  destruct (q <? _); [|by apply Hmiss]. wp_steps. destruct (flag_at s' (ec_shutdown c)); cbn [negb]; [by apply Hmiss|].
  wp_steps. split; [done | by left].
Qed.

(** The consumer is down because of a panic; linked producers are poisoned. *)
Definition panicked_down (link : option SequencerEnum) w : Prop :=
  flag_at w (ec_shutdown c) = true /\ flag_at w (ec_poisoned c) = true /\ forall sq, link = Some sq -> poisoned sq w = true.

Lemma wp_poison_hook sq w :
  panicked_down None w -> wp R (sequencer_poison_hook sq) (fun _ w' => panicked_down (Some sq) w') w.
Proof.
  intros (Hs & Hp & _).
  assert (Hsig : forall ws' w1, panicked_down (Some sq) w1 ->
            wp R (signal_all_when_blocking ws') (fun _ w' => panicked_down (Some sq) w') w1).
  { intros ws' w1 (H1 & H2 & H3). assert (Hr : forall w2, R w1 w2 -> panicked_down (Some sq) w2).
    { intros w2 Hr. split_and!; [by apply (er_shutdown _ _ _ Hr) | by apply (er_poisoned _ _ _ Hr)|].
      intros sq' Hsq. by apply (er_terminal _ _ _ Hr), H3. }
    destruct ws'; cbn [signal_all_when_blocking]; wp_steps; try (by apply Hr). by destruct (Hr _ H0) as (?&?&?). }
  unfold sequencer_poison_hook. destruct sq; cbn [dispatch single_ops multi_ops Sequencer.record_failure Sequencer.poison];
    unfold Single.record_failure, Multi.record_failure, Single.poison, Multi.poison; wp_steps; apply Hsig;
    (split_and!; [apply (er_shutdown _ _ _ H1), (er_shutdown _ _ _ H0), Hs |
                  apply (er_poisoned _ _ _ H1), (er_poisoned _ _ _ H0), Hp | by intros ? [= <-]]).
Qed.

Lemma wpx_handler_panicked {A} link payload (Q : A -> W -> Prop) w :
  wpx R (handler_panicked (ec_shutdown c) (ec_poisoned c) (option_map sequencer_poison_hook link) payload) Q
    (fun _ w' => panicked_down link w') w.
Proof.
  unfold handler_panicked. apply wpx_seq. wp_steps. apply wpx_seq. wp_steps.
  assert (Hd : panicked_down None (set_flag (ec_poisoned c) true s'0)).
  { split_and!; [|apply flag_at_set_eq | done]. rewrite flag_at_set_ne by done.
    apply (er_shutdown _ _ _ H1), flag_at_set_eq. }
  apply wpx_seq. destruct link as [sq|]; cbn [option_map].
  - eapply wp_mono; [by apply wp_poison_hook|]. intros [] w1 H2. by apply wpx_panic.
  - wp_steps. by apply wpx_panic.
Qed.

(** The state between two events. *)
Definition at_event (n : nat) (x : Z * (H * list (Z * bool))) : Prop := x.1 = Z.of_nat n /\ x.2.2 = calls_upto n.

(** One batch: the event, unless the consumer is told to stop. *)
Lemma wpx_batch link fuel n x w :
  at_event n x -> Z.of_nat n < i64_max -> RingBuffer.wf (w_ring w) ->
  wpx R (loop fuel (fun '(next_sequence, h) =>
      if next_sequence <=? Z.of_nat n then
        let* s := load (fun w => flag_at w (ec_shutdown c)) in
        if s then ret (inr (next_sequence, h)) else
        let end_of_batch := Z.of_nat n =? next_sequence in
        let* event := event_at next_sequence in
        let '(h, panicked) := logged f h event next_sequence end_of_batch in
        match panicked with
        | Some payload => handler_panicked (ec_shutdown c) (ec_poisoned c) (option_map sequencer_poison_hook link) payload
        | None => ret (inl (next_sequence +! 1, h))
        end
      else ret (inr (next_sequence, h))) x)
    (fun x' w' => R w w' /\ (at_event n x' \/ at_event (S n) x')) (fun _ w' => panicked_down link w') w.
Proof.
  intros Hx Hn Hwf. apply (wpx_loop R (fun x' w' => R w w' /\ (at_event n x' \/ at_event (S n) x'))); [|by split; [|left]].
  clear x Hx. intros [q [h log]] w1 [H1 Hx]. destruct (Z.leb_spec q (Z.of_nat n)).
  2:{ by apply wpx_ret. }
  destruct Hx as [[Hq Hl]|[Hq _]]; cbn in Hq; [|lia]. cbn in Hl. subst q log.
  apply wpx_seq. wp_steps. assert (Hr2 : R w s') by (by etrans).
  destruct (flag_at s' (ec_shutdown c)); [apply wpx_ret; split; [done | by left]|].
  rewrite Z.eqb_refl. apply wpx_seq. unfold event_at. wp_steps.
  destruct (RingBuffer.get_some (w_ring s') (Z.of_nat n) (er_ring _ _ _ Hr2 Hwf)) as [event ->]. wp_steps.
  unfold logged. cbn [fst snd]. destruct (f h event (Z.of_nat n) true) as [h' [payload|]]; [apply wpx_handler_panicked|].
  apply wpx_ret. split; [done|]. right. split; cbn [fst snd]; [|by rewrite calls_upto_S]. nowrap; i64_lia.
Qed.

Lemma wpx_consumer_loop link fuel h w :
  Z.of_nat fuel < i64_max -> RingBuffer.wf (w_ring w) -> seq_at w (ec_sequence c) = -1 ->
  wpx R (consumer_loop fuel (logged f) ws (ec_sequence c) (ec_shutdown c) (ec_poisoned c)
           (option_map sequencer_poison_hook link) (h, []))
    (fun x w' => flag_at w' (ec_shutdown c) = true /\
       exists n, x.2 = calls_upto n /\ seq_at w' (ec_sequence c) = Z.of_nat n - 1)
    (fun _ w' => panicked_down link w') w.
Proof.
  intros Hf Hwf Hs. unfold consumer_loop.
  apply (wpx_loop_count R fuel (fun j x w' => RingBuffer.wf (w_ring w') /\
    exists n, (n <= j)%nat /\ at_event n x /\ seq_at w' (ec_sequence c) = Z.of_nat n - 1) _ _ _) with (n := 0%nat); [|lia|].
  2:{ split; [done|]. exists 0%nat. by rewrite Hs. }
  intros j [q [h1 log]] w1 Hj (Hwf1 & n & Hn & [Hq Hl] & Hs1). cbn in Hq, Hl. subst q log. apply wpx_seq. wp_steps.
  assert (Hs2 : seq_at s' (ec_sequence c) = Z.of_nat n - 1) by (by rewrite (er_sequence _ _ _ H0)).
  destruct (flag_at s' (ec_shutdown c)) eqn:Hsd; [apply wpx_ret; split; [done|]; by exists n|].
  apply wpx_seq. eapply wp_mono; [apply wp_wait_for_events; by apply (er_ring _ _ _ H0)|].
  intros r w2 [H2 Hr]. assert (Hwf2 : RingBuffer.wf (w_ring w2)) by (by apply (er_ring _ _ _ H2), (er_ring _ _ _ H0)).
  destruct Hr as [->| ->].
  2:{ apply wpx_ret. split; [done|]. exists n. rewrite (er_sequence _ _ _ H2). split; [lia | done]. }
  apply wpx_bind. eapply wpx_mono; [apply (wpx_batch link fuel n); [done | lia | done]|].
  intros [q hl] w3 [H3 Hx]. apply wpx_seq. wp_steps. apply wpx_ret.
  assert (R w2 s'0) by (by etrans). split; [by apply (er_ring _ _ _ H4)|]. rewrite seq_at_set_eq.
  destruct Hx as [Hx|Hx]; [exists n | exists (S n)]; (split; [lia|]);
    (split; [exact Hx|]); destruct Hx as [Hq _]; cbn in Hq; subst q; nowrap; i64_lia.
Qed.

End Loop.

(** ** The loop stops *)

Lemma backoff_ends l : halts (for_each l (pause (T := T))) /\ advances (for_each l (pause (T := T))).
Proof.
  induction l as [|i l [IH1 IH2]]; cbn [for_each]; [split; [apply halts_ret | apply advances_ret]|].
  assert (Hp : halts (pause (T := T) i) /\ advances (pause (T := T) i))
    by (destruct i; cbn [pause]; split; first [apply halts_atomic | apply advances_atomic | apply halts_ret | apply advances_ret]).
  destruct Hp. split; [by apply halts_bind | by apply advances_bind].
Qed.

Lemma wait_for_events_ends q ws l : halts (wait_for_events q ws l) /\ advances (wait_for_events q ws l).
Proof.
  destruct (backoff_ends (backoff ws)) as [H1 H2].
  unfold wait_for_events. split; [halts; apply H1 | advances; apply H2].
Qed.

Lemma ends_handler_panicked {A} (e : env W) l1 l2 hook payload (Q : A -> nat -> W -> Prop) k w :
  (forall m, hook = Some m -> halts m) -> ends e (handler_panicked l1 l2 hook payload) Q k w.
Proof.
  intros Hh. unfold handler_panicked. do 3 (apply ends_bind; unfold ends at 1, store, atomic; cbn [fst snd]).
  destruct hook as [m|]; [|done]. specialize (Hh m eq_refl e (S (S k)) (set_flag l2 true (e (S k) (set_flag l1 true (e k w))))).
  unfold ends in Hh |- *. by destruct (m e _ _).
Qed.

Lemma ends_consumer_loop {H} (e : env W) k0 fuel (f : H -> T -> Z -> bool -> H * option string) ws sequence shutdown poisoned hook h k w :
  (forall j w', (k0 <= j)%nat -> flag_at (e j w') shutdown = true) -> (forall m, hook = Some m -> halts m) -> (k0 < fuel)%nat ->
  ends e (consumer_loop fuel f ws sequence shutdown poisoned hook h) (fun _ _ _ => True) k w.
Proof.
  intros Hup Hh Hf.
  assert (Htold : forall j w', flag_at (e j w') shutdown = false -> (j < k0)%nat).
  { intros j w' Hj. destruct (Nat.lt_ge_cases j k0) as [|Hge]; [done|]. rewrite Hup in Hj by done. done. }
  apply (ends_loop e _ (fun _ _ _ => True) _ k0); [|done | lia]. intros [q x] w1 k1 _. apply ends_bind, ends_load.
  destruct (flag_at (e k1 w1) shutdown) eqn:Hs; [done|]. apply Htold in Hs. apply ends_bind.
  destruct (wait_for_events_ends q ws shutdown) as [Hwh Hwa].
  eapply ends_mono; [apply ends_advances; [exact Hwa | apply Hwh]|]. intros [a|] k2 w2 [Hk2 _]; [|by apply ends_ret].
  apply ends_bind, (ends_mono _ _ (fun _ k3 _ => (k2 <= k3)%nat)).
  2:{ intros [q' x'] k3 w3 Hk3. apply ends_bind. unfold ends at 1, store, atomic. cbn [fst snd]. apply ends_ret. lia. }
  apply (ends_loop e _ (fun _ k3 _ => (k2 <= k3)%nat) _ k0); [|done | lia]. intros [q' x'] w3 k3 Hk3.
  destruct (q' <=? a); [|done]. apply ends_bind, ends_load. destruct (flag_at (e k3 w3) shutdown) eqn:Hs3; [apply ends_ret; lia|].
  apply Htold in Hs3. apply ends_bind. unfold event_at, bind, read, silent, ends at 1. cbn [fst snd].
  destruct (RingBuffer.get _ _) as [event|]; [|done]. cbn [ret].
  destruct (f x' event q' (a =? q')) as [x'' [payload|]]; [by apply ends_handler_panicked|]. apply ends_ret. lia.
Qed.

(** ** Theorems *)

(** Once shutdown is requested the consumer's loop ends, whatever the handler
    and the wait strategy do. *)
Lemma elegant_loop_stops {H} (e : env W) k0 fuel (f : H -> T -> Z -> bool -> H * option string) ws sequence shutdown poisoned hook h k w :
  (forall j w', (k0 <= j)%nat -> flag_at (e j w') shutdown = true) -> (forall m, hook = Some m -> halts m) -> (k0 < fuel)%nat ->
  ends e (consumer_loop fuel f ws sequence shutdown poisoned hook h) (fun _ _ _ => True) k w.
Proof. apply ends_consumer_loop. Qed.

(** The life of a fresh consumer, with the sequencer-poisoning hook of [link]
    or without a hook.  Its loop returns only because shutdown was requested;
    by then the handler has been called on sequences 0, 1, ..., n-1, once
    each, in order, always with [end_of_batch] set, and its sequence is n-1.
    If the handler panics instead, the consumer is marked as shut down and
    poisoned, and the linked sequencer is poisoned. *)
Theorem elegant_loop_spec {H} (f : H -> T -> Z -> bool -> H * option string) ws c link fuel h (e : env W) k w :
  ec_shutdown c <> ec_poisoned c -> respects (elegant_rely c) e -> Z.of_nat fuel < i64_max ->
  RingBuffer.wf (w_ring w) -> seq_at w (ec_sequence c) = -1 ->
  match consumer_loop fuel (logged f) ws (ec_sequence c) (ec_shutdown c) (ec_poisoned c)
          (option_map sequencer_poison_hook link) (h, []) e k w with
  | Done (_, log) _ w' => flag_at w' (ec_shutdown c) = true /\
      exists n, log = calls_upto n /\ seq_at w' (ec_sequence c) = Z.of_nat n - 1
  | Panicked _ _ w' => panicked_down c link w'
  | NoFuel => True
  end.
Proof.
  intros Hne He Hf Hwf Hs. pose proof (wpx_consumer_loop f ws c Hne link fuel h w Hf Hwf Hs e k He) as Hx.
  by destruct (consumer_loop _ _ _ _ _ _ _ _ e k w) as [[h' log] k' w'| |].
Qed.

(** ** From the constructor on *)

(** From action [k0] on the consumer is told to stop. *)
Definition told_from (e : env W) (shutdown : loc) (k0 : nat) : Prop :=
  forall j w, (k0 <= j)%nat -> flag_at (e j w) shutdown = true.

Lemma halts_poison_hook sq : halts (sequencer_poison_hook sq).
Proof.
  unfold sequencer_poison_hook. destruct sq; cbn [dispatch single_ops multi_ops Sequencer.record_failure Sequencer.poison];
    unfold Single.record_failure, Multi.record_failure, Single.poison, Multi.poison; halts; try apply halts_signal.
Qed.

(** Memory that was just allocated is nobody else's. *)
Definition private c w w' : Prop :=
  seq_at w' (ec_sequence c) = seq_at w (ec_sequence c) /\ flag_at w' (ec_shutdown c) = flag_at w (ec_shutdown c) /\
  flag_at w' (ec_poisoned c) = flag_at w (ec_poisoned c).

(** How a fresh consumer stands. *)
Record fresh_consumer c w : Prop := {
  fc_sequence : seq_at w (ec_sequence c) = -1;
  fc_shutdown : flag_at w (ec_shutdown c) = false;
  fc_poisoned : flag_at w (ec_poisoned c) = false;
  fc_thread : exists t, ec_thread c = Some t /\ exists l, handle t = Some l /\ thread_at w l = ThreadRunning
}.

Lemma twp_spawn_elegant (e : env W) ids tname thread sequence shutdown poisoned k w :
  let c t := mkElegant t sequence shutdown poisoned in
  shutdown <> poisoned -> respects (private (c None)) e ->
  twp e (spawn_elegant ids true tname None thread sequence shutdown poisoned)
    (fun r _ w' => exists t, r = Ok (c (Some t), None) /\ fresh_consumer (c (Some t)) w') k w.
Proof.
  intros c Hne He. unfold spawn_elegant, spawn. twp_steps. cbn [get_name thread_name context_new get_affinity]. twp_steps.
  set (w1 := set_flag poisoned false _). destruct (He k w1) as (H1 & H2 & H3). cbn [c ec_sequence ec_shutdown ec_poisoned] in *.
  eexists. split; [done|]. constructor; cbn [c ec_sequence ec_shutdown ec_poisoned ec_thread].
  - etrans; [exact H1 | apply seq_at_set_eq].
  - etrans; [exact H2|]. unfold w1. rewrite flag_at_set_ne by done. apply flag_at_set_eq.
  - etrans; [exact H3 | apply flag_at_set_eq].
  - eexists. split; [done|]. exists thread. split; [done | apply lookup_total_insert_eq].
Qed.

(** C21: The life of a consumer, from its constructor on ([new] or
    [new_with_sequencer_poison], by [link]).  The constructor hands out a
    running consumer at sequence -1, neither told to stop nor poisoned.  From
    any later moment its thread's loop returns only because shutdown was
    requested; by then the handler has been called on sequences 0, 1, ...,
    n-1, once each, in order, always with [end_of_batch] set, and the
    consumer's sequence is n-1.  If the handler panics instead, the consumer is
    marked as shut down and poisoned, and the linked sequencer is poisoned;
    and once told to stop, the loop does end. *)
Theorem elegant_life {H} (f : H -> T -> Z -> bool -> H * option string) ws ids thread sequence shutdown poisoned link fuel h (e : env W) k w :
  let c t := mkElegant t sequence shutdown poisoned in
  shutdown <> poisoned -> respects (private (c None)) e -> Z.of_nat fuel < i64_max ->
  exists l k' w',
    (match link with
     | None => elegant_new ids true thread sequence shutdown poisoned fuel (logged f) (h, []) ws
     | Some sq => new_with_sequencer_poison ids true thread sequence shutdown poisoned fuel (logged f) (h, []) ws sq
     end) e k w = Done (Ok l) k' w' /\
    launched l = c (ec_thread (launched l)) /\ pinned_core l = None /\ fresh_consumer (launched l) w' /\
    forall e1 k1 w1, respects (elegant_rely (launched l)) e1 -> elegant_rely (launched l) w' w1 -> RingBuffer.wf (w_ring w1) ->
      match run_thread l e1 k1 w1 with
      | Done (_, log) _ w2 => flag_at w2 shutdown = true /\ exists n, log = calls_upto n /\ seq_at w2 sequence = Z.of_nat n - 1
      | Panicked _ _ w2 => panicked_down (launched l) link w2
      | NoFuel => ~ exists k0, (k0 < fuel)%nat /\ told_from e1 shutdown k0
      end.
Proof.
  intros c Hne He Hf.
  pose proof (twp_spawn_elegant e ids "elegant-consumer" thread sequence shutdown poisoned k w Hne He) as Ht.
  set (hook := option_map sequencer_poison_hook link).
  assert (Hl : twp e (launch_plain ids true thread sequence shutdown poisoned fuel (logged f) (h, []) ws None hook)
    (fun r _ w' => exists t, r = Ok (mkLaunched (c (Some t)) None
       (consumer_loop fuel (logged f) ws sequence shutdown poisoned hook (h, []))) /\ fresh_consumer (c (Some t)) w') k w).
  { unfold launch_plain, spawn_plain. twp_steps. eapply twp_mono; [exact Ht|]. intros r k1 w1 (t & -> & Hfr). twp_steps. by exists t. }
  assert (Hrun : forall x, launch_plain ids true thread sequence shutdown poisoned fuel (logged f) (h, []) ws None hook e k w = x ->
    (match link with
     | None => elegant_new ids true thread sequence shutdown poisoned fuel (logged f) (h, []) ws
     | Some sq => new_with_sequencer_poison ids true thread sequence shutdown poisoned fuel (logged f) (h, []) ws sq
     end) e k w = x) by (intros x <-; unfold hook; by destruct link).
  unfold twp in Hl. destruct (launch_plain _ _ _ _ _ _ _ _ _ _ _ _ e k w) as [r k' w'| |]; try done.
  destruct Hl as (t & -> & Hfr). eexists _, k', w'. split; [by apply Hrun|]. do 2 (split; [done|]). split; [exact Hfr|].
  cbn [launched run_thread]. intros e1 k1 w1 He1 Hr Hwf.
  pose proof (wpx_consumer_loop f ws (c (Some t)) Hne link fuel h w1 Hf Hwf) as Hx. fold hook in Hx.
  specialize (Hx ltac:(rewrite (er_sequence _ _ _ Hr); apply (fc_sequence _ _ Hfr)) e1 k1 He1). cbn [c ec_sequence ec_shutdown ec_poisoned] in Hx.
  destruct (consumer_loop _ _ _ _ _ _ _ _ e1 k1 w1) as [[h' log] k2 w2| |] eqn:Hloop; [done | done|].
  intros (k0 & Hk0 & Htold).
  assert (Hend : ends e1 (consumer_loop fuel (logged f) ws sequence shutdown poisoned hook (h, [])) (fun _ _ _ => True) k1 w1).
  { apply (ends_consumer_loop e1 k0); [exact Htold | | done]. intros m Hm. unfold hook in Hm.
    destruct link as [sq|]; [|done]. injection Hm as <-. apply halts_poison_hook. }
  unfold ends in Hend. by rewrite Hloop in Hend.
Qed.


(** The loop with state is the plain loop of a handler that carries the state
    along. *)
Lemma with_state_is_plain {H S} fuel (g : H -> S -> T -> Z -> bool -> H * S * option string) s ws sequence shutdown poisoned hook h (e : env W) k w :
  consumer_loop_with_state fuel g (inl s) ws sequence shutdown poisoned hook h e k w =
  consumer_loop fuel (fun '(h, s) event q b => let '(h, s, panicked) := g h s event q b in ((h, s), panicked))
    ws sequence shutdown poisoned hook (h, s) e k w.
Proof.
  unfold consumer_loop_with_state, consumer_loop. unfold bind at 1. cbn [ret]. apply loop_ext. clear h s k w.
  intros [q [h s]] k w. apply bind_ext; [done|]. intros [] k1 w1; [done|]. apply bind_ext; [done|]. intros [a|] k2 w2; [|done].
  apply bind_ext; [|by intros [q' [h' s']] k3 w3]. apply loop_ext. intros [q' [h' s']] k3 w3. destruct (q' <=? a); [|done].
  apply bind_ext; [done|]. intros [] k4 w4; [done|]. apply bind_ext; [done|]. intros event k5 w5.
  by destruct (g h' s' event q' (a =? q')) as [[h'' s''] [payload|]].
Qed.

(** [wait_for_events] reports every sequence it is asked for as available, at
    once and whatever has been published: unless shutdown is requested, it
    looks at nothing but the size of the buffer. *)
Lemma elegant_never_waits (e : env W) q ws shutdown k w :
  respects (fun w w' => flag_at w' shutdown = flag_at w shutdown) e ->
  flag_at w shutdown = false -> RingBuffer.wf (w_ring w) ->
  exists k' w', wait_for_events q ws shutdown e k w = Done (Some q) k' w'.
Proof.
  intros He Hs Hwf. assert (Ht : twp e (wait_for_events q ws shutdown) (fun r _ _ => r = Some q) k w).
  { unfold wait_for_events. pose proof (RingBuffer.wf_size _ Hwf) as Hsz. unfold RingBuffer.buffer_size in Hsz.
    twp_steps. unfold RingBuffer.size, i64_try_from. destruct (Z.leb_spec (storage_len (storage (w_ring w))) i64_max); [|i64_lia].
    destruct (q <? _); twp_steps; [by rewrite (He k w), Hs|].
    apply (twp_mono _ _ (fun _ _ w1 => flag_at w1 shutdown = false)); [|intros [] k1 w1 H1; twp_steps; by rewrite (He k1 w1), H1].
    apply (twp_for_each e (fun _ _ w1 => flag_at w1 shutdown = false)); [|done].
    intros [] l w1 k1 H1; cbn [pause]; twp_steps; by rewrite <- H1, <- (He k1 w1). }
  unfold twp in Ht. destruct (wait_for_events _ _ _ e k w) as [r k' w'| |]; [|done..]. exists k', w'. by rewrite Ht.
Qed.

(** [shutdown] of a consumer: when it returns the flag is up and the thread is
    done, and an [Err] carries the payload of its panic. *)
Lemma elegant_shutdown_spec fuel c t l w :
  ec_thread c = Some t -> handle t = Some l ->
  wp (fun w w' => elegant_rely c w w' /\ forall x, thread_at w l = ThreadFinished x -> thread_at w' l = ThreadFinished x)
    (elegant_shutdown fuel c) (fun r w' => flag_at w' (ec_shutdown c) = true /\
      exists x, thread_at w' l = ThreadFinished x /\ r = match x with ExitPanic payload => Err payload | _ => Ok tt end) w.
Proof.
  intros Ht Hl. set (R := fun w w' => _). assert (Hpre : PreOrder R).
  { split; [by split|]. intros w1 w2 w3 [H1 E1] [H2 E2]. split; [by etrans | auto]. }
  unfold elegant_shutdown. rewrite Ht. wp_steps. eapply wp_mono; [by apply (wp_managed_join R)|].
  intros r w1 [H1 Hj]. destruct (Hj l Hl) as (x & Hx & ->). unfold drop_elegant. cbn [ec_shutdown ec_thread]. wp_steps.
  split; [apply flag_at_set_eq|]. exists x. split; [|done]. by apply (proj2 H0).
Qed.

End Elegant.
