(* ===== verification/Handlers.v ===== *)
(** * Handlers: the crate's own handlers, factories and translators
    (disruptor/event_handler.rs, event_factory.rs, event_translator.rs,
    producer_type.rs)

    Adapters between closures and the traits the rings and processors take, and
    the textual form of a producer type. *)
From Stdlib Require Import Ascii.
From S2P Require Import Prelude Effects Errors RingBuffer World Sequence Single Multi Availability Sequencer.
From S2P Require Import Waiting WaitStrategy Barrier ConsumerEngine Threads Core Processor Producer Dsl.

(** The default methods of [trait EventHandler]: nothing, successfully. *)
Definition default_on_batch_start {H} (h : H) (_ _ : Z) : H * callback := (h, Returns (Ok tt)).
Definition default_on_start {H} (h : H) : H * callback := (h, Returns (Ok tt)).
Definition default_on_shutdown {H} (h : H) : H * callback := (h, Returns (Ok tt)).
Definition default_on_timeout {H} (h : H) (_ : Z) : H * callback := (h, Returns (Ok tt)).

(** [ClosureEventHandler]: the closure's state and [sequence_callback]. *)
Definition ClosureEventHandler {T F} (handler : F -> T -> Z -> bool -> F * T * callback) : EventHandler T (F * option loc) :=
  mkHandler T (F * option loc)
    (fun '(f, sequence_callback) event sequence end_of_batch =>
       let '(f, event, r) := handler f event sequence end_of_batch in ((f, sequence_callback), event, r))
    default_on_batch_start default_on_start default_on_shutdown default_on_timeout.

(** [ClosureEventHandler::set_sequence_callback] *)
Definition set_sequence_callback {F} (h : F * option loc) (sequence_callback : loc) : F * option loc :=
  (h.1, Some sequence_callback).

(** [NoOpEventHandler] *)
Definition NoOpEventHandler {T} : EventHandler T unit :=
  mkHandler T unit (fun h event _ _ => (h, event, Returns (Ok tt)))
    default_on_batch_start default_on_start default_on_shutdown default_on_timeout.

(** [ClearingEventHandler]: the event is cleared when the inner handler has
    returned (not when it unwinds); the other methods are the defaults. *)
Definition ClearingEventHandler {T H} (default_event : T) (inner_handler : EventHandler T H) : EventHandler T H :=
  mkHandler T H
    (fun h event sequence end_of_batch =>
       let '(h, event, r) := on_event inner_handler h event sequence end_of_batch in
       match r with
       | Returns _ => (h, default_event, r)
       | Unwinds _ => (h, event, r)
       end)
    default_on_batch_start default_on_start default_on_shutdown default_on_timeout.

(** The event factories, as what their [i]-th call returns. *)
Definition DefaultEventFactory {T} (default_event : T) : nat -> T := fun _ => default_event.
Definition ClosureEventFactory {T} (factory_fn : nat -> T) : nat -> T := factory_fn.
Definition CloneEventFactory {T} (prototype : T) : nat -> T := fun _ => prototype.

(** The closure-based translators; with arguments, for given ones. *)
Definition ClosureEventTranslator {T} (translator_fn : T -> Z -> T * option string) : translator T :=
  fun event sequence => translator_fn event sequence.
Definition ClosureEventTranslatorOneArg {T A} (translator_fn : T -> Z -> A -> T * option string) (arg0 : A) : translator T :=
  fun event sequence => translator_fn event sequence arg0.
Definition ClosureEventTranslatorTwoArg {T A B} (translator_fn : T -> Z -> A -> B -> T * option string) (arg0 : A) (arg1 : B) :
    translator T :=
  fun event sequence => translator_fn event sequence arg0 arg1.

(** ** [ProducerType] as text *)

(** [is_single], [is_multi], [Default for ProducerType] *)
Definition is_single (p : ProducerType) : bool := match p with PTSingle => true | PTMulti => false end.
Definition is_multi (p : ProducerType) : bool := match p with PTMulti => true | PTSingle => false end.
Definition producer_type_default : ProducerType := PTMulti.

(** [Display for ProducerType] *)
Definition display (p : ProducerType) : string := match p with PTSingle => "Single" | PTMulti => "Multi" end.

(** [str::to_lowercase] on the bytes of a string: exact on ASCII, and no other
    character has a lower case made of ASCII letters of the two names. *)
Definition lower (c : ascii) : ascii :=
  let n := nat_of_ascii c in
  if (65 <=? n)%nat && (n <=? 90)%nat then ascii_of_nat (n + 32) else c.
Fixpoint to_lowercase (s : string) : string :=
  match s with
  | EmptyString => EmptyString
  | String c s => String (lower c) (to_lowercase s)
  end.

(** [FromStr for ProducerType] *)
Definition from_str (s : string) : result ProducerType string :=
  if String.eqb (to_lowercase s) "single" then Ok PTSingle
  else if String.eqb (to_lowercase s) "multi" then Ok PTMulti
  else Err ("Invalid producer type: '" +:+ s +:+ "'. Valid values are 'single' or 'multi'").

(** Parsing is the inverse of printing, up to case: a text gives a producer
    type exactly if it is the type's name in some mixture of cases; any other
    text is an error that quotes it. *)
Lemma producer_type_text s p : from_str s = Ok p <-> to_lowercase s = to_lowercase (display p).
Proof.
  unfold from_str. destruct (String.eqb_spec (to_lowercase s) "single") as [H1|H1].
  { rewrite H1. destruct p; by split. }
  destruct (String.eqb_spec (to_lowercase s) "multi") as [H2|H2].
  { rewrite H2. destruct p; by split. }
  split; [done|]. intros H. by destruct p.
Qed.

(** ** Fresh rings *)

(** A ring filled by a prototype or a default factory holds that event in
    every slot. *)
Lemma clone_factory_fills {T} (prototype : T) size rb sequence :
  RingBuffer.new size (CloneEventFactory prototype) = Ok rb -> 0 <= size <= usize_max -> RingBuffer.get rb sequence = Some prototype.
Proof.
  intros Hnew Hsize. pose proof (ring_new_spec size (CloneEventFactory prototype) PadNone Hsize) as Hr.
  unfold RingBuffer.new in Hnew. rewrite Hnew in Hr. destruct Hr as (_ & Hwf & Hb & _ & Hg).
  pose proof (RingBuffer.wf_size rb Hwf). pose proof (slot_index_mod rb sequence Hwf) as Hm. rewrite Hb in *.
  assert (0 < size) by lia. pose proof (Z.mod_pos_bound sequence size ltac:(lia)).
  assert (Heq : RingBuffer.get rb sequence = RingBuffer.get rb (sequence mod size)).
  { unfold RingBuffer.get. rewrite Hm, slot_index_mod, Hb, Z.mod_mod by (done || lia). done. }
  rewrite Heq. by apply Hg.
Qed.

(** ** Clearing *)

Section Clearing.
Context {T H : Type} (inner : EventHandler T H) (default_event : T) (touched : nat -> H -> H) (current_thread_name : string).
Abbreviation W := (World T).

(** Starting a processor with a clearing handler does not start the handler it
    wraps: the inner [on_start] is never called, so the startup succeeds with
    the inner handler as it was, even where the inner [on_start] would fail and
    poison the pipeline. *)
Lemma clearing_skips_on_start p h (e : env W) k w :
  match invoke_on_start (ClearingEventHandler default_event inner) touched current_thread_name p h e k w with
  | Done (started, h') k' w' => started = true /\ (h' = h \/ exists j, h' = touched j h)
  | _ => False
  end.
Proof.
  unfold invoke_on_start, try_lock, others_touched, bind, atomic, with_guard, catch_unwind, unlock, store, atomic. cbn.
  destruct (flag_at (e k w) (p_handler_lock p)); cbn; [by split; [|left]|]. split; [done|]. right. by eexists.
Qed.

End Clearing.
