(* ===== verification/Poller.v ===== *)
(** * Poller: user-driven consumers (disruptor/event_poller.rs)

    A poller takes a batch of available events without blocking; the batch
    commits the prefix that was taken when it is dropped.  The poller's
    [next_sequence] and the batch are owned by one thread and passed along. *)
From S2P Require Import Prelude Effects Errors RingBuffer World Sequence Gating Single Multi Availability.
From S2P Require Import Sequencer Waiting WaitStrategy Barrier ConsumerEngine Delivery Progress.

(** [Polling] *)
Inductive Polling : Type := Idle | PollShutdown.

(** [EventPoller] *)
Record EventPoller : Type := mkPoller {
  barrier : ProcessingSequenceBarrier;
  poller_sequence : loc;
  next_sequence : Z;
  shutdown : loc
}.

(** [EventBatch], without its reference to the poller. *)
Record EventBatch : Type := mkBatch {
  from : Z;
  current : Z;
  to : Z;
  committed : bool
}.

(** [EventBatch::len] and [is_empty] *)
Definition len (bt : EventBatch) : Z :=
  if to bt <? from bt then 0
  else match usize_try_from ((to bt -! from bt) +! 1) with Some n => n | None => 0 end.
Definition is_empty (bt : EventBatch) : bool := len bt =? 0.

(** [EventBatch::next_mut]: the sequence taken and the batch after it. *)
Definition next_mut (bt : EventBatch) : option Z * EventBatch :=
  if to bt <? current bt then (None, bt)
  else (Some (current bt), mkBatch (from bt) (current bt +! 1) (to bt) (committed bt)).

(** [n] calls of [next_mut]: the sequences taken, in order. *)
Fixpoint take_n (n : nat) (bt : EventBatch) : list Z * EventBatch :=
  match n with
  | O => ([], bt)
  | S n' => match next_mut bt with
            | (None, bt') => ([], bt')
            | (Some q, bt') => let '(qs, bt'') := take_n n' bt' in (q :: qs, bt'')
            end
  end.

Section Poller.
Context {T : Type}.
Abbreviation W := (World T).
Implicit Types (w : W) (p : EventPoller) (bt : EventBatch).

(** [EventPoller::new]; [l] is the fresh address of its sequence. *)
Definition new (b : ProcessingSequenceBarrier) (shutdown l : loc) : M W EventPoller :=
  let* _ := Sequence.new l INITIAL_CURSOR_VALUE in
  ret (mkPoller b l 0 shutdown).

(** [EventPoller::halt] *)
Definition halt p : M W unit :=
  let* _ := store (set_flag (shutdown p) true) in
  alert (barrier p).

(** [EventPoller::poll] *)
Definition poll (fuel : nat) p : M W (result EventBatch Polling) :=
  let* s := load (fun w => flag_at w (shutdown p)) in
  if s then ret (Err PollShutdown) else
  let* r := try_get_available_sequence fuel (barrier p) (next_sequence p) in
  match r with
  | Err _ => ret (Err PollShutdown)
  | Ok available =>
      let* s := load (fun w => flag_at w (shutdown p)) in
      if s then ret (Err PollShutdown) else
      if available <? next_sequence p then ret (Err Idle) else
      ret (Ok (mkBatch (next_sequence p) (next_sequence p) available false))
  end.

(** [EventPoller::take] *)
Definition take (fuel : nat) p (max_events : Z) : M W (result EventBatch Polling) :=
  let? batch := poll fuel p in
  if max_events =? 0 then ret (Ok (mkBatch (from batch) (current batch) (from batch -! 1) (committed batch))) else
  let n := match i64_try_from max_events with Some v => v | None => i64_max end in
  let max_hi := saturating_add (from batch) (n -! 1) in
  if max_hi <? to batch then ret (Ok (mkBatch (from batch) (current batch) max_hi (committed batch)))
  else ret (Ok batch).

(** [EventBatch::get] *)
Definition batch_get bt (sequence : Z) : M W (option T) :=
  if (sequence <? from bt) || (to bt <? sequence) then ret None
  else let* event := event_at sequence in ret (Some event).

(** [EventBatch::commit_to]: the poller after it. *)
Definition commit_to p bt (last : Z) : M W EventPoller :=
  if committed bt then ret p else
  if from bt <=? last then
    let* _ := Sequence.set (poller_sequence p) last in
    ret (mkPoller (barrier p) (poller_sequence p) (last +! 1) (shutdown p))
  else ret p.

(** [EventBatch::commit] and [Drop for EventBatch] *)
Definition commit p bt : M W EventPoller := commit_to p bt (current bt -! 1).
Definition drop_batch p bt : M W EventPoller := commit_to p bt (current bt -! 1).

(** [EventBatch::ack_all] *)
Definition ack_all p bt : M W EventPoller := commit_to p bt (to bt).

(** [open_single_producer_poller], with the fresh addresses of the cursor, the
    poller's sequence, the barrier's alert and the shutdown flag. *)
Definition open_single_producer_poller (buffer_size : Z) (event_factory : nat -> T) (ws : WaitStrategy)
    (cursor poller_seq alert_flag shutdown_flag : loc) : M W (result EventPoller DisruptorError) :=
  match RingBuffer.new buffer_size event_factory with
  | Err e => ret (Err e)
  | Ok rb =>
      let* _ := write (upd_ring (fun _ => rb)) in
      let* _ := Single.new_unique buffer_size ws cursor in
      let* _ := write (set_flag shutdown_flag false) in
      let* b := Barrier.new cursor ws [] World.Single alert_flag in
      let* p := new b shutdown_flag poller_seq in
      let* _ := Single.add_gating_sequences [poller_sequence p] in
      ret (Ok p)
  end.

(** ** Taking and committing *)

(** A batch as [poll] and [take] make it. *)
Definition fresh_batch p bt : Prop :=
  from bt = next_sequence p /\ current bt = from bt /\ committed bt = false /\
  0 <= from bt /\ from bt - 1 <= to bt < i64_max.

Lemma take_n_spec n bt :
  from bt <= current bt <= to bt + 1 -> 0 <= from bt -> to bt < i64_max ->
  let m := Z.min (Z.of_nat n) (to bt + 1 - current bt) in
  take_n n bt = (seqZ (current bt) m, mkBatch (from bt) (current bt + m) (to bt) (committed bt)).
Proof.
  revert bt. induction n as [|n IH]; intros bt Hc H0 Ht; cbn [take_n].
  - replace (Z.min (Z.of_nat 0) (to bt + 1 - current bt)) with 0 by lia. rewrite seqZ_nil by lia.
    destruct bt; cbn. do 2 f_equal. lia.
  - unfold next_mut. destruct (Z.ltb_spec (to bt) (current bt)).
    + replace (Z.min (Z.of_nat (S n)) (to bt + 1 - current bt)) with 0 by lia. rewrite seqZ_nil by lia.
      destruct bt; cbn. do 2 f_equal. lia.
    + nowrap. rewrite IH by (cbn; lia). cbn [from current to committed].
      rewrite (seqZ_cons (current bt)) by lia. f_equal; [do 2 f_equal; lia | f_equal; lia].
Qed.

(** Dropping a batch after [n] calls of [next_mut] acknowledges exactly the
    events taken: they were the first ones of the batch, in order, the gating
    sequence stands at the last of them (and does not move when none was
    taken), and the next poll starts with the first event left. *)
Lemma drop_commits_taken_prefix n p bt k w :
  fresh_batch p bt -> seq_at w (poller_sequence p) = next_sequence p - 1 ->
  let m := Z.min (Z.of_nat n) (to bt + 1 - from bt) in
  let '(taken, bt') := take_n n bt in
  taken = seqZ (next_sequence p) m /\
  exists k' w', drop_batch p bt' idle k w =
    Done (mkPoller (barrier p) (poller_sequence p) (next_sequence p + m) (shutdown p)) k' w' /\
    seq_at w' (poller_sequence p) = next_sequence p + m - 1.
Proof.
  intros (Hf & Hc & Hcm & H0 & Ht) Hs m. rewrite take_n_spec by lia. rewrite Hc. fold m.
  split; [by rewrite Hf|]. unfold drop_batch, commit_to. cbn [from current committed]. rewrite Hcm.
  assert (0 <= m) by lia. nowrap. destruct (Z.leb_spec (from bt) (from bt + m - 1)).
  - eexists _, _. split.
    + unfold bind, Sequence.set, store, atomic. cbn. nowrap.
      replace (from bt + m - 1 + 1) with (next_sequence p + m) by lia. reflexivity.
    + cbn. change (idle k w) with w. rewrite seq_at_set_eq. lia.
  - exists k, w. replace m with 0 by lia. split; [|lia]. rewrite Z.add_0_r. by destruct p.
Qed.

(** [ack_all] acknowledges the whole batch, taken or not. *)
Lemma ack_all_spec p bt k w :
  fresh_batch p bt -> from bt <= to bt ->
  exists k', ack_all p bt idle k w =
    Done (mkPoller (barrier p) (poller_sequence p) (to bt + 1) (shutdown p)) k' (set_seq (poller_sequence p) (to bt) w).
Proof.
  intros (Hf & Hc & Hcm & H0 & Ht) Hle. unfold ack_all, commit_to. rewrite Hcm.
  destruct (Z.leb_spec (from bt) (to bt)); [|lia]. eexists. unfold bind, Sequence.set, store, atomic. cbn. by nowrap.
Qed.

(** ** What a poll hands out *)

Lemma wp_poll fuel p w :
  let b := barrier p in let R := barrier_rely b (next_sequence p) in
  0 <= next_sequence p ->
  barrier_ok b (next_sequence p) w -> (Z.to_nat (Sequencer.buffer_size (sequencer b) w) < fuel)%nat ->
  wp R (poll fuel p)
    (fun r w' => R w w' /\ match r with
                           | Ok bt => fresh_batch p bt /\ from bt <= to bt /\ readable b (next_sequence p) (to bt) w'
                           | Err Idle => True
                           | Err PollShutdown => flag_at w' (shutdown p) = true \/ flag_at w' (alerted b) = true
                           end) w.
Proof.
  intros b R Hn Hok Hf. unfold poll. apply wp_bind, wp_load. intros w1 H1.
  destruct (flag_at w1 (shutdown p)) eqn:Hs; [apply wp_ret; auto|]. apply wp_bind.
  assert (HP : forall x y : W, True -> R x y -> True /\ barrier_rely b (next_sequence p) x y) by done.
  eapply wp_mono; [apply (wp_try_get_available b (next_sequence p) (next_sequence p) fuel ltac:(lia) R (fun _ => True) HP); [done | by apply (br_ok _ _ _ _ H1) |]|].
  { by rewrite (vr_bsz _ _ _ _ (br_view _ _ _ _ H1)). }
  intros [v|err] w2 [H2 Hr]; assert (H02 : R w w2) by (by etrans); [|destruct Hr; apply wp_ret; auto].
  apply wp_bind, wp_load. intros w3 H3. assert (H03 : R w w3) by (by etrans).
  destruct (flag_at w3 (shutdown p)) eqn:Hs3; [apply wp_ret; auto|].
  destruct (Z.ltb_spec v (next_sequence p)); [by apply wp_ret|]. apply wp_ret. split; [done|].
  pose proof (br_ok _ _ _ _ H02 Hok) as Hok2. specialize (Hr ltac:(lia)) as (Hr1 & Hr2 & Hr3 & Hr4).
  pose proof (reached_cursor b (next_sequence p) v w2 Hok2 Hr3). pose proof (bo_max _ _ _ Hok2). pose proof (bo_lap _ _ _ Hok2).
  split_and!; cbn; [split_and!; cbn; (done || lia) | lia |]. split_and!; [lia | done | by eapply (reached_rely R) |].
  intros q Hq. apply (vr_published _ _ _ _ (br_view _ _ _ _ H3)); [lia | by apply Hr4].
Qed.

Lemma ends_poll (e : env W) fuel p k w :
  let b := barrier p in let R := barrier_rely b (next_sequence p) in
  respects R e -> 0 <= next_sequence p ->
  barrier_ok b (next_sequence p) w -> (Z.to_nat (Sequencer.buffer_size (sequencer b) w) < fuel)%nat ->
  ends e (poll fuel p) (fun _ _ _ => True) k w.
Proof.
  intros b R He Hn Hok Hf. unfold poll, try_get_available_sequence, check_alert, is_alerted. apply ends_bind, ends_load.
  assert (H1 : R w (e k w)) by apply He. destruct (flag_at _ _); [done|]. apply ends_bind, ends_try, ends_bind, ends_load.
  destruct (flag_at _ (alerted (barrier p))); [done|]. apply ends_ret, ends_bind. set (w2 := e (S k) (e k w)).
  assert (H2 : R w w2) by (etrans; [exact H1 | apply He]).
  assert (Hm : match dependent_sequences b with
               | [] => Sequence.get (cursor b)
               | d :: ds => Sequence.get_minimum_sequence (d :: ds)
               end = wait_available_sequence (T := T) (cursor b) (dependent_sequences b))
    by (unfold wait_available_sequence; by destruct (dependent_sequences b)).
  fold b. rewrite Hm. clear Hm.
  eapply ends_mono; [apply (ends_wp R); [done | | apply halts_wait_available]|].
  { apply (wp_wait_available R (cursor b) (dependent_sequences b) (fun v w' => R w2 w' /\ reached (cursor b) (dependent_sequences b) v w')). done. }
  intros v k3 w3 [_ [H3 Hr]]. assert (H03 : R w w3) by (by etrans). apply ends_bind.
  assert (HP : forall x y : W, True -> R x y -> True /\ barrier_rely b (next_sequence p) x y) by done.
  eapply ends_mono; [apply (ends_resolve b (next_sequence p) (next_sequence p) fuel (conj Hn (Z.le_refl _)) R (fun _ => True) HP e He)|].
  - done.
  - by apply (br_ok _ _ _ _ H03).
  - by rewrite (vr_bsz _ _ _ _ (br_view _ _ _ _ H03)).
  - done.
  - intros r k4 w4 _. apply ends_try, ends_bind, ends_load. destruct (flag_at _ (alerted b)); [done|].
    apply ends_ret, ends_ret, ends_bind, ends_load. destruct (flag_at _ _); [done|]. by destruct (r <? next_sequence p).
Qed.

(** [poll] never waits: against producers and other consumers that keep
    within a lap it returns; a batch starts at the poller's next sequence, is
    not empty, and every event of it is published and released by the stages
    above; the poller reports shutdown only for its flag or an alert. *)
Theorem poll_safe (e : env W) fuel p k w :
  let b := barrier p in let R := barrier_rely b (next_sequence p) in
  respects R e -> 0 <= next_sequence p ->
  barrier_ok b (next_sequence p) w -> (Z.to_nat (Sequencer.buffer_size (sequencer b) w) < fuel)%nat ->
  exists r k' w', poll fuel p e k w = Done r k' w' /\ R w w' /\
    match r with
    | Ok bt => fresh_batch p bt /\ from bt <= to bt /\ readable b (next_sequence p) (to bt) w'
    | Err Idle => True
    | Err PollShutdown => flag_at w' (shutdown p) = true \/ flag_at w' (alerted b) = true
    end.
Proof.
  intros b R He Hn Hok Hf.
  destruct (wp_ends R e (poll fuel p) _ k w He (wp_poll fuel p w Hn Hok Hf)) as (r & k' & w' & Hrun & Hpost);
    [by apply ends_poll | by exists r, k', w'].
Qed.

(** ** A freshly opened pipeline *)

Lemma ring_new_ok size (event_factory : nat -> T) :
  0 <= size <= i64_max -> is_power_of_two size = true ->
  exists rb, RingBuffer.new size event_factory = Ok rb /\ RingBuffer.wf rb /\ RingBuffer.buffer_size rb = size /\
    1 <= size <= 4611686018427387904.
Proof.
  intros Hs Hp. pose proof (ring_new_spec size event_factory PadNone ltac:(i64_lia)) as H.
  unfold RingBuffer.new. destruct (new_with_padding size event_factory PadNone) as [rb|err].
  - destruct H as ((j & Hj & Heq) & Hwf & Hsz & _). exists rb. split_and!; [done | done | done | |];
      subst size; pose proof (pow2_le_62 j Hj); lia.
  - destruct H as [_ H]. apply is_power_of_two_spec in Hp as (j & Hj & Heq). exfalso.
    apply (H j); [|done]. split; [done|]. destruct (Z.le_gt_cases j 62); [done|].
    pose proof (Z.pow_le_mono_r 2 63 j). change (2 ^ 63) with two63 in *. i64_lia.
Qed.

(** [open_single_producer_poller] establishes what the theorems on producers
    and consumers start from: a valid size gives a well-formed ring, a sound
    claim state held by the unique capability and gated on the poller alone,
    and a poller that waits for sequence 0; any other size is reported. *)
Lemma open_poller_establishes size (event_factory : nat -> T) ws c ps af sf k w :
  0 <= size <= i64_max -> c <> ps ->
  if is_power_of_two size then
    exists p k' w', open_single_producer_poller size event_factory ws c ps af sf idle k w = Done (Ok p) k' w' /\
      Single.inv w' /\ RingBuffer.wf (w_ring w') /\ RingBuffer.buffer_size (w_ring w') = size /\
      sp_gating_sequences (w_single w') = [poller_sequence p] /\ sp_claim_lock (w_single w') = true /\
      barrier_ok (barrier p) (next_sequence p) w' /\ next_sequence p = 0 /\ seq_at w' (poller_sequence p) = -1
  else open_single_producer_poller size event_factory ws c ps af sf idle k w = Done (Err (InvalidBufferSize size)) k w.
Proof.
  intros Hs Hne. destruct (is_power_of_two size) eqn:Hp.
  - destruct (ring_new_ok size event_factory Hs Hp) as (rb & Hnew & Hwf & Hsz & Hb).
    unfold open_single_producer_poller. rewrite Hnew. unfold Single.new_unique, Single.new, i64_try_from.
    destruct (Z.leb_spec size i64_max); [|lia]. eexists _, _, _. split; [reflexivity|]. cbn.
    split_and!; try done.
    + constructor; cbn; try (unfold i64_max, two63; lia).
      * intros l ->%list_elem_of_singleton. unfold seq_at, idle. cbn. rewrite lookup_total_insert_eq. done.
      * intros ->%list_elem_of_singleton. done.
    + constructor; cbn; try done.
      * unfold seq_at, idle. cbn. rewrite lookup_total_insert_ne, lookup_total_insert_eq by done. unfold INITIAL_CURSOR_VALUE. lia.
      * unfold seq_at, idle. cbn. rewrite lookup_total_insert_ne, lookup_total_insert_eq by done. unfold INITIAL_CURSOR_VALUE. i64_lia.
    + unfold seq_at, idle. cbn. by rewrite lookup_total_insert_eq.
  - unfold open_single_producer_poller, RingBuffer.new, new_with_padding. by rewrite Hp.
Qed.

End Poller.
