(* ===== verification/Text.v ===== *)
(** * Text: numbers and lists in text

    The parts of the standard library's text handling the command lines and
    reports of src/bin use: [str::parse] of unsigned integers, [Display] of
    them, [split(',')], [replace] and the ASCII classes.  Strings are byte
    strings; the inputs are command-line words. *)
From Stdlib Require Import Ascii.
From stdpp Require Import pretty.
From S2P Require Import Prelude Effects Errors.

(** ** Unsigned integers *)

(** [std::num::IntErrorKind] of an unsigned [FromStr], as its [Display]. *)
Inductive ParseIntError : Type := EmptyNumber | InvalidDigit | PosOverflow.

Definition parse_int_error (e : ParseIntError) : string :=
  match e with
  | EmptyNumber => "cannot parse integer from empty string"
  | InvalidDigit => "invalid digit found in string"
  | PosOverflow => "number too large to fit in target type"
  end.

Definition u64_max : Z := two64 - 1.

Definition digit_of (c : ascii) : option Z :=
  let n := Z.of_nat (nat_of_ascii c) in
  if (48 <=? n) && (n <=? 57) then Some (n - 48) else None.

(** The digits from the left: the digit is looked at before the overflow of
    the multiplication is reported. *)
Fixpoint parse_digits (max acc : Z) (s : string) : result Z ParseIntError :=
  match s with
  | EmptyString => Ok acc
  | String c s' =>
      match digit_of c with
      | None => Err InvalidDigit
      | Some d =>
          if max <? acc * 10 then Err PosOverflow else
          if max <? acc * 10 + d then Err PosOverflow else parse_digits max (acc * 10 + d) s'
      end
  end.

(** [str::parse::<uN>()] for the type with the largest value [max]. *)
Definition parse_uint (max : Z) (s : string) : result Z ParseIntError :=
  match s with
  | EmptyString => Err EmptyNumber
  | String c s' =>
      if Ascii.eqb c "+"%char then
        match s' with EmptyString => Err InvalidDigit | _ => parse_digits max 0 s' end
      else parse_digits max 0 s
  end.

(** [Display] of an unsigned integer. *)
Definition show_uint (n : Z) : string := pretty (Z.to_N n).

(** ** Lists *)

(** [s.split(c)] *)
Fixpoint split_on (c : ascii) (s : string) : list string :=
  match s with
  | EmptyString => [""]
  | String a s' =>
      if Ascii.eqb a c then "" :: split_on c s' else
      match split_on c s' with
      | [] => [String a ""]
      | w :: ws => String a w :: ws
      end
  end.

(** [s.replace(c, "")] *)
Fixpoint remove_char (c : ascii) (s : string) : string :=
  match s with
  | EmptyString => EmptyString
  | String a s' => if Ascii.eqb a c then remove_char c s' else String a (remove_char c s')
  end.

(** The words with a comma between them. *)
Fixpoint join_commas (ws : list string) : string :=
  match ws with
  | [] => ""
  | [w] => w
  | w :: ws' => w +:+ String "," (join_commas ws')
  end.

Fixpoint contains_char (c : ascii) (s : string) : bool :=
  match s with EmptyString => false | String a s' => Ascii.eqb a c || contains_char c s' end.

(** [iter.map(f).collect::<Result<Vec<_>, _>>()]: the first error ends it. *)
Fixpoint collect {A B E} (f : A -> result B E) (l : list A) : result (list B) E :=
  match l with
  | [] => Ok []
  | a :: l' =>
      match f a with
      | Err e => Err e
      | Ok b => match collect f l' with Ok bs => Ok (b :: bs) | Err e => Err e end
      end
  end.

(** [Vec::dedup]: one of every run of equal elements. *)
Fixpoint dedup (l : list Z) : list Z :=
  match l with
  | x :: ((y :: _) as l') => if x =? y then dedup l' else x :: dedup l'
  | _ => l
  end.

(** [u8::is_ascii_hexdigit] *)
Definition is_ascii_hexdigit (c : ascii) : bool :=
  let n := nat_of_ascii c in
  ((48 <=? n) && (n <=? 57) || (65 <=? n) && (n <=? 70) || (97 <=? n) && (n <=? 102))%nat.

Fixpoint all_chars (f : ascii -> bool) (s : string) : bool :=
  match s with EmptyString => true | String a s' => f a && all_chars f s' end.

(** A word in double quotes, as [{:?}] shows it.  Of what is not ASCII every
    byte is kept. *)
Definition quote : ascii := ascii_of_nat 34.
Definition hex_digit (n : nat) : ascii := ascii_of_nat (if (n <? 10)%nat then 48 + n else 87 + n).

Definition escape_char (c : ascii) : string :=
  let n := nat_of_ascii c in
  if Ascii.eqb c quote then String "\"%char (String quote "")
  else if Ascii.eqb c "\"%char then "\\"
  else if (n =? 9)%nat then "\t" else if (n =? 10)%nat then "\n"
  else if (n =? 13)%nat then "\r" else if (n =? 0)%nat then "\0"
  else if (n <? 16)%nat then "\u{" +:+ String (hex_digit n) "}"
  else if ((n <? 32) || (n =? 127))%nat then "\u{" +:+ String (hex_digit (n / 16)) (String (hex_digit (n mod 16)) "}")
  else String c "".

Fixpoint escape (s : string) : string :=
  match s with EmptyString => EmptyString | String c s' => escape_char c +:+ escape s' end.

Definition debug_str (s : string) : string := String quote (escape s +:+ String quote "").

(** ** Round trips *)

(** What parses is a number of the type. *)
Lemma parse_digits_range max s : forall acc n, 0 <= acc <= max -> parse_digits max acc s = Ok n -> 0 <= n <= max.
Proof.
  induction s as [|c s IH]; cbn; intros acc n Hacc; [by intros [= <-]|].
  destruct (digit_of c) as [d|] eqn:Hd; [|done].
  assert (0 <= d).
  { unfold digit_of in Hd. destruct (_ && _) eqn:Hb; [|done]. apply andb_true_iff in Hb as [Hb _]. apply Z.leb_le in Hb. injection Hd as <-. lia. }
  destruct (Z.ltb_spec max (acc * 10)); [done|]. destruct (Z.ltb_spec max (acc * 10 + d)); [done|]. apply IH. lia.
Qed.

Lemma parse_uint_range max s n : 0 <= max -> parse_uint max s = Ok n -> 0 <= n <= max.
Proof.
  intros Hmax. unfold parse_uint. destruct s as [|c s]; [done|]. destruct (Ascii.eqb c "+").
  - destruct s as [|c' s]; [done|]. apply parse_digits_range. lia.
  - apply parse_digits_range. lia.
Qed.

Lemma digit_char x : (x < 10)%N -> digit_of (pretty_N_char x) = Some (Z.of_N x).
Proof.
  intros Hx. assert (x = 0 \/ x = 1 \/ x = 2 \/ x = 3 \/ x = 4 \/ x = 5 \/ x = 6 \/ x = 7 \/ x = 8 \/ x = 9)%N as H by lia.
  destruct_or!; subst; reflexivity.
Qed.

Lemma parse_pretty_go max x s :
  Z.of_N x <= max -> parse_digits max 0 (pretty_N_go x s) = parse_digits max (Z.of_N x) s.
Proof.
  revert s. induction (N.lt_wf_0 x) as [x _ IH]. intros s Hx.
  destruct (N.eq_dec x 0) as [->|Hne]; [by rewrite pretty_N_go_0|].
  assert (Hd : Z.of_N x = Z.of_N (x / 10) * 10 + Z.of_N (x mod 10)).
  { rewrite (N.div_mod x 10) at 1 by done. lia. }
  pose proof (N.mod_lt x 10 ltac:(done)) as Hm.
  pose proof (N.div_lt x 10 ltac:(lia) eq_refl) as Hlt.
  rewrite pretty_N_go_step by lia. rewrite IH; [|done | lia].
  cbn [parse_digits]. rewrite digit_char by done. clear IH Hm Hlt.
  generalize dependent (x mod 10)%N. generalize dependent (x / 10)%N. intros a b Hd.
  destruct (Z.ltb_spec max (Z.of_N a * 10)); [lia|]. rewrite <- Hd.
  destruct (Z.ltb_spec max (Z.of_N x)); [lia | done].
Qed.

Definition all_digits (s : string) : bool := all_chars (fun c => match digit_of c with Some _ => true | None => false end) s.

Lemma pretty_go_digits x s : all_digits s = true -> all_digits (pretty_N_go x s) = true.
Proof.
  revert s. induction (N.lt_wf_0 x) as [x _ IH]. intros s Hs.
  destruct (N.eq_dec x 0) as [->|Hne]; [by rewrite pretty_N_go_0|].
  rewrite pretty_N_go_step by lia. apply IH; [apply N.div_lt; lia|].
  cbn. rewrite digit_char by (by apply N.mod_lt). done.
Qed.

Lemma pretty_go_nonempty x s : s <> "" -> pretty_N_go x s <> "".
Proof.
  revert s. induction (N.lt_wf_0 x) as [x _ IH]. intros s Hs.
  destruct (N.eq_dec x 0) as [->|Hne]; [by rewrite pretty_N_go_0|].
  rewrite pretty_N_go_step by lia. apply IH; [apply N.div_lt; lia | done].
Qed.

(** What is shown is one or more digits. *)
Lemma show_uint_digits n : all_digits (show_uint n) = true /\ show_uint n <> "".
Proof.
  unfold show_uint, pretty, pretty_N. destruct (decide _) as [|Hne]; [done|]. split; [by apply pretty_go_digits|].
  rewrite pretty_N_go_step by lia. by apply pretty_go_nonempty.
Qed.

(** Parsing what was shown gives the number back. *)
Lemma parse_show max n : 0 <= n <= max -> parse_uint max (show_uint n) = Ok n.
Proof.
  intros Hn. destruct (show_uint_digits n) as [Hd Hne]. unfold parse_uint.
  destruct (show_uint n) as [|c s] eqn:Hs; [done|].
  assert (Hc : Ascii.eqb c "+" = false).
  { destruct (Ascii.eqb_spec c "+") as [->|]; [|done]. cbn in Hd. done. }
  rewrite Hc, <- Hs. unfold show_uint, pretty, pretty_N in *. destruct (decide _) as [H0|H0].
  - replace n with 0 by lia. unfold parse_digits. change (digit_of "0") with (Some 0). cbv beta iota. rewrite Z.mul_0_l, Z.add_0_l.
    destruct (Z.ltb_spec max 0); [lia | done].
  - rewrite parse_pretty_go by lia. cbn. f_equal. lia.
Qed.

(** Splitting undoes joining, for words without the separator. *)
Lemma split_app c w s : contains_char c w = false -> split_on c (w +:+ String c s) = w :: split_on c s.
Proof.
  induction w as [|a w IH]; intros Hw.
  - change ("" +:+ String c s) with (String c s). cbn [split_on]. by rewrite Ascii.eqb_refl.
  - change (String a w +:+ String c s) with (String a (w +:+ String c s)). cbn [contains_char split_on] in *.
    apply orb_false_elim in Hw as [Ha Hw]. by rewrite Ha, IH.
Qed.

Lemma split_word c w : contains_char c w = false -> split_on c w = [w].
Proof. induction w as [|a w IH]; cbn [contains_char split_on]; [done|]. intros [-> Hw]%orb_false_elim. by rewrite IH. Qed.

Lemma split_join ws : ws <> [] -> Forall (fun w => contains_char "," w = false) ws -> split_on "," (join_commas ws) = ws.
Proof.
  intros Hne Hws. induction Hws as [|w ws Hw Hws IH]; [done|]. destruct ws as [|w' ws].
  - by apply split_word.
  - change (join_commas (w :: w' :: ws)) with (w +:+ String "," (join_commas (w' :: ws))). rewrite split_app by done. by rewrite IH.
Qed.

Lemma digits_no_comma s : all_digits s = true -> contains_char "," s = false.
Proof.
  induction s as [|c s IH]; [done|]. unfold all_digits. cbn [all_chars contains_char]. intros [Hc Hs]%andb_true_iff. rewrite IH by done.
  destruct (Ascii.eqb_spec c ",") as [->|]; [done | done].
Qed.

Lemma collect_map {A B E} (f : A -> result B E) (g : B -> A) l :
  (forall b, b ∈ l -> f (g b) = Ok b) -> collect f (map g l) = Ok l.
Proof.
  induction l as [|b l IH]; intros H; [done|]. cbn. rewrite H by set_solver. rewrite IH by set_solver. done.
Qed.

Lemma collect_ok {A B E} (f : A -> result B E) l bs : collect f l = Ok bs -> Forall2 (fun a b => f a = Ok b) l bs.
Proof.
  revert bs. induction l as [|a l IH]; cbn; intros bs; [by intros [= <-]|].
  destruct (f a) as [b|e] eqn:Ha; [|done]. destruct (collect f l) as [bs'|e]; [|done]. intros [= <-]. constructor; auto.
Qed.
