(* ===== verification/Float64.v ===== *)
(** * Float64: the floating-point numbers of the reports

    [f64] as the IEEE 754 binary64 of the standard library's [SpecFloat]:
    53 bits of precision, exponents below 1024, rounding to nearest even.
    Only the operations src/bin uses. *)
From Stdlib Require Import SpecFloat.
From S2P Require Import Prelude Text.

Definition f64 : Type := spec_float.

(** [n as f64] of an integer. *)
Definition of_Z (n : Z) : f64 := binary_normalize 53 1024 n 0 false.

Definition f64_mul : f64 -> f64 -> f64 := SFmul 53 1024.
Definition f64_div : f64 -> f64 -> f64 := SFdiv 53 1024.
Definition f64_add : f64 -> f64 -> f64 := SFadd 53 1024.
Definition f64_eq : f64 -> f64 -> bool := SFeqb.
Definition f64_le : f64 -> f64 -> bool := SFleb.
Definition f64_lt : f64 -> f64 -> bool := SFltb.

Definition f64_zero : f64 := S754_zero false.

(** [Duration::as_secs_f64] of nanoseconds. *)
Definition as_secs_f64 (ns : Z) : f64 := f64_add (of_Z (ns / 1000000000)) (f64_div (of_Z (ns mod 1000000000)) (of_Z 1000000000)).

(** [x.is_finite()] *)
Definition is_finite (x : f64) : bool :=
  match x with S754_zero _ => true | S754_finite _ _ _ => true | _ => false end.

(** The integer part of a positive [m * 2^e], and the nearest integer, halves
    up. *)
Definition floor_pos (m : positive) (e : Z) : Z := Z.shiftl (Zpos m) e.
Definition round_pos (m : positive) (e : Z) : Z :=
  if 0 <=? e then Z.shiftl (Zpos m) e else Z.shiftr (Zpos m + Z.shiftl 1 (- e - 1)) (- e).

(** [x.floor() as u64] and [x.round() as u64]: the cast saturates, and takes
    what is not a number to zero. *)
Definition floor_as_u64 (x : f64) : Z :=
  match x with
  | S754_finite false m e => Z.min (floor_pos m e) u64_max
  | S754_infinity false => u64_max
  | _ => 0
  end.
Definition round_as_u64 (x : f64) : Z :=
  match x with
  | S754_finite false m e => Z.min (round_pos m e) u64_max
  | S754_infinity false => u64_max
  | _ => 0
  end.

(** The literals [0.5], [0.8] and [0.95], the last two rounded. *)
Definition f64_half : f64 := S754_finite false 4503599627370496 (-53).
Definition f64_four_fifths : f64 := S754_finite false 7205759403792794 (-53).
Definition f64_95_percent : f64 := S754_finite false 8556839292003942 (-53).

Lemma floor_as_u64_range x : 0 <= floor_as_u64 x <= u64_max.
Proof.
  unfold floor_as_u64, u64_max, two64. destruct x as [| [] | | [] m e]; try lia.
  enough (0 <= floor_pos m e) by lia. unfold floor_pos. apply Z.shiftl_nonneg. lia.
Qed.

Example literals :
  f64_mul (of_Z 10) f64_half = of_Z 5 /\ f64_mul (of_Z 10) f64_four_fifths = of_Z 8 /\ f64_div (of_Z 19) (of_Z 20) = f64_95_percent /\
  round_as_u64 (f64_div (of_Z 5) (of_Z 2)) = 3 /\ floor_as_u64 (f64_div (of_Z 5) (of_Z 2)) = 2.
Proof. vm_compute. done. Qed.

Definition f64_sub (a b : f64) : f64 := SpecFloat.SFsub 53 1024 a b.
Definition f64_sqrt (a : f64) : f64 := SpecFloat.SFsqrt 53 1024 a.

(** [f64::midpoint] of the standard library: the sum is halved unless it could
    overflow. *)
Definition f64_midpoint (a b : f64) : f64 :=
  let hi := f64_div (SpecFloat.S754_finite false 9007199254740991 971) (of_Z 2) in
  if f64_le (SpecFloat.SFabs a) hi && f64_le (SpecFloat.SFabs b) hi then f64_div (f64_add a b) (of_Z 2)
  else f64_add (f64_div a (of_Z 2)) (f64_div b (of_Z 2)).

(** [iter.sum::<f64>()] starts from the negative zero. *)
Definition f64_sum (l : list f64) : f64 := fold_left f64_add l (SpecFloat.S754_zero true).

(** [f64::total_cmp]; the sign of what is not a number is not known here, it
    counts as positive. *)
Definition f64_total_cmp (a b : f64) : comparison :=
  match SpecFloat.SFcompare a b, a, b with
  | Some Eq, SpecFloat.S754_zero true, SpecFloat.S754_zero false => Lt
  | Some Eq, SpecFloat.S754_zero false, SpecFloat.S754_zero true => Gt
  | Some c, _, _ => c
  | None, SpecFloat.S754_nan, SpecFloat.S754_nan => Eq
  | None, SpecFloat.S754_nan, _ => Gt
  | None, _, _ => Lt
  end.

(** [sort_by] of a comparison, as a stable insertion. *)
Fixpoint f64_insert_by (cmp : f64 -> f64 -> comparison) (x : f64) (l : list f64) : list f64 :=
  match l with
  | [] => [x]
  | y :: l' => match cmp x y with Gt => y :: f64_insert_by cmp x l' | _ => x :: l end
  end.
Definition f64_sort_by (cmp : f64 -> f64 -> comparison) (l : list f64) : list f64 := foldr (f64_insert_by cmp) [] l.

Lemma length_insert_by cmp x l : length (f64_insert_by cmp x l) = S (length l).
Proof. induction l as [|y l IH]; [done|]. cbn. destruct (cmp x y); cbn; congruence. Qed.

Lemma length_sort_by cmp l : length (f64_sort_by cmp l) = length l.
Proof. induction l as [|x l IH]; [done|]. unfold f64_sort_by in *. cbn [foldr length]. by rewrite length_insert_by, IH. Qed.
