(* ===== verification/Json.v ===== *)
(** * Json: the JSON texts of the reports

    What the report writers of src/bin share: fields on lines of their own,
    lists with separators, numbers in decimal.  The reference they are compared
    with is a JSON reader (RFC 8259): a lexer that keeps the escapes of a string
    as they are written, and a parser of the tokens.  Texts are composed of
    pieces, and [lexes] says what a piece contributes to the tokens of a text
    that contains it. *)
From Stdlib Require Import Ascii SpecFloat.
From stdpp Require Import pretty.
From S2P Require Import Prelude Effects Errors Text Float64.

(** ** Numbers in decimal *)

Definition char_of_digit (d : Z) : ascii := ascii_of_nat (48 + Z.to_nat d).

(** The last [k] decimal digits. *)
Fixpoint padded (k : nat) (n : Z) : string :=
  match k with
  | O => ""
  | S k => String (char_of_digit (n / 10 ^ Z.of_nat k mod 10)) (padded k n)
  end.

(** [Display] of an integer. *)
Definition show_int (n : Z) : string := if n <? 0 then String "-" (show_uint (- n)) else show_uint n.

(** [n / d] to the nearest integer, a half to the even one. *)
Definition half_even (n d : Z) : Z :=
  let q := n / d in
  match 2 * (n mod d) ?= d with
  | Lt => q
  | Gt => q + 1
  | Eq => if Z.even q then q else q + 1
  end.

(** The magnitude of [x] in units of [10 ^ -k], rounded. *)
Definition fixed_units (k : nat) (x : f64) : Z :=
  match x with
  | S754_finite _ m e => half_even (Zpos m * 10 ^ Z.of_nat k * 2 ^ Z.max 0 e) (2 ^ Z.max 0 (- e))
  | _ => 0
  end.

Definition f64_sign (x : f64) : bool :=
  match x with S754_zero s => s | S754_infinity s => s | S754_nan => false | S754_finite s _ _ => s end.

(** [{:.k}] of an [f64], for [k > 0]. *)
Definition show_fixed (k : nat) (x : f64) : string :=
  match x with
  | S754_nan => "NaN"
  | S754_infinity s => if s then "-inf" else "inf"
  | _ =>
      let u := fixed_units k x in
      (if f64_sign x then "-" else "") +:+ show_uint (u / 10 ^ Z.of_nat k) +:+ String "." (padded k u)
  end.

(** ** What the writers share *)

Definition nl : string := String (ascii_of_nat 10) "".
Definition quoted (s : string) : string := String quote (s +:+ String quote "").
Definition spaces (n : nat) : string := Nat.iter n (String " ") "".

(** The pieces one after the other. *)
Fixpoint cat (l : list string) : string := match l with [] => "" | s :: l' => s +:+ cat l' end.

(** A field on a line of its own: the indent, the key, the text of the value,
    and whether a comma follows. *)
Definition field (indent : nat) (key value : string) (trailing : bool) : string :=
  cat [spaces indent; quoted key; ": "; value; (if trailing then "," else ""); nl].

(** What is written for each element, all but the last followed by [sep], the
    last by [fin]. *)
Fixpoint each {A} (f : A -> string) (sep fin : string) (l : list A) : string :=
  match l with
  | [] => ""
  | [x] => f x +:+ fin
  | x :: l' => f x +:+ sep +:+ each f sep fin l'
  end.

(** One field per element, with a comma after all but the last. *)
Fixpoint field_lines {A} (indent : nat) (f : A -> string) (l : list (string * A)) : string :=
  match l with
  | [] => ""
  | [(k, x)] => field indent k (f x) false
  | (k, x) :: l' => field indent k (f x) true +:+ field_lines indent f l'
  end.

Definition show_bool (b : bool) : string := if b then "true" else "false".

(** ** Values and tokens *)

(** A number is [m * 10 ^ e]. *)
Inductive json : Type :=
  | JNull
  | JBool (b : bool)
  | JNum (m e : Z)
  | JStr (s : string)
  | JArr (l : list json)
  | JObj (l : list (string * json)).

Inductive token : Type :=
  | LBrace | RBrace | LBracket | RBracket | Colon | Comma | TNull | TTrue | TFalse
  | TNum (m e : Z)
  | TStr (s : string).

(** ** The lexer *)

(** The digits at the start: the number they continue, how many they are, and
    the rest. *)
Fixpoint digits (acc : Z) (n : nat) (s : string) : Z * nat * string :=
  match s with
  | EmptyString => (acc, n, s)
  | String c r => match digit_of c with Some d => digits (acc * 10 + d) (S n) r | None => (acc, n, s) end
  end.

(** What follows the character, if the string starts with it. *)
Definition after (c : ascii) (s : string) : option string :=
  match s with String a r => if Ascii.eqb a c then Some r else None | EmptyString => None end.

Definition starts_with (c : ascii) (s : string) : bool := match s with String a _ => Ascii.eqb a c | EmptyString => false end.

Definition read_exponent (s : string) : option Z :=
  match s with
  | EmptyString => Some 0
  | String c r =>
      if Ascii.eqb c "e" || Ascii.eqb c "E" then
        let (sign, r) := match after "-" r, after "+" r with
                         | Some r', _ => (-1, r')
                         | None, Some r' => (1, r')
                         | None, None => (1, r)
                         end in
        match digits 0 0 r with (e, S _, EmptyString) => Some (sign * e) | _ => None end
      else None
  end.

(** The digits after the point, continuing [i]; without a point there are
    none. *)
Definition read_fraction (i : Z) (s : string) : option (Z * nat * string) :=
  match after "." s with
  | None => Some (i, O, s)
  | Some r => match digits i 0 r with (m, S f, r') => Some (m, S f, r') | _ => None end
  end.

(** A number: no leading zero, digits on both sides of the point. *)
Definition read_number (s : string) : option (Z * Z) :=
  let (sign, s) := match after "-" s with Some r => (-1, r) | None => (1, s) end in
  let '(i, k, r) := digits 0 0 s in
  if (k =? 0)%nat || starts_with "0" s && negb (k =? 1)%nat then None else
  match read_fraction i r with
  | Some (m, f, r) => match read_exponent r with Some e => Some (sign * m, e - Z.of_nat f) | None => None end
  | None => None
  end.

(** A word is a literal name or a number. *)
Definition word_token (w : string) : option token :=
  if String.eqb w "null" then Some TNull else
  if String.eqb w "true" then Some TTrue else
  if String.eqb w "false" then Some TFalse else
  match read_number w with Some (m, e) => Some (TNum m e) | None => None end.

Definition word_char (c : ascii) : bool :=
  let n := nat_of_ascii c in
  ((48 <=? n) && (n <=? 57) || (65 <=? n) && (n <=? 90) || (97 <=? n) && (n <=? 122) ||
   (n =? 43) || (n =? 45) || (n =? 46))%nat.

Definition is_white (c : ascii) : bool :=
  let n := nat_of_ascii c in ((n =? 32) || (n =? 9) || (n =? 10) || (n =? 13))%nat.

(** A character a string may hold unescaped. *)
Definition plain_char (c : ascii) : bool :=
  (32 <=? nat_of_ascii c)%nat && negb (Ascii.eqb c quote) && negb (Ascii.eqb c "\").

(** A character that may follow a backslash; [u] takes four digits. *)
Definition escapable (c : ascii) : bool := Ascii.eqb c quote || contains_char c "\/bfnrt".

Inductive lex_state : Type :=
  | Between
  | InWord (w : string)
  | InString (s : string)
  | InEscape (s : string)
  | InHex (n : nat) (s : string).

(** A character between tokens: the token it is, and the state after it. *)
Definition step (c : ascii) : option (list token * lex_state) :=
  if is_white c then Some ([], Between) else
  if Ascii.eqb c quote then Some ([], InString "") else
  if word_char c then Some ([], InWord (String c "")) else
  if Ascii.eqb c "{" then Some ([LBrace], Between) else
  if Ascii.eqb c "}" then Some ([RBrace], Between) else
  if Ascii.eqb c "[" then Some ([LBracket], Between) else
  if Ascii.eqb c "]" then Some ([RBracket], Between) else
  if Ascii.eqb c ":" then Some ([Colon], Between) else
  if Ascii.eqb c "," then Some ([Comma], Between) else None.

(** Failure is absorbing. *)
Definition app_opt {A} (x y : option (list A)) : option (list A) :=
  match x, y with Some a, Some b => Some (a ++ b)%list | _, _ => None end.

(** One character: the tokens that end with it, and the state after it. *)
Definition lex_step (st : lex_state) (c : ascii) : option (list token * lex_state) :=
  match st with
  | Between => step c
  | InWord w =>
      if word_char c then Some ([], InWord (w +:+ String c "")) else
      match word_token w, step c with
      | Some t, Some (ts, st') => Some (t :: ts, st')
      | _, _ => None
      end
  | InString w =>
      if Ascii.eqb c quote then Some ([TStr w], Between) else
      if Ascii.eqb c "\" then Some ([], InEscape (w +:+ String c "")) else
      if plain_char c then Some ([], InString (w +:+ String c "")) else None
  | InEscape w =>
      if escapable c then Some ([], InString (w +:+ String c "")) else
      if Ascii.eqb c "u" then Some ([], InHex 4 (w +:+ String c "")) else None
  | InHex n w =>
      if is_ascii_hexdigit c then
        Some ([], match n with S (S n') => InHex (S n') (w +:+ String c "") | _ => InString (w +:+ String c "") end)
      else None
  end.

Definition lex_end (st : lex_state) : option (list token) :=
  match st with
  | Between => Some []
  | InWord w => match word_token w with Some t => Some [t] | None => None end
  | _ => None
  end.

Fixpoint lex (st : lex_state) (s : string) : option (list token) :=
  match s with
  | EmptyString => lex_end st
  | String c r => match lex_step st c with Some (ts, st') => app_opt (Some ts) (lex st' r) | None => None end
  end.

(** The tokens within a piece, and the state it leaves. *)
Fixpoint lex_run (st : lex_state) (s : string) : option (list token * lex_state) :=
  match s with
  | EmptyString => Some ([], st)
  | String c r =>
      match lex_step st c with
      | Some (ts, st') => match lex_run st' r with Some (ts', st'') => Some (ts ++ ts', st'') | None => None end
      | None => None
      end
  end.

(** ** The parser *)

Fixpoint parse_value (n : nat) (ts : list token) : option (json * list token) :=
  match n with
  | O => None
  | S n =>
      match ts with
      | TNull :: r => Some (JNull, r)
      | TTrue :: r => Some (JBool true, r)
      | TFalse :: r => Some (JBool false, r)
      | TNum m e :: r => Some (JNum m e, r)
      | TStr s :: r => Some (JStr s, r)
      | LBracket :: RBracket :: r => Some (JArr [], r)
      | LBracket :: r => match parse_elements n r with Some (l, r') => Some (JArr l, r') | None => None end
      | LBrace :: RBrace :: r => Some (JObj [], r)
      | LBrace :: r => match parse_members n r with Some (l, r') => Some (JObj l, r') | None => None end
      | _ => None
      end
  end
with parse_elements (n : nat) (ts : list token) : option (list json * list token) :=
  match n with
  | O => None
  | S n =>
      match parse_value n ts with
      | Some (j, RBracket :: r) => Some ([j], r)
      | Some (j, Comma :: r) => match parse_elements n r with Some (l, r') => Some (j :: l, r') | None => None end
      | _ => None
      end
  end
with parse_members (n : nat) (ts : list token) : option (list (string * json) * list token) :=
  match n with
  | O => None
  | S n =>
      match ts with
      | TStr k :: Colon :: r =>
          match parse_value n r with
          | Some (j, RBrace :: r') => Some ([(k, j)], r')
          | Some (j, Comma :: r') => match parse_members n r' with Some (l, r'') => Some ((k, j) :: l, r'') | None => None end
          | _ => None
          end
      | _ => None
      end
  end.

(** The value a text stands for, if it is a JSON text. *)
Definition parse_json (s : string) : option json :=
  match lex Between s with
  | Some ts => match parse_value (2 * length ts) ts with Some (j, []) => Some j | _ => None end
  | None => None
  end.

Example parse_json_reads :
  parse_json (cat ["{ "; quoted "a"; ": [1, -2.50, 1e3, true], "; quoted "b\n"; ":null"; nl; "}"]) =
    Some (JObj [("a", JArr [JNum 1 0; JNum (-250) (-2); JNum 1 3; JBool true]); ("b\n", JNull)]) /\
  parse_json "[]" = Some (JArr []) /\ parse_json "[1,]" = None /\ parse_json "[1 2]" = None /\ parse_json "01" = None /\
  parse_json "1." = None /\ parse_json "NaN" = None /\ parse_json "{1:2}" = None /\ parse_json "" = None /\
  parse_json (quoted "a\q") = None /\ parse_json (quoted "\u00e9") = Some (JStr "\u00e9") /\ parse_json "[1]]" = None.
Proof. vm_compute. done. Qed.

Example show_fixed_rounds :
  show_fixed 6 (f64_div (of_Z 1) (of_Z 128)) = "0.007812" /\ show_fixed 6 (f64_div (of_Z (-3)) (of_Z 128)) = "-0.023438" /\
  show_fixed 6 (of_Z 1000000) = "1000000.000000" /\ show_fixed 9 (f64_div (of_Z 1) (of_Z 3)) = "0.333333333" /\
  show_fixed 6 (f64_div f64_zero f64_zero) = "NaN" /\ show_fixed 2 (f64_div (of_Z (-1)) (of_Z 1000)) = "-0.00" /\
  show_fixed 6 (f64_div (of_Z 2) (of_Z 3)) = "0.666667".
Proof. vm_compute. done. Qed.

(** ** Values that may not be there

    A number that is not finite has no JSON text; a value that contains one has
    none either. *)

Definition decimal (k : nat) (x : f64) : option json :=
  if is_finite x then Some (JNum ((if f64_sign x then -1 else 1) * fixed_units k x) (- Z.of_nat k)) else None.
Definition integer (n : Z) : option json := Some (JNum n 0).
Definition text (s : string) : option json := Some (JStr s).
Definition truth (b : bool) : option json := Some (JBool b).

Fixpoint all_some {A} (l : list (option A)) : option (list A) :=
  match l with
  | [] => Some []
  | x :: l' => match x, all_some l' with Some a, Some r => Some (a :: r) | _, _ => None end
  end.

Definition arr (l : list (option json)) : option json := JArr <$> all_some l.
Definition obj (l : list (string * option json)) : option json :=
  JObj <$> all_some (map (fun kv => pair kv.1 <$> kv.2) l).

(** ** The tokens of a value *)

Fixpoint commas (l : list (list token)) : list token :=
  match l with
  | [] => []
  | [x] => x
  | x :: l' => x ++ Comma :: commas l'
  end.

Fixpoint tokens_of (j : json) : list token :=
  match j with
  | JNull => [TNull]
  | JBool b => [if b then TTrue else TFalse]
  | JNum m e => [TNum m e]
  | JStr s => [TStr s]
  | JArr l => LBracket :: commas (map tokens_of l) ++ [RBracket]
  | JObj l => LBrace :: commas (map (fun kv => TStr kv.1 :: Colon :: tokens_of kv.2) l) ++ [RBrace]
  end.

(** Induction over the values nested in lists. *)
Lemma json_nested_ind (P : json -> Prop) :
  P JNull -> (forall b, P (JBool b)) -> (forall m e, P (JNum m e)) -> (forall s, P (JStr s)) ->
  (forall l, Forall P l -> P (JArr l)) -> (forall l, Forall (fun kv => P kv.2) l -> P (JObj l)) -> forall j, P j.
Proof.
  intros Hnull Hbool Hnum Hstr Harr Hobj. fix F 1.
  intros [ | b | m e | s | l | l]; [exact Hnull | apply Hbool | apply Hnum | apply Hstr | |].
  - apply Harr. induction l as [|j l IH]; constructor; [apply F | exact IH].
  - apply Hobj. induction l as [|[k j] l IH]; constructor; [apply F | exact IH].
Qed.

(** The tokens of a value start with one that ends no list. *)
Lemma tokens_start j : exists t ts, tokens_of j = t :: ts /\ t <> RBracket /\ t <> RBrace.
Proof. destruct j as [ | [] | | | | ]; cbn; do 2 eexists; (split; [reflexivity | done]). Qed.

Lemma parse_elements_commas l n rest :
  Forall (fun j => forall n rest, (2 * length (tokens_of j) <= n)%nat -> parse_value n (tokens_of j ++ rest) = Some (j, rest)) l ->
  l <> [] -> (2 * length (commas (map tokens_of l)) + 1 <= n)%nat ->
  parse_elements n (commas (map tokens_of l) ++ RBracket :: rest) = Some (l, rest).
Proof.
  intros Hl. revert n. induction Hl as [|j l Hj Hl IH]; intros n Hne Hn; [done|]. destruct n as [|n]; [lia|].
  destruct l as [|j' l]; cbn [map commas parse_elements] in *; [by rewrite Hj by lia|].
  rewrite <- app_assoc, <- app_comm_cons, length_app in *. cbn [length] in Hn. rewrite Hj by lia. by rewrite IH by (done || lia).
Qed.

Lemma parse_members_commas l n rest :
  Forall (fun kv : string * json => forall n rest,
    (2 * length (tokens_of kv.2) <= n)%nat -> parse_value n (tokens_of kv.2 ++ rest) = Some (kv.2, rest)) l ->
  l <> [] -> (2 * length (commas (map (fun kv => TStr kv.1 :: Colon :: tokens_of kv.2) l)) <= n)%nat ->
  parse_members n (commas (map (fun kv => TStr kv.1 :: Colon :: tokens_of kv.2) l) ++ RBrace :: rest) = Some (l, rest).
Proof.
  intros Hl. revert n. induction Hl as [|[k j] l Hj Hl IH]; intros n Hne Hn; [done|]. cbn [fst snd] in *.
  destruct l as [|kv l]; cbn [map commas fst snd app length] in *; (destruct n as [|n]; [lia|]); cbn [parse_members].
  - by rewrite Hj by lia.
  - rewrite length_app in Hn. cbn [length] in Hn. rewrite <- app_assoc, <- app_comm_cons. rewrite Hj by lia.
    by rewrite IH by (done || lia).
Qed.

(** Parsing undoes [tokens_of]. *)
Lemma parse_tokens_of j : forall n rest, (2 * length (tokens_of j) <= n)%nat -> parse_value n (tokens_of j ++ rest) = Some (j, rest).
Proof.
  induction j as [ | b | m e | s | l Hl | l Hl] using json_nested_ind; intros n rest Hn; cbn [tokens_of length] in Hn;
    (destruct n as [|n]; [lia|]); try done.
  - by destruct b.
  - cbn [tokens_of]. rewrite length_app in Hn. rewrite <- app_comm_cons, <- app_assoc. destruct l as [|j l]; [done|].
    pose proof (parse_elements_commas (j :: l) n rest Hl ltac:(done) ltac:(cbn in *; lia)) as Hp.
    destruct (tokens_start j) as (t & ts & Ht & Hr & _).
    destruct l as [|j' l]; cbn [map commas] in *; rewrite Ht in *; cbn [app parse_value] in *; destruct t; try done; by rewrite Hp.
  - cbn [tokens_of]. rewrite length_app in Hn. rewrite <- app_comm_cons, <- app_assoc. destruct l as [|[k j] l]; [done|].
    pose proof (parse_members_commas ((k, j) :: l) n rest Hl ltac:(done) ltac:(cbn in *; lia)) as Hp.
    destruct l as [|kv l]; cbn [map commas fst app parse_value] in *; by rewrite Hp.
Qed.

(** ** Token lists that may not be there *)

Lemma app_opt_assoc {A} (x y z : option (list A)) : app_opt (app_opt x y) z = app_opt x (app_opt y z).
Proof. destruct x, y, z; cbn; by rewrite ?app_assoc. Qed.

Lemma app_opt_nil_l {A} (x : option (list A)) : app_opt (Some []) x = x.
Proof. by destruct x. Qed.

Lemma app_opt_nil_r {A} (x : option (list A)) : app_opt x (Some []) = x.
Proof. destruct x; cbn; by rewrite ?app_nil_r. Qed.

(** The normal form has one token at a time. *)
Lemma app_opt_cons {A} (a b : A) l x : app_opt (Some (a :: b :: l)) x = app_opt (Some [a]) (app_opt (Some (b :: l)) x).
Proof. by destruct x. Qed.

Lemma app_opt_some {A} (a b : list A) : app_opt (Some a) (Some b) = Some (a ++ b).
Proof. done. Qed.

Lemma app_opt_none_r {A} (x : option (list A)) : app_opt x None = None.
Proof. by destruct x. Qed.

Create Rewrite HintDb tokens.
#[export] Hint Rewrite @app_opt_assoc @app_opt_nil_l @app_opt_nil_r @app_opt_cons : tokens.

Fixpoint commas_opt (l : list (option (list token))) : option (list token) :=
  match l with
  | [] => Some []
  | [x] => x
  | x :: l' => app_opt x (app_opt (Some [Comma]) (commas_opt l'))
  end.

(** The tokens of a value that may not be there. *)
Definition toks (j : option json) : option (list token) := tokens_of <$> j.
Definition member_toks (kv : string * option json) : option (list token) := app_opt (Some [TStr kv.1; Colon]) (toks kv.2).

Lemma commas_all_some {A} (f : A -> list token) (l : list (option A)) :
  commas_opt (map (fun x => f <$> x) l) = (fun xs => commas (map f xs)) <$> all_some l.
Proof.
  induction l as [|x l IH]; [done|]. destruct l as [|y l]; [by destruct x|].
  change (commas_opt (map (fun x => f <$> x) (x :: y :: l)))
    with (app_opt (f <$> x) (app_opt (Some [Comma]) (commas_opt (map (fun x => f <$> x) (y :: l))))).
  rewrite IH. cbn [all_some]. destruct x as [a|]; [|done].
  destruct y as [b|]; [|done]. destruct (all_some l) as [r|]; done.
Qed.

Lemma toks_arr l : toks (arr l) = app_opt (Some [LBracket]) (app_opt (commas_opt (map toks l)) (Some [RBracket])).
Proof. unfold arr, toks. rewrite (commas_all_some tokens_of). by destruct (all_some l). Qed.

Lemma toks_obj l : toks (obj l) = app_opt (Some [LBrace]) (app_opt (commas_opt (map member_toks l)) (Some [RBrace])).
Proof.
  unfold obj, toks.
  replace (map member_toks l) with
    (map (fun x => (fun kv : string * json => TStr kv.1 :: Colon :: tokens_of kv.2) <$> x) (map (fun kv => pair kv.1 <$> kv.2) l)).
  - rewrite commas_all_some. by destruct (all_some _).
  - rewrite map_map. apply map_ext. intros [k [j|]]; done.
Qed.

(** ** What a piece of text contributes *)

(** A piece that may stand between any others. *)
Definition lexes (s : string) (o : option (list token)) : Prop :=
  forall rest, lex Between (s +:+ rest) = app_opt o (lex Between rest).

(** A value, which a word must not follow. *)
Definition value_text (s : string) (o : option (list token)) : Prop :=
  forall c rest, word_char c = false -> lex Between (s +:+ String c rest) = app_opt o (lex Between (String c rest)).

Lemma append_assoc (a b c : string) : (a +:+ b) +:+ c = a +:+ (b +:+ c).
Proof. induction a as [|x a IH]; [done|]. change (String x ((a +:+ b) +:+ c) = String x (a +:+ (b +:+ c))). by rewrite IH. Qed.

Lemma append_nil (a : string) : a +:+ "" = a.
Proof. induction a as [|x a IH]; [done|]. change (String x (a +:+ "") = String x a). by rewrite IH. Qed.

Lemma append_cons x (a b : string) : String x a +:+ b = String x (a +:+ b).
Proof. done. Qed.

(** A text whose tokens are those of a value parses to it. *)
Lemma parse_json_lexes s j : lexes s (toks j) -> parse_json s = j.
Proof.
  intros H. specialize (H ""). rewrite append_nil in H. change (lex Between "") with (Some ([] : list token)) in H. rewrite app_opt_nil_r in H.
  unfold parse_json. rewrite H. destruct j as [j|]; [|done]. unfold toks. cbn [fmap option_fmap option_map].
  rewrite <- (app_nil_r (tokens_of j)) at 2. by rewrite parse_tokens_of.
Qed.

Lemma lexes_nil : lexes "" (Some []).
Proof. intros rest. by rewrite app_opt_nil_l. Qed.

Lemma lexes_eq s o o' : lexes s o -> o = o' -> lexes s o'.
Proof. by intros H <-. Qed.

Lemma lexes_app s1 s2 o1 o2 : lexes s1 o1 -> lexes s2 o2 -> lexes (s1 +:+ s2) (app_opt o1 o2).
Proof. intros H1 H2 rest. by rewrite append_assoc, H1, H2, app_opt_assoc. Qed.

Lemma lexes_cat s l o1 o2 : lexes s o1 -> lexes (cat l) o2 -> lexes (cat (s :: l)) (app_opt o1 o2).
Proof. apply lexes_app. Qed.

Lemma lexes_value s o : lexes s o -> value_text s o.
Proof. intros H c rest _. apply H. Qed.

(** A value before a piece that no word starts. *)
Lemma value_app s1 c s2 o1 o2 : word_char c = false -> value_text s1 o1 -> lexes (String c s2) o2 ->
  lexes (s1 +:+ String c s2) (app_opt o1 o2).
Proof. intros Hc H1 H2 rest. rewrite append_assoc, append_cons, H1 by done. rewrite <- append_cons. by rewrite H2, app_opt_assoc. Qed.

Lemma lex_cons st c r :
  lex st (String c r) = match lex_step st c with Some (ts, st') => app_opt (Some ts) (lex st' r) | None => None end.
Proof. done. Qed.

Lemma lex_run_app st s rest :
  lex st (s +:+ rest) = match lex_run st s with Some (ts, st') => app_opt (Some ts) (lex st' rest) | None => None end.
Proof.
  revert st. induction s as [|c s IH]; intros st; [symmetry; apply app_opt_nil_l|]. rewrite append_cons, lex_cons. cbn [lex_run].
  destruct (lex_step st c) as [[ts st']|]; [|done]. rewrite IH. destruct (lex_run st' s) as [[ts' st'']|]; [|done].
  by rewrite <- app_opt_assoc.
Qed.

(** A piece that is known is lexed by evaluation. *)
Lemma lexes_run s ts : lex_run Between s = Some (ts, Between) -> lexes s (Some ts).
Proof. intros H rest. by rewrite lex_run_app, H. Qed.

(** Words *)
Lemma lex_word w s c rest : all_chars word_char s = true -> word_char c = false ->
  lex (InWord w) (s +:+ String c rest) =
  app_opt ((fun t => [t]) <$> word_token (w +:+ s)) (lex Between (String c rest)).
Proof.
  revert w. induction s as [|x s IH]; intros w Hs Hc.
  - change ("" +:+ String c rest) with (String c rest). rewrite !lex_cons. cbn [lex_step]. rewrite Hc, append_nil.
    destruct (word_token w) as [t|]; [|done]. destruct (step c) as [[ts st]|]; [|done].
    cbn [fmap option_fmap option_map]. by rewrite <- app_opt_assoc.
  - cbn [all_chars] in Hs. apply andb_true_iff in Hs as [Hx Hs]. rewrite append_cons, (lex_cons (InWord w)). cbn [lex_step].
    rewrite Hx, app_opt_nil_l, IH by done. by rewrite append_assoc.
Qed.

Lemma word_char_step c : word_char c = true -> step c = Some ([], InWord (String c "")).
Proof.
  intros Hc. unfold step. rewrite Hc.
  destruct (is_white c) eqn:Hw; [|destruct (Ascii.eqb_spec c quote) as [->|]; [done | done]].
  unfold is_white, word_char in *. rewrite ?orb_true_iff, ?andb_true_iff, ?Nat.eqb_eq, ?Nat.leb_le in *. lia.
Qed.

Lemma word_text s : s <> "" -> all_chars word_char s = true -> value_text s ((fun t => [t]) <$> word_token s).
Proof.
  intros Hne Hs c rest Hc. destruct s as [|x s]; [done|]. cbn [all_chars] in Hs. apply andb_true_iff in Hs as [Hx Hs].
  rewrite append_cons, (lex_cons Between x). cbn [lex_step]. rewrite word_char_step, app_opt_nil_l by done. by rewrite lex_word.
Qed.

(** Strings without escapes *)
Definition unescaped (s : string) : bool := all_chars plain_char s.

Lemma lex_string w s rest : unescaped s = true ->
  lex (InString w) (s +:+ String quote rest) = app_opt (Some [TStr (w +:+ s)]) (lex Between rest).
Proof.
  revert w. induction s as [|x s IH]; intros w Hs; [by rewrite append_nil|].
  unfold unescaped in *. cbn [all_chars] in Hs. apply andb_true_iff in Hs as [Hx Hs]. rewrite append_cons, lex_cons. cbn [lex_step].
  pose proof Hx as Hx'. unfold plain_char in Hx'. rewrite !andb_true_iff, !negb_true_iff in Hx'. destruct Hx' as [[_ Hq] Hb].
  rewrite Hq, Hb, Hx, app_opt_nil_l, IH by done. by rewrite append_assoc.
Qed.

Lemma lexes_quoted s : unescaped s = true -> lexes (quoted s) (Some [TStr s]).
Proof.
  intros Hs rest. unfold quoted. rewrite append_cons, append_assoc, append_cons, lex_cons.
  change (lex_step Between quote) with (Some ([] : list token, InString "")). cbv beta iota. by rewrite app_opt_nil_l, lex_string.
Qed.

Lemma lexes_white s : all_chars is_white s = true -> lexes s (Some []).
Proof.
  intros Hs rest. induction s as [|c s IH]; [by rewrite app_opt_nil_l|]. cbn [all_chars] in Hs. apply andb_true_iff in Hs as [Hc Hs].
  rewrite append_cons, lex_cons. cbn [lex_step]. unfold step. by rewrite Hc, app_opt_nil_l, IH.
Qed.

Lemma white_spaces n : all_chars is_white (spaces n) = true.
Proof. by induction n. Qed.

(** ** Fields and lists *)

Lemma lexes_field n k v o (trailing : bool) : unescaped k = true -> value_text v o ->
  lexes (field n k v trailing) (app_opt (Some [TStr k; Colon]) (app_opt o (Some (if trailing then [Comma] else [])))).
Proof.
  intros Hk Hv. unfold field, cat. rewrite <- (app_opt_nil_l (app_opt _ _)).
  apply lexes_app; [apply lexes_white, white_spaces|]. change [TStr k; Colon] with ([TStr k] ++ [Colon]).
  rewrite <- app_opt_some, app_opt_assoc. apply lexes_app; [by apply lexes_quoted|]. apply lexes_app.
  { by apply lexes_run. }
  destruct trailing; rewrite append_nil.
  - apply (value_app v "," nl); [done | done|]. by apply lexes_run.
  - change ("" +:+ nl) with nl. apply (value_app v _ ""); [done | done|]. by apply lexes_run.
Qed.

Lemma lexes_each {A} (f : A -> string) (o : A -> option (list token)) sep fin l :
  (forall x, x ∈ l -> lexes (f x) (o x)) -> lexes sep (Some [Comma]) -> lexes fin (Some []) ->
  lexes (each f sep fin l) (commas_opt (map o l)).
Proof.
  intros Hf Hsep Hfin. induction l as [|x l IH]; [apply lexes_nil|].
  destruct l as [|y l].
  - cbn [each map commas_opt]. rewrite <- app_opt_nil_r. apply lexes_app; [apply Hf; set_solver | done].
  - change (each f sep fin (x :: y :: l)) with (f x +:+ sep +:+ each f sep fin (y :: l)).
    change (commas_opt (map o (x :: y :: l))) with (app_opt (o x) (app_opt (Some [Comma]) (commas_opt (map o (y :: l))))).
    apply lexes_app; [apply Hf; set_solver|]. apply lexes_app; [done|]. apply IH. intros z Hz. apply Hf. set_solver.
Qed.

Lemma lexes_each_value {A} (f : A -> string) (o : A -> option json) sep fin l :
  (forall x, lexes (f x) (toks (o x))) -> lex_run Between sep = Some ([Comma], Between) -> lex_run Between fin = Some ([], Between) ->
  lexes (each f sep fin l) (commas_opt (map toks (map o l))).
Proof. intros Hf Hsep Hfin. rewrite map_map. apply lexes_each; [intros x _; apply Hf | by apply lexes_run | by apply lexes_run]. Qed.

Lemma lexes_each_forall {A} (f : A -> string) (o : A -> option json) sep fin l :
  Forall (fun x => lexes (f x) (toks (o x))) l -> lex_run Between sep = Some ([Comma], Between) -> lex_run Between fin = Some ([], Between) ->
  lexes (each f sep fin l) (commas_opt (map toks (map o l))).
Proof.
  intros Hf Hsep Hfin. rewrite map_map. rewrite Forall_forall in Hf.
  apply lexes_each; [intros x Hx; by apply Hf | by apply lexes_run | by apply lexes_run].
Qed.

(** Values with commas between them. *)
Lemma value_each {A} (f : A -> string) (o : A -> option (list token)) l :
  (forall x, value_text (f x) (o x)) -> value_text (each f ", " "" l) (commas_opt (map o l)).
Proof.
  intros Hf. induction l as [|x l IH]; [apply lexes_value, lexes_nil|]. destruct l as [|y l].
  - cbn [each map commas_opt]. rewrite append_nil. apply Hf.
  - change (each f ", " "" (x :: y :: l)) with (f x +:+ ", " +:+ each f ", " "" (y :: l)).
    change (commas_opt (map o (x :: y :: l))) with (app_opt (o x) (app_opt (Some [Comma]) (commas_opt (map o (y :: l))))).
    intros c rest Hc. rewrite append_assoc, append_assoc. change (", " +:+ (each f ", " "" (y :: l) +:+ String c rest)) with
      (String "," (String " " (each f ", " "" (y :: l) +:+ String c rest))).
    rewrite Hf by done. change (String "," (String " " ?X)) with (", " +:+ X).
    rewrite (lexes_run ", " [Comma] eq_refl), (IH c rest Hc). by rewrite !app_opt_assoc.
Qed.

(** ** Numbers read back *)

Lemma digit_of_char d : 0 <= d < 10 -> digit_of (char_of_digit d) = Some d.
Proof.
  intros Hd. assert (d = 0 \/ d = 1 \/ d = 2 \/ d = 3 \/ d = 4 \/ d = 5 \/ d = 6 \/ d = 7 \/ d = 8 \/ d = 9) as H by lia.
  destruct_or!; subst; reflexivity.
Qed.

(** What the digits are followed by stops the reading of them. *)
Definition no_digit (s : string) : Prop := match s with EmptyString => True | String c _ => digit_of c = None end.

Lemma digits_stop acc n s : no_digit s -> digits acc n s = (acc, n, s).
Proof. destruct s as [|c s]; cbn; [done|]. by intros ->. Qed.

Lemma digits_padded k u acc n r : digits acc n (padded k u +:+ r) = digits (acc * 10 ^ Z.of_nat k + u mod 10 ^ Z.of_nat k) (n + k) r.
Proof.
  revert acc n. induction k as [|k IH]; intros acc n.
  - change (padded 0 u +:+ r) with r. rewrite Nat.add_0_r. f_equal. cbn [Z.of_nat]. rewrite Z.pow_0_r, Z.mod_1_r. lia.
  - change (padded (S k) u +:+ r) with (String (char_of_digit (u / 10 ^ Z.of_nat k mod 10)) (padded k u +:+ r)). cbn [digits].
    rewrite digit_of_char by (apply Z.mod_pos_bound; lia). rewrite IH, Nat.add_succ_comm. f_equal.
    rewrite Nat2Z.inj_succ, Z.pow_succ_r by lia. rewrite (Z.mul_comm 10 (10 ^ _)), Z.rem_mul_r by lia. ring.
Qed.

Lemma pretty_go_app x s r : pretty_N_go x s +:+ r = pretty_N_go x (s +:+ r).
Proof.
  revert s. induction (N.lt_wf_0 x) as [x _ IH]. intros s. destruct (N.eq_dec x 0) as [->|Hne]; [by rewrite !pretty_N_go_0|].
  rewrite (pretty_N_go_step x s), (pretty_N_go_step x (s +:+ r)) by lia. rewrite IH; [done | apply N.div_lt; lia].
Qed.

Lemma digits_pretty_go x s : exists d, digits 0 0 (pretty_N_go x s) = digits (Z.of_N x) d s /\ (d = 0%nat <-> x = 0%N) /\ ((x < 10)%N -> (d <= 1)%nat).
Proof.
  revert s. induction (N.lt_wf_0 x) as [x _ IH]. intros s.
  destruct (N.eq_dec x 0) as [->|Hne]; [exists 0%nat; rewrite pretty_N_go_0; repeat split; lia|].
  rewrite pretty_N_go_step by lia.
  destruct (IH (x / 10)%N ltac:(apply N.div_lt; lia) (String (pretty_N_char (x mod 10)) s)) as (d & -> & Hd & _).
  exists (S d). cbn [digits]. rewrite digit_char by (apply N.mod_lt; done). split; [|split; [lia|]].
  - f_equal. rewrite (N.div_mod x 10) at 3 by done. lia.
  - intros Hx. rewrite N.div_small in Hd by done. lia.
Qed.

Lemma starts_pretty_go x s : (0 < x)%N -> starts_with "0" (pretty_N_go x s) = false /\ starts_with "-" (pretty_N_go x s) = false.
Proof.
  revert s. induction (N.lt_wf_0 x) as [x _ IH]. intros s Hx. rewrite pretty_N_go_step by lia.
  destruct (decide (x < 10)%N) as [Hs|Hs].
  - rewrite N.div_small, N.mod_small, pretty_N_go_0 by done. cbn [starts_with].
    assert (x = 1 \/ x = 2 \/ x = 3 \/ x = 4 \/ x = 5 \/ x = 6 \/ x = 7 \/ x = 8 \/ x = 9)%N as H by lia.
    destruct_or!; subst; split; reflexivity.
  - apply IH; [apply N.div_lt; lia|]. apply N.div_str_pos. lia.
Qed.

(** A shown number is read to its end; it has no sign and no leading zero. *)
Lemma digits_show_uint n r : 0 <= n -> no_digit r ->
  exists d, digits 0 0 (show_uint n +:+ r) = (n, S d, r) /\ (d = 0%nat \/ starts_with "0" (show_uint n +:+ r) = false).
Proof.
  intros Hn Hr. unfold show_uint, pretty, pretty_N. destruct (decide _) as [H0|H0].
  - exists 0%nat. replace n with 0 by lia. split; [|by left]. change ("0" +:+ r) with (String "0" r). cbn [digits].
    change (digit_of "0") with (Some 0). cbv beta iota. by rewrite digits_stop.
  - rewrite pretty_go_app. change ("" +:+ r) with r. destruct (digits_pretty_go (Z.to_N n) r) as (d & -> & Hd & _).
    rewrite digits_stop by done. destruct d as [|d]; [lia|]. exists d. rewrite Z2N.id by lia. split; [done|].
    right. by apply starts_pretty_go; lia.
Qed.

Lemma after_starts c s : starts_with c s = false -> after c s = None.
Proof. destruct s as [|a s]; [done|]. cbn. by intros ->. Qed.

Lemma show_uint_unsigned n r : after "-" (show_uint n +:+ r) = None.
Proof.
  apply after_starts. unfold show_uint, pretty, pretty_N. destruct (decide _) as [H0|H0]; [done|]. rewrite pretty_go_app.
  by apply starts_pretty_go; lia.
Qed.

Lemma read_shown (neg : bool) n r m f : 0 <= n -> no_digit r -> read_fraction n r = Some (m, f, "") ->
  read_number ((if neg then "-" else "") +:+ show_uint n +:+ r) = Some ((if neg then -1 else 1) * m, - Z.of_nat f).
Proof.
  intros Hn Hr Hf. unfold read_number.
  assert (Hs : after "-" ((if neg then "-" else "") +:+ show_uint n +:+ r) = if neg then Some (show_uint n +:+ r) else None).
  { destruct neg; [done|]. apply show_uint_unsigned. }
  rewrite Hs. destruct (digits_show_uint n r Hn Hr) as (d & Hd & Hz).
  assert (Hlead : starts_with "0" (show_uint n +:+ r) && negb (S d =? 1)%nat = false).
  { destruct Hz as [-> | ->]; [apply andb_false_r | done]. }
  destruct neg; (change ("" +:+ show_uint n +:+ r) with (show_uint n +:+ r) || idtac);
    cbv beta iota; rewrite Hd, Hlead; cbn [Nat.eqb orb]; rewrite Hf; done.
Qed.

Lemma read_show_int n : read_number (show_int n) = Some (n, 0).
Proof.
  unfold show_int. destruct (Z.ltb_spec n 0).
  - pose proof (read_shown true (- n) "" (- n) 0 ltac:(lia) I eq_refl) as Hs. rewrite append_nil in Hs.
    etransitivity; [exact Hs|]. f_equal. f_equal; lia.
  - pose proof (read_shown false n "" n 0 ltac:(lia) I eq_refl) as Hs. rewrite append_nil in Hs.
    etransitivity; [exact Hs|]. f_equal. f_equal; lia.
Qed.

Lemma half_even_range n d : 0 <= n -> 0 < d -> 0 <= half_even n d /\ 2 * Z.abs (d * half_even n d - n) <= d.
Proof.
  intros Hn Hd. unfold half_even. pose proof (Z.div_mod n d ltac:(lia)) as He. pose proof (Z.mod_pos_bound n d Hd) as Hm.
  assert (0 <= n / d) by (apply Z.div_pos; lia).
  destruct (Z.compare_spec (2 * (n mod d)) d); [destruct (Z.even (n / d))| |]; (split; [lia|]); nia.
Qed.

Lemma fixed_units_nonneg k x : 0 <= fixed_units k x.
Proof.
  unfold fixed_units. destruct x as [ | | | s m e]; try lia. apply half_even_range.
  - apply Z.mul_nonneg_nonneg; [apply Z.mul_nonneg_nonneg|]; try apply Z.pow_nonneg; lia.
  - apply Z.pow_pos_nonneg; lia.
Qed.

Lemma show_fixed_finite k x : is_finite x = true ->
  show_fixed k x = (if f64_sign x then "-" else "") +:+ show_uint (fixed_units k x / 10 ^ Z.of_nat k) +:+ String "." (padded k (fixed_units k x)).
Proof. by destruct x. Qed.

Lemma read_show_fixed k x : (0 < k)%nat -> is_finite x = true ->
  read_number (show_fixed k x) = Some ((if f64_sign x then -1 else 1) * fixed_units k x, - Z.of_nat k).
Proof.
  intros Hk Hx. rewrite show_fixed_finite by done. pose proof (fixed_units_nonneg k x) as Hu.
  assert (0 < 10 ^ Z.of_nat k) by (apply Z.pow_pos_nonneg; lia).
  apply read_shown; [apply Z.div_pos; lia | done|]. unfold read_fraction.
  change (after "." (String "." (padded k (fixed_units k x)))) with (Some (padded k (fixed_units k x))). cbv beta iota.
  rewrite <- (append_nil (padded k _)), digits_padded, Nat.add_0_l. destruct k as [|k]; [lia|]. cbn [digits].
  f_equal. f_equal. f_equal. rewrite Z.mul_comm. symmetry. apply Z.div_mod. lia.
Qed.

(** ** Values and reports *)

Lemma all_chars_app f a b : all_chars f (a +:+ b) = all_chars f a && all_chars f b.
Proof. induction a as [|c a IH]; [done|]. rewrite append_cons. cbn [all_chars]. by rewrite IH, andb_assoc. Qed.

Lemma all_chars_impl (f g : ascii -> bool) s : (forall c, f c = true -> g c = true) -> all_chars f s = true -> all_chars g s = true.
Proof. intros H. induction s as [|c s IH]; [done|]. cbn [all_chars]. rewrite !andb_true_iff. intros [Hc Hs]. auto. Qed.

Lemma digit_word c : (match digit_of c with Some _ => true | None => false end) = true -> word_char c = true.
Proof.
  unfold digit_of, word_char. destruct (_ && _) eqn:Hb; [|done]. intros _.
  rewrite ?orb_true_iff, ?andb_true_iff, ?Nat.eqb_eq, ?Nat.leb_le, ?Z.leb_le in *. lia.
Qed.

Lemma word_show_uint n : all_chars word_char (show_uint n) = true.
Proof. apply (all_chars_impl _ _ _ digit_word), show_uint_digits. Qed.

Lemma word_padded k u : all_chars word_char (padded k u) = true.
Proof.
  induction k as [|k IH]; [done|]. cbn [padded all_chars]. rewrite IH, andb_true_r. apply digit_word.
  by rewrite digit_of_char by (apply Z.mod_pos_bound; lia).
Qed.

Lemma word_number w m e : read_number w = Some (m, e) -> word_token w = Some (TNum m e).
Proof.
  intros Hw. unfold word_token. rewrite Hw.
  destruct (String.eqb_spec w "null") as [->|]; [done|]. destruct (String.eqb_spec w "true") as [->|]; [done|].
  by destruct (String.eqb_spec w "false") as [->|].
Qed.

Lemma value_word w t : w <> "" -> all_chars word_char w = true -> word_token w = Some t -> value_text w (Some [t]).
Proof. intros Hne Hw Ht. pose proof (word_text w Hne Hw) as H. by rewrite Ht in H. Qed.

Lemma value_integer n : value_text (show_int n) (toks (integer n)).
Proof.
  apply value_word; [| |apply word_number, read_show_int].
  - unfold show_int. destruct (n <? 0); [done|]. apply show_uint_digits.
  - unfold show_int. destruct (n <? 0); cbn [all_chars]; by rewrite word_show_uint.
Qed.

Lemma value_decimal k x : (0 < k)%nat -> value_text (show_fixed k x) (toks (decimal k x)).
Proof.
  intros Hk. unfold decimal. destruct (is_finite x) eqn:Hx.
  - apply value_word; [| |by apply word_number, read_show_fixed].
    + rewrite show_fixed_finite by done. destruct (f64_sign x); [done|]. change ("" +:+ ?X) with X.
      destruct (show_uint_digits (fixed_units k x / 10 ^ Z.of_nat k)) as [_ Hne]. by destruct (show_uint _).
    + rewrite show_fixed_finite by done. rewrite !all_chars_app, word_show_uint. cbn [all_chars]. rewrite word_padded. by destruct (f64_sign x).
  - destruct x as [ | [] | | ]; try done; match goal with |- value_text ?s _ => exact (word_text s ltac:(done) eq_refl) end.
Qed.

Lemma value_truth b : value_text (show_bool b) (toks (truth b)).
Proof. destruct b; by apply value_word. Qed.

Lemma value_null : value_text "null" (toks (Some JNull)).
Proof. by apply value_word. Qed.

Lemma value_quoted s : unescaped s = true -> value_text (quoted s) (toks (text s)).
Proof. intros Hs. by apply lexes_value, lexes_quoted. Qed.

(** A list of values in brackets. *)
Definition bracketed {A} (f : A -> string) (l : list A) : string := cat ["["; each f ", " "" l; "]"].

Lemma value_bracketed {A} (f : A -> string) (o : A -> option json) l :
  (forall x, value_text (f x) (toks (o x))) -> value_text (bracketed f l) (toks (arr (map o l))).
Proof.
  intros Hf. apply lexes_value. unfold bracketed, cat. rewrite toks_arr, map_map. apply lexes_app; [by apply lexes_run|].
  apply (value_app _ "]" ""); [done | by apply value_each | by apply lexes_run].
Qed.

Lemma lexes_field_lines {A} n (f : A -> string) (o : A -> option json) l :
  Forall (fun kv => unescaped kv.1 = true) l -> (forall x, value_text (f x) (toks (o x))) ->
  lexes (field_lines n f l) (commas_opt (map member_toks (map (fun kv => (kv.1, o kv.2)) l))).
Proof.
  intros Hl Hf. induction Hl as [|[k x] l Hk Hl IH]; [apply lexes_nil|]. destruct l as [|[k' y] l].
  - cbn [field_lines map commas_opt]. eapply lexes_eq; [by apply lexes_field|]. unfold member_toks. cbn [fst snd]. by rewrite app_opt_nil_r.
  - change (field_lines n f ((k, x) :: (k', y) :: l)) with (field n k (f x) true +:+ field_lines n f ((k', y) :: l)).
    eapply lexes_eq; [apply lexes_app; [by apply lexes_field | exact IH]|].
    cbn [map]. change (commas_opt (?a :: ?b :: ?c)) with (app_opt a (app_opt (Some [Comma]) (commas_opt (b :: c)))).
    unfold member_toks at 3. cbn [fst snd]. by rewrite !app_opt_assoc.
Qed.

(** A finite number is printed to at most half a unit of its last digit from
    what it is. *)
Lemma fixed_units_close k s m e :
  2 * Z.abs (2 ^ Z.max 0 (- e) * fixed_units k (S754_finite s m e) - Zpos m * 10 ^ Z.of_nat k * 2 ^ Z.max 0 e) <= 2 ^ Z.max 0 (- e).
Proof.
  unfold fixed_units. apply half_even_range.
  - apply Z.mul_nonneg_nonneg; [apply Z.mul_nonneg_nonneg|]; try apply Z.pow_nonneg; lia.
  - apply Z.pow_pos_nonneg; lia.
Qed.

#[global] Opaque arr obj decimal.

Create HintDb lex discriminated.
#[export] Hint Constants Opaque : lex.
#[export] Hint Resolve value_integer value_decimal value_truth value_null value_quoted value_bracketed : lex.
#[export] Hint Extern 1 (unescaped _ = true) => reflexivity : lex.
#[export] Hint Extern 2 (unescaped (_ ?x) = true) => (destruct x; reflexivity) : lex.
#[export] Hint Extern 2 (unescaped (if ?b then _ else _) = true) => (destruct b; reflexivity) : lex.
#[export] Hint Extern 1 (lt _ _) => lia : lex.

(** A report is lexed piece by piece, and the tokens compared with those of
    the value. *)
Ltac lex_piece :=
  lazymatch goal with
  | |- lexes (cat (_ :: _)) _ => eapply lexes_cat
  | |- lexes (cat []) _ => apply lexes_nil
  | |- lexes EmptyString _ => apply lexes_nil
  | |- lexes (field _ _ _ _) _ => eapply lexes_field; [reflexivity | eauto with lex]
  | |- lexes (spaces _) _ => apply lexes_white, white_spaces
  | |- lexes (each _ _ _ _) _ => first [eassumption | eapply lexes_each_value; [solve [eauto with lex] | reflexivity | reflexivity]]
  | |- lexes (String _ _) _ => apply lexes_run; vm_compute; reflexivity
  | |- lexes nl _ => apply lexes_run; vm_compute; reflexivity
  | |- lexes (quoted _) _ => apply lexes_quoted; solve [eauto with lex]
  | |- lexes _ _ => solve [eauto with lex]
  end.
Ltac same_tokens :=
  repeat (rewrite ?toks_obj, ?toks_arr; progress (unfold member_toks; cbn [map fst snd commas_opt]));
  rewrite ?toks_arr; autorewrite with tokens; reflexivity.
Ltac lex_report := eapply lexes_eq; [repeat lex_piece | same_tokens].
