(* ===== verification/Diagnostics.v ===== *)
(** * Diagnostics: what the errors of the library look like in text

    [Display] of the failure records and the line [log_failure] writes
    (disruptor/failure.rs), the message taken from a panic payload, [Display]
    of the rejections of disruptor/producer.rs.  The text of a failure record
    is what operators read; a reader of it is given, and shown to recover the
    record. *)
From Stdlib Require Import Ascii.
From S2P Require Import Prelude Effects Errors Text Float64 Json World Producer.

(** ** Failure records *)

(** [Display] of [FailureRecord]. *)
Definition display_failure (f : FailureRecord) : string :=
  "phase=" +:+ as_str (phase f) +:+
  match thread_name f with Some n => " thread=" +:+ debug_str n | None => "" end +:+
  match stage_index f with Some n => " stage=" +:+ show_int n | None => "" end +:+
  match sequence f with Some n => " sequence=" +:+ show_int n | None => "" end +:+
  " error=" +:+ debug_str (message f).

(** [FailureDecision::as_str] *)
Definition decision_as_str (d : FailureDecision) : string := match d with Poison => "poison" | Record => "record" end.

(** The text of the line [log_failure] writes. *)
Definition log_failure_line (f : FailureRecord) (d : FailureDecision) : string :=
  display_failure f +:+ " decision=" +:+ decision_as_str d.

(** A panic payload: the types [panic_payload_message] looks for, or another. *)
Inductive PanicPayload : Type := StrPayload (s : string) | StringPayload (s : string) | OtherPayload.

Definition panic_payload_message (p : PanicPayload) : string :=
  match p with StrPayload s => s | StringPayload s => s | OtherPayload => "non-string panic payload" end.

(** [current_thread_name], of the name the thread was given. *)
Definition current_thread_name (name : option string) : string := match name with Some n => n | None => "unnamed" end.

(** ** Rejections *)

(** [Display] of [TryPublishError], of [RingBufferFull] and [MissingFreeSlots]. *)
Definition display_ring_buffer_full : string := "Ring Buffer is full".
Definition display_missing_free_slots (deficit : Z) : string := "Missing free slots in Ring Buffer: " +:+ show_int deficit.
Definition display_try_error (e : TryPublishError) : string :=
  match e with
  | Full => display_ring_buffer_full
  | Contended => "Another producer won the claim race"
  | MissingFreeSlots n => display_missing_free_slots n
  | InvalidBatchSize requested capacity =>
      "Invalid batch size " +:+ show_int requested +:+ "; expected a value in 1..=" +:+ show_int capacity
  | TryPoisoned => "Pipeline was poisoned by a panic; publishing is disabled"
  | TryShutdown => "Sequencer is closed (shutdown/halt); publishing is disabled"
  | TryReentrantPublish => "Reentrant publish from inside a single-producer DSL translator"
  end.

(** [Error::source]: whether there is an inner error. *)
Definition has_source (e : TryPublishError) : bool :=
  match e with Full | MissingFreeSlots _ => true | _ => false end.

(** ** Reading the text of a failure record *)

Fixpoint strip_prefix (p s : string) : option string :=
  match p with
  | EmptyString => Some s
  | String a p' => match s with String b s' => if Ascii.eqb a b then strip_prefix p' s' else None | EmptyString => None end
  end.

(** Up to the first space. *)
Fixpoint word (s : string) : string * string :=
  match s with
  | EmptyString => ("", "")
  | String c r => if Ascii.eqb c " " then ("", s) else let (w, r') := word r in (String c w, r')
  end.

Definition hex_value (c : ascii) : nat := let n := nat_of_ascii c in if (n <? 58)%nat then n - 48 else n - 87.

Definition cons_char (c : ascii) (x : option (string * string)) : option (string * string) :=
  match x with Some (w, r) => Some (String c w, r) | None => None end.

(** The rest of a quoted word, unescaped, and what follows the quote. *)
Fixpoint read_quoted (s : string) : option (string * string) :=
  match s with
  | EmptyString => None
  | String c r =>
      if Ascii.eqb c quote then Some ("", r) else
      if negb (Ascii.eqb c "\") then cons_char c (read_quoted r) else
      match r with
      | EmptyString => None
      | String e r1 =>
          if Ascii.eqb e "t" then cons_char (ascii_of_nat 9) (read_quoted r1) else
          if Ascii.eqb e "n" then cons_char (ascii_of_nat 10) (read_quoted r1) else
          if Ascii.eqb e "r" then cons_char (ascii_of_nat 13) (read_quoted r1) else
          if Ascii.eqb e "0" then cons_char (ascii_of_nat 0) (read_quoted r1) else
          if Ascii.eqb e "u" then
            match r1 with
            | String _ (String h (String x r2)) =>
                if Ascii.eqb x "}" then cons_char (ascii_of_nat (hex_value h)) (read_quoted r2) else
                match r2 with
                | String _ r3 => cons_char (ascii_of_nat (16 * hex_value h + hex_value x)) (read_quoted r3)
                | EmptyString => None
                end
            | _ => None
            end
          else cons_char e (read_quoted r1)
      end
  end.

Definition read_debug (s : string) : option (string * string) :=
  match after quote s with Some r => read_quoted r | None => None end.

Definition read_int (s : string) : option (Z * string) :=
  let (sign, s) := match after "-" s with Some r => (-1, r) | None => (1, s) end in
  match digits 0 0 s with (n, S _, r) => Some (sign * n, r) | _ => None end.

(** A field that may be there, after its prefix. *)
Definition read_field {A} (prefix : string) (read : string -> option (A * string)) (s : string) : option (option A * string) :=
  match strip_prefix prefix s with
  | Some r => match read r with Some (a, r') => Some (Some a, r') | None => None end
  | None => Some (None, s)
  end.

Definition read_phase (s : string) : option FailurePhase :=
  List.find (fun p => String.eqb (as_str p) s)
    [ThreadAffinity; HandlerStart; BatchStart; EventProcessing; HandlerShutdown; ConsumerPanic; ProducerPanic; ProcessorThread].

Definition read_failure (s : string) : option (FailureRecord * string) :=
  match strip_prefix "phase=" s with
  | None => None
  | Some s =>
      let (w, s) := word s in
      match read_phase w, read_field " thread=" read_debug s with
      | Some ph, Some (name, s) =>
          match read_field " stage=" read_int s with
          | Some (stage, s) =>
              match read_field " sequence=" read_int s with
              | Some (sq, s) =>
                  match strip_prefix " error=" s with
                  | Some s => match read_debug s with Some (msg, s) => Some (mkFailureRecord ph msg name stage sq, s) | None => None end
                  | None => None
                  end
              | None => None
              end
          | None => None
          end
      | _, _ => None
      end
  end.

(** The record of the crate's own test. *)
Example display_uses_context :
  display_failure (with_sequence 41 (with_stage_index 2 (with_thread_name "orders" (failure_new EventProcessing "handler rejected event")))) =
    cat ["phase=event_processing thread="; quoted "orders"; " stage=2 sequence=41 error="; quoted "handler rejected event"] /\
  display_failure (failure_new ProducerPanic (String quote (String (ascii_of_nat 27) ""))) =
    cat ["phase=producer_panic error="; String quote (String "\"%char (String quote "\u{1b}")); String quote ""].
Proof. vm_compute. split; reflexivity. Qed.

(** ** The text is read back *)

Lemma strip_prefix_app p s : strip_prefix p (p +:+ s) = Some s.
Proof. induction p as [|c p IH]; [done|]. rewrite append_cons. cbn [strip_prefix]. by rewrite Ascii.eqb_refl. Qed.

(** Every byte is read back from its escape. *)
Lemma read_escaped c r : read_quoted (escape_char c +:+ r) = cons_char c (read_quoted r).
Proof. by destruct c as [[] [] [] [] [] [] [] []]. Qed.

Lemma read_quoted_escape s r : read_quoted (escape s +:+ String quote r) = Some (s, r).
Proof.
  induction s as [|c s IH]; [done|]. cbn [escape]. by rewrite append_assoc, read_escaped, IH.
Qed.

Lemma read_debug_str s r : read_debug (debug_str s +:+ r) = Some (s, r).
Proof.
  unfold read_debug, debug_str. rewrite append_cons, append_assoc, append_cons.
  change (after quote (String quote ?x)) with (Some x). cbv beta iota. by rewrite read_quoted_escape.
Qed.

Lemma read_int_show n r : no_digit r -> read_int (show_int n +:+ r) = Some (n, r).
Proof.
  intros Hr. unfold read_int, show_int. destruct (Z.ltb_spec n 0).
  - rewrite append_cons. change (after "-" (String "-" ?x)) with (Some x). cbv beta iota.
    destruct (digits_show_uint (- n) r ltac:(lia) Hr) as (d & -> & _). f_equal. f_equal. lia.
  - rewrite show_uint_unsigned. destruct (digits_show_uint n r ltac:(lia) Hr) as (d & -> & _). f_equal. f_equal. lia.
Qed.

Lemma word_phase ph r : word (as_str ph +:+ String " " r) = (as_str ph, String " " r).
Proof. by destruct ph. Qed.

Lemma read_phase_as_str ph : read_phase (as_str ph) = Some ph.
Proof. by destruct ph. Qed.

(** A field is read back from what is shown of it; of nothing, nothing is
    read, if what follows is something else. *)
Definition shown {A} (prefix : string) (show : A -> string) (x : option A) : string :=
  match x with Some a => prefix +:+ show a | None => "" end.

Lemma read_field_shown {A} prefix (read : string -> option (A * string)) show x r :
  strip_prefix prefix r = None -> (forall a, read (show a +:+ r) = Some (a, r)) ->
  read_field prefix read (shown prefix show x +:+ r) = Some (x, r).
Proof.
  intros Hp Hread. unfold read_field, shown. destruct x as [a|].
  - by rewrite append_assoc, strip_prefix_app, Hread.
  - change ("" +:+ r) with r. by rewrite Hp.
Qed.

(** What follows a field is one of the later fields, or the error. *)
Lemma shown_other {A} p prefix (show : A -> string) x r :
  (forall t, strip_prefix p (prefix +:+ t) = None) -> strip_prefix p r = None -> strip_prefix p (shown prefix show x +:+ r) = None.
Proof. intros Hp Hr. destruct x; cbn [shown]; [rewrite append_assoc; apply Hp | exact Hr]. Qed.

Lemma shown_no_digit {A} prefix (show : A -> string) x r :
  (forall t, no_digit (prefix +:+ t)) -> no_digit r -> no_digit (shown prefix show x +:+ r).
Proof. intros Hp Hr. destruct x; cbn [shown]; [rewrite append_assoc; apply Hp | exact Hr]. Qed.

(** The text of a failure record determines the record: reading it gives back
    the phase, the thread, the stage, the sequence and the message, whatever
    characters the names and the message are made of. *)
Theorem failure_text_reads_back f rest : read_failure (display_failure f +:+ rest) = Some (f, rest).
Proof.
  destruct f as [ph msg name stage sq]. unfold display_failure. cbn [phase message thread_name stage_index sequence].
  change (match name with Some n => " thread=" +:+ debug_str n | None => "" end) with (shown " thread=" debug_str name).
  change (match stage with Some n => " stage=" +:+ show_int n | None => "" end) with (shown " stage=" show_int stage).
  change (match sq with Some n => " sequence=" +:+ show_int n | None => "" end) with (shown " sequence=" show_int sq).
  rewrite !append_assoc. unfold read_failure. rewrite strip_prefix_app.
  set (e := " error=" +:+ debug_str msg +:+ rest).
  assert (Hw : exists r, shown " thread=" debug_str name +:+ shown " stage=" show_int stage +:+ shown " sequence=" show_int sq +:+ e = String " " r).
  { destruct name; [by eexists|]. destruct stage; [by eexists|]. by destruct sq; eexists. }
  destruct Hw as (r & Hw). rewrite Hw, word_phase, <- Hw, read_phase_as_str. clear r Hw.
  rewrite read_field_shown; [|by repeat apply shown_other|intros a; apply read_debug_str].
  rewrite read_field_shown; [|by repeat apply shown_other|intros a; apply read_int_show; by apply shown_no_digit].
  rewrite read_field_shown; [|done|intros a; by apply read_int_show].
  unfold e. by rewrite strip_prefix_app, read_debug_str.
Qed.
