(* ===== verification/CommandLine.v ===== *)
(** * CommandLine: what the argument parsers of src/bin share

    The loop over the words of a command line, assignments from a word, lists
    of CPU numbers, and a list of checks of which the first that fails is
    reported.  Each binary gives its own flags and checks. *)
From Stdlib Require Import Ascii.
From stdpp Require Import sorting.
From S2P Require Import Prelude Effects Errors Text.

(** ** Options *)

Definition is_some {A} (o : option A) : bool := match o with Some _ => true | None => false end.

Definition or_zero (o : option Z) : Z := match o with Some n => n | None => 0 end.

(** [f.map_err(|e| format!("{name}: {e}"))] of a number. *)
Definition number (name : string) (v : string) : result Z string :=
  match parse_uint u64_max v with
  | Ok n => Ok n
  | Err e => Err (name +:+ ": " +:+ parse_int_error e)
  end.

(** The arms of the argument loop: a switch, an option with a value and what
    is reported when the value is missing, or help. *)
Inductive Flag (R : Type) : Type :=
| Switch (f : R -> R)
| Value (missing : string) (f : string -> R -> result R string)
| Refused (message : string)
| HelpFlag
| Unknown.
Arguments Switch {R} f.
Arguments Value {R} missing f.
Arguments Refused {R} message.
Arguments HelpFlag {R}.
Arguments Unknown {R}.

(** [flag = Some(parse(value)?)] *)
Definition assign {R A} (f : string -> result A string) (set : A -> R -> R) (v : string) (r : R) : result R string :=
  match f v with Ok a => Ok (set a r) | Err e => Err e end.

(** Numbers with the underscores removed. *)
Definition grouped (name : string) (v : string) : result (option Z) string :=
  match number name (remove_char "_" v) with Ok n => Ok (Some n) | Err e => Err e end.
Definition plain (name : string) (v : string) : result (option Z) string :=
  match number name v with Ok n => Ok (Some n) | Err e => Err e end.

(** The process ends at [--help]; everything before it has been parsed. *)
Inductive parsed (A : Type) : Type := HelpExit | Parsed (r : result A string).
Arguments HelpExit {A}.
Arguments Parsed {A} r.

(** The loop over the arguments. *)
Fixpoint parse_loop {R} (flag_of : string -> Flag R) (args : list string) (r : R) : parsed R :=
  match args with
  | [] => Parsed (Ok r)
  | a :: rest =>
      match flag_of a with
      | Switch f => parse_loop flag_of rest (f r)
      | Refused e => Parsed (Err e)
      | HelpFlag => HelpExit
      | Unknown => Parsed (Err ("unknown argument: " +:+ a))
      | Value missing f =>
          match rest with
          | [] => Parsed (Err missing)
          | v :: rest' => match f v r with Ok r' => parse_loop flag_of rest' r' | Err e => Parsed (Err e) end
          end
      end
  end.

Definition is_zero (o : option Z) : bool := match o with Some n => n =? 0 | None => false end.
Definition or_default (d : Z) (o : option Z) : Z := match o with Some n => n | None => d end.
Definition is_none {A} (o : option A) : bool := negb (is_some o).
Definition is_empty {A} (l : list A) : bool := match l with [] => true | _ => false end.

(** The checks, in their order: the first that fails is reported. *)
Fixpoint first_error (checks : list (bool * string)) : option string :=
  match checks with
  | [] => None
  | (true, e) :: _ => Some e
  | (false, _) :: cs => first_error cs
  end.

(** [parse_cpu_list]; duplicates are found by sorting a copy. *)
Definition parse_cpu_list (value : string) : result (list Z) string :=
  if String.eqb value "" then Ok [] else
  match collect (fun part => match parse_uint usize_max part with
                             | Ok n => Ok n
                             | Err e => Err ("invalid CPU " +:+ debug_str part +:+ ": " +:+ parse_int_error e)
                             end) (split_on "," value) with
  | Err e => Err e
  | Ok cpus =>
      let unique := dedup (merge_sort Z.le cpus) in
      if negb (length unique =? length cpus)%nat then Err "cpu-list must contain unique CPU IDs" else Ok cpus
  end.

(** ** Lemmas *)

(** *** Duplicates *)

Lemma dedup_length l : (length (dedup l) <= length l)%nat.
Proof. induction l as [|x [|y l] IH]; [done | done|]. cbn [dedup] in *. destruct (x =? y); cbn [length] in *; lia. Qed.

Lemma dedup_NoDup l : StronglySorted Z.le l -> length (dedup l) = length l <-> NoDup l.
Proof.
  induction 1 as [|x l Hl IH Hx]; [split; [constructor | done]|]. destruct l as [|y l]; [split; [intros _; apply NoDup_singleton | done]|].
  change (dedup (x :: y :: l)) with (if x =? y then dedup (y :: l) else x :: dedup (y :: l)).
  rewrite NoDup_cons, <- IH. pose proof (dedup_length (y :: l)) as Hle. change (length (x :: y :: l)) with (S (length (y :: l))). destruct (Z.eqb_spec x y) as [->|Hne].
  - split; [lia | set_solver].
  - change (length (x :: dedup (y :: l))) with (S (length (dedup (y :: l)))). split; [|lia]. intros Hlen. split; [|lia].
    apply Forall_cons in Hx as [Hxy _]. apply StronglySorted_inv in Hl as [_ Hy]. rewrite Forall_forall in Hy.
    intros [->|Hin]%elem_of_cons; [done|]. specialize (Hy x Hin). lia.
Qed.

(** The duplicate check of [parse_cpu_list] is exact. *)
Lemma dedup_sorted_NoDup l : length (dedup (merge_sort Z.le l)) = length l <-> NoDup l.
Proof.
  rewrite <- (Permutation_length (merge_sort_Permutation Z.le l)), dedup_NoDup by (apply (StronglySorted_merge_sort Z.le)).
  by rewrite (merge_sort_Permutation Z.le l).
Qed.

(** *** Lists of numbers *)

Definition written (l : list Z) : string := join_commas (map show_uint l).

Lemma written_nonempty n l : written (n :: l) <> "".
Proof.
  unfold written. cbn [map join_commas]. destruct (show_uint_digits n) as [_ Hne].
  destruct (show_uint n) as [|c s]; [done|]. by destruct (map show_uint l).
Qed.

Lemma split_written n l : split_on "," (written (n :: l)) = map show_uint (n :: l).
Proof.
  unfold written. apply split_join; [done|]. apply Forall_map, Forall_forall. intros x _. apply digits_no_comma, show_uint_digits.
Qed.

Lemma parse_cpu_list_written cpus :
  NoDup cpus -> Forall (fun n => 0 <= n <= usize_max) cpus -> parse_cpu_list (written cpus) = Ok cpus.
Proof.
  intros Hnd Hr. unfold parse_cpu_list. destruct cpus as [|n l]; [done|].
  destruct (String.eqb_spec (written (n :: l)) "") as [Heq|_]; [by apply written_nonempty in Heq|].
  rewrite split_written. rewrite (collect_map _ show_uint).
  - apply dedup_sorted_NoDup in Hnd. rewrite Hnd, Nat.eqb_refl. done.
  - intros b Hb. rewrite Forall_forall in Hr. by rewrite parse_show by auto.
Qed.

Lemma parse_cpu_list_ok s cpus : parse_cpu_list s = Ok cpus -> NoDup cpus /\ Forall (fun n => 0 <= n <= usize_max) cpus.
Proof.
  unfold parse_cpu_list. destruct (String.eqb s ""); [intros [= <-]; split; constructor|].
  destruct (collect _ _) as [l|e] eqn:Hc; [|done]. destruct (Nat.eqb_spec (length (dedup (merge_sort Z.le l))) (length l)) as [Hl|]; [|done].
  intros [= <-]. split; [by apply dedup_sorted_NoDup|].
  apply collect_ok in Hc. clear Hl. induction Hc as [|p n ps ns Hp _ IH]; constructor; [|done].
  destruct (parse_uint usize_max p) as [m|] eqn:Hm; [|done]. injection Hp as <-. eapply parse_uint_range; [|done]. i64_lia.
Qed.

(** Every failing part keeps the list from being accepted, a repeated number
    too. *)
Lemma parse_cpu_list_duplicates cpus :
  Forall (fun n => 0 <= n <= usize_max) cpus -> ~ NoDup cpus ->
  parse_cpu_list (written cpus) = Err "cpu-list must contain unique CPU IDs".
Proof.
  intros Hr Hnd. unfold parse_cpu_list. destruct cpus as [|n l]; [by destruct Hnd; constructor|].
  destruct (String.eqb_spec (written (n :: l)) "") as [Heq|_]; [by apply written_nonempty in Heq|].
  rewrite split_written. rewrite (collect_map _ show_uint).
  - destruct (Nat.eqb_spec (length (dedup (merge_sort Z.le (n :: l)))) (length (n :: l))) as [Hl|]; [|done].
    by apply dedup_sorted_NoDup in Hl.
  - intros b Hb. rewrite Forall_forall in Hr. by rewrite parse_show by auto.
Qed.

Definition in_u64 (n : Z) : Prop := 0 <= n <= u64_max.
Definition opt_u64 (o : option Z) : Prop := match o with Some n => in_u64 n | None => True end.

Lemma number_ok name v n : number name v = Ok n -> in_u64 n.
Proof.
  unfold number. destruct (parse_uint u64_max v) as [m|] eqn:Hm; [|done]. intros [= <-]. eapply parse_uint_range; [|done]. by vm_compute.
Qed.

Lemma grouped_ok name v o : grouped name v = Ok o -> opt_u64 o.
Proof. unfold grouped. destruct (number _ _) as [n|] eqn:Hn; [|done]. intros [= <-]. by eapply number_ok. Qed.

Lemma plain_ok name v o : plain name v = Ok o -> opt_u64 o.
Proof. unfold plain. destruct (number _ _) as [n|] eqn:Hn; [|done]. intros [= <-]. by eapply number_ok. Qed.

(** An arm of the loop keeps an invariant of what has been parsed. *)
Definition arm_ok {R} (P : R -> Prop) (f : Flag R) : Prop :=
  match f with
  | Switch f => forall r, P r -> P (f r)
  | Value _ f => forall v r r', P r -> f v r = Ok r' -> P r'
  | _ => True
  end.

Lemma assign_ok {R A} (I : R -> Prop) (f : string -> result A string) (set : A -> R -> R) (P : A -> Prop) m :
  (forall v a, f v = Ok a -> P a) -> (forall a r, P a -> I r -> I (set a r)) -> arm_ok I (Value m (assign f set)).
Proof. intros Hf Hset v r r' Hr. unfold assign. destruct (f v) as [a|] eqn:Ha; [|done]. intros [= <-]. eauto. Qed.

(** What every arm keeps, the loop keeps. *)
Lemma parse_loop_ok {R} (P : R -> Prop) flag_of args r r' :
  (forall a, arm_ok P (flag_of a)) -> P r -> parse_loop flag_of args r = Parsed (Ok r') -> P r'.
Proof.
  intros Hf. remember (length args) as n eqn:Hn. assert (Hle : (length args <= n)%nat) by lia. clear Hn. revert args r r' Hle.
  induction n as [|n IH]; intros [|a rest] r r' Hlen Hr; cbn in *; try lia; [by intros [= <-]..|].
  pose proof (Hf a) as Ha. destruct (flag_of a) as [f|missing f|e| |]; cbn in Ha; [|destruct rest as [|v rest]; [done|] | done..].
  - apply IH; [lia | auto].
  - destruct (f v r) as [r1|] eqn:Hv; [|done]. apply IH; [cbn in Hlen; lia | eauto].
Qed.

Lemma first_error_none l : first_error l = None -> Forall (fun c => c.1 = false) l.
Proof. induction l as [|[[] e] l IH]; cbn; [constructor | done | constructor; auto]. Qed.

