(* ===== verification/Checksums.v ===== *)
(** * Checksums: sums of 64-bit values modulo 2^64

    What the checksum theorems of the benchmark binaries share: how the casts
    between [i64] and [u64] and the wrapping sum interact, and the sum of a
    range. *)
From S2P Require Import Prelude.

(** ** Sums modulo 2^64 *)

Lemma as_u64_wrap z : as_u64 (wrap64 z) = as_u64 z.
Proof.
  unfold as_u64, wrap64. rewrite Zminus_mod, Zmod_mod, <- Zminus_mod. f_equal. lia.
Qed.

Lemma wrap_as_u64 z : wrap64 (as_u64 z) = wrap64 z.
Proof. unfold as_u64, wrap64. f_equal. by rewrite Zplus_mod_idemp_l. Qed.

Lemma as_u64_add a b : as_u64 (as_u64 a + as_u64 b) = as_u64 (a + b).
Proof. unfold as_u64. symmetry. apply Zplus_mod. Qed.

Lemma wrap_wrap_l a b : wrap64 (wrap64 a + b) = wrap64 (a + b).
Proof. rewrite <- wrap_as_u64, <- as_u64_add, as_u64_wrap, as_u64_add. apply wrap_as_u64. Qed.

Lemma wrap_wrap_r a b : wrap64 (a + wrap64 b) = wrap64 (a + b).
Proof. rewrite !(Z.add_comm a). apply wrap_wrap_l. Qed.

Lemma wrap_idem z : wrap64 (wrap64 z) = wrap64 z.
Proof. pose proof (wrap_wrap_l z 0) as H. by rewrite !Z.add_0_r in H. Qed.

Lemma wrap_shift z : exists k, wrap64 z = z + k * two64.
Proof.
  exists (- ((z + two63) / two64)). unfold wrap64. pose proof (Z.div_mod (z + two63) two64 ltac:(done)). lia.
Qed.

Lemma as_u64_shift z k : as_u64 (z + k * two64) = as_u64 z.
Proof. unfold as_u64. by apply Z.mod_add. Qed.

(** The three steps of the pipeline's arithmetic add eleven. *)
Lemma three_steps v : as_u64 (((v +! 1) +! 3) +! 7) = as_u64 (v + 11).
Proof.
  destruct (wrap_shift (v + 1)) as [k1 ->]. destruct (wrap_shift (v + 1 + k1 * two64 + 3)) as [k2 ->].
  rewrite as_u64_wrap. rewrite <- (as_u64_shift (v + 11) (k1 + k2)). f_equal. lia.
Qed.

(** Equal 64-bit values differ by a multiple of 2^64. *)
Lemma wrap_eq a b : wrap64 a = wrap64 b -> (a - b) mod two64 = 0.
Proof.
  intros H. assert (Hm : (a + two63) mod two64 = (b + two63) mod two64) by (unfold wrap64 in H; lia).
  replace (a - b) with ((a + two63) - (b + two63)) by lia. by rewrite Zminus_mod, Hm, Z.sub_diag, Z.mod_0_l.
Qed.

Definition total (l : list Z) : Z := foldr Z.add 0 l.

Lemma total_cons x l : total (x :: l) = x + total l.
Proof. done. Qed.

Lemma total_app l l' : total (l ++ l') = total l + total l'.
Proof. induction l as [|x l IH]; cbn; [done|]. unfold total in *. lia. Qed.

Lemma total_perm l l' : l ≡ₚ l' -> total l = total l'.
Proof. induction 1; cbn in *; unfold total in *; cbn in *; lia. Qed.

Lemma total_seqZ n : total (seqZ 0 (Z.of_nat n)) * 2 = Z.of_nat n * (Z.of_nat n - 1).
Proof.
  induction n as [|n IH]; [done|]. replace (Z.of_nat (S n)) with (Z.of_nat n + 1) by lia.
  rewrite seqZ_app, total_app by lia. rewrite (seqZ_cons _ 1), (seqZ_nil _ (Z.pred 1)) by lia.
  rewrite total_cons. change (total []) with 0. lia.
Qed.

Lemma total_map_add k l : total (map (fun v => v + k) l) = total l + k * Z.of_nat (length l).
Proof. induction l as [|x l IH]; [cbn; lia|]. cbn [map length]. rewrite !total_cons, IH. lia. Qed.
