(* ===== verification/TailWorkload.v ===== *)
(** * TailWorkload: the consumer side of src/bin/h2h_tail_latency.rs

    The tail-latency harness publishes events on a fixed schedule and lets the
    consumer record, per event, when it was due and when it was done.  Here:
    the counting allocator with its thread-local counters, the two workloads
    behind the [HandlerWorkload] trait, and the two handlers.  A handler call
    runs against the consumer thread's cells: the counters, the clock and what
    is shared with the main thread.  [None] is a panic. *)
From S2P Require Import Prelude Effects Errors Text CommandLine.

(** ** Constants and u64 arithmetic *)

Definition LOGICAL_PAYLOAD_BYTES : Z := 32.
Definition ALLOCATION_PAYLOAD_BYTES : Z := 48.

Definition sat_add_u64 (a b : Z) : Z := Z.min (a + b) u64_max.
Definition sat_mul_u64 (a b : Z) : Z := Z.min (a * b) u64_max.
Definition sat_sub_u64 (a b : Z) : Z := Z.max 0 (a - b).

(** [u64::try_from] of an integer. *)
Definition u64_try_from (n : Z) : option Z := if (0 <=? n) && (n <=? u64_max) then Some n else None.
Definition u64_or_max (n : Z) : Z := match u64_try_from n with Some m => m | None => u64_max end.

(** ** The counting allocator *)

(** The thread-local cells. *)
Record Tls : Type := mkTls {
  ALLOCATION_TRACKING : bool;
  ALLOCATION_COUNT : Z;
  ALLOCATION_BYTES : Z;
  DEALLOCATION_COUNT : Z;
  DEALLOCATION_BYTES : Z
}.

(** [GlobalAlloc::alloc] around the system allocator, which may give a null
    pointer. *)
Definition alloc (is_null : bool) (size : Z) (t : Tls) : Tls :=
  if negb is_null && t.(ALLOCATION_TRACKING) then
    mkTls t.(ALLOCATION_TRACKING) (sat_add_u64 t.(ALLOCATION_COUNT) 1)
      (sat_add_u64 t.(ALLOCATION_BYTES) (u64_or_max size)) t.(DEALLOCATION_COUNT) t.(DEALLOCATION_BYTES)
  else t.

(** [GlobalAlloc::dealloc] *)
Definition dealloc (size : Z) (t : Tls) : Tls :=
  if t.(ALLOCATION_TRACKING) then
    mkTls t.(ALLOCATION_TRACKING) t.(ALLOCATION_COUNT) t.(ALLOCATION_BYTES)
      (sat_add_u64 t.(DEALLOCATION_COUNT) 1) (sat_add_u64 t.(DEALLOCATION_BYTES) (u64_or_max size))
  else t.

Definition set_tracking (b : bool) (t : Tls) : Tls :=
  mkTls b t.(ALLOCATION_COUNT) t.(ALLOCATION_BYTES) t.(DEALLOCATION_COUNT) t.(DEALLOCATION_BYTES).

Record AllocationCounters : Type := mkAllocationCounters {
  allocations : Z;
  allocated_bytes : Z;
  deallocations : Z;
  deallocated_bytes : Z
}.

Definition reset_allocation_counters (t : Tls) : Tls := mkTls t.(ALLOCATION_TRACKING) 0 0 0 0.

Definition allocation_counters (t : Tls) : AllocationCounters :=
  mkAllocationCounters t.(ALLOCATION_COUNT) t.(ALLOCATION_BYTES) t.(DEALLOCATION_COUNT) t.(DEALLOCATION_BYTES).

(** ** Workloads *)

Record LatencyEvent : Type := mkLatencyEvent { ev_sequence : Z; ev_planned_ns : Z }.

Record LatencySample : Type := mkLatencySample {
  smp_sequence : Z;
  smp_planned_ns : Z;
  smp_completion_ns : Z;
  smp_latency_ns : Z
}.

#[export] Instance LatencySample_eq_dec : EqDecision LatencySample.
Proof. solve_decision. Defined.

Record AllocationPayload : Type := mkAllocationPayload { logical : list Z; matching_padding : list Z }.

(** [AllocationPayload::new] *)
Definition payload_new (sequence : Z) : AllocationPayload :=
  mkAllocationPayload [sequence; as_u64 (sequence + 1); as_u64 (sequence + 2); as_u64 (sequence + 3)]
    (replicate (Z.to_nat (ALLOCATION_PAYLOAD_BYTES - LOGICAL_PAYLOAD_BYTES)) 0).

(** [AllocationPayload::checksum] *)
Definition payload_checksum (p : AllocationPayload) : Z := fold_left (fun sum v => as_u64 (sum + v)) p.(logical) 0.

Record WorkloadStats : Type := mkWorkloadStats {
  counters : AllocationCounters;
  retained_objects : Z;
  retained_live_bytes : Z;
  retained_checksum : Z
}.

(** The trait: a panicking [apply] is [None]. *)
Class HandlerWorkload (W : Type) : Type := {
  w_on_start : W -> Tls -> W * Tls;
  w_apply : W -> Z -> bool -> Tls -> option (W * Tls);
  w_stats : W -> Tls -> WorkloadStats
}.

Inductive AllocationFreeWorkload : Type := FreeWorkload.

Definition free_workload : HandlerWorkload AllocationFreeWorkload := {|
  w_on_start w t := (w, t);
  w_apply w _ _ t := Some (w, t);
  w_stats _ _ := mkWorkloadStats (mkAllocationCounters 0 0 0 0) 0 0 0 |}.
#[export] Existing Instance free_workload.

Record AllocatingWorkload : Type := mkAllocatingWorkload {
  retention : list (option AllocationPayload);
  next : Z
}.

(** [AllocatingWorkload::new] *)
Definition allocating_new (retention_window : Z) : AllocatingWorkload :=
  mkAllocatingWorkload (replicate (Z.to_nat retention_window) None) 0.

(** [apply]: the payload is boxed, then the slot is looked up, and the box it
    held is dropped before the new one is stored. *)
Definition allocating_apply (w : AllocatingWorkload) (sequence : Z) (track : bool) (t : Tls) : option (AllocatingWorkload * Tls) :=
  let t1 := alloc false ALLOCATION_PAYLOAD_BYTES (set_tracking track t) in
  match w.(retention) !! Z.to_nat w.(next) with
  | None => None
  | Some old =>
      let t2 := match old with Some _ => dealloc ALLOCATION_PAYLOAD_BYTES t1 | None => t1 end in
      let retention' := <[Z.to_nat w.(next) := Some (payload_new sequence)]> w.(retention) in
      Some (mkAllocatingWorkload retention' (as_u64 (w.(next) + 1) mod Z.of_nat (length retention')), set_tracking false t2)
  end.

(** [stats] *)
Definition allocating_stats (w : AllocatingWorkload) (t : Tls) : WorkloadStats :=
  let retained := Z.of_nat (length (List.filter is_some w.(retention))) in
  mkWorkloadStats (allocation_counters t) retained
    (sat_mul_u64 (u64_or_max retained) ALLOCATION_PAYLOAD_BYTES)
    (fold_left (fun sum p => as_u64 (sum + payload_checksum p)) (omap id w.(retention)) 0).

Definition allocating_workload : HandlerWorkload AllocatingWorkload := {|
  w_on_start w t := (w, reset_allocation_counters t);
  w_apply := allocating_apply;
  w_stats := allocating_stats |}.
#[export] Existing Instance allocating_workload.

(** ** The consumer thread *)

(** A pause the handler slept through. *)
Record InjectionObservation : Type := mkInjectionObservation {
  obs_sequence : Z;
  obs_planned_ns : Z;
  obs_started_ns : Z;
  obs_completed_ns : Z
}.

Record HandlerOutcome : Type := mkHandlerOutcome {
  out_samples : list LatencySample;
  out_workload : WorkloadStats;
  out_injection : option InjectionObservation
}.

(** What a handler call touches outside its handler: the thread's allocation
    counters, the clock in nanoseconds with the number of its readings, and
    the cells shared with the main thread. *)
Record Cells : Type := mkCells {
  tls : Tls;
  time : Z;
  readings : nat;
  epoch : option Z;
  processed : Z;
  ready : Z;
  outcome_sink : option HandlerOutcome;
  affinity_failed : bool
}.

Definition with_tls (t : Tls) (c : Cells) : Cells :=
  mkCells t c.(time) c.(readings) c.(epoch) c.(processed) c.(ready) c.(outcome_sink) c.(affinity_failed).
Definition with_time (z : Z) (n : nat) (c : Cells) : Cells :=
  mkCells c.(tls) z n c.(epoch) c.(processed) c.(ready) c.(outcome_sink) c.(affinity_failed).
Definition with_processed (z : Z) (c : Cells) : Cells :=
  mkCells c.(tls) c.(time) c.(readings) c.(epoch) z c.(ready) c.(outcome_sink) c.(affinity_failed).
Definition with_ready (z : Z) (c : Cells) : Cells :=
  mkCells c.(tls) c.(time) c.(readings) c.(epoch) c.(processed) z c.(outcome_sink) c.(affinity_failed).
Definition with_sink (o : option HandlerOutcome) (c : Cells) : Cells :=
  mkCells c.(tls) c.(time) c.(readings) c.(epoch) c.(processed) c.(ready) o c.(affinity_failed).
Definition with_failed (b : bool) (c : Cells) : Cells :=
  mkCells c.(tls) c.(time) c.(readings) c.(epoch) c.(processed) c.(ready) c.(outcome_sink) b.

(** Time passes by [tick k] before the reading number [k] of the clock. *)
Definition now (tick : nat -> Z) (c : Cells) : Z * Cells :=
  let t := c.(time) + tick c.(readings) in (t, with_time t (S c.(readings)) c).

(** [epoch.elapsed().as_nanos().try_into().unwrap_or(u64::MAX)] *)
Definition elapsed_ns (tick : nat -> Z) (e : Z) (c : Cells) : Z * Cells :=
  let '(t, c') := now tick c in (u64_or_max (Z.max 0 (t - e)), c').

(** [thread::sleep]: at least the duration passes. *)
Definition sleep (tick : nat -> Z) (duration : Z) (c : Cells) : Cells :=
  with_time (c.(time) + duration + tick c.(readings)) (S c.(readings)) c.

(** [pin_current_thread]: [set_for_current] and [get_core_ids] are the
    core_affinity crate's. *)
Definition pin_current_thread (set_for_current : Z -> bool) (get_core_ids : option (list Z)) (cpu : option Z) (c : Cells) : Cells :=
  match cpu with
  | None => c
  | Some cpu =>
      let verified := set_for_current cpu &&
        match get_core_ids with Some [id] => id =? cpu | _ => false end in
      if negb verified then with_failed true c else c
  end.

(** *** [LatencyHandler] *)

Record LatencyHandler (W : Type) : Type := mkLatencyHandler {
  lh_warmup_events : Z;
  final_sequence : Z;
  inject_sleep : option Z;
  inject_sequence : option Z;
  injected : bool;
  injection_observation : option InjectionObservation;
  lh_workload : W;
  samples : list LatencySample
}.
Arguments mkLatencyHandler {W}.
Arguments lh_warmup_events {W}.
Arguments final_sequence {W}.
Arguments inject_sleep {W}.
Arguments inject_sequence {W}.
Arguments injected {W}.
Arguments injection_observation {W}.
Arguments lh_workload {W}.
Arguments samples {W}.

(** [Vec::with_capacity(n)] for elements of [size] bytes panics with "capacity
    overflow" when the buffer is larger than [isize::MAX] bytes. *)
Definition with_capacity {A} (size n : Z) : option (list A) :=
  if n * size <=? i64_max then Some [] else None.

(** [size_of::<LatencySample>()]: four [u64] fields. *)
Definition LATENCY_SAMPLE_BYTES : Z := 32.

(** [LatencyHandler::new]; [None]: the conversion or the allocation panics. *)
Definition latency_new {W} (warmup_events events_total : Z) (inject_sleep : option Z) (inject_at_measured_pct : Z) (workload : W) :
    option (LatencyHandler W) :=
  match i64_try_from events_total with
  | None => None
  | Some n =>
      let at_ := as_u64 (warmup_events + as_u64 (as_u64 (events_total - warmup_events) * inject_at_measured_pct) / 100) in
      match with_capacity LATENCY_SAMPLE_BYTES (as_u64 (events_total - warmup_events)) with
      | None => None
      | Some samples =>
          Some (mkLatencyHandler warmup_events (n -! 1) inject_sleep
            (match inject_sleep with Some _ => Some at_ | None => None end) false None workload samples)
      end
  end.

(** [take_injection] *)
Definition take_injection {W} (h : LatencyHandler W) (sequence : Z) : option Z * LatencyHandler W :=
  if negb h.(injected) && bool_decide (h.(inject_sequence) = Some sequence) then
    (h.(inject_sleep), mkLatencyHandler h.(lh_warmup_events) h.(final_sequence) h.(inject_sleep) h.(inject_sequence) true
                         h.(injection_observation) h.(lh_workload) h.(samples))
  else (None, h).

Definition set_observation {W} (o : InjectionObservation) (h : LatencyHandler W) : LatencyHandler W :=
  mkLatencyHandler h.(lh_warmup_events) h.(final_sequence) h.(inject_sleep) h.(inject_sequence) h.(injected)
    (Some o) h.(lh_workload) h.(samples).
Definition set_workload {W} (w : W) (h : LatencyHandler W) : LatencyHandler W :=
  mkLatencyHandler h.(lh_warmup_events) h.(final_sequence) h.(inject_sleep) h.(inject_sequence) h.(injected)
    h.(injection_observation) w h.(samples).
Definition set_samples {W} (l : list LatencySample) (h : LatencyHandler W) : LatencyHandler W :=
  mkLatencyHandler h.(lh_warmup_events) h.(final_sequence) h.(inject_sleep) h.(inject_sequence) h.(injected)
    h.(injection_observation) h.(lh_workload) l.

Section Latency.
Context (tick : nat -> Z) {W : Type} `{HandlerWorkload W}.

(** The single deterministic pause of [on_event]. *)
Definition inject (h : LatencyHandler W) (c : Cells) (planned_ns sequence : Z) : option (LatencyHandler W * Cells) :=
  match take_injection h sequence with
  | (None, h) => Some (h, c)
  | (Some d, h) =>
      match c.(epoch) with
      | None => None
      | Some e =>
          let '(started_ns, c) := elapsed_ns tick e c in
          let c := sleep tick d c in
          let '(completed_ns, c) := elapsed_ns tick e c in
          Some (set_observation (mkInjectionObservation sequence planned_ns started_ns completed_ns) h, c)
      end
  end.

(** [on_event] *)
Definition latency_on_event (h : LatencyHandler W) (c : Cells) (event : LatencyEvent) (sequence : Z) : option (LatencyHandler W * Cells) :=
  if sequence <? 0 then None else
  match inject h c event.(ev_planned_ns) sequence with
  | None => None
  | Some (h, c) =>
      match w_apply h.(lh_workload) sequence (h.(lh_warmup_events) <=? sequence) c.(tls) with
      | None => None
      | Some (w, t) =>
          let h := set_workload w h in
          let c := with_tls t c in
          match c.(epoch) with
          | None => None
          | Some e =>
              let '(completion_ns, c) := elapsed_ns tick e c in
              let latency_ns := sat_sub_u64 completion_ns event.(ev_planned_ns) in
              let h := if h.(lh_warmup_events) <=? sequence
                       then set_samples (h.(samples) ++ [mkLatencySample sequence event.(ev_planned_ns) completion_ns latency_ns]) h
                       else h in
              let c := if sequence =? h.(final_sequence) then with_processed (as_u64 (sequence + 1)) c else c in
              Some (h, c)
          end
      end
  end.

(** [on_start] *)
Definition latency_on_start (set_for_current : Z -> bool) (get_core_ids : option (list Z)) (cpu : option Z)
    (h : LatencyHandler W) (c : Cells) : LatencyHandler W * Cells :=
  let '(w, t) := w_on_start h.(lh_workload) c.(tls) in
  let c := pin_current_thread set_for_current get_core_ids cpu (with_tls t c) in
  (set_workload w h, with_ready (as_u64 (c.(ready) + 1)) c).

(** [on_shutdown] *)
Definition latency_on_shutdown (h : LatencyHandler W) (c : Cells) : LatencyHandler W * Cells :=
  (set_samples [] h,
   with_sink (Some (mkHandlerOutcome h.(samples) (w_stats h.(lh_workload) c.(tls)) h.(injection_observation))) c).

(** The consumer's calls for the events of the sequences from [sequence] on. *)
Fixpoint handle_all (h : LatencyHandler W) (c : Cells) (sequence : Z) (events : list LatencyEvent) : option (LatencyHandler W * Cells) :=
  match events with
  | [] => Some (h, c)
  | e :: es =>
      match latency_on_event h c e sequence with
      | None => None
      | Some (h, c) => handle_all h c (sequence + 1) es
      end
  end.
(** A whole life of the handler: start, every event, shutdown. *)
Definition latency_run (pin : Z -> bool) (ids : option (list Z)) (cpu : option Z) (h : LatencyHandler W) (c : Cells)
    (start : Z) (events : list LatencyEvent) : option (LatencyHandler W * Cells) :=
  let '(h, c) := latency_on_start pin ids cpu h c in
  let c := mkCells c.(tls) c.(time) c.(readings) (Some start) c.(processed) c.(ready) c.(outcome_sink) c.(affinity_failed) in
  match handle_all h c 0 events with
  | None => None
  | Some (h, c) => Some (latency_on_shutdown h c)
  end.
End Latency.

(** *** [CalibrationHandler] *)

Record CalibrationHandler (W : Type) : Type := mkCalibrationHandler {
  ch_warmup_events : Z;
  ch_workload : W;
  scratch : list LatencySample
}.
Arguments mkCalibrationHandler {W}.
Arguments ch_warmup_events {W}.
Arguments ch_workload {W}.
Arguments scratch {W}.

Section Calibration.
Context (tick : nat -> Z) {W : Type} `{HandlerWorkload W}.

(** [on_event] *)
Definition calibration_on_event (h : CalibrationHandler W) (c : Cells) (event : LatencyEvent) (sequence : Z) (end_of_batch : bool) :
    option (CalibrationHandler W * Cells) :=
  if sequence <? 0 then None else
  match w_apply h.(ch_workload) sequence (h.(ch_warmup_events) <=? sequence) c.(tls) with
  | None => None
  | Some (w, t) =>
      let c := with_tls t c in
      match c.(epoch) with
      | None => None
      | Some e =>
          let '(completion_ns, c) := elapsed_ns tick e c in
          let scratch_mask := as_u64 (Z.of_nat (length h.(scratch)) - 1) in
          let index := Z.to_nat (Z.land sequence scratch_mask) in
          match h.(scratch) !! index with
          | None => None
          | Some _ =>
              let sample := mkLatencySample sequence event.(ev_planned_ns) completion_ns
                              (sat_sub_u64 completion_ns event.(ev_planned_ns)) in
              let h := mkCalibrationHandler h.(ch_warmup_events) w (<[index := sample]> h.(scratch)) in
              let c := if end_of_batch then with_processed (sat_add_u64 sequence 1) c else c in
              Some (h, c)
          end
      end
  end.

(** [on_start]; [on_shutdown] only keeps the compiler from dropping work. *)
Definition calibration_on_start (set_for_current : Z -> bool) (get_core_ids : option (list Z)) (cpu : option Z)
    (h : CalibrationHandler W) (c : Cells) : CalibrationHandler W * Cells :=
  let '(w, t) := w_on_start h.(ch_workload) c.(tls) in
  let c := pin_current_thread set_for_current get_core_ids cpu (with_tls t c) in
  (mkCalibrationHandler h.(ch_warmup_events) w h.(scratch), with_ready (as_u64 (c.(ready) + 1)) c).
End Calibration.
