(* ===== verification/TailWorkloadSpec.v ===== *)
(** * TailWorkloadSpec: the theorems on the consumer side of the tail-latency
    harness of [TailWorkload]: what the counting allocator has counted after
    any number of applications, and what a handler has recorded after a run. *)
From stdpp Require Import sorting.
From S2P Require Import Prelude Effects Errors Text CommandLine TailWorkload.

(** ** The retention ring *)

(** The sequence the ring slot [i] of [w] slots holds after [k] applications:
    the last one below [k] that is congruent to [i]. *)
Definition held (w k i : Z) : option Z := if i <? k then Some (i + w * ((k - 1 - i) / w)) else None.

Lemma held_same w k i : 0 < w -> 0 <= i < w -> 0 <= k -> i <> k mod w -> held w (k + 1) i = held w k i.
Proof.
  intros Hw Hi Hk Hne. unfold held. replace (k + 1 - 1 - i) with (k - i) by lia.
  destruct (Z.ltb_spec i k) as [Hlt|Hge].
  - destruct (Z.ltb_spec i (k + 1)); [|lia]. do 3 f_equal.
    assert (Hm : (k - i) mod w <> 0).
    { intros H0. apply Hne. apply Z.mod_divide in H0 as [q Hq]; [|lia].
      replace k with (i + q * w) by lia. rewrite Z.mod_add by lia. symmetry. apply Z.mod_small. lia. }
    pose proof (Z.div_mod (k - i) w ltac:(lia)). pose proof (Z.mod_pos_bound (k - i) w Hw).
    pose proof (Z.div_mod (k - 1 - i) w ltac:(lia)). pose proof (Z.mod_pos_bound (k - 1 - i) w Hw). nia.
  - destruct (Z.ltb_spec i (k + 1)); [|done]. assert (k = i) as -> by lia. rewrite Z.mod_small in Hne by lia. done.
Qed.

Lemma held_next w k : 0 < w -> 0 <= k -> held w (k + 1) (k mod w) = Some k.
Proof.
  intros Hw Hk. unfold held. pose proof (Z.mod_le k w ltac:(lia) Hw). destruct (Z.ltb_spec (k mod w) (k + 1)); [|lia].
  f_equal. replace (k + 1 - 1 - k mod w) with (k / w * w).
  - rewrite Z.div_mul by lia. pose proof (Z.div_mod k w ltac:(lia)). lia.
  - pose proof (Z.div_mod k w ltac:(lia)). lia.
Qed.

(** A slot is filled from its first application on. *)
Lemma held_filled w k : 0 < w -> 0 <= k -> is_some (held w k (k mod w)) = (w <=? k).
Proof.
  intros Hw Hk. unfold held. destruct (Z.leb_spec w k).
  - pose proof (Z.mod_pos_bound k w Hw). by destruct (Z.ltb_spec (k mod w) k); [|lia].
  - rewrite Z.mod_small by lia. by rewrite Z.ltb_irrefl.
Qed.

(** ** The counters *)

(** The counters after [a] counted allocations and [d] counted drops of a
    payload. *)
Definition counted (a d : Z) : AllocationCounters :=
  mkAllocationCounters (Z.min a u64_max) (sat_mul_u64 a ALLOCATION_PAYLOAD_BYTES)
    (Z.min d u64_max) (sat_mul_u64 d ALLOCATION_PAYLOAD_BYTES).

Definition counted_tls (a d : Z) (b : bool) : Tls :=
  let c := counted a d in mkTls b c.(allocations) c.(allocated_bytes) c.(deallocations) c.(deallocated_bytes).

Ltac u64_lia := unfold sat_add_u64, sat_mul_u64, sat_sub_u64, u64_or_max, u64_try_from, u64_max, ALLOCATION_PAYLOAD_BYTES, two64 in *; lia.

Lemma alloc_counted a d : 0 <= a ->
  alloc false ALLOCATION_PAYLOAD_BYTES (counted_tls a d true) = counted_tls (a + 1) d true.
Proof.
  intros Ha. unfold alloc, counted_tls, counted. cbn -[Z.min Z.mul]. f_equal; [u64_lia|].
  change (u64_or_max ALLOCATION_PAYLOAD_BYTES) with 48. u64_lia.
Qed.

Lemma dealloc_counted a d : 0 <= d ->
  dealloc ALLOCATION_PAYLOAD_BYTES (counted_tls a d true) = counted_tls a (d + 1) true.
Proof.
  intros Ha. unfold dealloc, counted_tls, counted. cbn -[Z.min Z.mul]. f_equal; [u64_lia|].
  change (u64_or_max ALLOCATION_PAYLOAD_BYTES) with 48. u64_lia.
Qed.

(** How many allocations and drops are counted once the first [k] sequences
    have been applied, of which those from [warmup] on are tracked. *)
Definition allocs_at (warmup k : Z) : Z := Z.max 0 (k - warmup).
Definition drops_at (warmup w k : Z) : Z := Z.max 0 (k - Z.max warmup w).

(** ** Workload invariants

    What a workload promises to the handlers: an invariant of its state, of
    the thread's counters and of the next sequence, under which an application
    does not panic. *)
Class WorkloadInvariant (W : Type) `{HandlerWorkload W} (warmup : Z) (I : Z -> W -> Tls -> Prop) : Prop := {
  applies s w t : 0 <= s -> I s w t ->
    exists w' t', w_apply w s (warmup <=? s) t = Some (w', t') /\ I (s + 1) w' t'
}.

Definition free_invariant (t0 : Tls) (_ : Z) (_ : AllocationFreeWorkload) (t : Tls) : Prop := t = t0.

#[export] Instance free_workload_invariant warmup t0 : WorkloadInvariant AllocationFreeWorkload warmup (free_invariant t0).
Proof. split. intros s w t _ ->. by exists w, t0. Qed.

Definition allocating_invariant (warmup window : Z) (s : Z) (w : AllocatingWorkload) (t : Tls) : Prop :=
  length w.(retention) = Z.to_nat window /\
  (forall i, 0 <= i < window -> w.(retention) !! Z.to_nat i = Some (payload_new <$> held window s i)) /\
  w.(next) = s mod window /\
  t = counted_tls (allocs_at warmup s) (drops_at warmup window s) false.

Lemma allocating_start warmup window t :
  0 <= warmup -> 0 < window -> allocating_invariant warmup window 0 (allocating_new window) (set_tracking false (reset_allocation_counters t)).
Proof.
  intros Hu Hw. split_and!; cbn.
  - by rewrite length_replicate.
  - intros i Hi. unfold held. destruct (Z.ltb_spec i 0); [lia|]. rewrite lookup_replicate. split; [done | lia].
  - by rewrite Z.mod_0_l by lia.
  - unfold allocs_at, drops_at. replace (Z.max 0 (0 - warmup)) with 0 by lia. replace (Z.max 0 (0 - Z.max warmup window)) with 0 by lia. done.
Qed.

(** The tracked part of an application. *)
Lemma apply_counts warmup window s (old : option AllocationPayload) :
  0 <= warmup -> 0 < window -> 0 <= s -> is_some old = (window <=? s) ->
  let t1 := alloc false ALLOCATION_PAYLOAD_BYTES
              (set_tracking (warmup <=? s) (counted_tls (allocs_at warmup s) (drops_at warmup window s) false)) in
  set_tracking false (match old with Some _ => dealloc ALLOCATION_PAYLOAD_BYTES t1 | None => t1 end) =
  counted_tls (allocs_at warmup (s + 1)) (drops_at warmup window (s + 1)) false.
Proof.
  intros Hu Hw Hs Hold. cbv zeta. destruct (Z.leb_spec warmup s) as [Hle|Hgt].
  - change (set_tracking true ?t) with (mkTls true t.(ALLOCATION_COUNT) t.(ALLOCATION_BYTES) t.(DEALLOCATION_COUNT) t.(DEALLOCATION_BYTES)).
    change (mkTls true _ _ _ _) with (counted_tls (allocs_at warmup s) (drops_at warmup window s) true).
    rewrite alloc_counted by (unfold allocs_at; lia).
    replace (allocs_at warmup (s + 1)) with (allocs_at warmup s + 1) by (unfold allocs_at; lia).
    destruct old; cbn [is_some] in Hold; destruct (Z.leb_spec window s); try done.
    + rewrite dealloc_counted by (unfold drops_at; lia).
      replace (drops_at warmup window (s + 1)) with (drops_at warmup window s + 1) by (unfold drops_at; lia). done.
    + replace (drops_at warmup window (s + 1)) with (drops_at warmup window s) by (unfold drops_at; lia). done.
  - replace (allocs_at warmup (s + 1)) with (allocs_at warmup s) by (unfold allocs_at; lia).
    replace (drops_at warmup window (s + 1)) with (drops_at warmup window s) by (unfold drops_at; lia).
    destruct old; done.
Qed.

#[export] Instance allocating_workload_invariant warmup window :
  0 <= warmup -> 0 < window <= u64_max -> WorkloadInvariant AllocatingWorkload warmup (allocating_invariant warmup window).
Proof.
  intros Hu Hw. split. intros s w t Hs (Hlen & Hslots & Hnext & ->).
  pose proof (Z.mod_pos_bound s window ltac:(lia)) as Hm. cbn [w_apply allocating_workload]. unfold allocating_apply.
  rewrite Hnext, Hslots by done. do 2 eexists. split; [done|]. split_and!; cbn [retention next].
  - by rewrite length_insert.
  - intros i Hi. destruct (Z.eq_dec i (s mod window)) as [->|Hne].
    + rewrite list_lookup_insert_eq by lia. rewrite held_next by lia. done.
    + rewrite list_lookup_insert_ne by lia. rewrite Hslots by done. by rewrite held_same by lia.
  - rewrite length_insert, Hlen, as_u64_small by (unfold u64_ones, u64_max in *; lia). rewrite Z2Nat.id by lia.
    by rewrite Zplus_mod_idemp_l.
  - apply apply_counts; [lia..|]. rewrite <- held_filled by lia. by destruct (held _ _ _).
Qed.

(** How many slots are filled. *)
Lemma retained_count warmup window s w t :
  0 < window -> 0 <= s -> allocating_invariant warmup window s w t ->
  Z.of_nat (length (List.filter is_some w.(retention))) = Z.min s window.
Proof.
  intros Hw Hs (Hlen & Hslots & _ & _). set (m := Z.to_nat (Z.min s window)).
  rewrite <- (take_drop m w.(retention)), List.filter_app, length_app.
  assert (H1 : forall l : list (option AllocationPayload), Forall (fun o => is_some o = true) l -> length (List.filter is_some l) = length l).
  { induction 1 as [|o l Ho Hl IH]; [done|]. cbn. rewrite Ho. cbn. by f_equal. }
  assert (H0 : forall l : list (option AllocationPayload), Forall (fun o => is_some o = false) l -> length (List.filter is_some l) = 0%nat).
  { induction 1 as [|o l Ho Hl IH]; [done|]. cbn. by rewrite Ho. }
  rewrite H1, H0; [rewrite length_take, Hlen; lia | |]; apply Forall_lookup; intros i o.
  - rewrite lookup_drop. intros Hi. pose proof (lookup_lt_Some _ _ _ Hi) as Hlt.
    specialize (Hslots (Z.of_nat (m + i)) ltac:(lia)). rewrite Nat2Z.id, Hi in Hslots. injection Hslots as ->.
    unfold held. destruct (Z.ltb_spec (Z.of_nat (m + i)) s); [lia | done].
  - rewrite lookup_take_Some. intros [Hi Hlt]. pose proof (lookup_lt_Some _ _ _ Hi).
    specialize (Hslots (Z.of_nat i) ltac:(lia)). rewrite Nat2Z.id, Hi in Hslots. injection Hslots as ->.
    unfold held. destruct (Z.ltb_spec (Z.of_nat i) s); [done | lia].
Qed.

(** What the workload reports of a run. *)
Lemma allocating_stats_spec warmup window s w t :
  0 < window <= u64_max -> 0 <= s -> allocating_invariant warmup window s w t ->
  let st := allocating_stats w t in
  st.(counters) = counted (allocs_at warmup s) (drops_at warmup window s) /\
  st.(retained_objects) = Z.min s window /\
  st.(retained_live_bytes) = sat_mul_u64 (Z.min s window) ALLOCATION_PAYLOAD_BYTES.
Proof.
  intros Hw Hs HI. cbv zeta. unfold allocating_stats. cbn [counters retained_objects retained_live_bytes].
  rewrite (retained_count warmup window s w t) by (done || lia). destruct HI as (_ & _ & _ & ->). split_and!; [done.. |].
  f_equal. unfold u64_or_max, u64_try_from. destruct (_ && _) eqn:Hb; [done|].
  apply andb_false_iff in Hb as [Hb|Hb]; apply Z.leb_gt in Hb; lia.
Qed.

(** ** A run of the latency handler *)

Lemma u64_or_max_mono a b : 0 <= a <= b -> u64_or_max a <= u64_or_max b.
Proof.
  intros Hab. unfold u64_or_max, u64_try_from.
  destruct (Z.leb_spec 0 a), (Z.leb_spec 0 b), (Z.leb_spec a u64_max), (Z.leb_spec b u64_max); cbn; lia.
Qed.

Lemma u64_or_max_le a : u64_or_max a <= u64_max.
Proof. unfold u64_or_max, u64_try_from. destruct (Z.leb_spec 0 a), (Z.leb_spec a u64_max); cbn; lia. Qed.

Section Run.
Context (tick : nat -> Z) (Htick : forall k, 0 <= tick k).
Context {W : Type} `{HandlerWorkload W} (warmup : Z) (I : Z -> W -> Tls -> Prop) `{!WorkloadInvariant W warmup I}.
Context (e : Z) (total : Z) (duration : option Z) (at_ : Z) (planned : Z -> Z).
Hypothesis (Hwarmup : 0 <= warmup < total) (Htotal : total <= i64_max).
Hypothesis (Hduration : forall d, duration = Some d -> 0 <= d).

(** What the sample of a sequence is, up to when the event was done. *)
Definition sample_ok (x : LatencySample) : Prop :=
  x.(smp_planned_ns) = planned x.(smp_sequence) /\
  x.(smp_latency_ns) = sat_sub_u64 x.(smp_completion_ns) x.(smp_planned_ns).

(** The pause: at its sequence, and no shorter than asked for, as far as the
    clock reaches. *)
Definition observation_ok (o : InjectionObservation) : Prop :=
  o.(obs_sequence) = at_ /\ o.(obs_planned_ns) = planned at_ /\ o.(obs_started_ns) <= o.(obs_completed_ns) /\
  (o.(obs_completed_ns) < u64_max -> forall d, duration = Some d -> o.(obs_started_ns) + d <= o.(obs_completed_ns)).

(** The clock reading the next sample cannot precede. *)
Definition clock_at (c : Cells) : Z := u64_or_max (Z.max 0 (c.(time) - e)).

(** The handler and the cells when the sequences below [s] are handled. *)
Record running (s : Z) (h : LatencyHandler W) (c : Cells) : Prop := mkRunning {
  run_epoch : c.(epoch) = Some e;
  run_clock : e <= c.(time);
  run_warmup : h.(lh_warmup_events) = warmup;
  run_final : h.(final_sequence) = total - 1;
  run_sleep : h.(inject_sleep) = duration;
  run_at : h.(inject_sequence) = (match duration with Some _ => Some at_ | None => None end);
  run_injected : h.(injected) = (match duration with Some _ => at_ <? s | None => false end);
  run_observation : match h.(injection_observation) with
                    | Some o => h.(injected) = true /\ observation_ok o
                    | None => h.(injected) = false
                    end;
  run_workload : I s h.(lh_workload) c.(tls);
  run_sequences : map smp_sequence h.(samples) = seqZ warmup (s - warmup);
  run_samples : Forall sample_ok h.(samples);
  run_sorted : StronglySorted Z.le (map smp_completion_ns h.(samples));
  run_last : Forall (fun x => x.(smp_completion_ns) <= clock_at c) h.(samples);
  run_processed : s <= total -> c.(processed) = (if s =? total then total else 0)
}.

Lemma clock_at_le c c' : c.(time) <= c'.(time) -> clock_at c <= clock_at c'.
Proof. intros Hle. unfold clock_at. apply u64_or_max_mono. lia. Qed.

Lemma clock_at_below c : e <= c.(time) -> clock_at c < u64_max -> clock_at c = c.(time) - e.
Proof.
  unfold clock_at, u64_or_max, u64_try_from. intros He. rewrite Z.max_r by lia.
  destruct (Z.leb_spec 0 (time c - e)); [|lia]. destruct (Z.leb_spec (time c - e) u64_max); cbn [andb]; lia.
Qed.

Lemma elapsed_spec c : elapsed_ns tick e c = (clock_at (snd (now tick c)), snd (now tick c)).
Proof. done. Qed.

Lemma take_injection_spec s h c :
  running s h c ->
  take_injection h s =
    if bool_decide (duration <> None /\ s = at_) then
      (duration, mkLatencyHandler h.(lh_warmup_events) h.(final_sequence) h.(inject_sleep) h.(inject_sequence) true
                   h.(injection_observation) h.(lh_workload) h.(samples))
    else (None, h).
Proof.
  intros [?????????????]. unfold take_injection. rewrite run_at0, run_injected0, run_sleep0.
  destruct duration as [d|].
  - destruct (Z.eq_dec s at_) as [->|Hne].
    + rewrite (bool_decide_eq_true_2 (Some at_ = Some at_)), (bool_decide_eq_true_2 (_ /\ _)) by done. by rewrite Z.ltb_irrefl.
    + rewrite (bool_decide_eq_false_2 (Some at_ = Some s)), (bool_decide_eq_false_2 (_ /\ _)) by naive_solver.
      by rewrite andb_false_r.
  - rewrite (bool_decide_eq_false_2 (None = Some s)), (bool_decide_eq_false_2 (_ /\ _)) by naive_solver. done.
Qed.

(** The state in the middle of a call: the pause of [s] has been taken. *)
Lemma inject_spec s h c :
  0 <= s -> running s h c ->
  exists h' c', inject tick h c (planned s) s = Some (h', c') /\
    c.(time) <= c'.(time) /\ c' = with_time c'.(time) c'.(readings) c /\
    h' = mkLatencyHandler h.(lh_warmup_events) h.(final_sequence) h.(inject_sleep) h.(inject_sequence)
           (match duration with Some _ => at_ <? s + 1 | None => false end) h'.(injection_observation) h.(lh_workload) h.(samples) /\
    match h'.(injection_observation) with
    | Some o => h'.(injected) = true /\ observation_ok o
    | None => h'.(injected) = false
    end.
Proof.
  intros Hs Hrun. unfold inject. rewrite (take_injection_spec s h c Hrun). destruct Hrun as [?????????????].
  destruct (bool_decide_reflect (duration <> None /\ s = at_)) as [[Hd Heq]|Hno].
  - destruct duration as [d|] eqn:Ed; [|done]. subst s. rewrite run_epoch0, elapsed_spec.
    specialize (Hduration d eq_refl).
    set (c1 := snd (now tick c)). set (c2 := sleep tick d c1). rewrite elapsed_spec.
    pose proof (Htick (readings c)) as H1. pose proof (Htick (readings c1)) as H2. pose proof (Htick (readings c2)) as H3.
    assert (Hlt : time c1 + d <= time (snd (now tick c2))).
    { unfold c2, now, sleep in *. cbn [snd time with_time readings] in *. lia. }
    assert (Hcl : clock_at c1 <= clock_at (snd (now tick c2))) by (apply clock_at_le; lia).
    assert (Hc1 : time c <= time c1) by (unfold c1, now; cbn [snd time with_time]; lia).
    do 2 eexists. split; [done|]. split_and!; cbn [injection_observation set_observation injected].
    + lia.
    + done.
    + unfold set_observation. cbn. f_equal. symmetry. apply Z.ltb_lt. lia.
    + split; [done|]. split_and!; cbn [obs_completed_ns obs_started_ns obs_sequence obs_planned_ns]; [done | done | exact Hcl|]. intros Hmax d' Hd'. rewrite Ed in Hd'. injection Hd' as <-. revert Hmax.
      cbn [obs_completed_ns obs_started_ns]. intros Hmax. rewrite !clock_at_below by lia. lia.
  - do 2 eexists. split; [done|]. split_and!; try done.
    + by destruct c.
    + destruct h. cbn in *. f_equal. rewrite run_injected0. destruct duration as [d|]; [|done].
      assert (s <> at_) by naive_solver. destruct (Z.ltb_spec at_ s), (Z.ltb_spec at_ (s + 1)); (done || lia).
Qed.

Lemma seqZ_snoc s : warmup <= s -> seqZ warmup (s + 1 - warmup) = seqZ warmup (s - warmup) ++ [s].
Proof. intros. replace (s + 1 - warmup) with ((s - warmup) + 1) by lia. rewrite seqZ_app by lia. cbn. by replace (warmup + (s - warmup)) with s by lia. Qed.

Lemma seqZ_before s : s < warmup -> seqZ warmup (s + 1 - warmup) = [] /\ seqZ warmup (s - warmup) = [].
Proof. intros. split; apply seqZ_nil; lia. Qed.

(** One call of the handler. *)
Lemma on_event_spec s h c event :
  0 <= s < total -> event.(ev_planned_ns) = planned s -> running s h c ->
  exists h' c', latency_on_event tick h c event s = Some (h', c') /\ running (s + 1) h' c'.
Proof.
  intros Hs Hev Hrun. unfold latency_on_event. destruct (Z.ltb_spec s 0); [lia|]. rewrite Hev.
  destruct (inject_spec s h c ltac:(lia) Hrun) as (h1 & c1 & -> & Htime & Hc1 & Hh1 & Hobs).
  destruct Hrun as [?????????????].
  assert (Hw1 : h1.(lh_workload) = h.(lh_workload)) by (by rewrite Hh1).
  assert (Hu1 : h1.(lh_warmup_events) = warmup) by (by rewrite Hh1).
  assert (Ht1 : c1.(tls) = c.(tls)) by (by rewrite Hc1).
  rewrite Hw1, Hu1, Ht1. destruct (applies s _ _ ltac:(lia) run_workload0) as (w' & t' & -> & HI).
  assert (He1 : (with_tls t' c1).(epoch) = Some e) by (by rewrite Hc1). rewrite He1, elapsed_spec.
  pose proof (Htick (readings (with_tls t' c1))) as Hk. set (c2 := snd (now tick (with_tls t' c1))).
  assert (Ht2 : c.(time) <= c2.(time)) by (unfold c2, now in *; cbn [snd time with_time with_tls readings] in *; lia).
  assert (Hc2 : c2 = with_time c2.(time) c2.(readings) (with_tls t' c)) by (unfold c2; rewrite Hc1; done).
  assert (Hsm : h1.(samples) = h.(samples)) by (by rewrite Hh1).
  assert (Hfin : h1.(final_sequence) = total - 1) by (by rewrite Hh1).
  change (samples (set_workload w' h1)) with (samples h1). change (lh_warmup_events (set_workload w' h1)) with (lh_warmup_events h1).
  rewrite Hsm, Hu1. do 2 eexists. split; [done|].
  set (x := mkLatencySample s (planned s) (clock_at c2) _).
  set (h' := if warmup <=? s then _ else _). set (c' := if s =? _ then with_processed _ _ else _).
  assert (Hc' : c' = if s =? total - 1 then with_processed (as_u64 (s + 1)) c2 else c2).
  { unfold c', h'. destruct (warmup <=? s); cbn [final_sequence set_samples set_workload]; by rewrite Hfin. }
  clearbody c'.
  assert (Hct : c'.(time) = c2.(time)) by (rewrite Hc'; by destruct (s =? total - 1)).
  assert (Hcl : clock_at c' = clock_at c2) by (unfold clock_at; by rewrite Hct).
  assert (Hh' : h' = mkLatencyHandler warmup (total - 1) duration (match duration with Some _ => Some at_ | None => None end)
                       (match duration with Some _ => at_ <? s + 1 | None => false end) h1.(injection_observation) w'
                       (h.(samples) ++ (if warmup <=? s then [x] else []))).
  { unfold h'. clear h' Hc' Hct Hcl. rewrite Hh1. unfold set_samples, set_workload. cbn. destruct (warmup <=? s); [|rewrite app_nil_r]; congruence. }
  assert (Hlast : Forall (fun y => y.(smp_completion_ns) <= clock_at c2) h.(samples)).
  { eapply Forall_impl; [exact run_last0|]. intros y Hy. cbn in Hy. pose proof (clock_at_le c c2 Ht2). lia. }
  rewrite Hh'. split; cbn.
  - rewrite Hc', Hc2. by destruct (s =? total - 1).
  - lia.
  - done.
  - done.
  - done.
  - done.
  - done.
  - destruct (injection_observation h1) as [o|]; [destruct Hobs as [Hi Ho]; split; [|done] | rename Hobs into Hi]; rewrite Hh1 in Hi; exact Hi.
  - replace (tls c') with t'; [done|]. rewrite Hc', Hc2. by destruct (s =? total - 1).
  - rewrite map_app, run_sequences0. destruct (Z.leb_spec warmup s); cbn.
    + by rewrite seqZ_snoc by lia.
    + destruct (seqZ_before s) as [-> ->]; done.
  - apply Forall_app. split; [done|]. destruct (warmup <=? s); [|done]. constructor; [by split | done].
  - rewrite map_app. destruct (warmup <=? s); cbn; [|by rewrite app_nil_r].
    apply StronglySorted_app_2; [|done | repeat constructor].
    intros y z (y' & -> & Hy)%list_elem_of_fmap ->%list_elem_of_singleton. cbn. by apply (proj1 (Forall_forall _ _) Hlast).
  - rewrite Hcl. apply Forall_app. split; [done|]. destruct (warmup <=? s); [|done]. constructor; [cbn; lia | done].
  - intros Hle. rewrite Hc'. destruct (Z.eqb_spec s (total - 1)), (Z.eqb_spec (s + 1) total); try lia; cbn [processed with_processed].
    + rewrite as_u64_small by i64_lia. lia.
    + rewrite Hc2. cbn. rewrite run_processed0 by lia. destruct (Z.eqb_spec s total); [lia | done].
Qed.

(** All calls up to the last event. *)
Lemma handle_all_spec events : forall s h c,
  0 <= s -> s + Z.of_nat (length events) = total ->
  (forall i ev, events !! i = Some ev -> ev.(ev_planned_ns) = planned (s + Z.of_nat i)) ->
  running s h c ->
  exists h' c', handle_all tick h c s events = Some (h', c') /\ running total h' c'.
Proof.
  induction events as [|ev events IH]; intros s h c Hs Hlen Hev Hrun; cbn [handle_all length] in *.
  - replace total with s by lia. eauto.
  - destruct (on_event_spec s h c ev) as (h1 & c1 & -> & Hrun1); [lia | | done |].
    + rewrite (Hev 0%nat) by done. f_equal. lia.
    + apply IH; [lia | lia | | done]. intros i ev' Hi. rewrite (Hev (S i)) by done. f_equal. lia.
Qed.
End Run.

(** ** What the main thread finds in the sink *)

Section Outcome.
Context (tick : nat -> Z) (Htick : forall k, 0 <= tick k).
Context {W : Type} `{HandlerWorkload W} (warmup : Z) (I : Z -> W -> Tls -> Prop) `{!WorkloadInvariant W warmup I}.

(** The injected sequence lies in the measured part of the run. *)
Lemma inject_at_measured total pct :
  0 <= warmup < total -> 1 <= pct <= 99 -> (total - warmup) * pct <= u64_max -> total <= i64_max ->
  as_u64 (warmup + as_u64 (as_u64 (total - warmup) * pct) / 100) = warmup + (total - warmup) * pct / 100 /\
    warmup <= warmup + (total - warmup) * pct / 100 < total.
Proof.
  intros Hw Hp Hmul Ht.
  assert (Hb : 0 <= (total - warmup) * pct / 100 < total - warmup).
  { split; [apply Z.div_pos; nia|]. apply Z.div_lt_upper_bound; nia. }
  rewrite (as_u64_small (total - warmup)) by i64_lia.
  rewrite (as_u64_small ((total - warmup) * pct)) by (unfold u64_ones, u64_max in *; nia).
  rewrite as_u64_small by i64_lia. lia.
Qed.

Lemma latency_run_spec total duration pct w c pin ids cpu start events h :
  0 <= warmup < total -> total <= i64_max -> 1 <= pct <= 99 -> (total - warmup) * pct <= u64_max ->
  (forall d, duration = Some d -> 0 <= d) ->
  I 0 (fst (w_on_start w c.(tls))) (snd (w_on_start w c.(tls))) ->
  start <= c.(time) -> c.(processed) = 0 -> Z.of_nat (length events) = total ->
  latency_new warmup total duration pct w = Some h ->
  exists h' c' o, latency_run tick pin ids cpu h c start events = Some (h', c') /\
    c'.(outcome_sink) = Some o /\ c'.(processed) = total /\
    map smp_sequence o.(out_samples) = seqZ warmup (total - warmup) /\
    StronglySorted Z.le (map smp_completion_ns o.(out_samples)) /\
    Forall (sample_ok (fun s => match events !! Z.to_nat s with Some ev => ev.(ev_planned_ns) | None => 0 end)) o.(out_samples) /\
    Forall (fun x => x.(smp_completion_ns) <= u64_max) o.(out_samples) /\
    (is_some duration = is_some o.(out_injection)) /\
    (forall ob, o.(out_injection) = Some ob ->
       observation_ok duration (warmup + (total - warmup) * pct / 100)
         (fun s => match events !! Z.to_nat s with Some ev => ev.(ev_planned_ns) | None => 0 end) ob) /\
    exists w' t', o.(out_workload) = w_stats w' t' /\ I total w' t'.
Proof.
  intros Hw Ht Hp Hmul Hd HI Hstart Hproc Hlen Hnew. destruct (inject_at_measured total pct Hw Hp Hmul Ht) as [Hat Hin].
  unfold latency_new, i64_try_from in Hnew. destruct (Z.leb_spec total i64_max); [|lia].
  unfold with_capacity in Hnew. destruct (_ <=? i64_max); [|done]. injection Hnew as <-. rewrite Hat.
  unfold latency_run, latency_on_start. cbn [lh_workload]. destruct (w_on_start w (tls c)) as [w0 t0]. cbn [fst snd] in HI.
  set (planned := fun s => match events !! Z.to_nat s with Some ev => ev.(ev_planned_ns) | None => 0 end).
  set (c0 := pin_current_thread pin ids cpu (with_tls t0 c)).
  assert (Hc0 : c0.(tls) = t0 /\ c0.(time) = c.(time) /\ c0.(processed) = c.(processed)).
  { unfold c0, pin_current_thread. repeat case_match; cbn; auto. } destruct Hc0 as (Htls & Htime & Hpr).
  set (h0 := set_workload w0 _). set (c1 := mkCells _ _ _ _ _ _ _ _).
  destruct (handle_all_spec tick Htick warmup I start total duration (warmup + (total - warmup) * pct / 100) planned Hw Ht Hd
              events 0 h0 c1) as (h' & c' & -> & Hrun).
  - done.
  - lia.
  - intros i ev Hi. unfold planned. rewrite Z.add_0_l, Nat2Z.id. by rewrite Hi.
  - split; cbn; try done.
    + lia.
    + nowrap. lia.
    + destruct duration; [|done]. destruct (Z.ltb_spec (warmup + (total - warmup) * pct / 100) 0); [lia | done].
    + by rewrite Htls.
    + rewrite seqZ_nil by lia. done.
    + constructor.
    + intros _. destruct total; [lia | congruence..].
  - destruct Hrun as [?????????????]. do 3 eexists. split; [done|]. cbn.
    split_and!; try done.
    + rewrite run_processed0 by lia. by rewrite Z.eqb_refl.
    + eapply Forall_impl; [exact run_last0|]. intros x Hx. cbn in Hx. pose proof (u64_or_max_le (Z.max 0 (c'.(time) - start))). unfold clock_at in Hx. lia.
    + rewrite run_injected0 in run_observation0. destruct duration as [d|].
      * destruct (injection_observation h'); [done|]. destruct (Z.ltb_spec (warmup + (total - warmup) * pct / 100) total); [done | lia].
      * by destruct (injection_observation h') as [o|]; [destruct run_observation0|].
    + intros ob Hob. cbn in Hob. rewrite Hob in run_observation0. by destruct run_observation0.
    + eauto.
Qed.
End Outcome.
