(* ===== verification/TailArgs.v ===== *)
(** * TailArgs: the command line of src/bin/h2h_tail_latency.rs

    The option enumerations, [parse_args] with the validation of the options
    against each other, and the [Config] it gives.  Durations are nanoseconds,
    paths are strings. *)
From Stdlib Require Import Ascii.
From stdpp Require Import sorting.
From S2P Require Import Prelude Effects Errors Text CommandLine RingBuffer TailWorkload.

(** ** Defaults *)

Definition DEFAULT_EVENTS_TOTAL : Z := 1000000.
Definition DEFAULT_WARMUP_EVENTS : Z := 100000.
Definition DEFAULT_BUFFER_SIZE : Z := 65536.
Definition DEFAULT_CALIBRATION_EVENTS : Z := 100000000.
Definition DEFAULT_CALIBRATION_DURATION_MS : Z := 2000.
Definition DEFAULT_LOAD_LEVELS : list Z := [50; 70; 90].
Definition DEFAULT_TIMEOUT_SECS : Z := 300.
Definition MIN_RECORDED_SAMPLES : Z := 100000.
Definition QUICK_EVENTS_TOTAL : Z := 110000.
Definition QUICK_WARMUP_EVENTS : Z := 10000.
Definition QUICK_CALIBRATION_EVENTS : Z := 1000000.
Definition DEFAULT_INJECT_AT_MEASURED_PCT : Z := 25.

(** ** Option enumerations *)

Inductive HandlerMode : Type := AllocationFree | Allocating.
Inductive WaitKind : Type := BusySpin | Yielding.
Inductive Pad : Type := NoPad | Align128.

#[export] Instance HandlerMode_eq_dec : EqDecision HandlerMode.
Proof. solve_decision. Defined.

Definition handler_mode_parse (s : string) : result HandlerMode string :=
  if String.eqb s "allocation-free" then Ok AllocationFree else
  if String.eqb s "allocating" then Ok Allocating else Err ("unsupported handler-mode: " +:+ s).

Definition handler_mode_as_str (m : HandlerMode) : string :=
  match m with AllocationFree => "allocation-free" | Allocating => "allocating" end.

Definition wait_kind_parse (s : string) : result WaitKind string :=
  if String.eqb s "busy-spin" then Ok BusySpin else
  if String.eqb s "yielding" then Ok Yielding else Err ("unsupported wait-strategy: " +:+ s).

Definition wait_kind_as_str (w : WaitKind) : string :=
  match w with BusySpin => "busy-spin" | Yielding => "yielding" end.

Definition pad_parse (s : string) : result Pad string :=
  if String.eqb s "none" then Ok NoPad else
  if String.eqb s "128" then Ok Align128 else
  if String.eqb s "64" then Err "padding 64 removed; use none or 128" else
  Err ("unsupported event-padding: " +:+ s).

Definition pad_as_str (p : Pad) : string := match p with NoPad => "none" | Align128 => "128" end.

Definition pad_slot_padding (p : Pad) : SlotPadding := match p with NoPad => RingBuffer.PadNone | Align128 => CacheLine128 end.

(** ** Configuration *)

Record Config : Type := mkConfig {
  handler_mode : HandlerMode;
  retention_window : option Z;
  wait : WaitKind;
  pad : Pad;
  buffer_size : Z;
  events_total : Z;
  warmup_events : Z;
  rate : option Z;
  load_levels : list Z;
  calibration_events : Z;
  calibration_duration : Z;
  calibrate_only : bool;
  max_rate : option Z;
  own_max : option Z;
  cpu_list : list Z;
  output : option string;
  samples_output : option string;
  timeout : Z;
  inject_sleeps : list Z;
  inject_at_measured_pct : Z
}.

(** [Config::cpu] *)
Definition cpu (cfg : Config) (index : nat) : option Z := cfg.(cpu_list) !! index.

(** [Config::calibration_warmup_events] *)
Definition calibration_warmup_events (cfg : Config) : Z :=
  Z.max cfg.(warmup_events) (or_zero (match cfg.(retention_window) with Some w => u64_try_from w | None => None end)).

(** [Config::affinity_verified_all] *)
Definition affinity_verified_all (cfg : Config) (affinity_failed : bool) : bool :=
  negb (match cfg.(cpu_list) with [] => true | _ => false end) && negb affinity_failed.

Definition measured_window_covers_retention (recorded_samples retention_window : Z) : bool :=
  match u64_try_from retention_window with Some w => w <=? recorded_samples | None => false end.

(** [parse_percent_list] *)
Definition parse_percent_list (value : string) : result (list Z) string :=
  if String.eqb value "" then Ok [] else
  collect (fun part => match parse_uint u64_max part with
                       | Ok n => Ok n
                       | Err e => Err ("invalid load level " +:+ debug_str part +:+ ": " +:+ parse_int_error e)
                       end) (split_on "," value).

(** [parse_duration_us_list] *)
Definition parse_duration_us_list (value : string) : result (list Z) string :=
  if String.eqb value "" then Err "inject-sleep-us-by-load must not be empty" else
  collect (fun part => match parse_uint u64_max part with
                       | Err e => Err ("invalid injection duration " +:+ debug_str part +:+ ": " +:+ parse_int_error e)
                       | Ok micros => if micros =? 0 then Err "injection durations must be positive" else Ok (micros * 1000)
                       end) (split_on "," value).

(** ** The options of the command line *)

(** The local variables [parse_args] fills before it checks them. *)
Record Raw : Type := mkRaw {
  r_handler_mode : HandlerMode;
  r_retention_window : option Z;
  r_wait : WaitKind;
  r_pad : Pad;
  r_buffer_size : option Z;
  r_events_total : option Z;
  r_warmup_events : option Z;
  r_rate : option Z;
  r_load_levels : option (list Z);
  r_calibration_events : option Z;
  r_calibration_duration_ms : option Z;
  r_calibrate_only : bool;
  r_max_rate : option Z;
  r_own_max : option Z;
  r_cpu_list : list Z;
  r_output : option string;
  r_samples_output : option string;
  r_inject_sleeps : list Z;
  r_inject_at_measured_pct : Z;
  r_quick : bool
}.

Definition raw_default : Raw :=
  mkRaw AllocationFree None BusySpin NoPad None None None None None None None false None None [] None None []
    DEFAULT_INJECT_AT_MEASURED_PCT false.

(** Assignments to them. *)
Definition set_handler_mode (x : HandlerMode) (r : Raw) : Raw :=
  mkRaw x r.(r_retention_window) r.(r_wait) r.(r_pad) r.(r_buffer_size) r.(r_events_total) r.(r_warmup_events) r.(r_rate) r.(r_load_levels)
    r.(r_calibration_events) r.(r_calibration_duration_ms) r.(r_calibrate_only) r.(r_max_rate) r.(r_own_max) r.(r_cpu_list) r.(r_output)
    r.(r_samples_output) r.(r_inject_sleeps) r.(r_inject_at_measured_pct) r.(r_quick).
Definition set_retention_window (x : option Z) (r : Raw) : Raw :=
  mkRaw r.(r_handler_mode) x r.(r_wait) r.(r_pad) r.(r_buffer_size) r.(r_events_total) r.(r_warmup_events) r.(r_rate) r.(r_load_levels)
    r.(r_calibration_events) r.(r_calibration_duration_ms) r.(r_calibrate_only) r.(r_max_rate) r.(r_own_max) r.(r_cpu_list) r.(r_output)
    r.(r_samples_output) r.(r_inject_sleeps) r.(r_inject_at_measured_pct) r.(r_quick).
Definition set_wait (x : WaitKind) (r : Raw) : Raw :=
  mkRaw r.(r_handler_mode) r.(r_retention_window) x r.(r_pad) r.(r_buffer_size) r.(r_events_total) r.(r_warmup_events) r.(r_rate) r.(r_load_levels)
    r.(r_calibration_events) r.(r_calibration_duration_ms) r.(r_calibrate_only) r.(r_max_rate) r.(r_own_max) r.(r_cpu_list) r.(r_output)
    r.(r_samples_output) r.(r_inject_sleeps) r.(r_inject_at_measured_pct) r.(r_quick).
Definition set_pad (x : Pad) (r : Raw) : Raw :=
  mkRaw r.(r_handler_mode) r.(r_retention_window) r.(r_wait) x r.(r_buffer_size) r.(r_events_total) r.(r_warmup_events) r.(r_rate) r.(r_load_levels)
    r.(r_calibration_events) r.(r_calibration_duration_ms) r.(r_calibrate_only) r.(r_max_rate) r.(r_own_max) r.(r_cpu_list) r.(r_output)
    r.(r_samples_output) r.(r_inject_sleeps) r.(r_inject_at_measured_pct) r.(r_quick).
Definition set_buffer_size (x : option Z) (r : Raw) : Raw :=
  mkRaw r.(r_handler_mode) r.(r_retention_window) r.(r_wait) r.(r_pad) x r.(r_events_total) r.(r_warmup_events) r.(r_rate) r.(r_load_levels)
    r.(r_calibration_events) r.(r_calibration_duration_ms) r.(r_calibrate_only) r.(r_max_rate) r.(r_own_max) r.(r_cpu_list) r.(r_output)
    r.(r_samples_output) r.(r_inject_sleeps) r.(r_inject_at_measured_pct) r.(r_quick).
Definition set_events_total (x : option Z) (r : Raw) : Raw :=
  mkRaw r.(r_handler_mode) r.(r_retention_window) r.(r_wait) r.(r_pad) r.(r_buffer_size) x r.(r_warmup_events) r.(r_rate) r.(r_load_levels)
    r.(r_calibration_events) r.(r_calibration_duration_ms) r.(r_calibrate_only) r.(r_max_rate) r.(r_own_max) r.(r_cpu_list) r.(r_output)
    r.(r_samples_output) r.(r_inject_sleeps) r.(r_inject_at_measured_pct) r.(r_quick).
Definition set_warmup_events (x : option Z) (r : Raw) : Raw :=
  mkRaw r.(r_handler_mode) r.(r_retention_window) r.(r_wait) r.(r_pad) r.(r_buffer_size) r.(r_events_total) x r.(r_rate) r.(r_load_levels)
    r.(r_calibration_events) r.(r_calibration_duration_ms) r.(r_calibrate_only) r.(r_max_rate) r.(r_own_max) r.(r_cpu_list) r.(r_output)
    r.(r_samples_output) r.(r_inject_sleeps) r.(r_inject_at_measured_pct) r.(r_quick).
Definition set_rate (x : option Z) (r : Raw) : Raw :=
  mkRaw r.(r_handler_mode) r.(r_retention_window) r.(r_wait) r.(r_pad) r.(r_buffer_size) r.(r_events_total) r.(r_warmup_events) x r.(r_load_levels)
    r.(r_calibration_events) r.(r_calibration_duration_ms) r.(r_calibrate_only) r.(r_max_rate) r.(r_own_max) r.(r_cpu_list) r.(r_output)
    r.(r_samples_output) r.(r_inject_sleeps) r.(r_inject_at_measured_pct) r.(r_quick).
Definition set_load_levels (x : option (list Z)) (r : Raw) : Raw :=
  mkRaw r.(r_handler_mode) r.(r_retention_window) r.(r_wait) r.(r_pad) r.(r_buffer_size) r.(r_events_total) r.(r_warmup_events) r.(r_rate) x
    r.(r_calibration_events) r.(r_calibration_duration_ms) r.(r_calibrate_only) r.(r_max_rate) r.(r_own_max) r.(r_cpu_list) r.(r_output)
    r.(r_samples_output) r.(r_inject_sleeps) r.(r_inject_at_measured_pct) r.(r_quick).
Definition set_calibration_events (x : option Z) (r : Raw) : Raw :=
  mkRaw r.(r_handler_mode) r.(r_retention_window) r.(r_wait) r.(r_pad) r.(r_buffer_size) r.(r_events_total) r.(r_warmup_events) r.(r_rate)
    r.(r_load_levels) x r.(r_calibration_duration_ms) r.(r_calibrate_only) r.(r_max_rate) r.(r_own_max) r.(r_cpu_list) r.(r_output)
    r.(r_samples_output) r.(r_inject_sleeps) r.(r_inject_at_measured_pct) r.(r_quick).
Definition set_calibration_duration_ms (x : option Z) (r : Raw) : Raw :=
  mkRaw r.(r_handler_mode) r.(r_retention_window) r.(r_wait) r.(r_pad) r.(r_buffer_size) r.(r_events_total) r.(r_warmup_events) r.(r_rate)
    r.(r_load_levels) r.(r_calibration_events) x r.(r_calibrate_only) r.(r_max_rate) r.(r_own_max) r.(r_cpu_list) r.(r_output) r.(r_samples_output)
    r.(r_inject_sleeps) r.(r_inject_at_measured_pct) r.(r_quick).
Definition set_calibrate_only (x : bool) (r : Raw) : Raw :=
  mkRaw r.(r_handler_mode) r.(r_retention_window) r.(r_wait) r.(r_pad) r.(r_buffer_size) r.(r_events_total) r.(r_warmup_events) r.(r_rate)
    r.(r_load_levels) r.(r_calibration_events) r.(r_calibration_duration_ms) x r.(r_max_rate) r.(r_own_max) r.(r_cpu_list) r.(r_output)
    r.(r_samples_output) r.(r_inject_sleeps) r.(r_inject_at_measured_pct) r.(r_quick).
Definition set_max_rate (x : option Z) (r : Raw) : Raw :=
  mkRaw r.(r_handler_mode) r.(r_retention_window) r.(r_wait) r.(r_pad) r.(r_buffer_size) r.(r_events_total) r.(r_warmup_events) r.(r_rate)
    r.(r_load_levels) r.(r_calibration_events) r.(r_calibration_duration_ms) r.(r_calibrate_only) x r.(r_own_max) r.(r_cpu_list) r.(r_output)
    r.(r_samples_output) r.(r_inject_sleeps) r.(r_inject_at_measured_pct) r.(r_quick).
Definition set_own_max (x : option Z) (r : Raw) : Raw :=
  mkRaw r.(r_handler_mode) r.(r_retention_window) r.(r_wait) r.(r_pad) r.(r_buffer_size) r.(r_events_total) r.(r_warmup_events) r.(r_rate)
    r.(r_load_levels) r.(r_calibration_events) r.(r_calibration_duration_ms) r.(r_calibrate_only) r.(r_max_rate) x r.(r_cpu_list) r.(r_output)
    r.(r_samples_output) r.(r_inject_sleeps) r.(r_inject_at_measured_pct) r.(r_quick).
Definition set_cpu_list (x : list Z) (r : Raw) : Raw :=
  mkRaw r.(r_handler_mode) r.(r_retention_window) r.(r_wait) r.(r_pad) r.(r_buffer_size) r.(r_events_total) r.(r_warmup_events) r.(r_rate)
    r.(r_load_levels) r.(r_calibration_events) r.(r_calibration_duration_ms) r.(r_calibrate_only) r.(r_max_rate) r.(r_own_max) x r.(r_output)
    r.(r_samples_output) r.(r_inject_sleeps) r.(r_inject_at_measured_pct) r.(r_quick).
Definition set_output (x : option string) (r : Raw) : Raw :=
  mkRaw r.(r_handler_mode) r.(r_retention_window) r.(r_wait) r.(r_pad) r.(r_buffer_size) r.(r_events_total) r.(r_warmup_events) r.(r_rate)
    r.(r_load_levels) r.(r_calibration_events) r.(r_calibration_duration_ms) r.(r_calibrate_only) r.(r_max_rate) r.(r_own_max) r.(r_cpu_list) x
    r.(r_samples_output) r.(r_inject_sleeps) r.(r_inject_at_measured_pct) r.(r_quick).
Definition set_samples_output (x : option string) (r : Raw) : Raw :=
  mkRaw r.(r_handler_mode) r.(r_retention_window) r.(r_wait) r.(r_pad) r.(r_buffer_size) r.(r_events_total) r.(r_warmup_events) r.(r_rate)
    r.(r_load_levels) r.(r_calibration_events) r.(r_calibration_duration_ms) r.(r_calibrate_only) r.(r_max_rate) r.(r_own_max) r.(r_cpu_list)
    r.(r_output) x r.(r_inject_sleeps) r.(r_inject_at_measured_pct) r.(r_quick).
Definition set_inject_sleeps (x : list Z) (r : Raw) : Raw :=
  mkRaw r.(r_handler_mode) r.(r_retention_window) r.(r_wait) r.(r_pad) r.(r_buffer_size) r.(r_events_total) r.(r_warmup_events) r.(r_rate)
    r.(r_load_levels) r.(r_calibration_events) r.(r_calibration_duration_ms) r.(r_calibrate_only) r.(r_max_rate) r.(r_own_max) r.(r_cpu_list)
    r.(r_output) r.(r_samples_output) x r.(r_inject_at_measured_pct) r.(r_quick).
Definition set_inject_at_measured_pct (x : Z) (r : Raw) : Raw :=
  mkRaw r.(r_handler_mode) r.(r_retention_window) r.(r_wait) r.(r_pad) r.(r_buffer_size) r.(r_events_total) r.(r_warmup_events) r.(r_rate)
    r.(r_load_levels) r.(r_calibration_events) r.(r_calibration_duration_ms) r.(r_calibrate_only) r.(r_max_rate) r.(r_own_max) r.(r_cpu_list)
    r.(r_output) r.(r_samples_output) r.(r_inject_sleeps) x r.(r_quick).
Definition set_quick (x : bool) (r : Raw) : Raw :=
  mkRaw r.(r_handler_mode) r.(r_retention_window) r.(r_wait) r.(r_pad) r.(r_buffer_size) r.(r_events_total) r.(r_warmup_events) r.(r_rate)
    r.(r_load_levels) r.(r_calibration_events) r.(r_calibration_duration_ms) r.(r_calibrate_only) r.(r_max_rate) r.(r_own_max) r.(r_cpu_list)
    r.(r_output) r.(r_samples_output) r.(r_inject_sleeps) r.(r_inject_at_measured_pct) x.

Definition flag_of (a : string) : Flag Raw :=
  if String.eqb a "--handler-mode" then Value "missing --handler-mode value" (assign handler_mode_parse set_handler_mode) else
  if String.eqb a "--retention-window" then Value "missing --retention-window" (assign (grouped "retention-window") set_retention_window) else
  if String.eqb a "--wait-strategy" then Value "missing --wait-strategy value" (assign wait_kind_parse set_wait) else
  if String.eqb a "--event-padding" then Value "missing --event-padding value" (assign pad_parse set_pad) else
  if String.eqb a "--buffer-size" then Value "missing --buffer-size" (assign (plain "buffer-size") set_buffer_size) else
  if String.eqb a "--events-total" then Value "missing --events-total" (assign (grouped "events-total") set_events_total) else
  if String.eqb a "--warmup-events" then Value "missing --warmup-events" (assign (grouped "warmup-events") set_warmup_events) else
  if String.eqb a "--rate" then Value "missing --rate" (assign (grouped "rate") set_rate) else
  if String.eqb a "--load-levels" then Value "missing --load-levels value"
    (assign (fun v => match parse_percent_list v with Ok l => Ok (Some l) | Err e => Err e end) set_load_levels) else
  if String.eqb a "--calibration-events" then Value "missing --calibration-events" (assign (grouped "calibration-events") set_calibration_events) else
  if String.eqb a "--calibration-duration-ms" then
    Value "missing --calibration-duration-ms" (assign (plain "calibration-duration-ms") set_calibration_duration_ms) else
  if String.eqb a "--calibrate-only" then Switch (set_calibrate_only true) else
  if String.eqb a "--max-rate" then Value "missing --max-rate" (assign (grouped "max-rate") set_max_rate) else
  if String.eqb a "--own-max" then Value "missing --own-max" (assign (grouped "own-max") set_own_max) else
  if String.eqb a "--cpu-list" then Value "missing --cpu-list" (assign parse_cpu_list set_cpu_list) else
  if String.eqb a "--output" then Value "missing --output" (assign (fun v => Ok (Some v)) set_output) else
  if String.eqb a "--samples-output" then Value "missing --samples-output" (assign (fun v => Ok (Some v)) set_samples_output) else
  if String.eqb a "--inject-sleep-us-by-load" then Value "missing --inject-sleep-us-by-load" (assign parse_duration_us_list set_inject_sleeps) else
  if String.eqb a "--inject-at-measured-pct" then
    Value "missing --inject-at-measured-pct" (assign (number "inject-at-measured-pct") set_inject_at_measured_pct) else
  if String.eqb a "--quick" then Switch (set_quick true) else
  if String.eqb a "--help" || String.eqb a "-h" then HelpFlag else Unknown.

(** [levels.iter().find(|lvl| ..)] of the level check. *)
Definition bad_level (levels : option (list Z)) : option Z :=
  match levels with None => None | Some l => List.find (fun lvl => (lvl =? 0) || (100 <? lvl)) l end.

(** The end of [parse_args]: defaults, the smaller numbers of [--quick], and
    the checks. *)
Definition finish_args (r : Raw) : result Config string :=
  let events_total := or_default DEFAULT_EVENTS_TOTAL r.(r_events_total) in
  let warmup_events := or_default DEFAULT_WARMUP_EVENTS r.(r_warmup_events) in
  let calibration_events := or_default DEFAULT_CALIBRATION_EVENTS r.(r_calibration_events) in
  let calibration_duration_ms := or_default DEFAULT_CALIBRATION_DURATION_MS r.(r_calibration_duration_ms) in
  let quick := r.(r_quick) in
  let events_total := if quick then Z.min events_total QUICK_EVENTS_TOTAL else events_total in
  let warmup_events := if quick then Z.min warmup_events QUICK_WARMUP_EVENTS else warmup_events in
  let calibration_events := if quick then Z.min calibration_events QUICK_CALIBRATION_EVENTS else calibration_events in
  let buffer_size := or_default DEFAULT_BUFFER_SIZE r.(r_buffer_size) in
  let measuring := negb r.(r_calibrate_only) in
  let recorded_samples := sat_sub_u64 events_total warmup_events in
  let calibration_warmup := Z.max warmup_events (or_zero (match r.(r_retention_window) with Some w => u64_try_from w | None => None end)) in
  let load_levels := match r.(r_load_levels) with Some l => l | None => DEFAULT_LOAD_LEVELS end in
  let expected_inject_sleeps := if is_some r.(r_rate) then 1%nat else length load_levels in
  match first_error [
    (events_total =? 0, "events-total must be > 0");
    (i64_max <? events_total, "events-total must fit i64");
    (negb (is_power_of_two buffer_size) || (buffer_size =? 0), "buffer-size must be power of two, got " +:+ show_uint buffer_size);
    (measuring && (events_total <=? warmup_events), "warmup-events must be < events-total");
    (measuring && (recorded_samples <? MIN_RECORDED_SAMPLES),
      "events-total - warmup-events must be at least " +:+ show_uint MIN_RECORDED_SAMPLES +:+ " for p99.99, got " +:+ show_uint recorded_samples);
    (measuring && (usize_max <? recorded_samples), "recorded sample count must fit usize");
    (calibration_duration_ms =? 0, "calibration-duration-ms must be > 0");
    (calibration_events =? 0, "calibration-events must be > 0");
    (i64_max <? calibration_events, "calibration-events must fit i64");
    (negb ((1 <=? r.(r_inject_at_measured_pct)) && (r.(r_inject_at_measured_pct) <=? 99)), "inject-at-measured-pct must be in 1..=99");
    (is_zero r.(r_rate), "rate must be > 0");
    (is_zero r.(r_max_rate), "max-rate must be > 0");
    (is_zero r.(r_own_max), "own-max must be > 0");
    (is_some (bad_level r.(r_load_levels)),
      "load level must be in 1..=100, got " +:+ show_uint (or_zero (bad_level r.(r_load_levels))));
    (negb (is_empty r.(r_cpu_list)) && (length r.(r_cpu_list) <? 2)%nat,
      "tail-latency harness needs at least 2 CPUs for producer/consumer isolation");
    (match r.(r_handler_mode), r.(r_retention_window) with AllocationFree, Some _ => true | _, _ => false end,
      "retention-window is valid only with handler-mode=allocating");
    (match r.(r_handler_mode), r.(r_retention_window) with Allocating, None => true | Allocating, Some w => w =? 0 | _, _ => false end,
      "handler-mode=allocating requires retention-window > 0");
    (match r.(r_handler_mode), r.(r_retention_window) with
     | Allocating, Some w => measuring && negb (measured_window_covers_retention recorded_samples w)
     | _, _ => false
     end, "measured events must reach the full allocating retention-window");
    ((u64_max <? calibration_warmup + calibration_events) || (i64_max <? calibration_warmup + calibration_events),
      "calibration warmup + events must fit i64");
    (measuring && is_none r.(r_rate) && is_empty load_levels, "load-levels must contain at least one percentage");
    (measuring && is_none r.(r_samples_output), "required: --samples-output");
    (r.(r_calibrate_only) && (is_some r.(r_rate) || is_some r.(r_max_rate) || is_some r.(r_own_max) ||
       negb (is_empty r.(r_inject_sleeps)) || is_some r.(r_samples_output)),
      "calibrate-only rejects measurement-only rate/max/own-max/injection/sample flags");
    (negb (is_empty r.(r_inject_sleeps)) && negb (length r.(r_inject_sleeps) =? expected_inject_sleeps)%nat,
      "inject-sleep-us-by-load must contain " +:+ show_uint (Z.of_nat expected_inject_sleeps) +:+ " values")
  ] with
  | Some e => Err e
  | None =>
      Ok (mkConfig r.(r_handler_mode) r.(r_retention_window) r.(r_wait) r.(r_pad) buffer_size events_total warmup_events r.(r_rate)
            load_levels calibration_events (calibration_duration_ms * 1000000) r.(r_calibrate_only) r.(r_max_rate) r.(r_own_max)
            r.(r_cpu_list) r.(r_output) r.(r_samples_output) (DEFAULT_TIMEOUT_SECS * 1000000000) r.(r_inject_sleeps)
            r.(r_inject_at_measured_pct))
  end.

(** [parse_args], of the words after the program's name. *)
Definition parse_args (args : list string) : parsed Config :=
  match parse_loop flag_of args raw_default with
  | HelpExit => HelpExit
  | Parsed (Err e) => Parsed (Err e)
  | Parsed (Ok r) => Parsed (finish_args r)
  end.

Example parse_args_measurement :
  parse_args ["--rate"; "1_000"; "--samples-output"; "s.csv"; "--cpu-list"; "2,3"; "--events-total"; "300_000"] =
  Parsed (Ok (mkConfig AllocationFree None BusySpin NoPad 65536 300000 100000 (Some 1000) [50; 70; 90] 100000000 2000000000 false None None
                [2; 3] None (Some "s.csv") 300000000000 [] 25)).
Proof. vm_compute. done. Qed.

Example parse_args_errors :
  parse_args ["--rate"] = Parsed (Err "missing --rate") /\
  parse_args ["--rate"; "0"; "--samples-output"; "s"] = Parsed (Err "rate must be > 0") /\
  parse_args ["--help"; "--rate"] = HelpExit /\
  parse_args ["--events-total"; "1e6"] = Parsed (Err "events-total: invalid digit found in string") /\
  parse_args [] = Parsed (Err "required: --samples-output").
Proof. vm_compute. done. Qed.
