(* ===== verification/TailArgsSpec.v ===== *)
(** * TailArgsSpec: what a command line that [TailArgs.parse_args] accepts
    guarantees, and that the lists of the command line can be written and read
    back. *)
From Stdlib Require Import Ascii.
From stdpp Require Import sorting.
From S2P Require Import Prelude Effects Errors Text CommandLine TailWorkload TailArgs.

(** ** What has been parsed *)

Record raw_ok (r : Raw) : Prop := mkRawOk {
  ok_window : opt_u64 r.(r_retention_window);
  ok_buffer : opt_u64 r.(r_buffer_size);
  ok_events : opt_u64 r.(r_events_total);
  ok_warmup : opt_u64 r.(r_warmup_events);
  ok_rate : opt_u64 r.(r_rate);
  ok_levels : forall l, r.(r_load_levels) = Some l -> Forall in_u64 l;
  ok_cal : opt_u64 r.(r_calibration_events);
  ok_cal_ms : opt_u64 r.(r_calibration_duration_ms);
  ok_max : opt_u64 r.(r_max_rate);
  ok_own : opt_u64 r.(r_own_max);
  ok_cpus : NoDup r.(r_cpu_list);
  ok_sleeps : Forall (fun d => 0 < d) r.(r_inject_sleeps)
}.

Lemma percents_ok v l : parse_percent_list v = Ok l -> Forall in_u64 l.
Proof.
  unfold parse_percent_list. destruct (String.eqb v ""); [intros [= <-]; constructor|]. intros Hc%collect_ok.
  induction Hc as [|p n ps ns Hp _ IH]; constructor; [|done].
  destruct (parse_uint u64_max p) as [m|] eqn:Hm; [|done]. injection Hp as <-. eapply parse_uint_range; [|done]. by vm_compute.
Qed.

Lemma durations_ok v l : parse_duration_us_list v = Ok l -> Forall (fun d => 0 < d) l.
Proof.
  unfold parse_duration_us_list. destruct (String.eqb v ""); [done|]. intros Hc%collect_ok.
  induction Hc as [|p n ps ns Hp _ IH]; constructor; [|done].
  destruct (parse_uint u64_max p) as [m|] eqn:Hm; [|done]. destruct (Z.eqb_spec m 0); [done|]. injection Hp as <-.
  pose proof (parse_uint_range u64_max p m ltac:(by vm_compute) Hm). lia.
Qed.

Ltac arm := intros ? ? ? []; split; cbn in *; eauto; naive_solver.

Lemma flags_ok a : arm_ok raw_ok (flag_of a).
Proof.
  unfold flag_of.
  repeat match goal with |- arm_ok _ (if ?b then _ else _) => destruct b end; cbn [orb]; try exact I.
  all: try (intros ? []; split; cbn; done).
  all: lazymatch goal with
       | |- context [grouped] => apply (assign_ok _ _ _ opt_u64); [apply grouped_ok | arm]
       | |- context [plain] => apply (assign_ok _ _ _ opt_u64); [apply plain_ok | arm]
       | |- context [parse_cpu_list] => apply (assign_ok _ _ _ NoDup); [intros v l Hl; by apply (parse_cpu_list_ok v) | arm]
       | |- context [parse_duration_us_list] => apply (assign_ok _ _ _ (Forall (fun d => 0 < d))); [apply durations_ok | arm]
       | |- context [parse_percent_list] =>
           apply (assign_ok _ _ _ (fun o => forall l, o = Some l -> Forall in_u64 l));
             [intros v o; destruct (parse_percent_list v) eqn:Hv; [|done]; intros [= <-] l' [= <-]; by apply (percents_ok v) | arm]
       | |- _ => apply (assign_ok _ _ _ (fun _ => True)); [done | arm]
       end.
Qed.

Lemma raw_default_ok : raw_ok raw_default.
Proof. split; cbn; try done; constructor. Qed.

(** ** What an accepted command line guarantees *)

Record config_valid (cfg : Config) : Prop := mkConfigValid {
  valid_events : 0 < cfg.(events_total) <= i64_max;
  valid_warmup : 0 <= cfg.(warmup_events);
  valid_buffer : is_power_of_two cfg.(buffer_size) = true;
  valid_recorded : cfg.(calibrate_only) = false -> MIN_RECORDED_SAMPLES <= cfg.(events_total) - cfg.(warmup_events);
  valid_calibration : 0 < cfg.(calibration_events) /\ 0 < cfg.(calibration_duration) /\
    calibration_warmup_events cfg + cfg.(calibration_events) <= i64_max;
  valid_pct : 1 <= cfg.(inject_at_measured_pct) <= 99;
  valid_rates : forall n, cfg.(rate) = Some n \/ cfg.(max_rate) = Some n \/ cfg.(own_max) = Some n -> 0 < n <= u64_max;
  valid_levels : Forall (fun lvl => 1 <= lvl <= 100) cfg.(load_levels);
  valid_cpus : NoDup cfg.(cpu_list) /\ (cfg.(cpu_list) = [] \/ (2 <= length cfg.(cpu_list))%nat);
  valid_window : match cfg.(handler_mode), cfg.(retention_window) with
                 | AllocationFree, None => True
                 | Allocating, Some w =>
                     0 < w <= u64_max /\ (cfg.(calibrate_only) = false -> w <= cfg.(events_total) - cfg.(warmup_events))
                 | _, _ => False
                 end;
  valid_output : cfg.(calibrate_only) = false <-> is_some cfg.(samples_output) = true;
  valid_targets : cfg.(calibrate_only) = false -> cfg.(rate) = None -> cfg.(load_levels) <> [];
  valid_sleeps : Forall (fun d => 0 < d) cfg.(inject_sleeps) /\
    (cfg.(inject_sleeps) = [] \/
     length cfg.(inject_sleeps) = match cfg.(rate) with Some _ => 1%nat | None => length cfg.(load_levels) end)
}.

Lemma find_none_forall {A} (f : A -> bool) l : List.find f l = None -> Forall (fun x => f x = false) l.
Proof. intros H. apply Forall_forall. intros x Hx. eapply List.find_none; [done|]. by apply list_elem_of_In. Qed.

Lemma or_default_ok d o : 0 <= d -> opt_u64 o -> 0 <= or_default d o.
Proof. destruct o; cbn; [unfold in_u64; lia | done]. Qed.

Lemma quick_ok (quick : bool) d q o : 0 <= d -> 0 <= q -> opt_u64 o -> 0 <= if quick then Z.min (or_default d o) q else or_default d o.
Proof. intros Hd Hq Ho. pose proof (or_default_ok d o Hd Ho). destruct quick; lia. Qed.

Lemma is_zero_ok o n : opt_u64 o -> is_zero o = false -> o = Some n -> 0 < n <= u64_max.
Proof. intros Ho Hz ->. cbn in *. apply Z.eqb_neq in Hz. unfold in_u64 in Ho. lia. Qed.

Lemma levels_ok o : (forall l, o = Some l -> Forall in_u64 l) -> is_some (bad_level o) = false ->
  Forall (fun lvl => 1 <= lvl <= 100) (match o with Some l => l | None => DEFAULT_LOAD_LEVELS end).
Proof.
  intros Hl. destruct o as [l|]; cbn; [|by repeat constructor]. specialize (Hl l eq_refl).
  destruct (List.find _ l) eqn:Hf; [done|]. intros _. apply find_none_forall in Hf.
  rewrite Forall_forall in *. intros x Hx. specialize (Hf x Hx). specialize (Hl x Hx). unfold in_u64 in Hl.
  apply orb_false_iff in Hf as [?%Z.eqb_neq ?%Z.ltb_ge]. lia.
Qed.

Lemma window_u64 w : in_u64 w -> u64_try_from w = Some w.
Proof.
  intros [H0 H1]. unfold u64_try_from. apply Z.leb_le in H0, H1. by rewrite H0, H1.
Qed.

(** Conjunctions, disjunctions and comparisons out of booleans. *)
Ltac decode H :=
  repeat first [rewrite orb_false_iff in H | rewrite andb_false_iff in H | rewrite negb_false_iff in H | rewrite andb_true_iff in H
               | rewrite Z.eqb_neq in H | rewrite Z.ltb_ge in H | rewrite Z.leb_gt in H | rewrite Z.leb_le in H].

Lemma finish_args_valid r cfg : raw_ok r -> finish_args r = Ok cfg -> config_valid cfg.
Proof.
  intros [] Hf. unfold finish_args in Hf. cbv zeta in Hf.
  destruct (first_error _) as [e|] eqn:Hc; [done|]. injection Hf as <-. apply first_error_none in Hc.
  repeat match goal with H : Forall _ (_ :: _) |- _ => let H1 := fresh "C" in apply Forall_cons in H as [H1 H]; cbn [fst] in H1 end.
  clear Hc. set (ev := if r_quick r then Z.min (or_default _ (r_events_total r)) _ else _) in *.
  set (wu := if r_quick r then Z.min (or_default _ (r_warmup_events r)) _ else _) in *.
  set (cal := if r_quick r then Z.min (or_default _ (r_calibration_events r)) _ else _) in *.
  assert (Hev : 0 <= ev) by by apply quick_ok.
  assert (Hwu : 0 <= wu) by by apply quick_ok.
  assert (Hcal : 0 <= cal) by by apply quick_ok.
  pose proof (or_default_ok DEFAULT_CALIBRATION_DURATION_MS _ ltac:(done) ok_cal_ms0) as Hms.
  clearbody ev wu cal. decode C. decode C0. decode C1. decode C5. decode C6. decode C8. decode C17.
  assert (Hmeasured : r_calibrate_only r = false -> MIN_RECORDED_SAMPLES <= ev - wu).
  { intros Hm. rewrite Hm in C3. cbn [negb andb] in C3. decode C3. unfold sat_sub_u64, MIN_RECORDED_SAMPLES in *. lia. }
  split; cbn.
  - lia.
  - done.
  - by destruct C1.
  - done.
  - unfold calibration_warmup_events. cbn. lia.
  - lia.
  - intros n [Hn|[Hn|Hn]]; revert Hn; by apply is_zero_ok.
  - by apply levels_ok.
  - split; [done|]. destruct (r_cpu_list r) as [|x [|y l]]; [by left | done | right; cbn; lia].
  - destruct (r_handler_mode r), (r_retention_window r) as [w|]; try done. cbn in ok_window0. decode C15.
    split; [unfold in_u64 in *; lia|]. intros Hm. rewrite Hm in C16. unfold measured_window_covers_retention in C16.
    rewrite window_u64 in C16 by done. cbn [negb andb] in C16. decode C16.
    specialize (Hmeasured Hm). unfold sat_sub_u64, MIN_RECORDED_SAMPLES in *. lia.
  - destruct (r_calibrate_only r), (r_samples_output r); cbn in *; try done. by rewrite !orb_true_r in C20.
  - intros Hm Hr Hl. by rewrite Hm, Hr, Hl in C18.
  - split; [done|]. destruct (r_inject_sleeps r) as [|d l]; [by left|]. right. cbn [is_empty negb andb] in C21.
    apply negb_false_iff, Nat.eqb_eq in C21. by destruct (r_rate r).
Qed.

Lemma parse_args_ok args cfg : parse_args args = Parsed (Ok cfg) -> config_valid cfg.
Proof.
  unfold parse_args. destruct (parse_loop flag_of args raw_default) as [|[r|e]] eqn:Hl; [done | | done]. intros [= Hf].
  eapply finish_args_valid; [|done]. eapply parse_loop_ok; [apply flags_ok | apply raw_default_ok | done].
Qed.

(** C29: A command line that is accepted gives a configuration that satisfies
    each condition of [config_valid] (positive counts within [i64], a
    power-of-two ring, enough recorded samples, percentages, rates, CPU list,
    retention window and outputs consistent with the mode), and whose option
    names are read back as they are printed.  It does not bound the products
    and the allocation computed from the counts later. *)
Theorem parse_args_valid args cfg :
  parse_args args = Parsed (Ok cfg) ->
  config_valid cfg /\ handler_mode_parse (handler_mode_as_str cfg.(handler_mode)) = Ok cfg.(handler_mode) /\
  wait_kind_parse (wait_kind_as_str cfg.(wait)) = Ok cfg.(wait) /\ pad_parse (pad_as_str cfg.(pad)) = Ok cfg.(pad).
Proof.
  intros H. split; [by eapply parse_args_ok|]. split; [by destruct (handler_mode cfg)|]. split; [by destruct (wait cfg) | by destruct (pad cfg)].
Qed.

(** A list of distinct CPU numbers is read back as written; one with a
    repetition is refused, whatever is accepted has none. *)
Theorem parse_cpu_list_roundtrip cpus :
  Forall (fun n => 0 <= n <= usize_max) cpus ->
  parse_cpu_list (join_commas (map show_uint cpus)) =
    (if bool_decide (NoDup cpus) then Ok cpus else Err "cpu-list must contain unique CPU IDs") /\
  (forall s l, parse_cpu_list s = Ok l -> NoDup l /\ Forall (fun n => 0 <= n <= usize_max) l).
Proof.
  intros Hr. split; [|intros s l; apply parse_cpu_list_ok]. case_bool_decide; [by apply parse_cpu_list_written | by apply parse_cpu_list_duplicates].
Qed.
