(* ===== verification/TailReport.v ===== *)
(** * TailReport: the main thread of src/bin/h2h_tail_latency.rs

    The schedule, the run of one load level up to its assessment, the
    statistics, the gate on an injected pause, provenance, and what [main]
    makes of the runs.  Time is in nanoseconds; what the operating system and
    the pipeline answer is an argument.  [None] is a panic. *)
From Stdlib Require Import Ascii.
From stdpp Require Import sorting.
From S2P Require Import Prelude Effects Errors Text Float64 CommandLine TailWorkload TailArgs.

Definition NANOS : Z := 1000000000.
Definition u128_max : Z := 2 ^ 128 - 1.
Definition sat_mul_u128 (a b : Z) : Z := Z.min (a * b) u128_max.
Definition sat_add_u128 (a b : Z) : Z := Z.min (a + b) u128_max.
Definition div_ceil (a b : Z) : Z := (a + b - 1) / b.

(** [value.checked_div(d).and_then(|v| u64::try_from(v).ok()).unwrap_or(u64::MAX).max(1)] *)
Definition div_to_count (value d : Z) : Z := Z.max (if d =? 0 then u64_max else u64_or_max (value / d)) 1.

(** ** Waiting and the schedule *)

(** [wait_count]: [counter] and [elapsed] are what the loads and the clock
    give from one iteration to the next. *)
Fixpoint wait_count (fuel : nat) (counter elapsed : nat -> Z) (target timeout : Z) (k : nat) : option bool :=
  match fuel with
  | O => None
  | S fuel =>
      if counter k <? target then if timeout <? elapsed k then Some false else wait_count fuel counter elapsed target timeout (S k)
      else Some true
  end.

(** [scheduled_ns]: when an event is due; a rate of zero divides by zero. *)
Definition scheduled_ns (sequence rate : Z) : option (result Z string) :=
  if u128_max <? sequence * NANOS then Some (Err "planned send timestamp overflow") else
  if rate =? 0 then None else
  let nanos := sequence * NANOS / rate in
  match u64_try_from nanos with
  | Some n => Some (Ok n)
  | None => Some (Err "planned send timestamp does not fit u64")
  end.

(** The schedule rate of a calibration. *)
Definition calibration_schedule_rate (cfg : Config) : Z :=
  Z.max (u64_or_max (div_ceil (sat_mul_u128 cfg.(calibration_events) NANOS) cfg.(calibration_duration))) 1.

Definition VALID_RUN_THRESHOLD : f64 := f64_95_percent.

Definition rate_is_valid (actual_rate : f64) (target_rate : Z) : bool := f64_le (f64_mul (of_Z target_rate) VALID_RUN_THRESHOLD) actual_rate.

(** ** The clock anchor *)

Record ClockAnchor : Type := mkClockAnchor { monotonic : Z; wall_unix_ns : Z; uncertainty_ns : Z }.

(** [ClockAnchor::capture]: the monotonic readings around the wall clock's. *)
Definition capture (before : Z) (wall : result Z string) (after : Z) : result ClockAnchor string :=
  match wall with
  | Err error => Err ("system clock predates Unix epoch: " +:+ error)
  | Ok wall =>
      let span := Z.max 0 (after - before) in
      match u64_try_from wall with
      | None => Err "wall-clock timestamp does not fit u64 nanoseconds"
      | Some w => Ok (mkClockAnchor (before + span / 2) w (u64_or_max (div_ceil span 2)))
      end
  end.

(** [ClockAnchor::project_unix_ns] *)
Definition project_unix_ns (a : ClockAnchor) (target : Z) : result Z string :=
  if target <? a.(monotonic) then Err "measurement epoch predates clock anchor" else
  match u64_try_from (target - a.(monotonic)) with
  | None => Err "clock-anchor delta does not fit u64 nanoseconds"
  | Some d => if u64_max <? a.(wall_unix_ns) + d then Err "measurement epoch Unix timestamp overflow" else Ok (a.(wall_unix_ns) + d)
  end.

(** ** Statistics *)

Record LatencyStats : Type := mkLatencyStats {
  p50 : f64; p99 : f64; p99_9 : f64; p99_99 : f64; max : f64; mean : f64; min : f64; count : Z
}.

(** The index [percentile_basis_points] reads. *)
Definition percentile_index (len basis_points : Z) : Z :=
  let rank := div_ceil (len * basis_points) 10000 in
  Z.min (Z.min (Z.max 0 (rank - 1)) usize_max) (len - 1).

Definition percentile_basis_points (sorted : list Z) (basis_points : Z) : option f64 :=
  match sorted with
  | [] => Some f64_zero
  | _ =>
      if (1 <=? basis_points) && (basis_points <=? 10000)
      then of_Z <$> sorted !! Z.to_nat (percentile_index (Z.of_nat (length sorted)) basis_points)
      else None
  end.

Definition as_u128 (z : Z) : Z := z mod 2 ^ 128.

(** [compute_stats] *)
Definition compute_stats (samples : list LatencySample) : option LatencyStats :=
  let latencies := merge_sort Z.le (map smp_latency_ns samples) in
  let count := Z.of_nat (length latencies) in
  if count =? 0 then Some (mkLatencyStats f64_zero f64_zero f64_zero f64_zero f64_zero f64_zero f64_zero 0) else
  let sum := fold_left (fun a b => as_u128 (a + b)) latencies 0 in
  match percentile_basis_points latencies 5000, percentile_basis_points latencies 9900,
        percentile_basis_points latencies 9990, percentile_basis_points latencies 9999,
        latencies !! Z.to_nat (count - 1), latencies !! 0%nat with
  | Some q50, Some q99, Some q99_9, Some q99_99, Some last, Some first =>
      Some (mkLatencyStats q50 q99 q99_9 q99_99 (of_Z last) (f64_div (of_Z sum) (of_Z count)) (of_Z first) count)
  | _, _, _, _, _, _ => None
  end.

(** ** The pause gate *)

Record PauseCheck : Type := mkPauseCheck {
  requested_sleep_ns : Z;
  observed_sleep_ns : Z;
  injection_sequence : Z;
  injection_planned_ns : Z;
  pause_started_ns : Z;
  pause_completed_ns : Z;
  expected_backlog_samples : Z;
  expected_affected_samples : Z;
  minimum_affected_samples : Z;
  maximum_affected_samples : Z;
  sample_count : Z;
  load_fraction : f64;
  minimum_drain_ns : Z;
  remaining_planned_ns_after_pause : Z;
  observed_p99_9_ns : f64;
  observed_max_ns : f64
}.

Definition affected_in_range (p : PauseCheck) : bool :=
  (p.(minimum_affected_samples) <=? p.(expected_affected_samples)) && (p.(expected_affected_samples) <=? p.(maximum_affected_samples)).

Definition p99_9_visible (p : PauseCheck) : bool :=
  affected_in_range p && f64_le (f64_mul (of_Z p.(observed_sleep_ns)) f64_half) p.(observed_p99_9_ns).

Definition max_visible (p : PauseCheck) : bool := f64_le (f64_mul (of_Z p.(observed_sleep_ns)) f64_four_fifths) p.(observed_max_ns).

Definition drain_allowance_met (p : PauseCheck) : bool := p.(minimum_drain_ns) <=? p.(remaining_planned_ns_after_pause).

Definition double_drain_allowance_met (p : PauseCheck) : bool :=
  sat_mul_u64 p.(minimum_drain_ns) 2 <=? p.(remaining_planned_ns_after_pause).

(** [PauseCheck::is_valid] *)
Definition pause_is_valid (p : PauseCheck) : bool :=
  affected_in_range p && drain_allowance_met p && p99_9_visible p && max_visible p.

(** [validate_injected_pause] *)
Definition validate_injected_pause (sleep target_rate : Z) (common_max : f64) (stats : LatencyStats)
    (observation : InjectionObservation) (last_planned_ns : Z) : result PauseCheck string :=
  let requested_sleep_ns := u64_or_max sleep in
  let observed_sleep_ns := sat_sub_u64 observation.(obs_completed_ns) observation.(obs_started_ns) in
  if observed_sleep_ns =? 0 then Err "observed injected pause duration was zero" else
  if negb (is_finite common_max) || f64_le common_max f64_zero then Err "common max must be finite and positive" else
  let common_max_u64 := floor_as_u64 common_max in
  if common_max_u64 <=? target_rate then Err "target rate must remain below common max" else
  let backlog_numerator := sat_mul_u128 target_rate observed_sleep_ns in
  let expected_backlog_samples := div_to_count (sat_add_u128 backlog_numerator 999999999) NANOS in
  let affected_numerator := sat_mul_u128 backlog_numerator common_max_u64 in
  let affected_denominator := sat_mul_u128 NANOS (common_max_u64 - target_rate) in
  let expected_affected_samples :=
    div_to_count (sat_add_u128 affected_numerator (Z.max 0 (affected_denominator - 1))) affected_denominator in
  let sample_count := u64_or_max stats.(count) in
  let minimum_affected_samples := sat_add_u64 sample_count 999 / 1000 in
  let maximum_affected_samples := sample_count / 10 in
  let drain_numerator := sat_mul_u128 observed_sleep_ns target_rate in
  let minimum_drain_ns := u64_or_max (div_ceil drain_numerator (common_max_u64 - target_rate)) in
  Ok (mkPauseCheck requested_sleep_ns observed_sleep_ns observation.(obs_sequence) observation.(obs_planned_ns)
        observation.(obs_started_ns) observation.(obs_completed_ns) expected_backlog_samples expected_affected_samples
        minimum_affected_samples maximum_affected_samples stats.(count) (f64_div (of_Z target_rate) common_max)
        minimum_drain_ns (sat_sub_u64 last_planned_ns observation.(obs_completed_ns)) stats.(p99_9) stats.(max)).

(** ** Calibration *)

(** The warm-up publications. *)
Fixpoint calibration_warmup (n : nat) (publish : Z -> option string) (schedule_rate sequence : Z) : option (result unit string) :=
  match n with
  | O => Some (Ok tt)
  | S n =>
      match scheduled_ns sequence schedule_rate, i64_try_from sequence with
      | Some (Err e), _ => Some (Err e)
      | Some (Ok _), Some _ =>
          match publish sequence with
          | Some error => Some (Err ("calibration warmup publish failed at sequence " +:+ show_uint sequence +:+ ": " +:+ error))
          | None => calibration_warmup n publish schedule_rate (sequence + 1)
          end
      | _, _ => None
      end
  end.

(** The measured publications: [elapsed k] is read before the publication
    number [k].  The number of publications. *)
Fixpoint calibration_measure (fuel : nat) (publish : Z -> option string) (elapsed : nat -> Z) (events duration warmup schedule_rate published : Z) :
    option (result Z string) :=
  match fuel with
  | O => None
  | S fuel =>
      if (published <? events) && (elapsed (Z.to_nat published) <? duration) then
        let sequence := as_u64 (warmup + published) in
        match scheduled_ns sequence schedule_rate, i64_try_from sequence with
        | Some (Err e), _ => Some (Err e)
        | Some (Ok _), Some _ =>
            match publish sequence with
            | Some error => Some (Err ("calibration publish failed at sequence " +:+ show_uint sequence +:+ ": " +:+ error))
            | None => calibration_measure fuel publish elapsed events duration warmup schedule_rate (published + 1)
            end
        | _, _ => None
        end
      else Some (Ok published)
  end.

(** What the system answers during a calibration; the two waits are asked
    whether the consumer got to a count in time. *)
Record CalibrationEnv : Type := mkCalibrationEnv {
  cal_ready : bool;
  cal_consumer_pin_failed : bool;
  cal_producer_pin_failed : bool;
  cal_publish : Z -> option string;
  cal_reached : Z -> bool;
  cal_processed : Z -> Z;
  cal_elapsed : nat -> Z;
  cal_total_elapsed : Z
}.

(** [calibrate_max_rate_with_workload] *)
Definition calibrate_max_rate_with_workload (fuel : nat) (cfg : Config) (env : CalibrationEnv) : option (result f64 string) :=
  let warmup := calibration_warmup_events cfg in
  let schedule_rate := calibration_schedule_rate cfg in
  if negb env.(cal_ready) then Some (Err "timeout waiting for calibration consumer readiness") else
  if env.(cal_consumer_pin_failed) then Some (Err "failed to pin calibration consumer thread") else
  if env.(cal_producer_pin_failed) then Some (Err "failed to pin calibration producer thread") else
  match calibration_warmup (Z.to_nat warmup) env.(cal_publish) schedule_rate 0 with
  | None => None
  | Some (Err e) => Some (Err e)
  | Some (Ok _) =>
      if negb (env.(cal_reached) warmup) then
        Some (Err ("timeout waiting for calibration warmup completion (got " +:+ show_uint (env.(cal_processed) warmup) +:+ ")")) else
      match calibration_measure fuel env.(cal_publish) env.(cal_elapsed) cfg.(calibration_events) cfg.(calibration_duration) warmup schedule_rate 0 with
      | None => None
      | Some (Err e) => Some (Err e)
      | Some (Ok published) =>
          let expected := as_u64 (warmup + published) in
          if negb (env.(cal_reached) expected) then
            Some (Err ("timeout waiting for calibration completion (got " +:+ show_uint (env.(cal_processed) expected) +:+ ")")) else
          let elapsed := as_secs_f64 env.(cal_total_elapsed) in
          if f64_eq elapsed f64_zero then Some (Err "calibration duration was zero")
          else Some (Ok (f64_div (of_Z published) elapsed))
      end
  end.

(** ** Provenance *)

Record BuildProvenance : Type := mkBuildProvenance { git_rev : string; dirty : option bool }.

(** [BuildProvenance::current], of the two build-time variables. *)
Definition current (rev dirty_var : option string) : BuildProvenance :=
  mkBuildProvenance (match rev with Some r => r | None => "unknown" end)
    (match dirty_var with
     | Some d => if String.eqb d "false" then Some false else if String.eqb d "true" then Some true else None
     | None => None
     end).

Definition provenance_is_valid (p : BuildProvenance) : bool :=
  (String.length p.(git_rev) =? 40)%nat && all_chars is_ascii_hexdigit p.(git_rev) && bool_decide (p.(dirty) = Some false).

Definition dirty_json (p : BuildProvenance) : string :=
  match p.(dirty) with Some false => "false" | Some true => "true" | None => "null" end.

(** ** A run of one load level *)

Record LoadResult : Type := mkLoadResult {
  load_pct : Z;
  target_rate : Z;
  res_own_max : f64;
  own_utilization : f64;
  actual_rate : f64;
  rate_valid : bool;
  workload_valid : bool;
  valid_run : bool;
  measurement_epoch_unix_ns : Z;
  clock_anchor_uncertainty_ns : Z;
  pause_check : option PauseCheck;
  res_samples : list LatencySample;
  res_workload : WorkloadStats
}.

(** What the system answers during a run: whether the waits for the consumer
    ended in time, whether pinning failed, the clocks ([elapsed] since the
    measurement epoch, reading by reading), the result of each publication,
    and what is found in the sink. *)
Record RunEnv : Type := mkRunEnv {
  env_ready : bool;
  env_consumer_pin_failed : bool;
  env_producer_pin_failed : bool;
  env_before : Z;
  env_wall : result Z string;
  env_after : Z;
  env_epoch : Z;
  env_elapsed : nat -> Z;
  env_publish : Z -> option string;
  env_completed : bool;
  env_processed : Z;
  env_outcome : result (option HandlerOutcome) string
}.

(** The spin until an event is due: the number of the next reading. *)
Fixpoint spin (fuel : nat) (elapsed : nat -> Z) (planned_ns : Z) (k : nat) : option nat :=
  match fuel with
  | O => None
  | S fuel => if elapsed k <? planned_ns then spin fuel elapsed planned_ns (S k) else Some (S k)
  end.

(** The publishing loop from event [i] on, with the readings taken so far, the
    send times, and the events published, with the reading that released each. *)
Fixpoint publish_loop (n fuel : nat) (elapsed : nat -> Z) (publish : Z -> option string) (rate i : Z) (k : nat) (first_send last_send : option Z)
    (events : list (LatencyEvent * nat)) : option (result (option Z * option Z * list (LatencyEvent * nat)) string) :=
  match n with
  | O => Some (Ok (first_send, last_send, events))
  | S n =>
      match scheduled_ns i rate with
      | None => None
      | Some (Err e) => Some (Err e)
      | Some (Ok planned_ns) =>
          match spin fuel elapsed planned_ns k with
          | None => None
          | Some k1 =>
              match publish i with
              | Some error => Some (Err ("publish failed at sequence " +:+ show_uint i +:+ ": " +:+ error))
              | None =>
                  let actual_ns := u64_or_max (elapsed k1) in
                  publish_loop n fuel elapsed publish rate (i + 1) (S k1)
                    (match first_send with None => Some actual_ns | Some f => Some f end) (Some actual_ns)
                    (events ++ [(mkLatencyEvent i planned_ns, pred k1)])
              end
          end
      end
  end.

(** The workload's counters against what the run must have done. *)
Definition workload_ok (cfg : Config) (w : WorkloadStats) (expected_samples : Z) : option bool :=
  let c := w.(counters) in
  let expected_allocations := u64_or_max expected_samples in
  match cfg.(handler_mode) with
  | AllocationFree =>
      Some ((c.(allocations) =? 0) && (c.(allocated_bytes) =? 0) && (c.(deallocations) =? 0) && (c.(deallocated_bytes) =? 0) &&
            (w.(retained_objects) =? 0) && (w.(retained_live_bytes) =? 0) && (w.(retained_checksum) =? 0))
  | Allocating =>
      match cfg.(retention_window) with
      | None => None
      | Some window =>
          let expected_deallocations := sat_sub_u64 cfg.(events_total) (Z.max cfg.(warmup_events) (u64_or_max window)) in
          Some ((c.(allocations) =? expected_allocations) &&
                (c.(allocated_bytes) =? sat_mul_u64 expected_allocations ALLOCATION_PAYLOAD_BYTES) &&
                (c.(deallocations) =? expected_deallocations) &&
                (c.(deallocated_bytes) =? sat_mul_u64 expected_deallocations ALLOCATION_PAYLOAD_BYTES) &&
                (w.(retained_objects) =? window) &&
                (w.(retained_live_bytes) =? sat_mul_u64 (u64_or_max window) ALLOCATION_PAYLOAD_BYTES))
      end
  end.

(** The rate the events were sent at. *)
Definition sent_rate (cfg : Config) (first_send last_send : option Z) : f64 :=
  let first := match first_send with Some f => f | None => 0 end in
  let last := match last_send with Some l => l | None => 0 end in
  let elapsed_s := f64_div (of_Z (sat_sub_u64 last first)) (of_Z NANOS) in
  let sent_count := Z.max (sat_sub_u64 cfg.(events_total) 1) 1 in
  if f64_lt f64_zero elapsed_s then f64_div (of_Z sent_count) elapsed_s else f64_zero.

(** The end of [run_load_with_workload]: the outcome is assessed. *)
Definition assess (cfg : Config) (target_rate : Z) (common_max own_max : f64) (inject_sleep : option Z)
    (epoch_unix_ns uncertainty_ns : Z) (first_send last_send : option Z) (outcome : HandlerOutcome) : option (result LoadResult string) :=
  let samples := outcome.(out_samples) in
  let expected_samples := as_u64 (cfg.(events_total) - cfg.(warmup_events)) in
  if negb (Z.of_nat (length samples) =? expected_samples) then
    Some (Err ("latency sample count mismatch: expected " +:+ show_uint expected_samples +:+ ", got " +:+ show_uint (Z.of_nat (length samples))))
  else
  match workload_ok cfg outcome.(out_workload) expected_samples, compute_stats samples,
        scheduled_ns (cfg.(events_total) - 1) target_rate with
  | Some workload_valid, Some stats, Some (Ok last_planned_ns) =>
      let actual_rate := sent_rate cfg first_send last_send in
      let rate_valid := rate_is_valid actual_rate target_rate in
      let pause_check :=
        match inject_sleep with
        | None => Ok None
        | Some sleep =>
            match outcome.(out_injection) with
            | None => Err "configured pause injection was not observed"
            | Some observation =>
                match validate_injected_pause sleep target_rate common_max stats observation last_planned_ns with
                | Ok p => Ok (Some p)
                | Err e => Err e
                end
            end
        end in
      match pause_check with
      | Err e => Some (Err e)
      | Ok pause_check =>
          let valid_run := rate_valid && workload_valid && match pause_check with None => true | Some p => pause_is_valid p end in
          Some (Ok (mkLoadResult 0 target_rate own_max (f64_div (of_Z target_rate) own_max) actual_rate rate_valid workload_valid
                      valid_run epoch_unix_ns uncertainty_ns pause_check samples outcome.(out_workload)))
      end
  | Some _, Some _, Some (Err e) => Some (Err e)
  | _, _, _ => None
  end.

(** [run_load_with_workload] *)
Definition run_load_with_workload (fuel : nat) (cfg : Config) (target_rate : Z) (common_max own_max : f64) (inject_sleep : option Z)
    (env : RunEnv) : option (result LoadResult string) :=
  if negb env.(env_ready) then Some (Err "timeout waiting for consumer readiness") else
  if env.(env_consumer_pin_failed) then Some (Err "failed to pin consumer thread") else
  if env.(env_producer_pin_failed) then Some (Err "failed to pin producer thread") else
  match capture env.(env_before) env.(env_wall) env.(env_after) with
  | Err e => Some (Err e)
  | Ok clock_anchor =>
      match project_unix_ns clock_anchor env.(env_epoch) with
      | Err e => Some (Err e)
      | Ok epoch_unix_ns =>
          match publish_loop (Z.to_nat cfg.(events_total)) fuel env.(env_elapsed) env.(env_publish) target_rate 0 0 None None [] with
          | None => None
          | Some (Err e) => Some (Err e)
          | Some (Ok (first_send, last_send, _)) =>
              if negb env.(env_completed) then
                Some (Err ("timeout waiting for completion (got " +:+ show_uint env.(env_processed) +:+ ")"))
              else
              match env.(env_outcome) with
              | Err _ => Some (Err "outcome sink mutex poisoned")
              | Ok None => Some (Err "consumer did not publish latency outcome during shutdown")
              | Ok (Some outcome) =>
                  assess cfg target_rate common_max own_max inject_sleep epoch_unix_ns clock_anchor.(uncertainty_ns) first_send last_send outcome
              end
          end
      end
  end.

(** The consumer's side of a run: [run_load_w] chooses the workload by the
    mode, [run_load_with_workload] builds the handler with the second CPU; the
    consumer thread then handles [events].  What is left in the cells. *)
Definition run_consumer {W} `{HandlerWorkload W} (tick : nat -> Z) (pin : Z -> bool) (ids : option (list Z)) (cfg : Config)
    (inject_sleep : option Z) (workload : W) (c : Cells) (start : Z) (events : list LatencyEvent) : option Cells :=
  match latency_new cfg.(warmup_events) cfg.(events_total) inject_sleep cfg.(inject_at_measured_pct) workload with
  | None => None
  | Some h => snd <$> latency_run tick pin ids (cpu cfg 1) h c start events
  end.

Definition run_load_w (tick : nat -> Z) (pin : Z -> bool) (ids : option (list Z)) (cfg : Config) (inject_sleep : option Z)
    (c : Cells) (start : Z) (events : list LatencyEvent) : option Cells :=
  match cfg.(handler_mode) with
  | AllocationFree => run_consumer tick pin ids cfg inject_sleep FreeWorkload c start events
  | Allocating =>
      match cfg.(retention_window) with
      | None => None
      | Some w => run_consumer tick pin ids cfg inject_sleep (allocating_new w) c start events
      end
  end.

(** ** [main] *)

(** The load levels and their rates. *)
Definition targets (cfg : Config) (common_max : f64) : list (Z * Z) :=
  match cfg.(rate) with
  | Some rate => [(0, rate)]
  | None =>
      List.filter (fun t => 0 <? snd t)
        (map (fun pct => (pct, round_as_u64 (f64_div (f64_mul common_max (of_Z pct)) (of_Z 100)))) cfg.(load_levels))
  end.

Definition with_level (pct : Z) (valid : bool) (l : LoadResult) : LoadResult :=
  mkLoadResult pct l.(target_rate) l.(res_own_max) l.(own_utilization) l.(actual_rate) l.(rate_valid) l.(workload_valid)
    valid l.(measurement_epoch_unix_ns) l.(clock_anchor_uncertainty_ns) l.(pause_check) l.(res_samples) l.(res_workload).

(** The runs of all targets; [run] is [run_load] of a rate and a pause. *)
Fixpoint run_targets (run : Z -> option Z -> result LoadResult string) (provenance_valid : bool) (sleeps : list Z) (index : nat)
    (ts : list (Z * Z)) (any_invalid : bool) (loads : list LoadResult) : result (list LoadResult * bool) string :=
  match ts with
  | [] => Ok (loads, any_invalid)
  | (pct, rate) :: ts =>
      match run rate (sleeps !! index) with
      | Err e => Err ("load " +:+ show_uint pct +:+ "% error: " +:+ e)
      | Ok load =>
          let load := with_level pct (load.(valid_run) && provenance_valid) load in
          run_targets run provenance_valid sleeps (S index) ts (any_invalid || negb load.(valid_run)) (loads ++ [load])
      end
  end.

(** The exit status of a measurement and its loads; [files_written] says
    whether the samples and the result could be written. *)
Definition measure_exit (cfg : Config) (run : Z -> option Z -> result LoadResult string) (provenance : BuildProvenance)
    (common_max : f64) (files_written : bool) : Z * list LoadResult :=
  let provenance_valid := provenance_is_valid provenance in
  match targets cfg common_max with
  | [] => (2, [])
  | ts =>
      match run_targets run provenance_valid cfg.(inject_sleeps) 0 ts (negb provenance_valid) [] with
      | Err _ => (1, [])
      | Ok (loads, any_invalid) => (if negb files_written then 1 else if any_invalid then 3 else 0, loads)
      end
  end.

(** ** The samples file *)

Definition newline : ascii := ascii_of_nat 10.

Definition sample_row (s : LatencySample) : string :=
  show_uint s.(smp_sequence) +:+ "," +:+ show_uint s.(smp_planned_ns) +:+ "," +:+ show_uint s.(smp_completion_ns) +:+ "," +:+
  show_uint s.(smp_latency_ns).

(** The text [write_samples] writes. *)
Definition samples_text (samples : list LatencySample) : string :=
  String.concat "" (("sequence,planned_ns,completion_ns,latency_ns" +:+ String newline "") ::
                    map (fun s => sample_row s +:+ String newline "") samples).
