(* ===== verification/TailReportSpec.v ===== *)
(** * TailReportSpec: the theorems on the main thread of the tail-latency
    harness of [TailReport]: the schedule, the nearest-rank percentiles, the
    pause gate, the assessment of a faithful run and the exit status. *)
From Stdlib Require Import Ascii.
From stdpp Require Import sorting.
From S2P Require Import Prelude Effects Errors Text Float64 CommandLine TailWorkload TailWorkloadSpec TailArgs TailArgsSpec TailReport.

(** ** Arithmetic *)

Lemma u64_or_max_id n : in_u64 n -> u64_or_max n = n.
Proof. intros Hn. unfold u64_or_max. by rewrite window_u64. Qed.

Lemma div_ceil_spec a b : 0 < b -> a <= div_ceil a b * b < a + b.
Proof.
  intros Hb. unfold div_ceil. pose proof (Z.div_mod (a + b - 1) b ltac:(lia)). pose proof (Z.mod_pos_bound (a + b - 1) b Hb). nia.
Qed.

(** ** The schedule *)

Lemma scheduled_ns_ok s rate :
  0 <= s <= i64_max -> 0 < rate ->
  scheduled_ns s rate = if s * NANOS / rate <=? u64_max then Some (Ok (s * NANOS / rate)) else Some (Err "planned send timestamp does not fit u64").
Proof.
  intros Hs Hr. unfold scheduled_ns. destruct (Z.ltb_spec u128_max (s * NANOS)) as [Hbig|_].
  { unfold u128_max, NANOS in Hbig. change (2 ^ 128) with 340282366920938463463374607431768211456 in Hbig. i64_lia. }
  destruct (Z.eqb_spec rate 0); [lia|]. unfold u64_try_from.
  destruct (Z.leb_spec 0 (s * NANOS / rate)) as [_|Hneg]; [cbn [andb]; by destruct (s * NANOS / rate <=? u64_max)|].
  pose proof (Z.div_pos (s * NANOS) rate). unfold NANOS in *. lia.
Qed.

(** ** Percentiles *)

Definition at_most (x : Z) (l : list Z) : Z := Z.of_nat (length (List.filter (fun y => y <=? x) l)).
Definition below (x : Z) (l : list Z) : Z := Z.of_nat (length (List.filter (fun y => y <? x) l)).

(** The nearest-rank percentile: an element that at least the share of the
    elements does not exceed, and less than the share is smaller. *)
Definition is_percentile (l : list Z) (basis_points x : Z) : Prop :=
  x ∈ l /\ Z.of_nat (length l) * basis_points <= 10000 * at_most x l /\ 10000 * below x l < Z.of_nat (length l) * basis_points.

Lemma filter_all {A} (f : A -> bool) l : Forall (fun x => f x = true) l -> List.filter f l = l.
Proof. induction 1 as [|x l Hx Hl IH]; cbn; [done|]. by rewrite Hx, IH. Qed.

Lemma filter_none {A} (f : A -> bool) l : Forall (fun x => f x = false) l -> List.filter f l = [].
Proof. induction 1 as [|x l Hx Hl IH]; cbn; [done|]. by rewrite Hx. Qed.

Lemma filter_le_length {A} (f : A -> bool) l : (length (List.filter f l) <= length l)%nat.
Proof. induction l as [|x l IH]; cbn; [done|]. destruct (f x); cbn; lia. Qed.

Lemma filter_length_perm {A} (f : A -> bool) l l' : l ≡ₚ l' -> length (List.filter f l) = length (List.filter f l').
Proof. induction 1; cbn; repeat case_match; cbn; congruence. Qed.

Lemma sorted_lookup l i j x y :
  StronglySorted Z.le l -> (i <= j)%nat -> l !! i = Some x -> l !! j = Some y -> x <= y.
Proof.
  intros Hs. revert i j. induction Hs as [|z l Hl IH Hz]; intros [|i] [|j] Hij Hi Hj; cbn in *; try done; try lia.
  - simplify_eq. lia.
  - injection Hi as ->. rewrite Forall_forall in Hz. apply Hz. by eapply list_elem_of_lookup_2.
  - apply (IH i j); [lia | done..].
Qed.

Lemma rank_counts l i x :
  StronglySorted Z.le l -> l !! i = Some x -> Z.of_nat i < at_most x l /\ below x l <= Z.of_nat i.
Proof.
  intros Hs Hi. pose proof (lookup_lt_Some _ _ _ Hi) as Hlt. unfold at_most, below. split.
  - rewrite <- (take_drop (S i) l), List.filter_app, length_app, filter_all; [rewrite length_take; lia|].
    apply Forall_lookup. intros j y. rewrite lookup_take_Some. intros [Hj Hji]. apply Z.leb_le.
    by apply (sorted_lookup l j i); [| lia | |].
  - rewrite <- (take_drop i l), List.filter_app, length_app, (filter_none _ (drop i l)); cbn [length].
    + pose proof (filter_le_length (fun y => y <? x) (take i l)). rewrite length_take in *. lia.
    + apply Forall_lookup. intros j y. rewrite lookup_drop. intros Hj. apply Z.ltb_ge.
      by apply (sorted_lookup l i (i + j)); [| lia | |].
Qed.

Lemma percentile_index_spec len bp :
  0 < len -> len <= usize_max -> 1 <= bp <= 10000 ->
  let i := percentile_index len bp in 0 <= i < len /\ len * bp <= 10000 * (i + 1) /\ 10000 * i < len * bp.
Proof.
  intros Hlen Hmax Hbp. cbv zeta. unfold percentile_index. pose proof (div_ceil_spec (len * bp) 10000 ltac:(lia)) as Hd. nia.
Qed.

(** The code's percentile of a sorted list is its nearest-rank percentile. *)
Lemma percentile_spec l bp :
  StronglySorted Z.le l -> l <> [] -> Z.of_nat (length l) <= usize_max -> 1 <= bp <= 10000 ->
  exists x, l !! Z.to_nat (percentile_index (Z.of_nat (length l)) bp) = Some x /\
    percentile_basis_points l bp = Some (of_Z x) /\ is_percentile l bp x.
Proof.
  intros Hs Hne Hmax Hbp. assert (Hlen : (0 < length l)%nat) by (destruct l; [done | cbn; lia]).
  destruct (percentile_index_spec (Z.of_nat (length l)) bp ltac:(lia) Hmax Hbp) as (Hi & Hlo & Hhi).
  set (i := percentile_index _ _) in *. destruct (lookup_lt_is_Some_2 l (Z.to_nat i) ltac:(lia)) as [x Hx].
  exists x. split; [done|]. split.
  - unfold percentile_basis_points. destruct l as [|y l']; [done|].
    destruct (Z.leb_spec 1 bp), (Z.leb_spec bp 10000); try lia. cbn [andb]. fold i. by rewrite Hx.
  - destruct (rank_counts l (Z.to_nat i) x Hs Hx). split; [by eapply list_elem_of_lookup_2|]. lia.
Qed.

Lemma is_percentile_perm l l' bp x : l ≡ₚ l' -> is_percentile l bp x -> is_percentile l' bp x.
Proof.
  intros Hp (Hin & H1 & H2). unfold is_percentile, at_most, below in *.
  rewrite <- (Permutation_length Hp), <- !(filter_length_perm _ _ _ Hp). by rewrite <- Hp.
Qed.

Lemma percentile_index_mono len b1 b2 : b1 <= b2 -> 0 < len -> percentile_index len b1 <= percentile_index len b2.
Proof.
  intros Hb Hlen. unfold percentile_index. enough (div_ceil (len * b1) 10000 <= div_ceil (len * b2) 10000) by lia.
  apply Z.div_le_mono; [lia | nia].
Qed.

(** ** The statistics *)

Definition latencies (samples : list LatencySample) : list Z := map smp_latency_ns samples.

Lemma sum_u128 l : forall a,
  0 <= a -> Forall in_u64 l -> a + Z.of_nat (length l) * u64_max <= u128_max ->
  fold_left (fun a b => as_u128 (a + b)) l a = fold_left Z.add l a.
Proof.
  induction l as [|x l IH]; intros a Ha Hl Hsum; cbn [fold_left length] in *; [done|].
  apply Forall_cons in Hl as [Hx Hl]. assert (Hid : as_u128 (a + x) = a + x).
  { unfold as_u128. apply Z.mod_small. unfold in_u64, u128_max in *. nia. }
  rewrite Hid. apply IH; [unfold in_u64 in *; lia | done|]. unfold in_u64 in *. nia.
Qed.

Lemma fold_add_perm l l' a : l ≡ₚ l' -> fold_left Z.add l a = fold_left Z.add l' a.
Proof.
  intros Hp. revert a. induction Hp as [|x l l' _ IH|x y l|l l' l'' _ IH1 _ IH2]; intros a; cbn; auto.
  - by rewrite <- Z.add_assoc, (Z.add_comm y x), Z.add_assoc.
  - by rewrite IH1.
Qed.

(** What the statistics of a run are, in terms of its latencies as a
    collection. *)
Record stats_of (l : list Z) (st : LatencyStats) : Prop := mkStatsOf {
  so_percentiles : exists x50 x99 x99_9 x99_99 xmax,
    is_percentile l 5000 x50 /\ is_percentile l 9900 x99 /\ is_percentile l 9990 x99_9 /\ is_percentile l 9999 x99_99 /\
    x50 <= x99 <= x99_9 /\ x99_9 <= x99_99 <= xmax /\ (xmax ∈ l /\ Forall (fun y => y <= xmax) l) /\
    st.(p50) = of_Z x50 /\ st.(p99) = of_Z x99 /\ st.(p99_9) = of_Z x99_9 /\ st.(p99_99) = of_Z x99_99 /\ st.(max) = of_Z xmax;
  so_min : exists x, x ∈ l /\ Forall (fun y => x <= y) l /\ st.(min) = of_Z x;
  so_mean : st.(mean) = f64_div (of_Z (fold_left Z.add l 0)) (of_Z (Z.of_nat (length l)));
  so_count : st.(count) = Z.of_nat (length l)
}.

Lemma compute_stats_total samples :
  samples <> [] -> Forall in_u64 (latencies samples) -> Z.of_nat (length samples) <= usize_max ->
  exists st, compute_stats samples = Some st /\ stats_of (latencies samples) st.
Proof.
  intros Hne Hr Hmax. unfold compute_stats, latencies in *. set (ls := map smp_latency_ns samples) in *.
  set (l := merge_sort Z.le ls). assert (Hp : l ≡ₚ ls) by apply merge_sort_Permutation.
  assert (Hs : StronglySorted Z.le l) by apply (StronglySorted_merge_sort Z.le).
  assert (Hl : length l = length samples) by (rewrite (Permutation_length Hp); unfold ls; by rewrite length_map).
  assert (Hpos : (0 < length l)%nat) by (rewrite Hl; destruct samples; [done | cbn; lia]).
  assert (Hnel : l <> []) by (intros ->; cbn in Hpos; lia).
  destruct (Z.eqb_spec (Z.of_nat (length l)) 0); [lia|].
  destruct (percentile_spec l 5000 Hs Hnel ltac:(lia) ltac:(lia)) as (x50 & Hx50 & -> & P50).
  destruct (percentile_spec l 9900 Hs Hnel ltac:(lia) ltac:(lia)) as (x99 & Hx99 & -> & P99).
  destruct (percentile_spec l 9990 Hs Hnel ltac:(lia) ltac:(lia)) as (x99_9 & Hx99_9 & -> & P99_9).
  destruct (percentile_spec l 9999 Hs Hnel ltac:(lia) ltac:(lia)) as (x99_99 & Hx99_99 & -> & P99_99).
  destruct (lookup_lt_is_Some_2 l (Z.to_nat (Z.of_nat (length l) - 1)) ltac:(lia)) as [xmax Hxmax].
  destruct (lookup_lt_is_Some_2 l 0 ltac:(lia)) as [xmin Hxmin]. rewrite Hxmax, Hxmin.
  pose proof (percentile_index_spec (Z.of_nat (length l)) 9999 ltac:(lia) ltac:(lia) ltac:(lia)) as (Hi & _).
  assert (Hidx : forall b, 1 <= b <= 10000 -> 0 <= percentile_index (Z.of_nat (length l)) b < Z.of_nat (length l)).
  { intros b Hb. by apply percentile_index_spec; [lia | lia |]. }
  assert (Hord : forall b1 b2 y1 y2, 1 <= b1 <= b2 -> b2 <= 10000 ->
            l !! Z.to_nat (percentile_index (Z.of_nat (length l)) b1) = Some y1 ->
            l !! Z.to_nat (percentile_index (Z.of_nat (length l)) b2) = Some y2 -> y1 <= y2).
  { intros b1 b2 y1 y2 Hb1 Hb2 H1 H2. eapply (sorted_lookup l); [done | | exact H1 | exact H2].
    pose proof (percentile_index_mono (Z.of_nat (length l)) b1 b2 ltac:(lia) ltac:(lia)). lia. }
  eexists. split; [done|]. split; cbn.
  - exists x50, x99, x99_9, x99_99, xmax. split_and!; eauto using is_percentile_perm; try lia.
    + by apply (Hord 5000 9900).
    + by apply (Hord 9900 9990).
    + by apply (Hord 9990 9999).
    + by eapply (sorted_lookup l); [| | exact Hx99_99 | exact Hxmax]; [|lia].
    + rewrite <- Hp. by eapply list_elem_of_lookup_2.
    + rewrite <- Hp. apply Forall_lookup. intros i y Hy. pose proof (lookup_lt_Some _ _ _ Hy).
      by eapply (sorted_lookup l); [| | exact Hy | exact Hxmax]; [|lia].
  - exists xmin. split_and!; [rewrite <- Hp; by eapply list_elem_of_lookup_2 | | done].
    rewrite <- Hp. apply Forall_lookup. intros i y Hy. by eapply (sorted_lookup l); [| | exact Hxmin | exact Hy]; [|lia].
  - rewrite sum_u128, (fold_add_perm _ _ _ Hp), (Permutation_length Hp); [done | lia | by rewrite Hp|].
    unfold u64_max, u128_max, usize_max, two64 in *. rewrite Hl. change (2 ^ 128) with 340282366920938463463374607431768211456. lia.
  - by rewrite (Permutation_length Hp).
Qed.

(** C30: The statistics do not depend on the order of the samples; of no samples
    they are zero, and of any others they are the nearest-rank percentiles, the
    extremes and the mean of the latencies. *)
Theorem compute_stats_spec samples samples' :
  Forall in_u64 (latencies samples) -> Z.of_nat (length samples) <= usize_max -> samples ≡ₚ samples' ->
  compute_stats samples' = compute_stats samples /\
  exists st, compute_stats samples = Some st /\
    match samples with
    | [] => st = mkLatencyStats f64_zero f64_zero f64_zero f64_zero f64_zero f64_zero f64_zero 0
    | _ => stats_of (latencies samples) st
    end.
Proof.
  intros Hr Hlen Hp. split.
  - unfold compute_stats. rewrite (StronglySorted_unique Z.le (merge_sort Z.le (map smp_latency_ns samples')) (merge_sort Z.le (map smp_latency_ns samples))); [done|..].
    + apply (StronglySorted_merge_sort Z.le).
    + apply (StronglySorted_merge_sort Z.le).
    + rewrite !merge_sort_Permutation. by apply Permutation_map.
  - destruct samples as [|x l]; [eauto|]. by apply compute_stats_total.
Qed.

(** ** The pause gate *)

Lemma u64_or_max_cases n : 0 <= n -> u64_or_max n = n \/ (u64_or_max n = u64_max /\ u64_max < n).
Proof. intros Hn. unfold u64_or_max, u64_try_from. destruct (Z.leb_spec 0 n), (Z.leb_spec n u64_max); cbn; lia. Qed.



Section Gate.
Context (sleep target_rate : Z) (common_max : f64) (stats : LatencyStats) (ob : InjectionObservation) (last_planned_ns : Z).

End Gate.

(** ** The publishing loop *)

(** The events are those of the sequences in order, due by the schedule, and
    none is published before a clock reading that has reached its time. *)
Definition released (elapsed : nat -> Z) (rate i : Z) (x : LatencyEvent * nat) : Prop :=
  (fst x).(ev_sequence) = i /\ (fst x).(ev_planned_ns) = i * NANOS / rate /\ (fst x).(ev_planned_ns) <= elapsed (snd x).

(** The clock reaches every time of a u64 within [fuel] readings. *)
Definition clock_reaches (elapsed : nat -> Z) (fuel : nat) (rate n : Z) : Prop :=
  forall i k, 0 <= i < n -> exists m, (m < fuel)%nat /\ i * NANOS / rate <= elapsed (k + m)%nat.

Lemma spin_reaches elapsed planned m : forall fuel k,
  (m < fuel)%nat -> planned <= elapsed (k + m)%nat ->
  exists k', spin fuel elapsed planned k = Some (S k') /\ (k <= k')%nat /\ planned <= elapsed k'.
Proof.
  induction m as [|m IH]; intros [|fuel] k Hm Hp; try lia; cbn [spin].
  - replace (k + 0)%nat with k in Hp by lia. destruct (Z.ltb_spec (elapsed k) planned); [lia|]. exists k. split_and!; [done | lia | lia].
  - destruct (Z.ltb_spec (elapsed k) planned).
    + destruct (IH fuel (S k)) as (k' & ? & ? & ?); [lia | by replace (S k + m)%nat with (k + S m)%nat by lia|]. exists k'. split_and!; [done | lia | done].
    + exists k. split_and!; [done | lia..].
Qed.

Lemma publish_loop_spec n fuel elapsed publish rate : forall i k fs ls events,
  0 < rate -> 0 <= i -> i + Z.of_nat n <= i64_max -> (i + Z.of_nat n) * NANOS / rate <= u64_max ->
  (forall j, publish j = None) -> clock_reaches elapsed fuel rate (i + Z.of_nat n) ->
  exists fs' ls' new, publish_loop n fuel elapsed publish rate i k fs ls events = Some (Ok (fs', ls', events ++ new)) /\
    length new = n /\ forall j x, new !! j = Some x -> released elapsed rate (i + Z.of_nat j) x.
Proof.
  induction n as [|n IH]; intros i k fs ls events Hr Hi Hmax Hfit Hpub Hclock; cbn [publish_loop].
  - exists fs, ls, []. rewrite app_nil_r. split_and!; [done..|]. intros j x Hx. done.
  - assert (Hle : i * NANOS / rate <= u64_max).
    { etransitivity; [|exact Hfit]. apply Z.div_le_mono; [lia|]. unfold NANOS. nia. }
    rewrite scheduled_ns_ok by lia. destruct (Z.leb_spec (i * NANOS / rate) u64_max); [|lia].
    destruct (Hclock i k ltac:(lia)) as (m & Hm & Hreach).
    destruct (spin_reaches _ _ m fuel k Hm Hreach) as (k' & -> & _ & Hk'). rewrite Hpub.
    edestruct (IH (i + 1) (S (S k'))) as (fs' & ls' & new & -> & Hlen & Hnew); try done; try lia.
    { by replace (i + 1 + Z.of_nat n) with (i + Z.of_nat (S n)) by lia. }
    { by replace (i + 1 + Z.of_nat n) with (i + Z.of_nat (S n)) by lia. }
    exists fs', ls', ((mkLatencyEvent i (i * NANOS / rate), k') :: new). split_and!.
    + by rewrite <- app_assoc.
    + cbn. by f_equal.
    + intros [|j] x Hx; cbn in Hx.
      * injection Hx as <-. replace (i + Z.of_nat 0) with i by lia. by split_and!.
      * replace (i + Z.of_nat (S j)) with (i + 1 + Z.of_nat j) by lia. by apply Hnew.
Qed.

(** ** A faithful run *)

Definition planned_of (events : list LatencyEvent) (s : Z) : Z :=
  match events !! Z.to_nat s with Some ev => ev.(ev_planned_ns) | None => 0 end.

(** What is asked of a run for its outcome to be assessable: a valid
    configuration for measuring, whose sample count fits the arithmetic of the
    injection point and one allocation, a clock that does not go back, a consumer
    thread that starts untracked and with nothing processed. *)
Record run_input (cfg : Config) (tick : nat -> Z) (sleep : option Z) (c : Cells) (start : Z) : Prop := mkRunInput {
  ri_valid : config_valid cfg;
  ri_measuring : cfg.(calibrate_only) = false;
  ri_fits : (cfg.(events_total) - cfg.(warmup_events)) * cfg.(inject_at_measured_pct) <= u64_max;
  ri_capacity : (cfg.(events_total) - cfg.(warmup_events)) * LATENCY_SAMPLE_BYTES <= i64_max;
  ri_tick : forall k, 0 <= tick k;
  ri_sleep : forall d, sleep = Some d -> 0 <= d;
  ri_start : start <= c.(time);
  ri_processed : c.(processed) = 0;
  ri_untracked : c.(tls).(ALLOCATION_TRACKING) = false
}.

(** What the outcome of a run records. *)
Record outcome_ok (cfg : Config) (sleep : option Z) (events : list LatencyEvent) (o : HandlerOutcome) : Prop := mkOutcomeOk {
  oo_sequences : map smp_sequence o.(out_samples) = seqZ cfg.(warmup_events) (cfg.(events_total) - cfg.(warmup_events));
  oo_sorted : StronglySorted Z.le (map smp_completion_ns o.(out_samples));
  oo_samples : Forall (sample_ok (planned_of events)) o.(out_samples);
  oo_completions : Forall (fun x => x.(smp_completion_ns) <= u64_max) o.(out_samples);
  oo_injected : is_some sleep = is_some o.(out_injection);
  oo_injection : forall ob, o.(out_injection) = Some ob ->
    observation_ok sleep (cfg.(warmup_events) + (cfg.(events_total) - cfg.(warmup_events)) * cfg.(inject_at_measured_pct) / 100)
      (planned_of events) ob;
  oo_workload : workload_ok cfg o.(out_workload) (cfg.(events_total) - cfg.(warmup_events)) = Some true
}.

Lemma run_consumer_spec {W} `{HandlerWorkload W} cfg tick pin ids sleep c start events (w : W) (I : Z -> W -> Tls -> Prop)
    `{!WorkloadInvariant W cfg.(warmup_events) I} :
  run_input cfg tick sleep c start -> Z.of_nat (length events) = cfg.(events_total) ->
  I 0 (fst (w_on_start w c.(tls))) (snd (w_on_start w c.(tls))) ->
  (forall w' t', I cfg.(events_total) w' t' ->
     workload_ok cfg (w_stats w' t') (cfg.(events_total) - cfg.(warmup_events)) = Some true) ->
  exists c' o, run_consumer tick pin ids cfg sleep w c start events = Some c' /\ c'.(outcome_sink) = Some o /\
    c'.(processed) = cfg.(events_total) /\ outcome_ok cfg sleep events o.
Proof.
  intros [Hv Hm Hfit Hcap Htick Hsl Hst Hpr Hun] Hev HI Hw. pose proof (valid_recorded cfg Hv Hm) as Hrec.
  destruct (valid_events cfg Hv) as [_ Hmax]. pose proof (valid_warmup cfg Hv) as Hwu. unfold MIN_RECORDED_SAMPLES in Hrec.
  unfold run_consumer. destruct (latency_new _ _ _ _ _) as [h|] eqn:Hnew.
  - destruct (latency_run_spec tick Htick cfg.(warmup_events) I cfg.(events_total) sleep cfg.(inject_at_measured_pct) w c pin ids
                (cpu cfg 1) start events h) as (h' & c' & o & -> & Hsink & Hproc & H1 & H2 & H3 & H4 & H5 & H6 & w' & t' & Hst' & HI'); try done.
    + lia.
    + apply Hv.
    + exists c', o. split_and!; [done..|]. split; try done. rewrite Hst'. by apply Hw.
  - unfold latency_new, i64_try_from in Hnew. destruct (Z.leb_spec (events_total cfg) i64_max); [|lia].
    unfold with_capacity in Hnew. rewrite as_u64_small in Hnew by i64_lia.
    destruct (Z.leb_spec ((events_total cfg - warmup_events cfg) * LATENCY_SAMPLE_BYTES) i64_max); [done | lia].
Qed.

(** A consumer that handles all events leaves an outcome that records them,
    and counters that pass the workload check, in both modes. *)
Lemma run_load_w_spec cfg tick pin ids sleep c start events :
  run_input cfg tick sleep c start -> Z.of_nat (length events) = cfg.(events_total) ->
  exists c' o, run_load_w tick pin ids cfg sleep c start events = Some c' /\ c'.(outcome_sink) = Some o /\
    c'.(processed) = cfg.(events_total) /\ outcome_ok cfg sleep events o.
Proof.
  intros Hin Hev. pose proof Hin as [Hv Hm Hfit _ _ _ _ _ Hun]. pose proof (valid_recorded cfg Hv Hm) as Hrec. unfold MIN_RECORDED_SAMPLES in Hrec.
  destruct (valid_events cfg Hv) as [_ Hmax]. pose proof (valid_warmup cfg Hv) as Hwu. pose proof (valid_window cfg Hv) as Hwin.
  unfold run_load_w. destruct (handler_mode cfg) eqn:Hmode.
  - apply (run_consumer_spec _ _ _ _ _ _ _ _ FreeWorkload (free_invariant c.(tls))); [done | done | done|].
    intros w' t' _. unfold workload_ok. by rewrite Hmode.
  - destruct (retention_window cfg) as [w|] eqn:Hw; [|done]. destruct Hwin as [Hw1 Hw2]. specialize (Hw2 Hm).
    pose proof (allocating_workload_invariant cfg.(warmup_events) w Hwu Hw1) as Hinst.
    apply (run_consumer_spec _ _ _ _ _ _ _ _ (allocating_new w) (allocating_invariant cfg.(warmup_events) w)); [done | done | |].
    + cbn [w_on_start allocating_workload fst snd]. pose proof (allocating_start cfg.(warmup_events) w c.(tls) Hwu ltac:(lia)) as Hs.
      replace (set_tracking false (reset_allocation_counters (tls c))) with (reset_allocation_counters (tls c)) in Hs; [done|].
      unfold set_tracking, reset_allocation_counters. cbn. by rewrite Hun.
    + intros w' t' HI. unfold workload_ok. rewrite Hmode, Hw. cbn [w_stats allocating_workload].
      destruct (allocating_stats_spec cfg.(warmup_events) w cfg.(events_total) w' t' Hw1 ltac:(lia) HI) as (-> & -> & ->).
      unfold counted, allocs_at, drops_at. cbn [allocations allocated_bytes deallocations deallocated_bytes].
      rewrite !u64_or_max_id by (unfold in_u64; i64_lia || (unfold in_u64, u64_max; i64_lia)).
      unfold sat_sub_u64. rewrite (Z.min_r (events_total cfg) w) by lia.
      rewrite !Z.max_r by lia. f_equal. rewrite !andb_true_iff, !Z.eqb_eq. unfold u64_max. split_and!; try done; try i64_lia.
Qed.

(** The assessment of such an outcome: the counts agree, the workload check
    passes, and the run is valid exactly if its rate and its pause are. *)
Lemma assess_spec cfg rate common_max own_max sleep epoch_unix unc fs ls events o :
  config_valid cfg -> cfg.(calibrate_only) = false -> 0 < rate -> (cfg.(events_total) - 1) * NANOS / rate <= u64_max ->
  Forall (fun ev => 0 <= ev.(ev_planned_ns)) events -> outcome_ok cfg sleep events o ->
  match assess cfg rate common_max own_max sleep epoch_unix unc fs ls o with
  | Some (Ok load) =>
      load.(workload_valid) = true /\ load.(res_samples) = o.(out_samples) /\
      load.(valid_run) = load.(rate_valid) && match load.(pause_check) with Some p => pause_is_valid p | None => true end /\
      load.(rate_valid) = rate_is_valid (sent_rate cfg fs ls) rate /\ is_some load.(pause_check) = is_some sleep
  | Some (Err e) =>
      exists d ob st, sleep = Some d /\ o.(out_injection) = Some ob /\ compute_stats o.(out_samples) = Some st /\
        validate_injected_pause d rate common_max st ob ((cfg.(events_total) - 1) * NANOS / rate) = Err e
  | None => False
  end.
Proof.
  intros Hv Hm Hrate Hfit Hpl [H1 H2 H3 H4 H5 H6 H7]. pose proof (valid_recorded cfg Hv Hm) as Hrec. unfold MIN_RECORDED_SAMPLES in Hrec.
  destruct (valid_events cfg Hv) as [_ Hmax]. pose proof (valid_warmup cfg Hv) as Hwu.
  assert (Hlen : Z.of_nat (length o.(out_samples)) = cfg.(events_total) - cfg.(warmup_events)).
  { rewrite <- (length_map smp_sequence), H1, length_seqZ. lia. }
  unfold assess. rewrite (as_u64_small (events_total cfg - warmup_events cfg)) by i64_lia. rewrite Hlen, Z.eqb_refl. cbn [negb].
  rewrite H7. destruct (compute_stats_total o.(out_samples)) as (st & -> & _).
  { intros Hnil. rewrite Hnil in Hlen. cbn in Hlen. lia. }
  { unfold latencies. apply Forall_map. rewrite Forall_forall in *. intros x Hx. destruct (H3 x Hx) as [Hp ->]. specialize (H4 x Hx).
    cbn. rewrite Hp. unfold in_u64, sat_sub_u64. assert (0 <= planned_of events (smp_sequence x)); [|unfold u64_max, two64 in *; lia].
    unfold planned_of. destruct (events !! _) as [ev|] eqn:Hev; [|lia]. by apply (Forall_lookup_1 _ _ _ _ Hpl Hev). }
  { i64_lia. }
  rewrite scheduled_ns_ok by lia. destruct (Z.leb_spec ((events_total cfg - 1) * NANOS / rate) u64_max); [|lia].
  destruct sleep as [d|]; [|cbn; by rewrite !andb_true_r].
  destruct (out_injection o) as [ob|]; [|done].
  destruct (validate_injected_pause _ _ _ _ _ _) as [p|e] eqn:Hval; cbn; [by rewrite !andb_true_r|]. by exists d, ob, st.
Qed.

(** What the system must do for a run: both sides start, no clock step breaks
    the anchor, every publication is accepted, the clock reaches the due times
    within the spins. *)
Record faithful_env (cfg : Config) (fuel : nat) (rate : Z) (env : RunEnv) : Prop := mkFaithfulEnv {
  fe_ready : env.(env_ready) = true;
  fe_pins : env.(env_consumer_pin_failed) = false /\ env.(env_producer_pin_failed) = false;
  fe_anchor : exists a n, capture env.(env_before) env.(env_wall) env.(env_after) = Ok a /\ project_unix_ns a env.(env_epoch) = Ok n;
  fe_publish : forall i, env.(env_publish) i = None;
  fe_clock : clock_reaches env.(env_elapsed) fuel rate cfg.(events_total);
  fe_completed : env.(env_completed) = true
}.

(** C28: A measurement over the disruptor is never invalidated by its own
    bookkeeping.  The main thread publishes on schedule; a consumer thread that
    handles just these events leaves an outcome with a sample of every measured
    sequence, in order, whose sample count and workload counters pass the
    checks, in both handler modes.  What is left to decide the validity of the
    run is the rate it reached and the pause gate, which is also the only
    source of an error. *)
Theorem faithful_run_valid fuel cfg rate common_max own_max sleep env tick pin ids c :
  run_input cfg tick sleep c env.(env_epoch) ->
  0 < rate -> cfg.(events_total) * NANOS / rate <= u64_max -> faithful_env cfg fuel rate env ->
  (forall fs ls events c', publish_loop (Z.to_nat cfg.(events_total)) fuel env.(env_elapsed) env.(env_publish) rate 0 0 None None [] = Some (Ok (fs, ls, events)) ->
     run_load_w tick pin ids cfg sleep c env.(env_epoch) (map fst events) = Some c' -> env.(env_outcome) = Ok c'.(outcome_sink)) ->
  match run_load_with_workload fuel cfg rate common_max own_max sleep env with
  | Some (Ok load) =>
      map smp_sequence load.(res_samples) = seqZ cfg.(warmup_events) (cfg.(events_total) - cfg.(warmup_events)) /\
      load.(workload_valid) = true /\ is_some load.(pause_check) = is_some sleep /\
      load.(valid_run) = load.(rate_valid) && match load.(pause_check) with Some p => pause_is_valid p | None => true end
  | Some (Err e) =>
      exists d ob st, sleep = Some d /\ validate_injected_pause d rate common_max st ob ((cfg.(events_total) - 1) * NANOS / rate) = Err e
  | None => False
  end.
Proof.
  intros Hin Hrate Hfit [Hready [Hp1 Hp2] (a & n & Ha & Hn) Hpub Hclock Hcomp] Hsink.
  pose proof Hin as [Hv Hm _ _ _ _ _ _ _].
  destruct (valid_events cfg Hv) as [Hpos Hmax].
  unfold run_load_with_workload. rewrite Hready, Hp1, Hp2, Ha, Hn. cbn [negb].
  destruct (publish_loop_spec (Z.to_nat cfg.(events_total)) fuel env.(env_elapsed) env.(env_publish) rate 0 0 None None [])
    as (fs & ls & new & Hloop & Hlen & Hnew); rewrite ?Z2Nat.id, ?Z.add_0_l by lia; try done.
  rewrite app_nil_l in Hloop. rewrite Hloop, Hcomp. cbn [negb].
  assert (Hplanned : Forall (fun ev => 0 <= ev.(ev_planned_ns)) (map fst new)).
  { apply Forall_map, Forall_lookup. intros j x Hx. destruct (Hnew j x Hx) as (_ & -> & _). apply Z.div_pos; unfold NANOS; lia. }
  assert (Hev : Z.of_nat (length (map fst new)) = cfg.(events_total)) by (rewrite length_map, Hlen; lia).
  destruct (run_load_w_spec cfg tick pin ids sleep c env.(env_epoch) (map fst new) Hin Hev) as (c' & o & Hrun & Ho & _ & Hok).
  rewrite (Hsink _ _ _ _ Hloop Hrun), Ho.
  assert (Hfit' : (cfg.(events_total) - 1) * NANOS / rate <= u64_max).
  { etransitivity; [|exact Hfit]. apply Z.div_le_mono; [lia|]. unfold NANOS. lia. }
  pose proof (assess_spec cfg rate common_max own_max sleep n a.(uncertainty_ns) fs ls (map fst new) o Hv Hm Hrate Hfit' Hplanned Hok) as Has.
  destruct (assess _ _ _ _ _ _ _ _ _ _) as [[load|e]|]; [| |done].
  - destruct Has as (Hw & -> & Hvr & _ & Hpc). split_and!; try done. apply Hok.
  - destruct Has as (d & ob & st & Hd & _ & _ & He). by exists d, ob, st.
Qed.

(** ** The exit status *)

Lemma run_targets_spec run prov sleeps ts : forall index any loads,
  match run_targets run prov sleeps index ts any loads with
  | Ok (loads', any') =>
      (exists new, loads' = loads ++ new /\ length new = length ts /\
         forall i l, new !! i = Some l -> l.(valid_run) = true -> prov = true) /\
      (any' = false <-> any = false /\ (ts = [] \/ prov = true) /\
         forall i t, ts !! i = Some t -> exists l, run (snd t) (sleeps !! (index + i)%nat) = Ok l /\ l.(valid_run) = true)
  | Err _ => exists i t e, ts !! i = Some t /\ run (snd t) (sleeps !! (index + i)%nat) = Err e
  end.
Proof.
  induction ts as [|[pct rate] ts IH]; intros index any loads; cbn [run_targets].
  - split; [exists []; rewrite app_nil_r; split_and!; done|]. split; [|by intros [? _]]. intros ->. split_and!; [done | by left | done].
  - destruct (run rate (sleeps !! index)) as [load|e] eqn:Hrun.
    + specialize (IH (S index) (any || negb (valid_run (with_level pct (valid_run load && prov) load)))
                     (loads ++ [with_level pct (valid_run load && prov) load])).
      cbn [valid_run with_level] in IH. destruct (run_targets _ _ _ _ _ _ _) as [[loads' any']|e].
      * destruct IH as [(new & -> & Hlen & Hnew) Hany]. split.
        { exists (with_level pct (valid_run load && prov) load :: new). rewrite <- app_assoc. split_and!; [done | cbn; by f_equal|].
          intros [|i] l Hl; cbn in Hl; [|by apply (Hnew i)]. injection Hl as <-. cbn. by intros [_ ?]%andb_true_iff. }
        rewrite Hany, orb_false_iff, negb_false_iff, andb_true_iff. split.
        { intros ([-> [Hv ->]] & _ & Hall). split_and!; [done | by right|]. intros [|i] t Ht; cbn in Ht.
          - injection Ht as <-. rewrite Nat.add_0_r. by exists load.
          - destruct (Hall i t Ht) as (l & Hl & ?). exists l. by replace (index + S i)%nat with (S index + i)%nat by lia. }
        { intros (-> & [|Hp] & Hall); [done|]. destruct (Hall 0%nat (pct, rate) eq_refl) as (l & Hl & Hv).
          cbn [snd] in Hl. rewrite Nat.add_0_r, Hrun in Hl. injection Hl as ->. split_and!; [done | done | done | by right|].
          intros i t Ht. destruct (Hall (S i) t Ht) as (l' & Hl' & ?). exists l'. by replace (S index + i)%nat with (index + S i)%nat by lia. }
      * destruct IH as (i & t & e' & Ht & He). exists (S i), t, e'. split; [done|]. by replace (index + S i)%nat with (S index + i)%nat by lia.
    + exists 0%nat, (pct, rate), e. split; [done|]. by rewrite Nat.add_0_r.
Qed.

(** The exit status is zero exactly if the provenance is valid, there is
    something to run, every run is valid and the files are written; a load is
    reported valid only under a valid provenance. *)
Theorem measure_exit_spec cfg run provenance common_max files_written :
  let ts := targets cfg common_max in
  let '(status, loads) := measure_exit cfg run provenance common_max files_written in
  (status = 0 <-> provenance_is_valid provenance = true /\ ts <> [] /\ files_written = true /\
     forall i t, ts !! i = Some t -> exists l, run (snd t) (cfg.(inject_sleeps) !! i) = Ok l /\ l.(valid_run) = true) /\
  (status = 1 -> files_written = false \/ exists i t e, ts !! i = Some t /\ run (snd t) (cfg.(inject_sleeps) !! i) = Err e) /\
  (status = 2 <-> ts = []) /\
  (status = 0 \/ status = 3 -> length loads = length ts) /\
  Forall (fun l => l.(valid_run) = true -> provenance_is_valid provenance = true) loads.
Proof.
  cbv zeta. unfold measure_exit. destruct (targets cfg common_max) as [|t0 ts0] eqn:Hts; [split_and!; [naive_solver | done | done | lia | constructor]|].
  rewrite <- Hts. assert (Hne : targets cfg common_max <> []) by (by rewrite Hts).
  pose proof (run_targets_spec run (provenance_is_valid provenance) cfg.(inject_sleeps) (targets cfg common_max) 0
                (negb (provenance_is_valid provenance)) []) as Hrun.
  destruct (run_targets _ _ _ _ _ _ _) as [[loads any]|e].
  - destruct Hrun as [(new & -> & Hlen & Hnew) Hany]. rewrite negb_false_iff in Hany. split_and!.
    + destruct files_written; cbn [negb]; [|split; [done | naive_solver]].
      destruct any; [split; [done|]; intros (H1 & _ & _ & H2); assert (true = false) by (apply (proj2 Hany); split_and!; [done | by right | done]); done|].
      destruct (proj1 Hany eq_refl) as (H1 & _ & H2). done.
    + destruct files_written; [by destruct any | by left].
    + destruct files_written, any; split; intros; done.
    + done.
    + apply Forall_lookup. intros i l Hl. by apply (Hnew i).
  - destruct Hrun as (i & t & e' & Ht & He). split_and!; [| right; by exists i, t, e' | done | lia | constructor].
    split; [done|]. intros (_ & _ & _ & Hall). destruct (Hall i t Ht) as (l & Hl & _). cbn in He. congruence.
Qed.

(** ** The samples file *)

Lemma split_row l x : split_on "," (join_commas (map show_uint (x :: l))) = map show_uint (x :: l).
Proof. apply (split_written x l). Qed.

(** A row of the samples file gives the sample back. *)
Theorem sample_row_roundtrip s :
  in_u64 s.(smp_sequence) -> in_u64 s.(smp_planned_ns) -> in_u64 s.(smp_completion_ns) -> in_u64 s.(smp_latency_ns) ->
  collect (parse_uint u64_max) (split_on "," (sample_row s)) =
    Ok [s.(smp_sequence); s.(smp_planned_ns); s.(smp_completion_ns); s.(smp_latency_ns)].
Proof.
  intros H1 H2 H3 H4.
  change (sample_row s) with (join_commas (map show_uint [s.(smp_sequence); s.(smp_planned_ns); s.(smp_completion_ns); s.(smp_latency_ns)])).
  rewrite split_row. apply (collect_map (parse_uint u64_max) show_uint). intros b Hb. apply parse_show.
  unfold in_u64 in *. set_solver.
Qed.

(** ** Calibration *)

(** The schedule of a calibration ends within its duration: its rate is the
    number of events over the duration, rounded up. *)
Lemma calibration_rate_enough cfg :
  config_valid cfg -> cfg.(calibration_events) * NANOS <= calibration_schedule_rate cfg * cfg.(calibration_duration) \/
                      calibration_schedule_rate cfg = u64_max.
Proof.
  intros Hv. destruct (valid_calibration cfg Hv) as (He & Hd & Hfit). unfold calibration_schedule_rate.
  assert (Hw : 0 <= calibration_warmup_events cfg) by (unfold calibration_warmup_events; pose proof (valid_warmup cfg Hv); lia).
  unfold sat_mul_u128. rewrite Z.min_l.
  - pose proof (div_ceil_spec (cfg.(calibration_events) * NANOS) cfg.(calibration_duration) Hd) as Hc.
    assert (0 <= div_ceil (cfg.(calibration_events) * NANOS) cfg.(calibration_duration)) by (unfold NANOS in *; nia).
    destruct (u64_or_max_cases _ ltac:(eassumption)) as [->|[-> _]]; [left; nia | right; unfold u64_max, two64; lia].
  - unfold u128_max, NANOS. change (2 ^ 128) with 340282366920938463463374607431768211456. i64_lia.
Qed.

Lemma calibration_warmup_spec n publish rate : forall s,
  0 <= s -> s + Z.of_nat n <= i64_max -> 0 < rate ->
  match calibration_warmup n publish rate s with
  | Some (Ok _) => forall i, s <= i < s + Z.of_nat n -> publish i = None
  | Some (Err _) => exists i, s <= i < s + Z.of_nat n /\ (publish i <> None \/ u64_max < i * NANOS / rate)
  | None => False
  end.
Proof.
  induction n as [|n IH]; intros s Hs Hmax Hr; cbn [calibration_warmup]; [intros; lia|].
  rewrite scheduled_ns_ok by lia. unfold i64_try_from. destruct (Z.leb_spec s i64_max); [|lia].
  destruct (Z.leb_spec (s * NANOS / rate) u64_max) as [Hfit|Hbig]; [|exists s; split; [lia | by right]].
  destruct (publish s) as [e|] eqn:Hp; [exists s; split; [lia | left; congruence]|].
  specialize (IH (s + 1) ltac:(lia) ltac:(lia) Hr). destruct (calibration_warmup _ _ _ _) as [[|]|]; [| |done].
  - intros i Hi. destruct (Z.eq_dec i s) as [->|]; [done|]. apply IH. lia.
  - destruct IH as (i & Hi & ?). exists i. split; [lia | done].
Qed.

Lemma calibration_measure_spec fuel publish elapsed events duration warmup rate : forall published,
  0 <= published <= events -> 0 <= warmup -> warmup + events <= i64_max -> 0 < rate -> events - published < Z.of_nat fuel ->
  match calibration_measure fuel publish elapsed events duration warmup rate published with
  | Some (Ok n) => published <= n <= events /\ (n = events \/ duration <= elapsed (Z.to_nat n)) /\
                   forall i, published <= i < n -> publish (warmup + i) = None /\ elapsed (Z.to_nat i) < duration
  | Some (Err _) => exists i, published <= i < events /\ (publish (warmup + i) <> None \/ u64_max < (warmup + i) * NANOS / rate)
  | None => False
  end.
Proof.
  induction fuel as [|fuel IH]; intros published Hp Hw Hmax Hr Hf; cbn [calibration_measure]; [lia|].
  destruct (Z.ltb_spec published events) as [Hlt|Hge]; cbn [andb]; [|split_and!; [lia.. | left; lia | intros; lia]].
  destruct (Z.ltb_spec (elapsed (Z.to_nat published)) duration) as [Het|Het]; [|split_and!; [lia.. | by right | intros; lia]].
  rewrite as_u64_small by i64_lia. rewrite scheduled_ns_ok by lia. unfold i64_try_from. destruct (Z.leb_spec (warmup + published) i64_max); [|lia].
  destruct (Z.leb_spec ((warmup + published) * NANOS / rate) u64_max) as [Hfit|Hbig]; [|exists published; split; [lia | by right]].
  destruct (publish (warmup + published)) as [e|] eqn:Hpub; [exists published; split; [lia | left; congruence]|].
  specialize (IH (published + 1) ltac:(lia) Hw Hmax Hr ltac:(lia)). destruct (calibration_measure _ _ _ _ _ _ _ _) as [[n|]|]; [| |done].
  - destruct IH as (Hn & Hend & Hall). split_and!; [lia.. | done|]. intros i Hi. destruct (Z.eq_dec i published) as [->|]; [done|]. apply Hall. lia.
  - destruct IH as (i & Hi & ?). exists i. split; [lia | done].
Qed.

(** A calibration of a valid configuration comes to an end without a panic.
    If it gives a rate, that is the number of accepted publications over the
    time they took, and it stopped at the limit of the events or of the time;
    every error is reported by a wait, a publication, the schedule or the
    clock. *)
Theorem calibration_ends fuel cfg env :
  config_valid cfg -> cfg.(calibration_events) < Z.of_nat fuel ->
  match calibrate_max_rate_with_workload fuel cfg env with
  | None => False
  | Some (Ok rate) =>
      exists n, 0 <= n <= cfg.(calibration_events) /\ rate = f64_div (of_Z n) (as_secs_f64 env.(cal_total_elapsed)) /\
        (n = cfg.(calibration_events) \/ cfg.(calibration_duration) <= env.(cal_elapsed) (Z.to_nat n)) /\
        (forall i, 0 <= i < calibration_warmup_events cfg + n -> env.(cal_publish) i = None) /\
        env.(cal_reached) (calibration_warmup_events cfg + n) = true
  | Some (Err _) =>
      env.(cal_ready) = false \/ env.(cal_consumer_pin_failed) = true \/ env.(cal_producer_pin_failed) = true \/
      (exists i, env.(cal_reached) i = false) \/ f64_eq (as_secs_f64 env.(cal_total_elapsed)) f64_zero = true \/
      exists i, 0 <= i /\ (env.(cal_publish) i <> None \/ u64_max < i * NANOS / calibration_schedule_rate cfg)
  end.
Proof.
  intros Hv Hfuel. destruct (valid_calibration cfg Hv) as (He & _ & Hfit).
  assert (Hw : 0 <= calibration_warmup_events cfg) by (unfold calibration_warmup_events; pose proof (valid_warmup cfg Hv); lia).
  assert (Hr : 0 < calibration_schedule_rate cfg) by (unfold calibration_schedule_rate; lia).
  unfold calibrate_max_rate_with_workload. destruct (cal_ready env); [|by left]. destruct (cal_consumer_pin_failed env); [by right; left|].
  destruct (cal_producer_pin_failed env); [by right; right; left|]. cbn [negb].
  pose proof (calibration_warmup_spec (Z.to_nat (calibration_warmup_events cfg)) env.(cal_publish) (calibration_schedule_rate cfg) 0) as Hwarm.
  rewrite Z2Nat.id in Hwarm by lia. specialize (Hwarm ltac:(lia) ltac:(lia) Hr).
  destruct (calibration_warmup _ _ _ _) as [[|]|]; [| |done].
  2: { destruct Hwarm as (i & Hi & ?). do 5 right. exists i. split; [lia | done]. }
  destruct (cal_reached env (calibration_warmup_events cfg)) eqn:Hreach; [cbn [negb] | do 3 right; left; eauto].
  pose proof (calibration_measure_spec fuel env.(cal_publish) env.(cal_elapsed) cfg.(calibration_events) cfg.(calibration_duration)
                (calibration_warmup_events cfg) (calibration_schedule_rate cfg) 0 ltac:(lia) Hw Hfit Hr ltac:(lia)) as Hmeas.
  destruct (calibration_measure _ _ _ _ _ _ _ _) as [[n|]|]; [| |done].
  2: { destruct Hmeas as (i & Hi & ?). do 5 right. exists (calibration_warmup_events cfg + i). split; [lia | done]. }
  destruct Hmeas as (Hn & Hend & Hall). rewrite as_u64_small by i64_lia.
  destruct (cal_reached env (calibration_warmup_events cfg + n)) eqn:Hreach2; [cbn [negb] | do 3 right; left; eauto].
  destruct (f64_eq _ _) eqn:Hz; [do 4 right; by left|]. exists n. split_and!; [lia.. | done | done | | done].
  intros i Hi. destruct (Z.lt_ge_cases i (calibration_warmup_events cfg)); [apply Hwarm; lia|].
  replace i with (calibration_warmup_events cfg + (i - calibration_warmup_events cfg)) by lia. apply Hall. lia.
Qed.
