(* ===== verification/TailJson.v ===== *)
(** * TailJson: the report of src/bin/h2h_tail_latency.rs

    The JSON text [write_result] makes of the loads, with the statistics of
    their samples, compared with the value it stands for. *)
From S2P Require Import Prelude Effects Errors Text Float64 Json CommandLine TailWorkload TailArgs TailReport.

(** ** The report *)

Definition optional_line (indent : nat) (key : string) (show : option string) : string :=
  field indent key (match show with Some s => s | None => "null" end) true.

(** The first object: what was asked for. *)
Definition render_setup (cfg : Config) : string :=
  cat [field 2 "impl" (quoted "badbatch-builder-tail-latency") true;
       field 2 "language" (quoted "rust") true;
       field 2 "run_mode" (quoted (if cfg.(calibrate_only) then "calibration" else "measurement")) true;
       field 2 "scenario" (quoted "unicast_tail_latency") true;
       field 2 "arrival_model" (quoted "open_loop_fixed_schedule") true;
       field 2 "latency_origin" (quoted "planned_send_time") true;
       field 2 "raw_sample_columns" (bracketed quoted ["sequence"; "planned_ns"; "completion_ns"; "latency_ns"]) true;
       field 2 "wait_strategy" (quoted (wait_kind_as_str cfg.(wait))) true;
       field 2 "event_padding" (quoted (pad_as_str cfg.(pad))) true;
       field 2 "handler_mode" (quoted (handler_mode_as_str cfg.(handler_mode))) true;
       optional_line 2 "retention_window" (show_int <$> cfg.(retention_window));
       field 2 "logical_payload_bytes" (show_int LOGICAL_PAYLOAD_BYTES) true;
       field 2 "allocation_payload_bytes" (show_int ALLOCATION_PAYLOAD_BYTES) true;
       field 2 "api_path" (quoted "builder") true;
       field 2 "buffer_size" (show_int cfg.(buffer_size)) true;
       field 2 "events_total" (show_int cfg.(events_total)) true;
       field 2 "warmup_events" (show_int cfg.(warmup_events)) true;
       field 2 "calibration_warmup_events" (show_int (calibration_warmup_events cfg)) true;
       field 2 "calibration_events_limit" (show_int cfg.(calibration_events)) true;
       field 2 "calibration_duration_ms" (show_int (cfg.(calibration_duration) / 1000000)) true].

Definition render_rates (cfg : Config) (common_max : option f64) (own_max : f64) : string :=
  cat [field 2 "max_rate" (show_fixed 6 (match common_max with Some m => m | None => own_max end)) true;
       field 2 "own_max" (show_fixed 6 own_max) true;
       optional_line 2 "common_max" (show_fixed 6 <$> common_max);
       field 2 "minimum_actual_target_ratio" (show_fixed 6 VALID_RUN_THRESHOLD) true;
       field 2 "inject_sleep_us_by_load" (bracketed show_int (map (fun ns => ns / 1000) cfg.(inject_sleeps))) true;
       field 2 "inject_at_measured_pct" (show_int cfg.(inject_at_measured_pct)) true].

Definition artifact_valid (loads : list LoadResult) (p : BuildProvenance) : bool := provenance_is_valid p && forallb valid_run loads.

Definition render_provenance (loads : list LoadResult) (p : BuildProvenance) : string :=
  cat [field 2 "provenance_source" (quoted "build_time") true;
       field 2 "provenance_valid" (show_bool (provenance_is_valid p)) true;
       field 2 "git_rev" (quoted p.(git_rev)) true;
       field 2 "dirty" (dirty_json p) true;
       field 2 "harness_git_rev" (quoted p.(git_rev)) true;
       field 2 "harness_git_dirty" (dirty_json p) true;
       field 2 "implementation_git_rev" (quoted p.(git_rev)) true;
       field 2 "implementation_git_dirty" (dirty_json p) true;
       field 2 "artifact_valid" (show_bool (artifact_valid loads p)) true].

Definition affinity_mode (cpus : list Z) : string := match cpus with [] => "none" | _ => "per-thread" end.
Definition role_cpu_map (cpus : list Z) : list (string * Z) :=
  match cpus with producer :: consumer :: _ => [("producer", producer); ("consumer", consumer)] | _ => [] end.

Definition render_affinity (cfg : Config) (affinity_failed : bool) : string :=
  cat ["{"; nl;
       field 4 "requested_cpu_list" (bracketed show_int cfg.(cpu_list)) true;
       field 4 "mode" (quoted (affinity_mode cfg.(cpu_list))) true;
       field 4 "verified_all" (show_bool (affinity_verified_all cfg affinity_failed)) true;
       spaces 4; quoted "role_cpu_map"; ": {"; nl;
       field_lines 6 show_int (role_cpu_map cfg.(cpu_list));
       "    }"; nl;
       "  }"].

Definition render_pause (check : PauseCheck) : string :=
  cat [spaces 6; quoted "pause_validation"; ": {"; nl;
       field 8 "requested_sleep_ns" (show_int check.(requested_sleep_ns)) true;
       field 8 "observed_sleep_ns" (show_int check.(observed_sleep_ns)) true;
       field 8 "injection_sequence" (show_int check.(injection_sequence)) true;
       field 8 "expected_backlog_samples" (show_int check.(expected_backlog_samples)) true;
       field 8 "injection_planned_ns" (show_int check.(injection_planned_ns)) true;
       field 8 "pause_started_ns" (show_int check.(pause_started_ns)) true;
       field 8 "pause_completed_ns" (show_int check.(pause_completed_ns)) true;
       field 8 "expected_affected_samples" (show_int check.(expected_affected_samples)) true;
       field 8 "sample_count" (show_int check.(sample_count)) true;
       field 8 "minimum_affected_samples" (show_int check.(minimum_affected_samples)) true;
       field 8 "maximum_affected_samples" (show_int check.(maximum_affected_samples)) true;
       field 8 "affected_in_range" (show_bool (affected_in_range check)) true;
       field 8 "load_fraction" (show_fixed 9 check.(load_fraction)) true;
       field 8 "minimum_drain_ns" (show_int check.(minimum_drain_ns)) true;
       field 8 "remaining_planned_ns_after_pause" (show_int check.(remaining_planned_ns_after_pause)) true;
       field 8 "drain_allowance_met" (show_bool (drain_allowance_met check)) true;
       field 8 "double_drain_allowance_met" (show_bool (double_drain_allowance_met check)) true;
       field 8 "p99.9_visible" (show_bool (p99_9_visible check)) true;
       field 8 "max_visible" (show_bool (max_visible check)) true;
       field 8 "valid" (show_bool (pause_is_valid check)) false;
       "      },"; nl].

Definition allocation_bytes_per_event (w : WorkloadStats) : f64 :=
  if w.(counters).(allocations) =? 0 then f64_zero else f64_div (of_Z w.(counters).(allocated_bytes)) (of_Z w.(counters).(allocations)).
Definition retention_seconds (cfg : Config) (target_rate : Z) : f64 :=
  match cfg.(retention_window) with Some window => f64_div (of_Z window) (of_Z target_rate) | None => f64_zero end.
Definition logical_live_bytes (w : WorkloadStats) : Z := sat_mul_u64 (u64_or_max w.(retained_objects)) LOGICAL_PAYLOAD_BYTES.

Definition render_workload (cfg : Config) (load : LoadResult) : string :=
  let w := load.(res_workload) in
  cat ["{"; nl;
       field 8 "mode" (quoted (handler_mode_as_str cfg.(handler_mode))) true;
       optional_line 8 "retention_window" (show_int <$> cfg.(retention_window));
       field 8 "retention_seconds" (show_fixed 9 (retention_seconds cfg load.(target_rate))) true;
       field 8 "logical_payload_bytes" (show_int LOGICAL_PAYLOAD_BYTES) true;
       field 8 "allocation_payload_bytes" (show_int ALLOCATION_PAYLOAD_BYTES) true;
       field 8 "runtime_or_matching_overhead_bytes" (show_int (ALLOCATION_PAYLOAD_BYTES - LOGICAL_PAYLOAD_BYTES)) true;
       field 8 "allocations" (show_int w.(counters).(allocations)) true;
       field 8 "allocated_bytes" (show_int w.(counters).(allocated_bytes)) true;
       field 8 "allocation_bytes_per_event" (show_fixed 6 (allocation_bytes_per_event w)) true;
       field 8 "deallocations" (show_int w.(counters).(deallocations)) true;
       field 8 "deallocated_bytes" (show_int w.(counters).(deallocated_bytes)) true;
       field 8 "retained_objects" (show_int w.(retained_objects)) true;
       field 8 "estimated_logical_live_bytes" (show_int (logical_live_bytes w)) true;
       field 8 "observed_allocated_live_bytes" (show_int w.(retained_live_bytes)) true;
       field 8 "retained_checksum" (show_int w.(retained_checksum)) true;
       field 8 "valid" (show_bool load.(workload_valid)) false;
       "      },"; nl].

Definition render_latency (stats : LatencyStats) : string :=
  cat ["{"; nl;
       field 8 "count" (show_int stats.(count)) true;
       field 8 "mean" (show_fixed 6 stats.(mean)) true;
       field 8 "min" (show_fixed 6 stats.(min)) true;
       field 8 "p50" (show_fixed 6 stats.(p50)) true;
       field 8 "p99" (show_fixed 6 stats.(p99)) true;
       field 8 "p99.9" (show_fixed 6 stats.(p99_9)) true;
       field 8 "p99.99" (show_fixed 6 stats.(p99_99)) true;
       field 8 "max" (show_fixed 6 stats.(max)) false;
       "      }"; nl].

(** The body of the loop over the loads, with the statistics of the load. *)
Definition render_load (cfg : Config) (l : LoadResult * LatencyStats) : string :=
  let load := l.1 in
  cat ["    {"; nl;
       field 6 "load_pct" (show_int load.(load_pct)) true;
       field 6 "target_rate" (show_int load.(target_rate)) true;
       field 6 "own_max" (show_fixed 6 load.(res_own_max)) true;
       field 6 "own_utilization" (show_fixed 9 load.(own_utilization)) true;
       field 6 "actual_rate" (show_fixed 6 load.(actual_rate)) true;
       field 6 "actual_target_ratio" (show_fixed 6 (f64_div load.(actual_rate) (of_Z load.(target_rate)))) true;
       field 6 "rate_valid" (show_bool load.(rate_valid)) true;
       field 6 "workload_valid" (show_bool load.(workload_valid)) true;
       field 6 "valid_run" (show_bool load.(valid_run)) true;
       field 6 "measurement_epoch_unix_ns" (show_int load.(measurement_epoch_unix_ns)) true;
       field 6 "clock_anchor_uncertainty_ns" (show_int load.(clock_anchor_uncertainty_ns)) true;
       (match load.(pause_check) with Some check => render_pause check | None => "" end);
       spaces 6; quoted "workload"; ": "; render_workload cfg load;
       spaces 6; quoted "latency_ns"; ": "; render_latency l.2;
       "    }"].

Definition report_text (cfg : Config) (affinity_failed : bool) (common_max : option f64) (own_max : f64)
    (loads : list LoadResult) (provenance : BuildProvenance) (measured : list (LoadResult * LatencyStats)) : string :=
  cat ["{"; nl;
       render_setup cfg;
       render_rates cfg common_max own_max;
       render_provenance loads provenance;
       spaces 2; quoted "cpu_affinity"; ": "; render_affinity cfg affinity_failed; ","; nl;
       spaces 2; quoted "loads"; ": ["; nl;
       each (render_load cfg) (cat [","; nl]) nl measured;
       "  ]"; nl;
       "}"; nl].

(** [write_result]; [None] is a panic of [compute_stats]. *)
Definition with_stats (loads : list LoadResult) : option (list (LoadResult * LatencyStats)) :=
  mapM (fun load => pair load <$> compute_stats load.(res_samples)) loads.
Definition write_result (cfg : Config) (affinity_failed : bool) (common_max : option f64) (own_max : f64)
    (loads : list LoadResult) (provenance : BuildProvenance) : option string :=
  report_text cfg affinity_failed common_max own_max loads provenance <$> with_stats loads.

(** ** The value it stands for *)

Definition optional (x : option (option json)) : option json := match x with Some v => v | None => Some JNull end.

Definition setup_members (cfg : Config) : list (string * option json) :=
  [("impl", text "badbatch-builder-tail-latency"); ("language", text "rust");
   ("run_mode", text (if cfg.(calibrate_only) then "calibration" else "measurement"));
   ("scenario", text "unicast_tail_latency"); ("arrival_model", text "open_loop_fixed_schedule");
   ("latency_origin", text "planned_send_time");
   ("raw_sample_columns", arr (map text ["sequence"; "planned_ns"; "completion_ns"; "latency_ns"]));
   ("wait_strategy", text (wait_kind_as_str cfg.(wait))); ("event_padding", text (pad_as_str cfg.(pad)));
   ("handler_mode", text (handler_mode_as_str cfg.(handler_mode))); ("retention_window", optional (integer <$> cfg.(retention_window)));
   ("logical_payload_bytes", integer LOGICAL_PAYLOAD_BYTES); ("allocation_payload_bytes", integer ALLOCATION_PAYLOAD_BYTES);
   ("api_path", text "builder"); ("buffer_size", integer cfg.(buffer_size)); ("events_total", integer cfg.(events_total));
   ("warmup_events", integer cfg.(warmup_events)); ("calibration_warmup_events", integer (calibration_warmup_events cfg));
   ("calibration_events_limit", integer cfg.(calibration_events));
   ("calibration_duration_ms", integer (cfg.(calibration_duration) / 1000000))].

Definition rate_members (cfg : Config) (common_max : option f64) (own_max : f64) : list (string * option json) :=
  [("max_rate", decimal 6 (match common_max with Some m => m | None => own_max end)); ("own_max", decimal 6 own_max);
   ("common_max", optional (decimal 6 <$> common_max)); ("minimum_actual_target_ratio", decimal 6 VALID_RUN_THRESHOLD);
   ("inject_sleep_us_by_load", arr (map integer (map (fun ns => ns / 1000) cfg.(inject_sleeps))));
   ("inject_at_measured_pct", integer cfg.(inject_at_measured_pct))].

Definition dirty_value (p : BuildProvenance) : option json := optional (truth <$> p.(dirty)).

Definition provenance_members (loads : list LoadResult) (p : BuildProvenance) : list (string * option json) :=
  [("provenance_source", text "build_time"); ("provenance_valid", truth (provenance_is_valid p));
   ("git_rev", text p.(git_rev)); ("dirty", dirty_value p); ("harness_git_rev", text p.(git_rev)); ("harness_git_dirty", dirty_value p);
   ("implementation_git_rev", text p.(git_rev)); ("implementation_git_dirty", dirty_value p);
   ("artifact_valid", truth (artifact_valid loads p))].

Definition affinity_value (cfg : Config) (affinity_failed : bool) : option json :=
  obj [("requested_cpu_list", arr (map integer cfg.(cpu_list))); ("mode", text (affinity_mode cfg.(cpu_list)));
       ("verified_all", truth (affinity_verified_all cfg affinity_failed));
       ("role_cpu_map", obj (map (fun kv => (kv.1, integer kv.2)) (role_cpu_map cfg.(cpu_list))))].

Definition pause_value (check : PauseCheck) : option json :=
  obj [("requested_sleep_ns", integer check.(requested_sleep_ns)); ("observed_sleep_ns", integer check.(observed_sleep_ns));
       ("injection_sequence", integer check.(injection_sequence));
       ("expected_backlog_samples", integer check.(expected_backlog_samples));
       ("injection_planned_ns", integer check.(injection_planned_ns)); ("pause_started_ns", integer check.(pause_started_ns));
       ("pause_completed_ns", integer check.(pause_completed_ns));
       ("expected_affected_samples", integer check.(expected_affected_samples)); ("sample_count", integer check.(sample_count));
       ("minimum_affected_samples", integer check.(minimum_affected_samples));
       ("maximum_affected_samples", integer check.(maximum_affected_samples));
       ("affected_in_range", truth (affected_in_range check)); ("load_fraction", decimal 9 check.(load_fraction));
       ("minimum_drain_ns", integer check.(minimum_drain_ns));
       ("remaining_planned_ns_after_pause", integer check.(remaining_planned_ns_after_pause));
       ("drain_allowance_met", truth (drain_allowance_met check));
       ("double_drain_allowance_met", truth (double_drain_allowance_met check));
       ("p99.9_visible", truth (p99_9_visible check)); ("max_visible", truth (max_visible check));
       ("valid", truth (pause_is_valid check))].

Definition workload_value (cfg : Config) (load : LoadResult) : option json :=
  let w := load.(res_workload) in
  obj [("mode", text (handler_mode_as_str cfg.(handler_mode))); ("retention_window", optional (integer <$> cfg.(retention_window)));
       ("retention_seconds", decimal 9 (retention_seconds cfg load.(target_rate)));
       ("logical_payload_bytes", integer LOGICAL_PAYLOAD_BYTES); ("allocation_payload_bytes", integer ALLOCATION_PAYLOAD_BYTES);
       ("runtime_or_matching_overhead_bytes", integer (ALLOCATION_PAYLOAD_BYTES - LOGICAL_PAYLOAD_BYTES));
       ("allocations", integer w.(counters).(allocations)); ("allocated_bytes", integer w.(counters).(allocated_bytes));
       ("allocation_bytes_per_event", decimal 6 (allocation_bytes_per_event w));
       ("deallocations", integer w.(counters).(deallocations)); ("deallocated_bytes", integer w.(counters).(deallocated_bytes));
       ("retained_objects", integer w.(retained_objects)); ("estimated_logical_live_bytes", integer (logical_live_bytes w));
       ("observed_allocated_live_bytes", integer w.(retained_live_bytes)); ("retained_checksum", integer w.(retained_checksum));
       ("valid", truth load.(workload_valid))].

Definition latency_value (stats : LatencyStats) : option json :=
  obj [("count", integer stats.(count)); ("mean", decimal 6 stats.(mean)); ("min", decimal 6 stats.(min));
       ("p50", decimal 6 stats.(p50)); ("p99", decimal 6 stats.(p99)); ("p99.9", decimal 6 stats.(p99_9));
       ("p99.99", decimal 6 stats.(p99_99)); ("max", decimal 6 stats.(max))].

Definition load_value (cfg : Config) (l : LoadResult * LatencyStats) : option json :=
  let load := l.1 in
  obj ([("load_pct", integer load.(load_pct)); ("target_rate", integer load.(target_rate)); ("own_max", decimal 6 load.(res_own_max));
        ("own_utilization", decimal 9 load.(own_utilization)); ("actual_rate", decimal 6 load.(actual_rate));
        ("actual_target_ratio", decimal 6 (f64_div load.(actual_rate) (of_Z load.(target_rate))));
        ("rate_valid", truth load.(rate_valid)); ("workload_valid", truth load.(workload_valid)); ("valid_run", truth load.(valid_run));
        ("measurement_epoch_unix_ns", integer load.(measurement_epoch_unix_ns));
        ("clock_anchor_uncertainty_ns", integer load.(clock_anchor_uncertainty_ns))] ++
       match load.(pause_check) with Some check => [("pause_validation", pause_value check)] | None => [] end ++
       [("workload", workload_value cfg load); ("latency_ns", latency_value l.2)]).

Definition report_value (cfg : Config) (affinity_failed : bool) (common_max : option f64) (own_max : f64)
    (loads : list LoadResult) (provenance : BuildProvenance) (measured : list (LoadResult * LatencyStats)) : option json :=
  obj (setup_members cfg ++ rate_members cfg common_max own_max ++ provenance_members loads provenance ++
       [("cpu_affinity", affinity_value cfg affinity_failed); ("loads", arr (map (load_value cfg) measured))]).

(** ** The text is JSON *)

Lemma lexes_optional_integer n k x : unescaped k = true ->
  lexes (optional_line n k (show_int <$> x)) (app_opt (Some [TStr k; Colon]) (app_opt (toks (optional (integer <$> x))) (Some [Comma]))).
Proof. intros Hk. destruct x; apply (lexes_field _ _ _ _ true); [done | apply value_integer | done | apply value_null]. Qed.

Lemma lexes_optional_decimal n k x : unescaped k = true ->
  lexes (optional_line n k (show_fixed 6 <$> x)) (app_opt (Some [TStr k; Colon]) (app_opt (toks (optional (decimal 6 <$> x))) (Some [Comma]))).
Proof. intros Hk. destruct x; apply (lexes_field _ _ _ _ true); [done | apply value_decimal; lia | done | apply value_null]. Qed.

Lemma value_dirty p : value_text (dirty_json p) (toks (dirty_value p)).
Proof. unfold dirty_json, dirty_value. destruct p.(dirty) as [[]|]; [apply (value_truth true) | apply (value_truth false) | apply value_null]. Qed.

#[local] Hint Resolve lexes_optional_integer lexes_optional_decimal value_dirty : lex.

Lemma value_columns :
  value_text (bracketed quoted ["sequence"; "planned_ns"; "completion_ns"; "latency_ns"])
    (toks (arr (map text ["sequence"; "planned_ns"; "completion_ns"; "latency_ns"]))).
Proof. apply lexes_value. rewrite toks_arr. by apply lexes_run. Qed.

Lemma role_map_lines cpus :
  lexes (field_lines 6 show_int (role_cpu_map cpus)) (commas_opt (map member_toks (map (fun kv => (kv.1, integer kv.2)) (role_cpu_map cpus)))).
Proof.
  apply lexes_field_lines; [|apply value_integer]. destruct cpus as [|c [|d cpus]]; repeat constructor.
Qed.

#[local] Hint Resolve value_columns role_map_lines : lex.

Lemma lexes_tail_affinity cfg failed : lexes (render_affinity cfg failed) (toks (affinity_value cfg failed)).
Proof.
  unfold render_affinity, affinity_value. eapply lexes_eq; [repeat lex_piece|].
  generalize (map (fun kv => (kv.1, integer kv.2)) (role_cpu_map cfg.(cpu_list))). intros l. same_tokens.
Qed.

Lemma lexes_tail_latency stats : lexes (render_latency stats) (toks (latency_value stats)).
Proof. unfold render_latency, latency_value. lex_report. Qed.

#[local] Hint Resolve lexes_tail_affinity lexes_tail_latency : lex.

(** The two members of a load that end with their comma. *)
Lemma lexes_tail_workload cfg load : lexes (render_workload cfg load) (app_opt (toks (workload_value cfg load)) (Some [Comma])).
Proof. unfold render_workload, workload_value. cbv zeta. lex_report. Qed.

Lemma lexes_tail_pause check :
  lexes (render_pause check) (app_opt (member_toks ("pause_validation", pause_value check)) (Some [Comma])).
Proof. unfold render_pause, pause_value. lex_report. Qed.

#[local] Hint Resolve lexes_tail_workload lexes_tail_pause : lex.

Lemma lexes_tail_load cfg l : lexes (render_load cfg l) (toks (load_value cfg l)).
Proof. unfold render_load, load_value. cbv zeta. destruct l.1.(pause_check) as [check|]; cbn [app]; lex_report. Qed.

#[local] Hint Resolve lexes_tail_load : lex.

Lemma lexes_report cfg failed common_max own_max loads p measured : unescaped p.(git_rev) = true ->
  lexes (report_text cfg failed common_max own_max loads p measured) (toks (report_value cfg failed common_max own_max loads p measured)).
Proof.
  intros Hrev. unfold report_text, render_setup, render_rates, render_provenance, report_value, setup_members, rate_members, provenance_members.
  cbn [app]. lex_report.
Qed.

Lemma with_stats_fst loads measured : with_stats loads = Some measured -> map fst measured = loads.
Proof.
  unfold with_stats. intros Hm%mapM_Some. induction Hm as [|l m ls ms Hl Hm IH]; [done|]. cbn [map]. rewrite IH.
  destruct (compute_stats l.(res_samples)); [|done]. apply (inj Some) in Hl as <-. done.
Qed.

(** C32: The report on the loads is a JSON text exactly if every number in it
    is finite, provided that the revision the build recorded needs no escape,
    and then it reads back as the configuration, the provenance, and for every
    load in order its verdicts, its pause, its workload and the statistics of
    its samples. *)
Theorem tail_report_reads_back cfg failed common_max own_max loads provenance out :
  unescaped provenance.(git_rev) = true -> write_result cfg failed common_max own_max loads provenance = Some out ->
  exists measured, with_stats loads = Some measured /\ map fst measured = loads /\
    parse_json out = report_value cfg failed common_max own_max loads provenance measured.
Proof.
  unfold write_result. intros Hrev Hout. destruct (with_stats loads) as [measured|] eqn:Hm; [|done].
  exists measured. split; [done|]. split; [by apply with_stats_fst|].
  change (Some (report_text cfg failed common_max own_max loads provenance measured) = Some out) in Hout.
  apply (inj Some) in Hout as <-. by apply parse_json_lexes, lexes_report.
Qed.
