(* ===== verification/H2h.v ===== *)
(** * H2h: the throughput harness src/bin/h2h_rust.rs

    The comparison events and their expected checksums, the handlers of the
    three scenarios, the values the producers publish, the rounds with their
    summary, and the exit status.  [None] is a panic. *)
From Stdlib Require Import Ascii.
From stdpp Require Import sorting.
From S2P Require Import Prelude Effects Errors Text Float64 CommandLine RingBuffer.

Definition MPSC_PRODUCERS : Z := 3.
Definition DEFAULT_TIMEOUT_SECS : Z := 300.

(** ** Events and checksums *)

Record ComparisonEvent : Type := mkComparisonEvent {
  value : Z;
  stage1_value : Z;
  stage2_value : Z;
  stage3_value : Z
}.

(** [arithmetic_checksum]: the sum below [n] in 128 bits, cast to 64. *)
Definition arithmetic_checksum (events_total : Z) : Z := wrap64 (Z.quot (events_total * (events_total - 1)) 2).

(** [pipeline_checksum]: the loop over the values from [v] on. *)
Fixpoint pipeline_checksum_from (n : nat) (v sum : Z) : Z :=
  match n with
  | O => sum
  | S n => pipeline_checksum_from n (v + 1) (sum +! (wrap64 v +! 11))
  end.
Definition pipeline_checksum (events_total : Z) : Z := pipeline_checksum_from (Z.to_nat events_total) 0 0.

(** ** Options *)

Inductive Scenario : Type := Unicast | UnicastBatch | MpscBatch | Pipeline.
Inductive WaitKind : Type := BusySpin | Yielding.
Inductive Pad : Type := NoPad | Align128.
Inductive HandlerMode : Type := ValueMode | Read | WriteOne | WriteThree | SideBuffer.

#[export] Instance Scenario_eq_dec : EqDecision Scenario.
Proof. solve_decision. Defined.
#[export] Instance Pad_eq_dec : EqDecision Pad.
Proof. solve_decision. Defined.
#[export] Instance HandlerMode_eq_dec : EqDecision HandlerMode.
Proof. solve_decision. Defined.

Definition scenario_parse (s : string) : result Scenario string :=
  if String.eqb s "unicast" then Ok Unicast else
  if String.eqb s "unicast_batch" then Ok UnicastBatch else
  if String.eqb s "mpsc_batch" then Ok MpscBatch else
  if String.eqb s "pipeline" then Ok Pipeline else Err ("unsupported scenario: " +:+ s).

Definition scenario_as_str (s : Scenario) : string :=
  match s with Unicast => "unicast" | UnicastBatch => "unicast_batch" | MpscBatch => "mpsc_batch" | Pipeline => "pipeline" end.

Definition default_wait (s : Scenario) : WaitKind := match s with MpscBatch => BusySpin | _ => Yielding end.
Definition default_buffer (s : Scenario) : Z := match s with Pipeline => 8192 | _ => 65536 end.
Definition default_events (s : Scenario) (quick : bool) : Z :=
  if quick then match s with MpscBatch => 3000000 | _ => 1000000 end
  else match s with MpscBatch => 60000000 | _ => 100000000 end.
Definition default_batch (s : Scenario) : Z :=
  match s with Unicast | Pipeline => 1 | UnicastBatch | MpscBatch => 10 end.

Definition wait_kind_parse (s : string) : result WaitKind string :=
  if String.eqb s "busy-spin" then Ok BusySpin else
  if String.eqb s "yielding" then Ok Yielding else Err ("unsupported wait-strategy: " +:+ s).

Definition wait_kind_as_str (w : WaitKind) : string :=
  match w with BusySpin => "busy-spin" | Yielding => "yielding" end.

Definition pad_parse (s : string) : result Pad string :=
  if String.eqb s "none" then Ok NoPad else
  if String.eqb s "128" then Ok Align128 else
  if String.eqb s "64" then Err "padding 64 removed; use none or 128" else
  Err ("unsupported event-padding: " +:+ s).

Definition pad_as_str (p : Pad) : string := match p with NoPad => "none" | Align128 => "128" end.
Definition pad_slot_padding (p : Pad) : SlotPadding := match p with NoPad => RingBuffer.PadNone | Align128 => CacheLine128 end.

Definition handler_mode_parse (s : string) : result HandlerMode string :=
  if String.eqb s "value" then Ok ValueMode else
  if String.eqb s "r" then Ok Read else
  if String.eqb s "w1" then Ok WriteOne else
  if String.eqb s "w3" then Ok WriteThree else
  if String.eqb s "sb" then Ok SideBuffer else Err ("unsupported handler-mode: " +:+ s).

Definition handler_mode_as_str (m : HandlerMode) : string :=
  match m with ValueMode => "value" | Read => "r" | WriteOne => "w1" | WriteThree => "w3" | SideBuffer => "sb" end.

Record Config : Type := mkConfig {
  scenario : Scenario;
  wait : WaitKind;
  pad : Pad;
  buffer_size : Z;
  events_total : Z;
  batch_size : Z;
  warmup_rounds : Z;
  measured_rounds : Z;
  run_order : string;
  pair_id : string;
  fork_index : Z;
  harness_rev : option string;
  implementation_rev : option string;
  harness_dirty : option bool;
  implementation_dirty : option bool;
  impl_label : string;
  output : option string;
  timeout : Z;
  cpu_list : list Z;
  handler_mode : HandlerMode
}.

(** [Config::cpu], [Config::affinity_verified_all] *)
Definition cpu (cfg : Config) (index : nat) : option Z := cfg.(cpu_list) !! index.
Definition affinity_verified_all (cfg : Config) (affinity_failed : bool) : bool :=
  negb (is_empty cfg.(cpu_list)) && negb affinity_failed.

(** The roles of a scenario and the position of their CPU in the list. *)
Definition roles (s : Scenario) : list (string * nat) :=
  match s with
  | Unicast | UnicastBatch => [("publisher", 0); ("consumer", 1)]
  | MpscBatch => [("coordinator", 0); ("producer_0", 0); ("producer_1", 1); ("producer_2", 2); ("consumer", 3)]
  | Pipeline => [("publisher", 0); ("stage_1", 1); ("stage_2", 2); ("stage_3", 3)]
  end%nat.

(** [Config::affinity_roles]: indexing past the list panics. *)
Definition affinity_roles (cfg : Config) : option (list (string * Z)) :=
  match cfg.(cpu_list) with
  | [] => Some []
  | _ => mapM (fun r => match cfg.(cpu_list) !! snd r with Some c => Some (fst r, c) | None => None end) (roles cfg.(scenario))
  end.

(** ** The command line *)

(** The local variables of [parse_args]. *)
Record Raw : Type := mkRaw {
  r_scenario : option Scenario;
  r_wait : option WaitKind;
  r_pad : Pad;
  r_buffer_size : option Z;
  r_events_total : option Z;
  r_batch_size : option Z;
  r_warmup_rounds : Z;
  r_measured_rounds : Z;
  r_run_order : string;
  r_pair_id : string;
  r_fork_index : Z;
  r_harness_rev : option string;
  r_implementation_rev : option string;
  r_harness_dirty : option bool;
  r_implementation_dirty : option bool;
  r_impl_label : string;
  r_output : option string;
  r_quick : bool;
  r_cpu_list : list Z;
  r_handler_mode : HandlerMode
}.

Definition raw_default : Raw :=
  mkRaw None None NoPad None None None 3 7 "standalone" "standalone" 0 None None None None "badbatch-builder" None false [] ValueMode.

(** Assignments to them. *)
Definition set_scenario (x : option Scenario) (r : Raw) : Raw :=
  mkRaw x r.(r_wait) r.(r_pad) r.(r_buffer_size) r.(r_events_total) r.(r_batch_size) r.(r_warmup_rounds) r.(r_measured_rounds) r.(r_run_order)
    r.(r_pair_id) r.(r_fork_index) r.(r_harness_rev) r.(r_implementation_rev) r.(r_harness_dirty) r.(r_implementation_dirty) r.(r_impl_label)
    r.(r_output) r.(r_quick) r.(r_cpu_list) r.(r_handler_mode).
Definition set_wait (x : option WaitKind) (r : Raw) : Raw :=
  mkRaw r.(r_scenario) x r.(r_pad) r.(r_buffer_size) r.(r_events_total) r.(r_batch_size) r.(r_warmup_rounds) r.(r_measured_rounds) r.(r_run_order)
    r.(r_pair_id) r.(r_fork_index) r.(r_harness_rev) r.(r_implementation_rev) r.(r_harness_dirty) r.(r_implementation_dirty) r.(r_impl_label)
    r.(r_output) r.(r_quick) r.(r_cpu_list) r.(r_handler_mode).
Definition set_pad (x : Pad) (r : Raw) : Raw :=
  mkRaw r.(r_scenario) r.(r_wait) x r.(r_buffer_size) r.(r_events_total) r.(r_batch_size) r.(r_warmup_rounds) r.(r_measured_rounds) r.(r_run_order)
    r.(r_pair_id) r.(r_fork_index) r.(r_harness_rev) r.(r_implementation_rev) r.(r_harness_dirty) r.(r_implementation_dirty) r.(r_impl_label)
    r.(r_output) r.(r_quick) r.(r_cpu_list) r.(r_handler_mode).
Definition set_buffer_size (x : option Z) (r : Raw) : Raw :=
  mkRaw r.(r_scenario) r.(r_wait) r.(r_pad) x r.(r_events_total) r.(r_batch_size) r.(r_warmup_rounds) r.(r_measured_rounds) r.(r_run_order)
    r.(r_pair_id) r.(r_fork_index) r.(r_harness_rev) r.(r_implementation_rev) r.(r_harness_dirty) r.(r_implementation_dirty) r.(r_impl_label)
    r.(r_output) r.(r_quick) r.(r_cpu_list) r.(r_handler_mode).
Definition set_events_total (x : option Z) (r : Raw) : Raw :=
  mkRaw r.(r_scenario) r.(r_wait) r.(r_pad) r.(r_buffer_size) x r.(r_batch_size) r.(r_warmup_rounds) r.(r_measured_rounds) r.(r_run_order)
    r.(r_pair_id) r.(r_fork_index) r.(r_harness_rev) r.(r_implementation_rev) r.(r_harness_dirty) r.(r_implementation_dirty) r.(r_impl_label)
    r.(r_output) r.(r_quick) r.(r_cpu_list) r.(r_handler_mode).
Definition set_batch_size (x : option Z) (r : Raw) : Raw :=
  mkRaw r.(r_scenario) r.(r_wait) r.(r_pad) r.(r_buffer_size) r.(r_events_total) x r.(r_warmup_rounds) r.(r_measured_rounds) r.(r_run_order)
    r.(r_pair_id) r.(r_fork_index) r.(r_harness_rev) r.(r_implementation_rev) r.(r_harness_dirty) r.(r_implementation_dirty) r.(r_impl_label)
    r.(r_output) r.(r_quick) r.(r_cpu_list) r.(r_handler_mode).
Definition set_warmup_rounds (x : Z) (r : Raw) : Raw :=
  mkRaw r.(r_scenario) r.(r_wait) r.(r_pad) r.(r_buffer_size) r.(r_events_total) r.(r_batch_size) x r.(r_measured_rounds) r.(r_run_order)
    r.(r_pair_id) r.(r_fork_index) r.(r_harness_rev) r.(r_implementation_rev) r.(r_harness_dirty) r.(r_implementation_dirty) r.(r_impl_label)
    r.(r_output) r.(r_quick) r.(r_cpu_list) r.(r_handler_mode).
Definition set_measured_rounds (x : Z) (r : Raw) : Raw :=
  mkRaw r.(r_scenario) r.(r_wait) r.(r_pad) r.(r_buffer_size) r.(r_events_total) r.(r_batch_size) r.(r_warmup_rounds) x r.(r_run_order) r.(r_pair_id)
    r.(r_fork_index) r.(r_harness_rev) r.(r_implementation_rev) r.(r_harness_dirty) r.(r_implementation_dirty) r.(r_impl_label) r.(r_output)
    r.(r_quick) r.(r_cpu_list) r.(r_handler_mode).
Definition set_run_order (x : string) (r : Raw) : Raw :=
  mkRaw r.(r_scenario) r.(r_wait) r.(r_pad) r.(r_buffer_size) r.(r_events_total) r.(r_batch_size) r.(r_warmup_rounds) r.(r_measured_rounds) x
    r.(r_pair_id) r.(r_fork_index) r.(r_harness_rev) r.(r_implementation_rev) r.(r_harness_dirty) r.(r_implementation_dirty) r.(r_impl_label)
    r.(r_output) r.(r_quick) r.(r_cpu_list) r.(r_handler_mode).
Definition set_pair_id (x : string) (r : Raw) : Raw :=
  mkRaw r.(r_scenario) r.(r_wait) r.(r_pad) r.(r_buffer_size) r.(r_events_total) r.(r_batch_size) r.(r_warmup_rounds) r.(r_measured_rounds)
    r.(r_run_order) x r.(r_fork_index) r.(r_harness_rev) r.(r_implementation_rev) r.(r_harness_dirty) r.(r_implementation_dirty) r.(r_impl_label)
    r.(r_output) r.(r_quick) r.(r_cpu_list) r.(r_handler_mode).
Definition set_fork_index (x : Z) (r : Raw) : Raw :=
  mkRaw r.(r_scenario) r.(r_wait) r.(r_pad) r.(r_buffer_size) r.(r_events_total) r.(r_batch_size) r.(r_warmup_rounds) r.(r_measured_rounds)
    r.(r_run_order) r.(r_pair_id) x r.(r_harness_rev) r.(r_implementation_rev) r.(r_harness_dirty) r.(r_implementation_dirty) r.(r_impl_label)
    r.(r_output) r.(r_quick) r.(r_cpu_list) r.(r_handler_mode).
Definition set_harness_rev (x : option string) (r : Raw) : Raw :=
  mkRaw r.(r_scenario) r.(r_wait) r.(r_pad) r.(r_buffer_size) r.(r_events_total) r.(r_batch_size) r.(r_warmup_rounds) r.(r_measured_rounds)
    r.(r_run_order) r.(r_pair_id) r.(r_fork_index) x r.(r_implementation_rev) r.(r_harness_dirty) r.(r_implementation_dirty) r.(r_impl_label)
    r.(r_output) r.(r_quick) r.(r_cpu_list) r.(r_handler_mode).
Definition set_implementation_rev (x : option string) (r : Raw) : Raw :=
  mkRaw r.(r_scenario) r.(r_wait) r.(r_pad) r.(r_buffer_size) r.(r_events_total) r.(r_batch_size) r.(r_warmup_rounds) r.(r_measured_rounds)
    r.(r_run_order) r.(r_pair_id) r.(r_fork_index) r.(r_harness_rev) x r.(r_harness_dirty) r.(r_implementation_dirty) r.(r_impl_label) r.(r_output)
    r.(r_quick) r.(r_cpu_list) r.(r_handler_mode).
Definition set_harness_dirty (x : option bool) (r : Raw) : Raw :=
  mkRaw r.(r_scenario) r.(r_wait) r.(r_pad) r.(r_buffer_size) r.(r_events_total) r.(r_batch_size) r.(r_warmup_rounds) r.(r_measured_rounds)
    r.(r_run_order) r.(r_pair_id) r.(r_fork_index) r.(r_harness_rev) r.(r_implementation_rev) x r.(r_implementation_dirty) r.(r_impl_label)
    r.(r_output) r.(r_quick) r.(r_cpu_list) r.(r_handler_mode).
Definition set_implementation_dirty (x : option bool) (r : Raw) : Raw :=
  mkRaw r.(r_scenario) r.(r_wait) r.(r_pad) r.(r_buffer_size) r.(r_events_total) r.(r_batch_size) r.(r_warmup_rounds) r.(r_measured_rounds)
    r.(r_run_order) r.(r_pair_id) r.(r_fork_index) r.(r_harness_rev) r.(r_implementation_rev) r.(r_harness_dirty) x r.(r_impl_label) r.(r_output)
    r.(r_quick) r.(r_cpu_list) r.(r_handler_mode).
Definition set_impl_label (x : string) (r : Raw) : Raw :=
  mkRaw r.(r_scenario) r.(r_wait) r.(r_pad) r.(r_buffer_size) r.(r_events_total) r.(r_batch_size) r.(r_warmup_rounds) r.(r_measured_rounds)
    r.(r_run_order) r.(r_pair_id) r.(r_fork_index) r.(r_harness_rev) r.(r_implementation_rev) r.(r_harness_dirty) r.(r_implementation_dirty) x
    r.(r_output) r.(r_quick) r.(r_cpu_list) r.(r_handler_mode).
Definition set_output (x : option string) (r : Raw) : Raw :=
  mkRaw r.(r_scenario) r.(r_wait) r.(r_pad) r.(r_buffer_size) r.(r_events_total) r.(r_batch_size) r.(r_warmup_rounds) r.(r_measured_rounds)
    r.(r_run_order) r.(r_pair_id) r.(r_fork_index) r.(r_harness_rev) r.(r_implementation_rev) r.(r_harness_dirty) r.(r_implementation_dirty)
    r.(r_impl_label) x r.(r_quick) r.(r_cpu_list) r.(r_handler_mode).
Definition set_quick (x : bool) (r : Raw) : Raw :=
  mkRaw r.(r_scenario) r.(r_wait) r.(r_pad) r.(r_buffer_size) r.(r_events_total) r.(r_batch_size) r.(r_warmup_rounds) r.(r_measured_rounds)
    r.(r_run_order) r.(r_pair_id) r.(r_fork_index) r.(r_harness_rev) r.(r_implementation_rev) r.(r_harness_dirty) r.(r_implementation_dirty)
    r.(r_impl_label) r.(r_output) x r.(r_cpu_list) r.(r_handler_mode).
Definition set_cpu_list (x : list Z) (r : Raw) : Raw :=
  mkRaw r.(r_scenario) r.(r_wait) r.(r_pad) r.(r_buffer_size) r.(r_events_total) r.(r_batch_size) r.(r_warmup_rounds) r.(r_measured_rounds)
    r.(r_run_order) r.(r_pair_id) r.(r_fork_index) r.(r_harness_rev) r.(r_implementation_rev) r.(r_harness_dirty) r.(r_implementation_dirty)
    r.(r_impl_label) r.(r_output) r.(r_quick) x r.(r_handler_mode).
Definition set_handler_mode (x : HandlerMode) (r : Raw) : Raw :=
  mkRaw r.(r_scenario) r.(r_wait) r.(r_pad) r.(r_buffer_size) r.(r_events_total) r.(r_batch_size) r.(r_warmup_rounds) r.(r_measured_rounds)
    r.(r_run_order) r.(r_pair_id) r.(r_fork_index) r.(r_harness_rev) r.(r_implementation_rev) r.(r_harness_dirty) r.(r_implementation_dirty)
    r.(r_impl_label) r.(r_output) r.(r_quick) r.(r_cpu_list) x.

(** [str::parse::<bool>()] *)
Definition boolean (name : string) (v : string) : result bool string :=
  if String.eqb v "true" then Ok true else
  if String.eqb v "false" then Ok false else Err (name +:+ ": provided string was not `true` or `false`").

Definition some {A} (f : string -> result A string) (v : string) : result (option A) string :=
  match f v with Ok a => Ok (Some a) | Err e => Err e end.

Definition flag_of (a : string) : Flag Raw :=
  if String.eqb a "--scenario" then Value "missing --scenario value" (assign (some scenario_parse) set_scenario) else
  if String.eqb a "--wait-strategy" then Value "missing --wait-strategy value" (assign (some wait_kind_parse) set_wait) else
  if String.eqb a "--event-padding" then Value "missing --event-padding value" (assign pad_parse set_pad) else
  if String.eqb a "--handler-mode" then Value "missing --handler-mode value" (assign handler_mode_parse set_handler_mode) else
  if String.eqb a "--buffer-size" then Value "missing --buffer-size" (assign (plain "buffer-size") set_buffer_size) else
  if String.eqb a "--events-total" then Value "missing --events-total" (assign (grouped "events-total") set_events_total) else
  if String.eqb a "--batch-size" then Value "missing --batch-size" (assign (plain "batch-size") set_batch_size) else
  if String.eqb a "--warmup-rounds" then Value "missing --warmup-rounds" (assign (number "warmup-rounds") set_warmup_rounds) else
  if String.eqb a "--measured-rounds" then Value "missing --measured-rounds" (assign (number "measured-rounds") set_measured_rounds) else
  if String.eqb a "--run-order" then Value "missing --run-order" (assign Ok set_run_order) else
  if String.eqb a "--pair-id" then Value "missing --pair-id" (assign Ok set_pair_id) else
  if String.eqb a "--fork-index" then Value "missing --fork-index" (assign (number "fork-index") set_fork_index) else
  if String.eqb a "--harness-rev" then Value "missing --harness-rev" (assign (some Ok) set_harness_rev) else
  if String.eqb a "--implementation-rev" then Value "missing --implementation-rev" (assign (some Ok) set_implementation_rev) else
  if String.eqb a "--harness-dirty" then Value "missing --harness-dirty" (assign (some (boolean "harness-dirty")) set_harness_dirty) else
  if String.eqb a "--implementation-dirty" then Value "missing --implementation-dirty" (assign (some (boolean "implementation-dirty")) set_implementation_dirty) else
  if String.eqb a "--impl-label" then Value "missing --impl-label" (assign Ok set_impl_label) else
  if String.eqb a "--output" then Value "missing --output" (assign (some Ok) set_output) else
  if String.eqb a "--cpu-list" then Value "missing --cpu-list" (assign parse_cpu_list set_cpu_list) else
  if String.eqb a "--round-diagnostics" then Refused "--round-diagnostics requires --features bench-round-diagnostics" else
  if String.eqb a "--quick" then Switch (set_quick true) else
  if String.eqb a "--help" || String.eqb a "-h" then HelpFlag else Unknown.

Definition required_cpus (s : Scenario) : nat := match s with Unicast | UnicastBatch => 2 | MpscBatch | Pipeline => 4 end.

(** The end of [parse_args]: defaults by scenario, and the checks. *)
Definition finish_args (r : Raw) : result Config string :=
  match r.(r_scenario) with
  | None => Err "required: --scenario"
  | Some scenario =>
      let wait := match r.(r_wait) with Some w => w | None => default_wait scenario end in
      let buffer_size := or_default (default_buffer scenario) r.(r_buffer_size) in
      let events_total := or_default (default_events scenario r.(r_quick)) r.(r_events_total) in
      let batch_size := or_default (default_batch scenario) r.(r_batch_size) in
      match first_error [
        (negb (is_power_of_two buffer_size) || (buffer_size =? 0), "buffer-size must be power of two, got " +:+ show_uint buffer_size);
        (r.(r_measured_rounds) =? 0, "measured-rounds must be > 0");
        ((batch_size =? 0) || (events_total =? 0), "batch-size and events-total must be > 0");
        (bool_decide (scenario = MpscBatch) && negb (events_total mod MPSC_PRODUCERS =? 0),
          "mpsc_batch events-total must be divisible by " +:+ show_uint MPSC_PRODUCERS);
        (bool_decide (r.(r_pad) <> NoPad) && bool_decide (scenario = MpscBatch), "event-padding not supported for mpsc_batch in this harness");
        (bool_decide (r.(r_handler_mode) <> ValueMode) && bool_decide (scenario <> Unicast),
          "experimental handler modes are supported only for unicast");
        (negb (is_empty r.(r_cpu_list)) && (length r.(r_cpu_list) <? required_cpus scenario)%nat,
          "scenario " +:+ scenario_as_str scenario +:+ " requires at least " +:+ show_uint (Z.of_nat (required_cpus scenario)) +:+
          " CPUs, got " +:+ show_uint (Z.of_nat (length r.(r_cpu_list))))
      ] with
      | Some e => Err e
      | None =>
          let warmup_rounds := if r.(r_quick) then Z.min r.(r_warmup_rounds) 1 else r.(r_warmup_rounds) in
          let measured_rounds := if r.(r_quick) then Z.min r.(r_measured_rounds) 2 else r.(r_measured_rounds) in
          Ok (mkConfig scenario wait r.(r_pad) buffer_size events_total batch_size warmup_rounds measured_rounds r.(r_run_order)
                r.(r_pair_id) r.(r_fork_index) r.(r_harness_rev) r.(r_implementation_rev) r.(r_harness_dirty) r.(r_implementation_dirty)
                r.(r_impl_label) r.(r_output) (DEFAULT_TIMEOUT_SECS * 1000000000) r.(r_cpu_list) r.(r_handler_mode))
      end
  end.

(** [parse_args], of the words after the program's name. *)
Definition parse_args (args : list string) : parsed Config :=
  match parse_loop flag_of args raw_default with
  | HelpExit => HelpExit
  | Parsed (Err e) => Parsed (Err e)
  | Parsed (Ok r) => Parsed (finish_args r)
  end.

(** ** Handlers *)

Inductive TerminalMode : Type := TerminalValue | TerminalPipeline.

Record TerminalHandler : Type := mkTerminalHandler {
  th_events_total : Z;
  final_sequence : Z;
  local_checksum : Z;
  mode : TerminalMode;
  th_handler_mode : HandlerMode;
  side_buffer : list Z
}.

(** The atomics shared with the main thread. *)
Record Counters : Type := mkCounters { processed : Z; checksum : Z; ready : Z }.

(** [TerminalHandler::new] *)
Definition terminal_new (events_total : Z) (mode : TerminalMode) (handler_mode : HandlerMode) (buffer_size : Z) : option TerminalHandler :=
  match i64_try_from events_total with
  | None => None
  | Some n =>
      Some (mkTerminalHandler events_total (n -! 1) 0 mode handler_mode
              (match handler_mode with SideBuffer => replicate (Z.to_nat buffer_size) 0 | _ => [] end))
  end.

(** [complete_if_final] *)
Definition complete_if_final (h : TerminalHandler) (sequence : Z) (c : Counters) : Counters :=
  if sequence =? h.(final_sequence) then mkCounters h.(th_events_total) h.(local_checksum) c.(ready) else c.

(** The modes other than the plain value: the arithmetic of the pipeline, and
    where its results are written.  A side-buffer index past the buffer is
    undefined behaviour of the volatile write, here a panic. *)
Definition graded_value (h : TerminalHandler) (event : ComparisonEvent) (sequence : Z) :
    option (Z * ComparisonEvent * list Z) :=
  let x1 := event.(value) +! 1 in
  let x2 := x1 +! 3 in
  let x3 := x2 +! 7 in
  match h.(th_handler_mode) with
  | ValueMode => None
  | Read => Some (x3, event, h.(side_buffer))
  | WriteOne => Some (x3, mkComparisonEvent event.(value) event.(stage1_value) event.(stage2_value) x3, h.(side_buffer))
  | WriteThree => Some (x3, mkComparisonEvent event.(value) x1 x2 x3, h.(side_buffer))
  | SideBuffer =>
      let index := Z.to_nat (Z.land (as_u64 sequence) (as_u64 (Z.of_nat (length h.(side_buffer)) - 1))) in
      match h.(side_buffer) !! index with
      | None => None
      | Some _ => Some (x3, event, <[index := x3]> h.(side_buffer))
      end
  end.

(** [TerminalHandler::on_event] *)
Definition terminal_on_event (h : TerminalHandler) (event : ComparisonEvent) (sequence : Z) (c : Counters) :
    option (ComparisonEvent * TerminalHandler * Counters) :=
  match
    match h.(mode), h.(th_handler_mode) with
    | TerminalValue, ValueMode => Some (event.(value), event, h.(side_buffer))
    | TerminalValue, _ => graded_value h event sequence
    | TerminalPipeline, _ =>
        let v := event.(stage2_value) +! 7 in
        Some (v, mkComparisonEvent event.(value) event.(stage1_value) event.(stage2_value) v, h.(side_buffer))
    end
  with
  | None => None
  | Some (v, event, side) =>
      let h := mkTerminalHandler h.(th_events_total) h.(final_sequence) (as_u64 (h.(local_checksum) + as_u64 v)) h.(mode)
                 h.(th_handler_mode) side in
      Some (event, h, complete_if_final h sequence c)
  end.

(** [PipelineStageHandler::on_event] of the stage. *)
Definition stage_on_event (stage : Z) (event : ComparisonEvent) : option ComparisonEvent :=
  if stage =? 1 then Some (mkComparisonEvent event.(value) (event.(value) +! 1) event.(stage2_value) event.(stage3_value)) else
  if stage =? 2 then Some (mkComparisonEvent event.(value) event.(stage1_value) (event.(stage1_value) +! 3) event.(stage3_value)) else None.

(** The terminal handler's calls for the events of the sequences from
    [sequence] on. *)
Fixpoint terminal_run (h : TerminalHandler) (c : Counters) (sequence : Z) (events : list ComparisonEvent) : option (TerminalHandler * Counters) :=
  match events with
  | [] => Some (h, c)
  | e :: es =>
      match terminal_on_event h e sequence c with
      | None => None
      | Some (_, h, c) => terminal_run h c (sequence + 1) es
      end
  end.

(** ** What is published *)

(** The event of a publication closure. *)
Definition fresh (v : Z) : ComparisonEvent := mkComparisonEvent (wrap64 v) 0 0 0.

(** The batches of a producer from [published] to [range_end]: the loop of
    [run_unicast_w] and of each producer of [run_mpsc_batch_w]. *)
Fixpoint batches (fuel : nat) (batch published range_end : Z) : option (list (list ComparisonEvent)) :=
  match fuel with
  | O => None
  | S fuel =>
      if published <? range_end then
        let chunk := Z.min batch (range_end - published) in
        match batches fuel batch (published + chunk) range_end with
        | None => None
        | Some rest => Some (map (fun j => fresh (published + j)) (seqZ 0 chunk) :: rest)
        end
      else Some []
  end.

(** The range of the producer [id]. *)
Definition producer_range (cfg : Config) (id : Z) : Z * Z :=
  let per := cfg.(events_total) / MPSC_PRODUCERS in (per * id, per * id + per).

(** The expected checksum of a scenario. *)
Definition expected_checksum (cfg : Config) : Z :=
  match cfg.(scenario) with
  | Unicast | UnicastBatch =>
      match cfg.(handler_mode) with ValueMode => arithmetic_checksum cfg.(events_total) | _ => pipeline_checksum cfg.(events_total) end
  | MpscBatch => arithmetic_checksum cfg.(events_total)
  | Pipeline => pipeline_checksum cfg.(events_total)
  end.

(** The terminal handler of a scenario. *)
Definition scenario_terminal (cfg : Config) : option TerminalHandler :=
  match cfg.(scenario) with
  | Unicast | UnicastBatch => terminal_new cfg.(events_total) TerminalValue cfg.(handler_mode) cfg.(buffer_size)
  | MpscBatch => terminal_new cfg.(events_total) TerminalValue ValueMode cfg.(buffer_size)
  | Pipeline => terminal_new cfg.(events_total) TerminalPipeline ValueMode cfg.(buffer_size)
  end.

(** ** Rounds *)

Record Round : Type := mkRound {
  index : Z;
  phase : string;
  elapsed_ns : Z;
  events : Z;
  ops_per_sec : f64;
  checksum_ok : bool
}.

(** What the system answers in a round. *)
Record RoundEnv : Type := mkRoundEnv {
  env_ready : bool;
  env_pin_failed : bool;
  env_producers_ready : bool;
  env_producer_pin_failed : bool;
  env_producer_panicked : bool;
  env_completed : bool;
  env_processed : Z;
  env_elapsed : Z;
  env_checksum : Z
}.

(** The literal [1e-12], rounded; [f64::max]. *)
Definition f64_1e_12 : f64 := SpecFloat.S754_finite false 4951760157141521 (-92).
Definition f64_max (a b : f64) : f64 := if f64_lt a b then b else a.

Definition finish_round (cfg : Config) (i : Z) (env : RoundEnv) : Round :=
  mkRound (i + 1) (if i <? cfg.(warmup_rounds) then "warmup" else "measured") env.(env_elapsed) cfg.(events_total)
    (f64_div (of_Z cfg.(events_total)) (f64_max (as_secs_f64 env.(env_elapsed)) f64_1e_12))
    (wrap64 env.(env_checksum) =? expected_checksum cfg).

(** The first check that fails ends the run; otherwise the round is recorded. *)
Definition conclude (cfg : Config) (i : Z) (env : RoundEnv) (checks : list (bool * string)) : result Round string :=
  match first_error checks with Some e => Err e | None => Ok (finish_round cfg i env) end.

(** The body of the loop of [run_unicast_w] *)
Definition unicast_round (cfg : Config) (i : Z) (env : RoundEnv) : result Round string :=
  conclude cfg i env [
    (negb env.(env_ready), "timeout waiting for unicast consumer readiness");
    (env.(env_pin_failed), "failed to pin unicast worker threads");
    (negb env.(env_completed), "timeout waiting for unicast completion (got " +:+ show_uint env.(env_processed) +:+ ")")].

(** The body of the loop of [run_mpsc_batch_w] *)
Definition mpsc_round (cfg : Config) (i : Z) (env : RoundEnv) : result Round string :=
  conclude cfg i env [
    (negb env.(env_ready), "timeout waiting for mpsc consumer readiness");
    (env.(env_pin_failed), "failed to pin mpsc consumer thread");
    (negb env.(env_producers_ready), "timeout waiting for mpsc producer readiness");
    (env.(env_producer_pin_failed), "failed to pin mpsc producer threads");
    (env.(env_producer_panicked), "producer panic");
    (negb env.(env_completed), "timeout mpsc completion")].

(** The body of the loop of [run_pipeline_w] *)
Definition pipeline_round (cfg : Config) (i : Z) (env : RoundEnv) : result Round string :=
  conclude cfg i env [
    (negb env.(env_ready), "timeout waiting for pipeline stage readiness");
    (env.(env_pin_failed), "failed to pin pipeline worker threads");
    (negb env.(env_completed), "timeout pipeline completion")].

Definition run_round (cfg : Config) : Z -> RoundEnv -> result Round string :=
  match cfg.(scenario) with
  | Unicast | UnicastBatch => unicast_round cfg
  | MpscBatch => mpsc_round cfg
  | Pipeline => pipeline_round cfg
  end.

(** All rounds. *)
Definition run_rounds (cfg : Config) (env : Z -> RoundEnv) : result (list Round) string :=
  collect (fun i => run_round cfg i (env i)) (seqZ 0 (as_u64 (cfg.(warmup_rounds) + cfg.(measured_rounds)))).

(** ** Summary and exit status *)

Record Summary : Type := mkSummary {
  checksum_valid_all : bool;
  median_ops_per_sec : f64;
  mean_ops_per_sec : f64;
  min_ops_per_sec : f64;
  max_ops_per_sec : f64;
  stddev_ops_per_sec : f64;
  cv : f64
}.

(** [sort_by(partial_cmp.unwrap())], as insertion: a comparison with what is
    not a number panics. *)
Fixpoint f64_insert (x : f64) (l : list f64) : option (list f64) :=
  match l with
  | [] => Some [x]
  | y :: l' =>
      match SpecFloat.SFcompare x y with
      | None => None
      | Some Gt => match f64_insert x l' with Some l'' => Some (y :: l'') | None => None end
      | Some _ => Some (x :: y :: l')
      end
  end.
Fixpoint f64_sort (l : list f64) : option (list f64) :=
  match l with
  | [] => Some []
  | x :: l' => match f64_sort l' with Some s => f64_insert x s | None => None end
  end.

(** [summarize] *)
Definition summarize (rounds : list Round) (warmup : Z) : option Summary :=
  let measured := map ops_per_sec (drop (Z.to_nat warmup) rounds) in
  let checksum_valid_all := forallb checksum_ok rounds in
  match measured with
  | [] => Some (mkSummary checksum_valid_all f64_zero f64_zero f64_zero f64_zero f64_zero f64_zero)
  | _ =>
      let n := length measured in
      match f64_sort measured with
      | None => None
      | Some sorted =>
          let median := if Nat.odd n then sorted !! (n / 2)%nat else
            match sorted !! (n / 2 - 1)%nat, sorted !! (n / 2)%nat with
            | Some lower, Some upper => Some (f64_midpoint lower upper)
            | _, _ => None
            end in
          match median, sorted !! 0%nat, sorted !! (n - 1)%nat with
          | Some median, Some min, Some max =>
              let len := of_Z (Z.of_nat n) in
              let mean := f64_div (f64_sum measured) len in
              let square x := let d := f64_sub x mean in f64_mul d d in
              let stddev := f64_sqrt (f64_div (f64_sum (map square measured)) len) in
              let cv := if f64_lt f64_zero mean then f64_div stddev mean else f64_zero in
              Some (mkSummary checksum_valid_all median mean min max stddev cv)
          | _, _, _ => None
          end
      end
  end.

(** [main] after the arguments: the exit status, [files_written] saying whether
    the result could be. *)
Definition main_exit (cfg : Config) (pin_failed files_written : bool) (env : Z -> RoundEnv) : option Z :=
  if negb (is_empty cfg.(cpu_list)) && pin_failed then Some 1 else
  match run_rounds cfg env with
  | Err _ => Some 1
  | Ok rounds =>
      match summarize rounds cfg.(warmup_rounds) with
      | None => None
      | Some summary =>
          if negb files_written then Some 1 else if negb summary.(checksum_valid_all) then Some 2 else Some 0
      end
  end.
