(* ===== verification/H2hSpec.v ===== *)
(** * H2hSpec: the theorems on the throughput harness of [H2h]: what it
    publishes, that the checksum of a round is the expected one exactly if
    every event has arrived once, and what its exit status says. *)
From Stdlib Require Import Ascii.
From stdpp Require Import sorting.
From S2P Require Import Prelude Effects Errors Text Float64 CommandLine RingBuffer Checksums H2h.

(** ** The expected checksums *)

Lemma arithmetic_spec n : 0 <= n -> arithmetic_checksum n = wrap64 (total (seqZ 0 n)).
Proof.
  intros Hn. pose proof (total_seqZ (Z.to_nat n)) as H. rewrite Z2Nat.id in H by done.
  unfold arithmetic_checksum. rewrite <- H, Z.quot_mul by done. done.
Qed.

Lemma pipeline_from_spec n v sum : pipeline_checksum_from n v (wrap64 sum) = wrap64 (sum + total (map (fun v => v + 11) (seqZ v (Z.of_nat n)))).
Proof.
  revert v sum. induction n as [|n IH]; intros v sum; cbn [pipeline_checksum_from]; [by rewrite Z.add_0_r|].
  rewrite (wrap_wrap_l sum), (wrap_wrap_l v), (wrap_wrap_r sum), IH, (seqZ_cons v) by lia. cbn [map]. rewrite total_cons.
  replace (Z.pred (Z.of_nat (S n))) with (Z.of_nat n) by lia. rewrite <- (Z.add_1_r v). f_equal. lia.
Qed.

Lemma h2h_pipeline_spec n : 0 <= n -> pipeline_checksum n = wrap64 (total (map (fun v => v + 11) (seqZ 0 n))).
Proof.
  intros Hn. unfold pipeline_checksum. change 0 with (wrap64 0) at 2. rewrite pipeline_from_spec, Z2Nat.id by done. done.
Qed.

(** ** The terminal handler *)

(** What an event adds to the checksum. *)
Definition worth (h : TerminalHandler) (e : ComparisonEvent) : Z :=
  match h.(mode), h.(th_handler_mode) with
  | TerminalValue, ValueMode => e.(value)
  | TerminalValue, _ => e.(value) + 11
  | TerminalPipeline, _ => e.(stage2_value) + 7
  end.

(** A side buffer has a power-of-two number of slots. *)
Definition side_ok (h : TerminalHandler) : Prop :=
  h.(th_handler_mode) = SideBuffer -> exists k, 0 <= k <= 63 /\ Z.of_nat (length h.(side_buffer)) = 2 ^ k.

Lemma side_index k s l : 0 <= k <= 63 -> Z.of_nat (length l) = 2 ^ k -> 
  exists v : Z, (l : list Z) !! Z.to_nat (Z.land (as_u64 s) (as_u64 (Z.of_nat (length l) - 1))) = Some v.
Proof.
  intros Hk Hl. assert (Hpow : 0 < 2 ^ k <= 2 ^ 63) by (split; [apply Z.pow_pos_nonneg; lia | apply Z.pow_le_mono_r; lia]).
  change (2 ^ 63) with two63 in Hpow. rewrite Hl, (as_u64_small (2 ^ k - 1)) by i64_lia. rewrite land_mask by lia.
  pose proof (Z.mod_pos_bound (as_u64 s) (2 ^ k) ltac:(lia)). apply lookup_lt_is_Some_2. lia.
Qed.

Lemma terminal_on_event_spec h e s c :
  side_ok h ->
  exists e' h', terminal_on_event h e s c = Some (e', h', complete_if_final h' s c) /\
    h'.(local_checksum) = as_u64 (h.(local_checksum) + worth h e) /\
    h'.(mode) = h.(mode) /\ h'.(th_handler_mode) = h.(th_handler_mode) /\ h'.(final_sequence) = h.(final_sequence) /\
    h'.(th_events_total) = h.(th_events_total) /\ side_ok h'.
Proof.
  intros Hside. destruct h as [tot fin loc m hm side]. unfold terminal_on_event, worth, side_ok in *.
  cbn [mode th_handler_mode side_buffer local_checksum final_sequence th_events_total] in *.
  assert (Hadd : forall v w, as_u64 v = as_u64 w -> as_u64 (loc + as_u64 v) = as_u64 (loc + w)).
  { intros v w Hvw. rewrite Hvw. unfold as_u64. by rewrite Zplus_mod_idemp_r. }
  destruct m; [|do 2 eexists; split; [done|]; split_and!; try done; apply Hadd, as_u64_wrap].
  destruct hm; try (do 2 eexists; split; [done|]; split_and!; try done; apply Hadd, three_steps).
  - do 2 eexists. split; [done|]. split_and!; try done. by apply Hadd.
  - destruct (Hside eq_refl) as (k & Hk & Hlen). destruct (side_index k s side Hk Hlen) as [v Hv].
    unfold graded_value. cbn [th_handler_mode side_buffer]. rewrite Hv.
    do 2 eexists. split; [done|]. split_and!; try done; [apply Hadd, three_steps|].
    intros _. exists k. cbn [side_buffer]. by rewrite length_insert.
Qed.


(** A run of the handler: the counters stay as they are up to the final
    sequence, and then hold the total of the events and their sum. *)
Lemma terminal_run_spec events : forall h c s L,
  side_ok h -> h.(local_checksum) = as_u64 L -> s + Z.of_nat (length events) <= h.(final_sequence) + 1 ->
  exists h', terminal_run h c s events =
    Some (h', if (s + Z.of_nat (length events) =? h.(final_sequence) + 1) && negb (is_empty events)
              then mkCounters h.(th_events_total) (as_u64 (L + total (map (worth h) events))) c.(ready) else c).
Proof.
  induction events as [|e events IH]; intros h c s L Hside HL Hlen; cbn [terminal_run map length is_empty negb] in *.
  - rewrite andb_false_r. eauto.
  - destruct (terminal_on_event_spec h e s c Hside) as (e' & h' & -> & Hloc & Hm & Hhm & Hf & Ht & Hside').
    assert (Hw : forall l, map (worth h') l = map (worth h) l) by (intros l; unfold worth; by rewrite Hm, Hhm).
    assert (HL' : h'.(local_checksum) = as_u64 (L + worth h e)).
    { rewrite Hloc, HL. unfold as_u64. by rewrite Zplus_mod_idemp_l. }
    rewrite andb_true_r. destruct events as [|e2 events].
    + exists h'. cbn [terminal_run length map]. rewrite total_cons. change (total []) with 0. rewrite Z.add_0_r.
      unfold complete_if_final. rewrite Hf, Ht, HL'.
      destruct (Z.eqb_spec s (final_sequence h)), (Z.eqb_spec (s + Z.of_nat 1) (final_sequence h + 1)); (done || lia).
    + destruct (IH h' c (s + 1) (L + worth h e) Hside' HL') as (h'' & Hrun); [cbn [length] in *; lia|].
      assert (Hc : complete_if_final h' s c = c).
      { unfold complete_if_final. rewrite Hf. destruct (Z.eqb_spec s (final_sequence h)); [cbn [length] in *; lia | done]. }
      rewrite Hc, Hrun. exists h''. cbn [is_empty negb]. rewrite andb_true_r, Hf, Ht, Hw, total_cons.
      replace (s + 1 + Z.of_nat (length (e2 :: events))) with (s + Z.of_nat (S (length (e2 :: events)))) by lia.
      by rewrite Z.add_assoc.
Qed.

(** ** Events of a scenario *)

(** The event of the value [v] as it reaches the terminal handler: in the
    pipeline, after both stages. *)
Definition delivered (cfg : Config) (v : Z) : option ComparisonEvent :=
  match cfg.(scenario) with
  | Pipeline => match stage_on_event 1 (fresh v) with Some e => stage_on_event 2 e | None => None end
  | _ => Some (fresh v)
  end.

(** What a value adds to the expected checksum. *)
Definition value_worth (cfg : Config) (v : Z) : Z :=
  match cfg.(scenario), cfg.(handler_mode) with
  | MpscBatch, _ => v
  | Pipeline, _ => v + 11
  | _, ValueMode => v
  | _, _ => v + 11
  end.

Lemma expected_spec cfg : 0 <= cfg.(events_total) -> expected_checksum cfg = wrap64 (total (map (value_worth cfg) (seqZ 0 cfg.(events_total)))).
Proof.
  intros Hn. assert (Hid : forall l : list Z, map (fun v => v) l = l) by apply map_id.
  unfold expected_checksum, value_worth. destruct (scenario cfg), (handler_mode cfg);
    rewrite ?arithmetic_spec, ?h2h_pipeline_spec, ?Hid by done; done.
Qed.

Lemma delivered_worth cfg h v e :
  scenario_terminal cfg = Some h -> delivered cfg v = Some e -> as_u64 (worth h e) = as_u64 (value_worth cfg v).
Proof.
  unfold scenario_terminal, delivered, terminal_new, value_worth, worth. intros Hh He.
  assert (Hf : forall k, as_u64 (wrap64 v + k) = as_u64 (v + k)).
  { intros k. rewrite <- as_u64_wrap, wrap_wrap_l. apply as_u64_wrap. }
  destruct (i64_try_from (events_total cfg)); [|by destruct (scenario cfg)].
  destruct (scenario cfg); injection Hh as <-; injection He as <-; cbn [mode th_handler_mode value stage2_value fresh stage1_value];
    try (destruct (handler_mode cfg)); try apply as_u64_wrap; try apply Hf.
  all: rewrite <- as_u64_wrap, three_steps; apply Hf.
Qed.

Lemma total_u64 (f g : Z -> Z) l : (forall v, v ∈ l -> as_u64 (f v) = as_u64 (g v)) -> as_u64 (total (map f l)) = as_u64 (total (map g l)).
Proof.
  induction l as [|v l IH]; intros Hfg; [done|]. cbn [map]. rewrite !total_cons, <- as_u64_add, <- (as_u64_add (g v)).
  rewrite Hfg, IH by set_solver. done.
Qed.

Lemma replaced_total cfg l1 l2 v w n :
  l1 ++ v :: l2 ≡ₚ seqZ 0 n ->
  total (map (value_worth cfg) (l1 ++ w :: l2)) = total (map (value_worth cfg) (seqZ 0 n)) + (w - v).
Proof.
  intros Hp. rewrite <- (total_perm _ _ (Permutation_map (value_worth cfg) Hp)). rewrite !map_app, !total_app. cbn [map]. rewrite !total_cons.
  unfold value_worth. destruct (scenario cfg), (handler_mode cfg); lia.
Qed.

Lemma terminal_side cfg h : is_power_of_two cfg.(buffer_size) = true -> cfg.(buffer_size) <= two63 -> scenario_terminal cfg = Some h -> side_ok h.
Proof.
  intros Hpow Hmax. unfold scenario_terminal, terminal_new. destruct (i64_try_from _); [|by destruct (scenario cfg)].
  intros Hh Hs. apply is_power_of_two_spec in Hpow as (k & Hk & Hb).
  assert (Hk63 : k <= 63) by (apply (Z.pow_le_mono_r_iff 2); unfold two63 in *; lia).
  exists k. split; [lia|]. destruct (scenario cfg); injection Hh as <-; cbn [th_handler_mode side_buffer] in *; try done; rewrite Hs.
  all: rewrite length_replicate, Z2Nat.id, Hb; [done|]; rewrite Hb; apply Z.pow_nonneg; lia.
Qed.

Lemma delivered_totals cfg h values evs :
  scenario_terminal cfg = Some h -> Forall2 (fun v e => delivered cfg v = Some e) values evs ->
  as_u64 (total (map (worth h) evs)) = as_u64 (total (map (value_worth cfg) values)).
Proof.
  intros Hh. induction 1 as [|v e values evs Hv Hvs IH]; [done|]. cbn [map]. rewrite !total_cons, <- as_u64_add, <- (as_u64_add (value_worth cfg v)).
  by rewrite IH, (delivered_worth cfg h v e).
Qed.

(** C37: The checksum of a round is exact: deliver the events of the values below
    the total in any order, with one value [v] replaced by [w]; the round
    counts as complete only after the last of them, and its checksum is the
    expected one exactly if [w] is [v].  So no order of the producers spoils a
    round, in any scenario and handler mode, and an event delivered in the
    place of another is found. *)
Theorem checksum_exact cfg h c l1 v l2 w evs :
  0 < cfg.(events_total) <= i64_max -> is_power_of_two cfg.(buffer_size) = true -> cfg.(buffer_size) <= two63 ->
  scenario_terminal cfg = Some h -> l1 ++ v :: l2 ≡ₚ seqZ 0 cfg.(events_total) -> 0 <= w < cfg.(events_total) ->
  Forall2 (fun v e => delivered cfg v = Some e) (l1 ++ w :: l2) evs ->
  (exists h' sum, terminal_run h c 0 evs = Some (h', mkCounters cfg.(events_total) sum c.(ready)) /\
     (wrap64 sum = expected_checksum cfg <-> w = v)) /\
  (forall k, (k < length evs)%nat -> exists h', terminal_run h c 0 (take k evs) = Some (h', c)).
Proof.
  intros Hn Hpow Hmax Hh Hp Hw Hd. pose proof (terminal_side cfg h Hpow Hmax Hh) as Hside.
  assert (Hlen : Z.of_nat (length evs) = cfg.(events_total)).
  { rewrite <- (Forall2_length _ _ _ Hd). pose proof (Permutation_length Hp) as Hl. rewrite length_app in *. cbn [length] in *.
    rewrite Hl, length_seqZ. lia. }
  assert (Hst : h.(local_checksum) = as_u64 0 /\ h.(final_sequence) = cfg.(events_total) - 1 /\ h.(th_events_total) = cfg.(events_total)).
  { unfold scenario_terminal, terminal_new, i64_try_from in Hh. destruct (Z.leb_spec (events_total cfg) i64_max); [|lia].
    destruct (scenario cfg); injection Hh as <-; cbn; split_and!; try done; nowrap; lia. }
  destruct Hst as (Hloc & Hfin & Htot). split.
  - destruct (terminal_run_spec evs h c 0 0 Hside Hloc ltac:(lia)) as (h' & Hrun). rewrite Hrun, Hlen, Hfin, Htot.
    replace (0 + events_total cfg =? events_total cfg - 1 + 1) with true by (symmetry; apply Z.eqb_eq; lia).
    destruct evs as [|e evs]; [cbn in Hlen; lia|]. cbn [is_empty negb andb].
    eexists h', _. split; [done|]. rewrite Z.add_0_l, (delivered_totals cfg h _ _ Hh Hd), (replaced_total cfg l1 l2 v w _ Hp), wrap_as_u64.
    rewrite expected_spec by lia. split; [|intros ->; f_equal; lia]. intros Heq%wrap_eq.
    assert (Hv : 0 <= v < cfg.(events_total)).
    { assert (Hin : v ∈ seqZ 0 (events_total cfg)) by (rewrite <- Hp; set_solver). apply elem_of_seqZ in Hin. lia. }
    replace (_ - _) with (w - v) in Heq by lia. apply Z.mod_divide in Heq as [q Hq]; [|done]. i64_lia.
  - intros k Hk. destruct (terminal_run_spec (take k evs) h c 0 0 Hside Hloc) as (h' & Hrun); rewrite length_take in *; [lia|].
    exists h'. rewrite Hrun. destruct (Z.eqb_spec (0 + Z.of_nat (k `min` length evs)) (final_sequence h + 1)); [lia | done].
Qed.

(** ** What is published *)

Lemma shifted a m : map (fun j => fresh (a + j)) (seqZ 0 m) = map fresh (seqZ a m).
Proof.
  transitivity (map fresh (seqZ (a + 0) m)); [|by rewrite Z.add_0_r]. rewrite <- fmap_add_seqZ. change (Z.add a <$> ?l) with (map (Z.add a) l). by rewrite map_map.
Qed.

Lemma batches_spec fuel batch : forall a b,
  1 <= batch -> a <= b -> b - a < Z.of_nat fuel ->
  exists bs, batches fuel batch a b = Some bs /\ concat bs = map fresh (seqZ a (b - a)) /\
    Forall (fun l => 0 < Z.of_nat (length l) <= batch) bs.
Proof.
  induction fuel as [|fuel IH]; intros a b Hb Hab Hf; [lia|]. cbn [batches].
  destruct (Z.ltb_spec a b) as [Hlt|Hge].
  - destruct (IH (a + Z.min batch (b - a)) b) as (bs & -> & Hc & Hall); [lia..|].
    eexists. split; [done|]. split.
    + cbn [concat]. rewrite Hc. set (m := Z.min batch (b - a)). rewrite shifted.
      replace (b - a) with (m + (b - (a + m))) by lia. by rewrite seqZ_app, map_app by lia.
    + constructor; [|done]. rewrite length_map, length_seqZ. lia.
  - eexists. split; [done|]. split; [|constructor]. by rewrite seqZ_nil by lia.
Qed.

(** Each scenario publishes the events of all values below the total once: the
    single producer one by one or in batches, the three producers in ranges
    that follow each other; no batch is empty or too large. *)
Theorem publishes_all cfg fuel :
  1 <= cfg.(batch_size) -> 0 <= cfg.(events_total) < Z.of_nat fuel -> cfg.(events_total) mod MPSC_PRODUCERS = 0 ->
  (exists bs, batches fuel cfg.(batch_size) 0 cfg.(events_total) = Some bs /\ concat bs = map fresh (seqZ 0 cfg.(events_total)) /\
     Forall (fun l => 0 < Z.of_nat (length l) <= cfg.(batch_size)) bs) /\
  exists bss, mapM (fun id => batches fuel cfg.(batch_size) (fst (producer_range cfg id)) (snd (producer_range cfg id))) (seqZ 0 MPSC_PRODUCERS) = Some bss /\
    concat (map (@concat ComparisonEvent) bss) = map fresh (seqZ 0 cfg.(events_total)) /\
    Forall (Forall (fun l => 0 < Z.of_nat (length l) <= cfg.(batch_size))) bss.
Proof.
  intros Hb Hn Hmod. split.
  - destruct (batches_spec fuel cfg.(batch_size) 0 cfg.(events_total)) as (bs & H1 & H2 & H3); [lia..|]. exists bs. by rewrite Z.sub_0_r in H2.
  - unfold producer_range, MPSC_PRODUCERS in *. set (per := events_total cfg / 3).
    assert (Hper : events_total cfg = per + per + per) by (pose proof (Z.div_mod (events_total cfg) 3 ltac:(done)); lia).
    change (seqZ 0 3) with [0; 1; 2]. cbn [fst snd].
    destruct (batches_spec fuel cfg.(batch_size) (per * 0) (per * 0 + per)) as (b0 & H0 & C0 & F0); [lia..|].
    destruct (batches_spec fuel cfg.(batch_size) (per * 1) (per * 1 + per)) as (b1 & H1 & C1 & F1); [lia..|].
    destruct (batches_spec fuel cfg.(batch_size) (per * 2) (per * 2 + per)) as (b2 & H2 & C2 & F2); [lia..|].
    exists [b0; b1; b2]. split; [cbn; by rewrite H0, H1, H2|]. split; [|by repeat constructor].
    cbn [map concat]. rewrite C0, C1, C2, app_nil_r, Hper. 
    replace (per * 0 + per - per * 0) with per by lia. replace (per * 1 + per - per * 1) with per by lia. replace (per * 2 + per - per * 2) with per by lia.
    replace (per + per + per) with (per + (per + per)) by lia. rewrite !seqZ_app, !map_app by lia.
    by replace (per * 0) with 0 by lia; replace (per * 1) with (0 + per) by lia; replace (per * 2) with (0 + per + per) by lia.
Qed.

(** ** What an accepted command line guarantees *)

Record config_valid (cfg : Config) : Prop := mkConfigValid {
  valid_buffer : is_power_of_two cfg.(buffer_size) = true /\ cfg.(buffer_size) <= two63;
  valid_counts : 0 < cfg.(events_total) <= u64_max /\ 0 < cfg.(batch_size) /\ 0 < cfg.(measured_rounds) /\ 0 <= cfg.(warmup_rounds);
  valid_mpsc : cfg.(scenario) = MpscBatch -> cfg.(events_total) mod MPSC_PRODUCERS = 0 /\ cfg.(pad) = NoPad;
  valid_mode : cfg.(handler_mode) <> ValueMode -> cfg.(scenario) = Unicast;
  valid_cpus : NoDup cfg.(cpu_list);
  valid_roles : exists rs, affinity_roles cfg = Some rs /\ (cfg.(cpu_list) = [] \/ map fst rs = map fst (roles cfg.(scenario)))
}.

Record raw_ok (r : Raw) : Prop := mkRawOk {
  ok_buffer : opt_u64 r.(r_buffer_size);
  ok_events : opt_u64 r.(r_events_total);
  ok_batch : opt_u64 r.(r_batch_size);
  ok_warmup : in_u64 r.(r_warmup_rounds);
  ok_measured : in_u64 r.(r_measured_rounds);
  ok_cpus : NoDup r.(r_cpu_list)
}.

Ltac arm := intros ? ? ? []; split; cbn in *; eauto; naive_solver.

Lemma h2h_flags_ok a : arm_ok raw_ok (flag_of a).
Proof.
  unfold flag_of.
  repeat match goal with |- arm_ok _ (if ?b then _ else _) => destruct b end; cbn [orb]; try exact I.
  all: try (intros ? []; split; cbn; done).
  all: lazymatch goal with
       | |- context [grouped] => apply (assign_ok _ _ _ opt_u64); [apply grouped_ok | arm]
       | |- context [plain] => apply (assign_ok _ _ _ opt_u64); [apply plain_ok | arm]
       | |- context [number] => apply (assign_ok _ _ _ in_u64); [apply number_ok | arm]
       | |- context [parse_cpu_list] => apply (assign_ok _ _ _ NoDup); [intros v l Hl; by apply (parse_cpu_list_ok v) | arm]
       | |- _ => apply (assign_ok _ _ _ (fun _ => True)); [done | arm]
       end.
Qed.

Lemma h2h_raw_default_ok : raw_ok raw_default.
Proof. split; cbn; try done; constructor. Qed.

(** A list with a CPU for every worker covers all roles of its scenario. *)
Lemma roles_covered s l :
  (required_cpus s <= length l)%nat ->
  exists rs, mapM (fun r => match l !! snd r with Some c => Some (fst r, c) | None => None end) (roles s) = Some (rs : list (string * Z)) /\
    map fst rs = map fst (roles s).
Proof.
  intros Hl. destruct s; cbn in Hl; destruct l as [|a [|b l]]; cbn in Hl; try lia; try (eexists; by split).
  all: destruct l as [|c [|d l]]; cbn in Hl; try lia; eexists; by split.
Qed.

Lemma pow2_usize b : is_power_of_two b = true -> in_u64 b -> b <= two63.
Proof.
  intros (k & Hk & ->)%is_power_of_two_spec [_ Hmax]. assert (Hk63 : k < 64).
  { apply (Z.pow_lt_mono_r_iff 2); [lia..|]. unfold u64_max, two64 in Hmax. lia. }
  change two63 with (2 ^ 63). apply Z.pow_le_mono_r; lia.
Qed.

Lemma h2h_finish_args_valid r cfg : raw_ok r -> finish_args r = Ok cfg -> config_valid cfg.
Proof.
  intros [] Hf. unfold finish_args in Hf. cbv zeta in Hf. destruct (r_scenario r) as [s|]; [|done].
  destruct (first_error _) as [e|] eqn:Hc; [done|]. injection Hf as <-. apply first_error_none in Hc.
  repeat match goal with H : Forall _ (_ :: _) |- _ => let H1 := fresh "C" in apply Forall_cons in H as [H1 H]; cbn [fst] in H1 end.
  clear Hc. rewrite orb_false_iff, negb_false_iff in C. rewrite orb_false_iff, !Z.eqb_neq in C1. rewrite Z.eqb_neq in C0.
  assert (Hor : forall d o, in_u64 d -> opt_u64 o -> in_u64 (or_default d o)) by (intros d [n|]; done).
  assert (Hb : in_u64 (or_default (default_buffer s) (r_buffer_size r))) by (apply Hor; [by destruct s | done]).
  assert (He : in_u64 (or_default (default_events s (r_quick r)) (r_events_total r))) by (apply Hor; [by destruct s, (r_quick r) | done]).
  assert (Hbat : in_u64 (or_default (default_batch s) (r_batch_size r))) by (apply Hor; [by destruct s | done]).
  split; cbn.
  - destruct C as [C _]. split; [done|]. by apply pow2_usize.
  - unfold in_u64 in *. destruct (r_quick r); lia.
  - intros ->. cbn in C2, C3. apply negb_false_iff, Z.eqb_eq in C2. split; [done|]. rewrite andb_true_r in C3.
    by apply bool_decide_eq_false, dec_stable in C3.
  - intros Hm. rewrite (bool_decide_eq_true_2 _ Hm) in C4. cbn in C4. by apply bool_decide_eq_false, dec_stable in C4.
  - done.
  - unfold affinity_roles. cbn. destruct (r_cpu_list r) as [|c l] eqn:Hl; [eexists; split; [done | by left]|].
    cbn [is_empty negb andb] in C5. apply Nat.ltb_ge in C5. destruct (roles_covered s (c :: l) C5) as (rs & -> & Hrs). exists rs. eauto.
Qed.

Lemma h2h_parse_args_ok args cfg : parse_args args = Parsed (Ok cfg) -> config_valid cfg.
Proof.
  unfold parse_args. destruct (parse_loop flag_of args raw_default) as [|[r|e]] eqn:Hl; [done | | done]. intros [= Hf].
  eapply h2h_finish_args_valid; [|done]. eapply parse_loop_ok; [apply h2h_flags_ok | apply h2h_raw_default_ok | done].
Qed.

(** The number of events is not bounded by [i64], and the terminal handler
    panics above it. *)
Lemma events_unbounded :
  exists args cfg, parse_args args = Parsed (Ok cfg) /\ scenario_terminal cfg = None.
Proof.
  exists ["--scenario"; "unicast"; "--events-total"; "9223372036854775808"]. eexists. split; [vm_compute; reflexivity | done].
Qed.

(** ** Exit status *)

Lemma summarize_checksums rounds warmup summary : summarize rounds warmup = Some summary -> summary.(checksum_valid_all) = forallb checksum_ok rounds.
Proof.
  unfold summarize. destruct (map _ _) as [|x l]; [by intros [= <-]|]. destruct (f64_sort _) as [s|]; [|done].
  destruct (if Nat.odd _ then _ else _); [|done]. destruct (s !! 0%nat); [|done]. destruct (s !! _); [|done]. by intros [= <-].
Qed.

Lemma run_round_ok cfg i env r : run_round cfg i env = Ok r -> r = finish_round cfg i env /\ env.(env_ready) = true /\ env.(env_completed) = true.
Proof.
  unfold run_round, unicast_round, mpsc_round, pipeline_round, conclude.
  destruct (scenario cfg); (destruct (first_error _) eqn:Hfirst; [done|]); intros [= <-]; apply first_error_none in Hfirst;
    repeat (apply Forall_cons in Hfirst as [? Hfirst]); cbn [fst] in *; split_and!; (done || by apply negb_false_iff).
Qed.

(** A run of an accepted command line exits with zero only if every round,
    the warm-up ones too, was completed with the expected checksum; what it
    then reports has one round per configured round, in order. *)
Theorem h2h_exit_zero args cfg pin_failed files_written env :
  parse_args args = Parsed (Ok cfg) -> cfg.(warmup_rounds) + cfg.(measured_rounds) <= u64_max ->
  main_exit cfg pin_failed files_written env = Some 0 ->
  config_valid cfg /\ files_written = true /\
  forall i, 0 <= i < cfg.(warmup_rounds) + cfg.(measured_rounds) ->
    (env i).(env_ready) = true /\ (env i).(env_completed) = true /\ wrap64 (env i).(env_checksum) = expected_checksum cfg.
Proof.
  intros Hargs%h2h_parse_args_ok Hfit. destruct (valid_counts cfg Hargs) as (_ & _ & Hm & Hw). unfold main_exit.
  destruct (_ && _); [done|]. unfold run_rounds. rewrite as_u64_small by (unfold u64_ones, u64_max in *; lia).
  destruct (collect _ _) as [rounds|e] eqn:Hc; [|done]. destruct (summarize rounds _) as [summary|] eqn:Hs; [|done].
  destruct files_written; [|done]. cbn [negb]. destruct (checksum_valid_all summary) eqn:Hv; [|done]. intros _.
  split; [done|]. split; [done|]. intros i Hi. rewrite (summarize_checksums _ _ _ Hs), forallb_forall in Hv.
  apply collect_ok in Hc. destruct (Forall2_lookup_l _ _ _ (Z.to_nat i) i Hc) as (round & Hround & Hok).
  { apply lookup_seqZ. lia. }
  apply run_round_ok in Hok as (-> & Hready & Hcompleted).
  assert (Hgood : checksum_ok (finish_round cfg i (env i)) = true).
  { apply Hv. apply list_elem_of_In. by eapply list_elem_of_lookup_2. }
  cbn in Hgood. by apply Z.eqb_eq in Hgood.
Qed.
