(* ===== verification/H2hReport.v ===== *)
(** * H2hReport: the report of src/bin/h2h_rust.rs

    The JSON text [write_result] makes of the rounds and their summary, in the
    build without round diagnostics, compared with the value it stands for.
    What git answers about the working copy is an argument. *)
From S2P Require Import Prelude Effects Errors Text Float64 Json CommandLine H2h.

(** What [git_rev] and [git_dirty] answer. *)
Record Git : Type := mkGit { git_rev : string; git_dirty : bool }.

Definition or_else {A} (x : option A) (d : A) : A := match x with Some a => a | None => d end.

(** ** The report *)

Definition render_round (r : Round) : string :=
  cat ["    {"; nl;
       field 6 "index" (show_int r.(index)) true;
       field 6 "phase" (quoted r.(phase)) true;
       field 6 "elapsed_ns" (show_int r.(elapsed_ns)) true;
       field 6 "events" (show_int r.(events)) true;
       field 6 "ops_per_sec" (show_fixed 6 r.(ops_per_sec)) true;
       field 6 "checksum_valid" (show_bool r.(checksum_ok)) false;
       "    }"].

Definition render_summary (s : Summary) : string :=
  cat ["{"; nl;
       field 4 "checksum_valid_all" (show_bool s.(checksum_valid_all)) true;
       field 4 "median_ops_per_sec" (show_fixed 6 s.(median_ops_per_sec)) true;
       field 4 "mean_ops_per_sec" (show_fixed 6 s.(mean_ops_per_sec)) true;
       field 4 "min_ops_per_sec" (show_fixed 6 s.(min_ops_per_sec)) true;
       field 4 "max_ops_per_sec" (show_fixed 6 s.(max_ops_per_sec)) true;
       field 4 "stddev_ops_per_sec" (show_fixed 6 s.(stddev_ops_per_sec)) true;
       field 4 "cv" (show_fixed 6 s.(cv)) false;
       "  }"; nl].

Definition render_roles (roles : list (string * Z)) : string :=
  match roles with
  | [] => cat ["{}"; nl]
  | _ => cat ["{"; nl; field_lines 6 show_int roles; "    }"; nl]
  end.

Definition affinity_mode (cpus : list Z) : string := if is_empty cpus then "none" else "per-thread".

Definition render_affinity (cfg : Config) (affinity_failed : bool) (roles : list (string * Z)) : string :=
  cat ["{"; nl;
       field 4 "requested_cpu_list" (bracketed show_int cfg.(cpu_list)) true;
       field 4 "mode" (quoted (affinity_mode cfg.(cpu_list))) true;
       field 4 "verified_all" (show_bool (affinity_verified_all cfg affinity_failed)) true;
       spaces 4; quoted "role_cpu_map"; ": "; render_roles roles;
       "  }"].

(** [write_result], with the roles of the CPUs. *)
Definition report_text (cfg : Config) (git : Git) (affinity_failed : bool) (rounds : list Round) (summary : Summary)
    (roles : list (string * Z)) : string :=
  let local_rev := git.(git_rev) in
  cat
     ["{"; nl;
      field 2 "impl" (quoted cfg.(impl_label)) true;
      field 2 "language" (quoted "rust") true;
      field 2 "scenario" (quoted (scenario_as_str cfg.(scenario))) true;
      field 2 "wait_strategy" (quoted (wait_kind_as_str cfg.(wait))) true;
      field 2 "event_padding" (quoted (pad_as_str cfg.(pad))) true;
      field 2 "handler_mode" (quoted (handler_mode_as_str cfg.(handler_mode))) true;
      field 2 "api_path" (quoted "builder") true;
      field 2 "buffer_size" (show_int cfg.(buffer_size)) true;
      field 2 "events_total" (show_int cfg.(events_total)) true;
      field 2 "batch_size" (show_int cfg.(batch_size)) true;
      field 2 "warmup_rounds" (show_int cfg.(warmup_rounds)) true;
      field 2 "measured_rounds" (show_int cfg.(measured_rounds)) true;
      field 2 "run_order" (quoted cfg.(run_order)) true;
      field 2 "pair_id" (quoted cfg.(pair_id)) true;
      field 2 "fork_index" (show_int cfg.(fork_index)) true;
      field 2 "harness_git_rev" (quoted (or_else cfg.(harness_rev) local_rev)) true;
      field 2 "implementation_rev" (quoted (or_else cfg.(implementation_rev) local_rev)) true;
      field 2 "harness_dirty" (show_bool (or_else cfg.(harness_dirty) git.(git_dirty))) true;
      field 2 "implementation_dirty" (show_bool (or_else cfg.(implementation_dirty) git.(git_dirty))) true;
      field 2 "git_rev" (quoted local_rev) true;
      spaces 2; quoted "cpu_affinity"; ": "; render_affinity cfg affinity_failed roles; ","; nl;
      spaces 2; quoted "rounds"; ": ["; nl;
      each render_round (cat [","; nl]) nl rounds;
      "  ],"; nl;
      spaces 2; quoted "summary"; ": "; render_summary summary;
      "}"; nl].

(** [None] is the panic of [affinity_roles]. *)
Definition write_result (cfg : Config) (git : Git) (affinity_failed : bool) (rounds : list Round) (summary : Summary) : option string :=
  match affinity_roles cfg with
  | Some roles => Some (report_text cfg git affinity_failed rounds summary roles)
  | None => None
  end.

(** ** The value it stands for *)

Definition round_value (r : Round) : option json :=
  obj [("index", integer r.(index)); ("phase", text r.(phase)); ("elapsed_ns", integer r.(elapsed_ns));
       ("events", integer r.(events)); ("ops_per_sec", decimal 6 r.(ops_per_sec)); ("checksum_valid", truth r.(checksum_ok))].

Definition summary_value (s : Summary) : option json :=
  obj [("checksum_valid_all", truth s.(checksum_valid_all)); ("median_ops_per_sec", decimal 6 s.(median_ops_per_sec));
       ("mean_ops_per_sec", decimal 6 s.(mean_ops_per_sec)); ("min_ops_per_sec", decimal 6 s.(min_ops_per_sec));
       ("max_ops_per_sec", decimal 6 s.(max_ops_per_sec)); ("stddev_ops_per_sec", decimal 6 s.(stddev_ops_per_sec));
       ("cv", decimal 6 s.(cv))].

Definition affinity_value (cfg : Config) (affinity_failed : bool) (roles : list (string * Z)) : option json :=
  obj [("requested_cpu_list", arr (map integer cfg.(cpu_list))); ("mode", text (affinity_mode cfg.(cpu_list)));
       ("verified_all", truth (affinity_verified_all cfg affinity_failed));
       ("role_cpu_map", obj (map (fun kv => (kv.1, integer kv.2)) roles))].

Definition report_value (cfg : Config) (git : Git) (affinity_failed : bool) (rounds : list Round) (summary : Summary)
    (roles : list (string * Z)) : option json :=
  let local_rev := git.(git_rev) in
  obj [("impl", text cfg.(impl_label)); ("language", text "rust"); ("scenario", text (scenario_as_str cfg.(scenario)));
       ("wait_strategy", text (wait_kind_as_str cfg.(wait))); ("event_padding", text (pad_as_str cfg.(pad)));
       ("handler_mode", text (handler_mode_as_str cfg.(handler_mode))); ("api_path", text "builder");
       ("buffer_size", integer cfg.(buffer_size)); ("events_total", integer cfg.(events_total)); ("batch_size", integer cfg.(batch_size));
       ("warmup_rounds", integer cfg.(warmup_rounds)); ("measured_rounds", integer cfg.(measured_rounds));
       ("run_order", text cfg.(run_order)); ("pair_id", text cfg.(pair_id)); ("fork_index", integer cfg.(fork_index));
       ("harness_git_rev", text (or_else cfg.(harness_rev) local_rev));
       ("implementation_rev", text (or_else cfg.(implementation_rev) local_rev));
       ("harness_dirty", truth (or_else cfg.(harness_dirty) git.(git_dirty)));
       ("implementation_dirty", truth (or_else cfg.(implementation_dirty) git.(git_dirty))); ("git_rev", text local_rev);
       ("cpu_affinity", affinity_value cfg affinity_failed roles); ("rounds", arr (map round_value rounds));
       ("summary", summary_value summary)].

(** ** The text is JSON *)

(** The words of the command line that the report shows as they are. *)
Definition labels (cfg : Config) (git : Git) : list string :=
  [cfg.(impl_label); cfg.(run_order); cfg.(pair_id); or_else cfg.(harness_rev) git.(git_rev);
   or_else cfg.(implementation_rev) git.(git_rev); git.(git_rev)].

Lemma lexes_h2h_summary s : lexes (render_summary s) (toks (summary_value s)).
Proof. unfold render_summary, summary_value. lex_report. Qed.

Lemma roles_unescaped cfg roles : affinity_roles cfg = Some roles -> Forall (fun kv => unescaped kv.1 = true) roles.
Proof.
  unfold affinity_roles. destruct cfg.(cpu_list) as [|c cs]; [intros [= <-]; constructor|]. intros H%mapM_Some.
  assert (Hn : Forall (fun r => unescaped r.1 = true) (H2h.roles cfg.(scenario))) by (destruct cfg.(scenario); repeat constructor).
  induction H as [|[n i] kv rs kvs Hr H IH]; [constructor|]. apply Forall_cons in Hn as [Hn Hns]. constructor; [|by apply IH].
  cbn [fst snd] in *. destruct (_ !! i); [by injection Hr as <- | done].
Qed.

Lemma lexes_h2h_roles roles : Forall (fun kv => unescaped kv.1 = true) roles ->
  lexes (render_roles roles) (toks (obj (map (fun kv => (kv.1, integer kv.2)) roles))).
Proof.
  intros Hr. rewrite toks_obj. destruct roles as [|r roles]; [by apply lexes_run|]. unfold render_roles.
  eapply lexes_eq; [repeat first [apply (lexes_field_lines _ _ integer); [exact Hr | apply value_integer] | lex_piece]|].
  by autorewrite with tokens.
Qed.

Lemma lexes_h2h_affinity cfg failed roles : Forall (fun kv => unescaped kv.1 = true) roles ->
  lexes (render_affinity cfg failed roles) (toks (affinity_value cfg failed roles)).
Proof.
  intros Hr. pose proof (lexes_h2h_roles roles Hr) as Hroles. unfold render_affinity, affinity_value.
  assert (Hm : unescaped (affinity_mode cfg.(cpu_list)) = true) by by destruct cfg.(cpu_list).
  generalize dependent (obj (map (fun kv => (kv.1, integer kv.2)) roles)). intros v Hroles. lex_report.
Qed.

Lemma round_phases cfg env rounds : run_rounds cfg env = Ok rounds -> Forall (fun r => unescaped r.(phase) = true) rounds.
Proof.
  unfold run_rounds. intros H%collect_ok. induction H as [|i r l rs Hr H IH]; constructor; [|done].
  unfold run_round, unicast_round, mpsc_round, pipeline_round, conclude in Hr.
  destruct cfg.(scenario); (destruct (first_error _); [done|]); injection Hr as <-; cbn [phase finish_round]; by destruct (i <? _).
Qed.

Lemma lexes_h2h_round r : unescaped r.(phase) = true -> lexes (render_round r) (toks (round_value r)).
Proof. intros Hp. unfold render_round, round_value. lex_report. Qed.

Lemma lexes_h2h_rounds cfg env rounds : run_rounds cfg env = Ok rounds ->
  lexes (each render_round (cat [","; nl]) nl rounds) (commas_opt (map toks (map round_value rounds))).
Proof.
  intros H%round_phases. apply lexes_each_forall; [|done | done]. eapply Forall_impl; [exact H|]. intros r. apply lexes_h2h_round.
Qed.

(** C40: If none of the labels of the command line and of git needs an escape,
    the report of a run is a JSON text exactly if its numbers are finite, and
    then it reads back as the configuration, the rounds in order and their
    summary. *)
Theorem h2h_report_reads_back cfg git failed env rounds summary out :
  forallb unescaped (labels cfg git) = true -> run_rounds cfg env = Ok rounds ->
  write_result cfg git failed rounds summary = Some out ->
  exists roles, affinity_roles cfg = Some roles /\ parse_json out = report_value cfg git failed rounds summary roles.
Proof.
  intros Hl Hrounds Hout. unfold write_result in Hout. destruct (affinity_roles cfg) as [roles|] eqn:Hroles; [|done].
  exists roles. split; [done|]. injection Hout as <-. apply parse_json_lexes.
  pose proof (lexes_h2h_affinity cfg failed roles (roles_unescaped cfg roles Hroles)) as Ha.
  pose proof (lexes_h2h_rounds cfg env rounds Hrounds) as Hr. pose proof (lexes_h2h_summary summary) as Hs.
  unfold labels in Hl. cbn [forallb] in Hl. rewrite !andb_true_iff in Hl. destruct Hl as (H1 & H2 & H3 & H4 & H5 & H6 & _).
  unfold report_text, report_value. cbv zeta. lex_report.
Qed.

(** A label that needs one breaks the report: the quote of the label ends the
    string early. *)
Lemma label_not_escaped :
  let cfg l := mkConfig Unicast BusySpin NoPad 1024 6 1 0 1 "" "" 0 None None None None l None 60 [] ValueMode in
  let out l := write_result (cfg l) (mkGit "abc" false) false [] (mkSummary true f64_zero f64_zero f64_zero f64_zero f64_zero f64_zero) in
  is_Some (out "label" ≫= parse_json) /\ is_Some (out (String quote "")) /\ out (String quote "") ≫= parse_json = None.
Proof. cbv zeta. split; [|split]; [by eexists; vm_compute | by eexists; vm_compute | by vm_compute]. Qed.
