(* ===== verification/H2hDiagnostics.v ===== *)
(** * H2hDiagnostics: the round diagnostics of src/bin/h2h_rust.rs

    What a build with the feature bench-round-diagnostics adds to the harness:
    histograms of the batch sizes and queue depths a consumer is told of at the
    start of a batch, the counters of the single producer's waits
    (disruptor/sequencer.rs), the verdict at the end of a round, and the fields
    of the report.  How often a claim went round its wait loop is an argument,
    and so is what a receiver answers. *)
From S2P Require Import Prelude Effects Errors World Text Float64 Json CommandLine H2h H2hReport.

(** ** Histograms *)

Definition LOG2_HISTOGRAM_BINS : nat := 64.

Record HistogramSnapshot : Type := mkSnapshot {
  count : Z;
  sum : Z;
  min : Z;
  max : Z;
  log2_bins : list Z
}.

Record Log2Histogram : Type := mkHistogram {
  h_count : Z;
  h_sum : Z;
  h_min : Z;
  h_max : Z;
  bins : list Z
}.

Definition histogram_default : Log2Histogram := mkHistogram 0 0 u64_max 0 (replicate LOG2_HISTOGRAM_BINS 0).

(** [u64::saturating_add], [u64::leading_zeros] *)
Definition saturating_add_u64 (a b : Z) : Z := Z.min u64_max (a + b).
Definition leading_zeros_u64 (v : Z) : Z := if v =? 0 then 64 else 63 - Z.log2 v.

(** [Log2Histogram::observe]; [None] is the panic of a zero (the assertion, or
    the index without it). *)
Definition observe (h : Log2Histogram) (value : Z) : option Log2Histogram :=
  let bin := (64 - 1 - leading_zeros_u64 value) mod 4294967296 in
  if bin <? Z.of_nat LOG2_HISTOGRAM_BINS then
    let bin := Z.to_nat bin in
    c ← bins h !! bin;
    Some (mkHistogram (saturating_add_u64 h.(h_count) 1) (saturating_add_u64 h.(h_sum) value) (Z.min h.(h_min) value)
            (Z.max h.(h_max) value) (<[bin := saturating_add_u64 c 1]> h.(bins)))
  else None.

(** [Log2Histogram::snapshot] *)
Definition snapshot (h : Log2Histogram) : HistogramSnapshot :=
  mkSnapshot h.(h_count) h.(h_sum) (if h.(h_count) =? 0 then 0 else h.(h_min)) h.(h_max) h.(bins).

(** ** Probes *)

Record ConsumerBatchDiagnostics : Type := mkDiagnostics {
  role : string;
  batch_size : HistogramSnapshot;
  queue_depth : HistogramSnapshot
}.

(** [armed]: the sender has not been used yet. *)
Record BatchProbe : Type := mkProbe {
  probe_role : string;
  batch_sizes : Log2Histogram;
  queue_depths : Log2Histogram;
  armed : bool
}.

(** [BatchProbe::observe]; [None] is one of its panics. *)
Definition probe_observe (p : BatchProbe) (batch_size queue_depth : Z) : option BatchProbe :=
  if batch_size <? 0 then None else if queue_depth <? 0 then None else
  b ← observe p.(batch_sizes) batch_size;
  q ← observe p.(queue_depths) queue_depth;
  Some (mkProbe p.(probe_role) b q p.(armed)).

(** [BatchProbe::finish], and what it sends. *)
Definition probe_finish (p : BatchProbe) : BatchProbe * option ConsumerBatchDiagnostics :=
  if p.(armed) then
    (mkProbe p.(probe_role) p.(batch_sizes) p.(queue_depths) false,
     Some (mkDiagnostics p.(probe_role) (snapshot p.(batch_sizes)) (snapshot p.(queue_depths))))
  else (p, None).

(** [batch_probe_pair]: the probe, and whether there is a receiver. *)
Definition batch_probe_pair (enabled : bool) (role : string) : option BatchProbe * bool :=
  if enabled then (Some (mkProbe role histogram_default histogram_default true), true) else (None, false).

(** [on_batch_start] and [on_shutdown] of both handlers. *)
Definition on_batch_start (probe : option BatchProbe) (batch_size queue_depth : Z) : option (option BatchProbe) :=
  match probe with
  | Some p => Some <$> probe_observe p batch_size queue_depth
  | None => Some None
  end.
Definition on_shutdown (probe : option BatchProbe) : option BatchProbe * option ConsumerBatchDiagnostics :=
  match probe with
  | Some p => let '(p', d) := probe_finish p in (Some p', d)
  | None => (None, None)
  end.

(** ** The verdict on a round *)

(** [BenchProducerBackpressureSnapshot] (disruptor/sequencer.rs) *)
Record BenchProducerBackpressureSnapshot : Type := mkBackpressure {
  entries : Z;
  wait_loop_iterations : Z;
  max_wait_loop_iterations : Z
}.

(** [SingleProducerSequencer::record_bench_backpressure]: what a claim that went
    round the wait loop [iterations] times adds to the counters. *)
Definition record_bench_backpressure (c : BenchProducerBackpressureSnapshot) (iterations : Z) : BenchProducerBackpressureSnapshot :=
  if iterations =? 0 then c else
  mkBackpressure (as_u64 (c.(entries) + 1)) (as_u64 (c.(wait_loop_iterations) + iterations)) (Z.max c.(max_wait_loop_iterations) iterations).

(** [SequencerEnum::bench_producer_backpressure_snapshot], from the counters of a
    single-producer sequencer. *)
Definition bench_producer_backpressure_snapshot (sq : World.SequencerEnum) (c : BenchProducerBackpressureSnapshot) :
    option BenchProducerBackpressureSnapshot :=
  match sq with World.Single => Some c | World.Multi => None end.

Record RoundDiagnostics : Type := mkRoundDiagnostics {
  consumers : list ConsumerBatchDiagnostics;
  producer_backpressure : option BenchProducerBackpressureSnapshot
}.

(** One receiver: [None] if the probes were off, and else what [recv_timeout]
    answers (an error by its text). *)
Definition collect_one (events_total : Z) (receiver : option (result ConsumerBatchDiagnostics string)) :
    result ConsumerBatchDiagnostics string :=
  match receiver with
  | None => Err "missing enabled batch diagnostics receiver"
  | Some (Err error) => Err ("missing batch diagnostics at shutdown: " +:+ error)
  | Some (Ok snapshot) =>
      if negb (snapshot.(batch_size).(sum) =? events_total) then
        Err (snapshot.(role) +:+ " batch diagnostics saw " +:+ show_int snapshot.(batch_size).(sum) +:+ " events, expected "
             +:+ show_int events_total)
      else Ok snapshot
  end.

Fixpoint collect_all (events_total : Z) (receivers : list (option (result ConsumerBatchDiagnostics string))) :
    result (list ConsumerBatchDiagnostics) string :=
  match receivers with
  | [] => Ok []
  | r :: receivers =>
      match collect_one events_total r with
      | Err e => Err e
      | Ok d => match collect_all events_total receivers with Ok ds => Ok (d :: ds) | Err e => Err e end
      end
  end.

(** [collect_round_diagnostics]; [enabled] is the option of the command line. *)
Definition collect_round_diagnostics (enabled : bool) (cfg : Config) (receivers : list (option (result ConsumerBatchDiagnostics string)))
    (producer_backpressure : option BenchProducerBackpressureSnapshot) : result (option RoundDiagnostics) string :=
  if negb enabled then Ok None else
  match collect_all cfg.(events_total) receivers with
  | Ok consumers => Ok (Some (mkRoundDiagnostics consumers producer_backpressure))
  | Err e => Err e
  end.

(** ** Their part of the report *)

Definition histogram_mean (h : HistogramSnapshot) : f64 :=
  if h.(count) =? 0 then f64_zero else f64_div (of_Z h.(sum)) (of_Z h.(count)).

(** [write_histogram_json] *)
Definition render_histogram (indent : nat) (h : HistogramSnapshot) : string :=
  cat [spaces indent; "{"; nl;
       field (indent + 2) "count" (show_int h.(count)) true;
       field (indent + 2) "sum" (show_int h.(sum)) true;
       field (indent + 2) "min" (show_int h.(min)) true;
       field (indent + 2) "max" (show_int h.(max)) true;
       field (indent + 2) "mean" (show_fixed 6 (histogram_mean h)) true;
       field (indent + 2) "log2_bins" (bracketed show_int h.(log2_bins)) false;
       spaces indent; "}"].

Definition render_consumer (d : ConsumerBatchDiagnostics) : string :=
  cat [spaces 10; "{"; nl;
       field 12 "role" (quoted d.(role)) true;
       spaces 12; quoted "batch_size"; ": "; render_histogram 12 d.(batch_size); ","; nl;
       spaces 12; quoted "queue_depth"; ": "; render_histogram 12 d.(queue_depth); nl;
       spaces 10; "}"].

Definition render_backpressure (p : option BenchProducerBackpressureSnapshot) : string :=
  match p with
  | Some p =>
      cat [field 10 "supported" (show_bool true) true;
           field 10 "iteration_action" (quoted "spin_loop") true;
           field 10 "entries" (show_int p.(entries)) true;
           field 10 "wait_loop_iterations" (show_int p.(wait_loop_iterations)) true;
           field 10 "max_wait_loop_iterations" (show_int p.(max_wait_loop_iterations)) false]
  | None =>
      cat [field 10 "supported" (show_bool false) true;
           field 10 "iteration_action" (quoted "unsupported_multi_producer") true;
           field 10 "entries" (show_int 0) true;
           field 10 "wait_loop_iterations" (show_int 0) true;
           field 10 "max_wait_loop_iterations" (show_int 0) false]
  end.

(** [write_round_diagnostics_json] *)
Definition render_diagnostics (d : RoundDiagnostics) : string :=
  cat [spaces 6; quoted "diagnostics"; ": {"; nl;
       spaces 8; quoted "batch_processing"; ": ["; nl;
       each render_consumer (cat [","; nl]) nl d.(consumers);
       spaces 8; "],"; nl;
       spaces 8; quoted "producer_backpressure"; ": {"; nl;
       render_backpressure d.(producer_backpressure);
       spaces 8; "}"; nl;
       spaces 6; "}"; nl].

(** A round of the report in this build. *)
Definition render_diagnosed_round (r : Round) (d : option RoundDiagnostics) : string :=
  cat ["    {"; nl;
       field 6 "index" (show_int r.(index)) true;
       field 6 "phase" (quoted r.(phase)) true;
       field 6 "elapsed_ns" (show_int r.(elapsed_ns)) true;
       field 6 "events" (show_int r.(events)) true;
       field 6 "ops_per_sec" (show_fixed 6 r.(ops_per_sec)) true;
       match d with
       | Some d => cat [field 6 "checksum_valid" (show_bool r.(checksum_ok)) true; render_diagnostics d]
       | None => field 6 "checksum_valid" (show_bool r.(checksum_ok)) false
       end;
       "    }"].

(** ** What a histogram holds *)

Definition total (vs : list Z) : Z := foldr Z.add 0 vs.
Definition in_bin (i : nat) (vs : list Z) : Z := Z.of_nat (length (filter (fun v => Z.log2 v = Z.of_nat i) vs)).

Record summarises (vs : list Z) (h : Log2Histogram) : Prop := {
  sm_count : h.(h_count) = Z.min u64_max (Z.of_nat (length vs));
  sm_sum : h.(h_sum) = Z.min u64_max (total vs);
  sm_min : h.(h_min) = foldr Z.min u64_max vs;
  sm_max : h.(h_max) = foldr Z.max 0 vs;
  sm_bins : forall i, (i < LOG2_HISTOGRAM_BINS)%nat -> h.(bins) !! i = Some (Z.min u64_max (in_bin i vs))
}.

Lemma stat_total_app vs ws : total (vs ++ ws) = total vs + total ws.
Proof. unfold total. induction vs as [|v vs IH]; cbn; lia. Qed.

Lemma total_nonneg vs : Forall (fun v => 0 < v) vs -> 0 <= total vs.
Proof. unfold total. induction 1; cbn; lia. Qed.

Lemma foldr_min_snoc a vs v : foldr Z.min a (vs ++ [v]) = Z.min (foldr Z.min a vs) v.
Proof. induction vs as [|x vs IH]; cbn; lia. Qed.

Lemma foldr_max_snoc a vs v : foldr Z.max a (vs ++ [v]) = Z.max (foldr Z.max a vs) v.
Proof. induction vs as [|x vs IH]; cbn; lia. Qed.

Lemma in_bin_snoc i vs v : in_bin i (vs ++ [v]) = in_bin i vs + (if decide (Z.log2 v = Z.of_nat i) then 1 else 0).
Proof.
  unfold in_bin. rewrite filter_app, length_app. cbn [filter]. unfold filter. cbn [list_filter].
  destruct (decide (Z.log2 v = Z.of_nat i)); cbn; lia.
Qed.

Lemma summarises_default : summarises [] histogram_default.
Proof.
  constructor; try done. intros i Hi. change (in_bin i []) with 0. by apply lookup_replicate_2.
Qed.

Lemma observe_zero h : observe h 0 = None.
Proof. done. Qed.

(** A positive value goes into the bin of its binary logarithm. *)
Lemma observe_positive vs h v : summarises vs h -> Forall (fun v => 0 < v) vs -> 0 < v <= u64_max ->
  exists h', observe h v = Some h' /\ summarises (vs ++ [v]) h'.
Proof.
  intros [Hc Hs Hmin Hmax Hb] Hpos Hv. unfold observe, leading_zeros_u64. destruct (Z.eqb_spec v 0) as [|_]; [lia|].
  assert (Hlog : 0 <= Z.log2 v < 64).
  { split; [apply Z.log2_nonneg|]. apply Z.log2_lt_pow2; [lia|]. change (2 ^ 64) with (u64_max + 1). lia. }
  replace (64 - 1 - (63 - Z.log2 v)) with (Z.log2 v) by lia. rewrite Z.mod_small by lia. unfold LOG2_HISTOGRAM_BINS in *.
  destruct (Z.ltb_spec (Z.log2 v) (Z.of_nat 64)) as [_|]; [|lia]. cbv zeta.
  rewrite (Hb (Z.to_nat (Z.log2 v))) by lia. cbn [mbind option_bind]. eexists. split; [done|].
  pose proof (total_nonneg vs Hpos). constructor; cbn [h_count h_sum h_min h_max bins].
  - rewrite Hc, length_app. unfold saturating_add_u64. cbn. lia.
  - rewrite Hs, stat_total_app. unfold saturating_add_u64. cbn. lia.
  - by rewrite Hmin, foldr_min_snoc.
  - by rewrite Hmax, foldr_max_snoc.
  - intros i Hi. unfold LOG2_HISTOGRAM_BINS in Hi. rewrite in_bin_snoc. destruct (decide (Z.log2 v = Z.of_nat i)) as [E|E].
    + rewrite E, Nat2Z.id, list_lookup_insert_eq; [|eapply lookup_lt_Some, Hb; lia].
      f_equal. unfold saturating_add_u64. lia.
    + rewrite list_lookup_insert_ne by lia. rewrite Hb by lia. f_equal. lia.
Qed.

(** ** What a probe reports *)

Fixpoint observe_batches (probe : BatchProbe) (batches : list (Z * Z)) : option BatchProbe :=
  match batches with
  | [] => Some probe
  | (size, depth) :: batches => p ← probe_observe probe size depth; observe_batches p batches
  end.

Definition batch_ok (b : Z * Z) : Prop := 0 < b.1 <= i64_max /\ 0 < b.2 <= i64_max.

Lemma observe_batches_spec p vs ds batches :
  summarises vs p.(batch_sizes) -> summarises ds p.(queue_depths) -> Forall (fun v => 0 < v) vs -> Forall (fun v => 0 < v) ds ->
  Forall batch_ok batches ->
  exists p', observe_batches p batches = Some p' /\ p'.(armed) = p.(armed) /\ p'.(probe_role) = p.(probe_role) /\
    summarises (vs ++ map fst batches) p'.(batch_sizes) /\ summarises (ds ++ map snd batches) p'.(queue_depths).
Proof.
  intros Hb Hq Hvs Hds Hok. revert p vs ds Hb Hq Hvs Hds. induction Hok as [|[size depth] batches [H1 H2] _ IH]; intros p vs ds Hb Hq Hvs Hds.
  { exists p. rewrite !app_nil_r. done. }
  cbn [fst snd] in H1, H2. cbn [observe_batches map fst snd]. unfold probe_observe.
  destruct (Z.ltb_spec size 0) as [|_]; [lia|]. destruct (Z.ltb_spec depth 0) as [|_]; [lia|].
  assert (Hle : i64_max <= u64_max) by (vm_compute; discriminate).
  destruct (observe_positive vs _ size Hb Hvs ltac:(lia)) as (hb & -> & Hb'). destruct (observe_positive ds _ depth Hq Hds ltac:(lia)) as (hq & -> & Hq').
  assert (Hvs' : Forall (fun v => 0 < v) (vs ++ [size])) by (apply Forall_app; split; [done | constructor; [lia | done]]).
  assert (Hds' : Forall (fun v => 0 < v) (ds ++ [depth])) by (apply Forall_app; split; [done | constructor; [lia | done]]).
  cbn [mbind option_bind].
  destruct (IH (mkProbe p.(probe_role) hb hq p.(armed)) _ _ Hb' Hq' Hvs' Hds') as (p' & Hrun & Ha & Hr & Hb2 & Hq2).
  exists p'. rewrite <- !app_assoc in Hb2, Hq2. done.
Qed.

(** The batches of a consumer that goes from [next] up to a given end without a
    gap: the size and depth it is told of. *)
Fixpoint contiguous (next : Z) (ends : list Z) : list (Z * Z) :=
  match ends with
  | [] => []
  | last :: ends => (last - next + 1, last - next + 1) :: contiguous (last + 1) ends
  end.

Lemma contiguous_total next ends : total (map fst (contiguous next ends)) = List.last ends (next - 1) - next + 1.
Proof.
  revert next. induction ends as [|e ends IH]; intros next; cbn [contiguous map fst]; [cbn; lia|].
  change (total (?x :: ?l)) with (x + total l). rewrite IH. destruct ends as [|e' ends]; cbn [List.last]; [lia|].
  replace (e + 1 - 1) with e by lia. assert (Hd : List.last (e' :: ends) e = List.last (e' :: ends) (next - 1)).
  { clear. revert e'. induction ends as [|x ends IH]; intros e'; [done|]. cbn [List.last] in *. apply IH. }
  cbn [List.last] in Hd. lia.
Qed.

Lemma snapshot_total vs p h : summarises vs h -> total vs < u64_max -> p = snapshot h -> sum p = total vs.
Proof. intros [] Ht ->. cbn. rewrite sm_sum0. lia. Qed.

(** The probes of a round after it: their batches, and what they send. *)
Definition probe_report (name : string) (batches : list (Z * Z)) : option ConsumerBatchDiagnostics :=
  p ← observe_batches (mkProbe name histogram_default histogram_default true) batches;
  snd (probe_finish p).

Lemma probe_report_total name batches : Forall batch_ok batches -> total (map fst batches) < u64_max ->
  exists d, probe_report name batches = Some d /\ d.(role) = name /\ d.(batch_size).(sum) = total (map fst batches).
Proof.
  intros Hok Ht. unfold probe_report.
  destruct (observe_batches_spec (mkProbe name histogram_default histogram_default true) [] [] batches) as (p' & -> & Ha & Hr & Hb & _);
    [apply summarises_default | apply summarises_default | constructor | constructor | done |].
  cbn [mbind option_bind]. unfold probe_finish. rewrite Ha. eexists. split; [done|]. cbn [snd role batch_size]. split; [done|].
  by eapply snapshot_total.
Qed.

Lemma collect_all_ok total_events ds :
  (exists out, collect_all total_events (map (fun d => Some (Ok d)) ds) = Ok out) <-> Forall (fun d => d.(batch_size).(sum) = total_events) ds.
Proof.
  induction ds as [|d ds IH]; cbn [map collect_all]; [split; [constructor | by eexists]|]. rewrite Forall_cons, <- IH.
  unfold collect_one. destruct (Z.eqb_spec d.(batch_size).(sum) total_events) as [->|Hne]; cbn [negb].
  - destruct (collect_all total_events _) as [out|e]; [split; [by intros _; split; eauto | by eexists] | split; [by intros [] | by intros [_ []]]].
  - split; [by intros [] | by intros [? _]].
Qed.

(** The diagnostics of a round are accepted exactly if every consumer was told
    of as many events as the round has. *)
Theorem diagnostics_verdict cfg bp (probes : list (string * list (Z * Z))) :
  Forall (fun rb => Forall batch_ok rb.2 /\ total (map fst rb.2) < u64_max) probes ->
  exists ds, mapM (fun rb => probe_report rb.1 rb.2) probes = Some ds /\ map role ds = map fst probes /\
    ((exists d, collect_round_diagnostics true cfg (map (fun d => Some (Ok d)) ds) bp = Ok (Some d)) <->
     Forall (fun rb => total (map fst rb.2) = cfg.(events_total)) probes).
Proof.
  intros Hp. assert (Hds : exists ds, mapM (fun rb => probe_report rb.1 rb.2) probes = Some ds /\ map role ds = map fst probes /\
    map (fun d => d.(batch_size).(sum)) ds = map (fun rb => total (map fst rb.2)) probes).
  { induction Hp as [|[r b] probes [Hok Ht] _ (ds & H1 & H2 & H3)]; [by exists []|].
    destruct (probe_report_total r b Hok Ht) as (d & Hd & Hr & Hs). exists (d :: ds). cbn [mapM fst snd map].
    rewrite Hd. cbn [mbind option_bind]. rewrite H1. cbn. split_and!; [done | congruence | congruence]. }
  destruct Hds as (ds & H1 & H2 & H3). exists ds. split_and!; [done | done |].
  unfold collect_round_diagnostics. cbn [negb].
  assert (Hiff : Forall (fun d => d.(batch_size).(sum) = cfg.(events_total)) ds <-> Forall (fun rb => total (map fst rb.2) = cfg.(events_total)) probes).
  { rewrite <- (Forall_map (fun d => d.(batch_size).(sum)) (fun x => x = cfg.(events_total))), <- (Forall_map (fun rb => total (map fst rb.2)) (fun x => x = cfg.(events_total))).
    change (fmap (fun d => d.(batch_size).(sum)) ds) with (map (fun d => d.(batch_size).(sum)) ds). by rewrite H3. }
  rewrite <- Hiff, <- collect_all_ok. destruct (collect_all _ _) as [out|e].
  - split; intros _; by eexists.
  - split; by intros [].
Qed.

(** The counters after a run of claims: how many of them waited, how often they
    went round in all, and at most. *)
Lemma backpressure_counters (waits : list Z) :
  Forall (fun i => 0 <= i) waits -> Z.of_nat (length waits) + total waits <= u64_max ->
  foldl record_bench_backpressure (mkBackpressure 0 0 0) waits =
    mkBackpressure (Z.of_nat (length (filter (fun i => i <> 0) waits))) (total waits) (foldr Z.max 0 waits).
Proof.
  induction waits as [|i waits IH] using rev_ind; [done|]. intros [Hw Hi]%Forall_app Hle. apply Forall_cons in Hi as [Hi _].
  assert (Hnn : 0 <= total waits) by (clear -Hw; unfold total; induction Hw; cbn; lia).
  rewrite length_app, stat_total_app in Hle. cbn in Hle. rewrite foldl_app, IH by (done || lia). cbn [foldl].
  rewrite foldr_max_snoc, stat_total_app, filter_app, length_app. unfold record_bench_backpressure. cbn [entries wait_loop_iterations max_wait_loop_iterations].
  pose proof (length_filter (fun i => i <> 0) waits) as Hf.
  destruct (Z.eqb_spec i 0) as [->|Hne].
  - rewrite filter_cons_False by (intros H; by apply H). cbn. f_equal; [lia | lia |]. clear. induction waits; cbn in *; lia.
  - rewrite filter_cons_True by done. cbn. unfold as_u64. change two64 with (u64_max + 1).
    rewrite !Z.mod_small by lia. f_equal; lia.
Qed.

(** ** The text is JSON *)

Definition histogram_value (h : HistogramSnapshot) : option json :=
  obj [("count", integer h.(count)); ("sum", integer h.(sum)); ("min", integer h.(min)); ("max", integer h.(max));
       ("mean", decimal 6 (histogram_mean h)); ("log2_bins", arr (map integer h.(log2_bins)))].

Definition consumer_value (d : ConsumerBatchDiagnostics) : option json :=
  obj [("role", text d.(role)); ("batch_size", histogram_value d.(batch_size)); ("queue_depth", histogram_value d.(queue_depth))].

Definition backpressure_fields (p : option BenchProducerBackpressureSnapshot) : list (string * option json) :=
  match p with
  | Some p => [("supported", truth true); ("iteration_action", text "spin_loop"); ("entries", integer p.(entries));
               ("wait_loop_iterations", integer p.(wait_loop_iterations)); ("max_wait_loop_iterations", integer p.(max_wait_loop_iterations))]
  | None => [("supported", truth false); ("iteration_action", text "unsupported_multi_producer"); ("entries", integer 0);
             ("wait_loop_iterations", integer 0); ("max_wait_loop_iterations", integer 0)]
  end.

Definition diagnostics_value (d : RoundDiagnostics) : option json :=
  obj [("batch_processing", arr (map consumer_value d.(consumers))); ("producer_backpressure", obj (backpressure_fields d.(producer_backpressure)))].

Definition diagnosed_round_value (r : Round) (d : option RoundDiagnostics) : option json :=
  obj ([("index", integer r.(index)); ("phase", text r.(phase)); ("elapsed_ns", integer r.(elapsed_ns));
        ("events", integer r.(events)); ("ops_per_sec", decimal 6 r.(ops_per_sec)); ("checksum_valid", truth r.(checksum_ok))]
       ++ match d with Some d => [("diagnostics", diagnostics_value d)] | None => [] end).

Lemma lexes_histogram n h : lexes (render_histogram n h) (toks (histogram_value h)).
Proof. unfold render_histogram, histogram_value. lex_report. Qed.

Lemma lexes_consumer d : unescaped d.(role) = true -> lexes (render_consumer d) (toks (consumer_value d)).
Proof.
  intros Hr. pose proof (lexes_histogram 12 d.(batch_size)) as Hb. pose proof (lexes_histogram 12 d.(queue_depth)) as Hq.
  unfold render_consumer, consumer_value. generalize dependent (histogram_value d.(batch_size)). generalize dependent (histogram_value d.(queue_depth)).
  intros v2 Hq v1 Hb. lex_report.
Qed.

Lemma lexes_backpressure p : lexes (render_backpressure p) (commas_opt (map member_toks (backpressure_fields p))).
Proof. destruct p as [p|]; unfold render_backpressure, backpressure_fields; lex_report. Qed.

Lemma lexes_diagnostics d : Forall (fun c => unescaped c.(role) = true) d.(consumers) ->
  lexes (render_diagnostics d) (member_toks ("diagnostics", diagnostics_value d)).
Proof.
  intros Hr. pose proof (lexes_backpressure d.(producer_backpressure)) as Hb.
  assert (Hc : lexes (each render_consumer (cat [","; nl]) nl d.(consumers)) (commas_opt (map toks (map consumer_value d.(consumers))))).
  { apply lexes_each_forall; [|done | done]. eapply Forall_impl; [exact Hr|]. intros c. apply lexes_consumer. }
  unfold render_diagnostics, diagnostics_value. generalize dependent (backpressure_fields d.(producer_backpressure)). intros fields Hb.
  unfold member_toks at 1. cbn [fst snd]. eapply lexes_eq; [repeat first [exact Hb | lex_piece]|]. same_tokens.
Qed.

(** A round with its diagnostics is a JSON text exactly if its numbers are
    finite, and then it reads back as the round, the histograms of every
    consumer and the counters of the producer's waits. *)
Theorem diagnosed_round_reads_back r d :
  unescaped r.(phase) = true -> (forall d', d = Some d' -> Forall (fun c => unescaped c.(role) = true) d'.(consumers)) ->
  parse_json (render_diagnosed_round r d) = diagnosed_round_value r d.
Proof.
  intros Hp Hd. apply parse_json_lexes. unfold render_diagnosed_round, diagnosed_round_value. destruct d as [d|].
  - pose proof (lexes_diagnostics d (Hd d eq_refl)) as Hl. generalize dependent (diagnostics_value d). intros v Hl.
    eapply lexes_eq; [repeat first [exact Hl | lex_piece]|]. cbn [app]. same_tokens.
  - rewrite app_nil_r. lex_report.
Qed.
