(* ===== verification/Baseline.v ===== *)
(** * Baseline: the throughput runner src/bin/baseline_metrics.rs

    Its command line, the values each scenario publishes, the handlers that
    count them, the wait for the count, and the table of the results.  What the
    loads of the counter and the clock return is an argument. *)
From Stdlib Require Import Ascii.
From S2P Require Import Prelude Effects Errors Text Float64 Json CommandLine Checksums H2h.

(** ** The command line *)

Definition value_of {A} (x : result A ParseIntError) (default : A) : A := match x with Ok a => a | Err _ => default end.

(** The loop of [parse_args]: a word that is no number, and a flag it does not
    know, leave everything as it is; the value of a flag is always skipped. *)
Fixpoint parse_words (args : list string) (events buffer : Z) : Z * Z :=
  match args with
  | [] => (events, buffer)
  | a :: rest =>
      if String.eqb a "--events" then
        match rest with
        | [] => (events, buffer)
        | v :: rest' => parse_words rest' (value_of (parse_uint u64_max (remove_char "_" v)) events) buffer
        end
      else if String.eqb a "--buffer" then
        match rest with
        | [] => (events, buffer)
        | v :: rest' => parse_words rest' events (value_of (parse_uint usize_max v) buffer)
        end
      else parse_words rest events buffer
  end.

Definition parse_args (args : list string) : Z * Z := parse_words args 2000000 1024.

(** ** Measuring *)

Record Row : Type := mkRow { scenario : string; events : Z; elapsed_s : f64; melem_s : f64; ok : bool }.

(** [wait_count]: the counter is loaded, then the clock is read. *)
Fixpoint wait_count (fuel : nat) (counter elapsed : nat -> Z) (target timeout : Z) (k : nat) : option bool :=
  match fuel with
  | O => None
  | S fuel =>
      if counter k <? target then
        if timeout <? elapsed k then Some false else wait_count fuel counter elapsed target timeout (S k)
      else Some true
  end.

Definition melem (events elapsed : Z) : f64 :=
  f64_div (f64_div (of_Z events) (f64_max (as_secs_f64 elapsed) f64_1e_12)) (of_Z 1000000).

(** What is read during a round, and the time it took. *)
Record Readings : Type := mkReadings { loads : nat -> Z; clock : nat -> Z; took : Z }.

Definition secs (n : Z) : Z := n * 1000000000.

(** The end of every scenario: the wait for the count, and the row. *)
Definition finish (fuel : nat) (name : string) (events timeout : Z) (r : Readings) : option Row :=
  match wait_count fuel r.(loads) r.(clock) events timeout 0 with
  | Some ok => Some (mkRow name events (as_secs_f64 r.(took)) (melem events r.(took)) ok)
  | None => None
  end.

(** ** The scenarios: what is published, and the row *)

(** The handler of the last stage, and those before it: the value and the
    counter after the event. *)
Definition count_event (value counter : Z) : Z * Z := (value, as_u64 (counter + 1)).
Definition pass_event (value counter : Z) : Z * Z := (wrap64 (value + 1), counter).

(** [spsc]: the values in order. *)
Definition spsc_values (events : Z) : list Z := map wrap64 (seqZ 0 events).
Definition spsc (fuel : nat) (events : Z) (pad : bool) (r : Readings) : option Row :=
  finish fuel (if pad then "SPSC BusySpin pad=128" else "SPSC BusySpin pad=none") events (secs 30) r.

(** [spsc_batch]: the calls of [batch_publish], each with the values its
    closure writes. *)
Fixpoint batch_calls (fuel : nat) (events batch sent : Z) : option (list (Z * list Z)) :=
  match fuel with
  | O => None
  | S fuel =>
      if sent <? events then
        let n := Z.min (events - sent) batch in
        match batch_calls fuel events batch (sent + n) with
        | Some calls => Some ((n, map (fun i => wrap64 (sent + i)) (seqZ 0 n)) :: calls)
        | None => None
        end
      else Some []
  end.
Definition spsc_batch (fuel : nat) (events batch : Z) (r : Readings) : option Row :=
  finish fuel ("SPSC BatchBusySpin batch=" +:+ show_uint batch) events (secs 30) r.

(** [mpsc]: the values of producer [p]; what is left over is not published. *)
Definition mpsc_values (events producers p : Z) : list Z :=
  let per := events / producers in map (fun i => wrap64 (p * per + i)) (seqZ 0 per).
Definition mpsc_total (events producers : Z) : Z := events / producers * producers.
Definition mpsc (fuel : nat) (events producers : Z) (r : Readings) : option Row :=
  finish fuel ("MPSC BusySpin producers=" +:+ show_uint producers) (mpsc_total events producers) (secs 60) r.

Definition worker_pool (fuel : nat) (events workers : Z) (r : Readings) : option Row :=
  finish fuel ("WorkerPool BusySpin workers=" +:+ show_uint workers) events (secs 60) r.

(** The stages of an event, and the row. *)
Definition pipeline2_event (value counter : Z) : Z * Z :=
  let (v, c) := pass_event value counter in count_event v c.
Definition pipeline2 (fuel : nat) (events : Z) (r : Readings) : option Row :=
  finish fuel "Pipeline stages=2 BusySpin" events (secs 60) r.
Definition pipeline3_event (value counter : Z) : Z * Z :=
  let (v, c) := pass_event value counter in let (v, c) := pass_event v c in count_event v c.
Definition pipeline3 (fuel : nat) (events : Z) (r : Readings) : option Row :=
  finish fuel "Pipeline stages=3 BusySpin" events (secs 60) r.

(** The rows of [main], a reading for each scenario. *)
Definition rows (fuel : nat) (events : Z) (r : nat -> Readings) : option (list Row) :=
  mapM (fun x => x)
    [spsc fuel events false (r 0%nat); spsc fuel events true (r 1%nat); spsc_batch fuel events 64 (r 2%nat);
     spsc_batch fuel events 256 (r 3%nat); mpsc fuel events 2 (r 4%nat); mpsc fuel events 4 (r 5%nat);
     worker_pool fuel events 2 (r 6%nat); worker_pool fuel events 4 (r 7%nat); pipeline2 fuel events (r 8%nat);
     pipeline3 fuel (events / 2) (r 9%nat)].

(** ** The table *)

Definition format_row (r : Row) : string :=
  cat ["| "; r.(scenario); " | "; show_uint r.(events); " | "; show_fixed 3 r.(elapsed_s); " | **"; show_fixed 2 r.(melem_s); "** | ";
       (if r.(ok) then "yes" else "NO"); " |"; nl].

Definition format_markdown (stamp host rustc git : string) (events buffer : Z) (rs : list Row) : string :=
  cat ["# BadBatch post-modernization throughput baseline"; nl; nl;
       "- **UTC stamp**: `"; stamp; "`"; nl;
       "- **Host**: `"; host; "`"; nl;
       "- **rustc**: `"; rustc; "`"; nl;
       "- **git**: `"; git; "`"; nl;
       "- **Config**: events≈"; show_uint events; ", buffer="; show_uint buffer; ", wait=`BusySpinWaitStrategy`"; nl;
       "- **Method**: wall-clock publish-all + wait for consumer count; `cargo run --release`"; nl;
       "- **Generator**: `src/bin/baseline_metrics.rs`"; nl; nl;
       "| Scenario | Events | Time (s) | Throughput (Melem/s) | OK |"; nl;
       "|----------|-------:|---------:|---------------------:|:--:|"; nl;
       cat (map format_row rs);
       nl; "## Interpretation notes"; nl; nl;
       "- `pad=none` vs `pad=128`: false-sharing vs working-set tradeoff (esp. Apple Silicon)."; nl;
       "- `BatchBusySpin`: range publish amortizes coordination (closer to LMAX batch paths)."; nl;
       "- `MPSC`: multi-producer CAS claim + bitmap availability."; nl;
       "- `WorkerPool`: same-stage work-sharing (one handler per sequence), not fan-out."; nl;
       "- `Pipeline`: multi-stage dependency via `and_then`."; nl;
       "- Single-run wall-clock; re-run 3× and take median for serious comparisons."; nl;
       nl; "## How to reproduce"; nl; nl;
       "```bash"; nl;
       "RUSTFLAGS="; quoted "-C target-cpu=native";
       " cargo run --release --bin baseline_metrics -- --events 2_000_000 --buffer 1024"; nl;
       "```"; nl].

(** [chrono_like_stamp], of the seconds since the epoch. *)
Definition chrono_like_stamp (now : option Z) : string := "unix" +:+ show_uint (match now with Some s => s | None => 0 end).

(** [uname_s], [rustc_v], [git_head]: the output of a command, if it is there
    and is text; [trim] is applied by the caller of this. *)
Definition or_unknown (output : option string) : string := match output with Some s => s | None => "unknown" end.

Example parse_examples :
  parse_args ["--events"; "1_000"; "--buffer"; "64"] = (1000, 64) /\ parse_args ["--events"; "x"; "--buffer"] = (2000000, 1024) /\
  parse_args ["--events"; "--buffer"; "64"] = (2000000, 1024).
Proof. vm_compute. repeat split. Qed.

(** ** What is measured *)

(** The wait ends once the clock has passed the limit, with the answer whether
    the count was there when it was looked at. *)
Lemma wait_count_ends fuel counter elapsed target timeout n : forall k,
  timeout < elapsed (k + n)%nat -> (n < fuel)%nat ->
  exists b j, wait_count fuel counter elapsed target timeout k = Some b /\ (k <= j <= k + n)%nat /\
    (b = true <-> target <= counter j) /\ (forall i, (k <= i < j)%nat -> counter i < target /\ elapsed i <= timeout).
Proof.
  revert fuel. induction n as [|n IH]; intros fuel k He Hf; (destruct fuel as [|fuel]; [lia|]); cbn [wait_count].
  - rewrite Nat.add_0_r in *. destruct (Z.ltb_spec (counter k) target).
    + destruct (Z.ltb_spec timeout (elapsed k)); [|lia]. exists false, k. split; [done|]. split; [lia|]. split; [split; [done|lia] | lia].
    + exists true, k. split; [done|]. split; [lia|]. split; [done | lia].
  - destruct (Z.ltb_spec (counter k) target).
    + destruct (Z.ltb_spec timeout (elapsed k)).
      * exists false, k. split; [done|]. split; [lia|]. split; [split; [done|lia] | lia].
      * destruct (IH fuel (S k)) as (b & j & Hw & Hj & Hb & Hi); [by rewrite Nat.add_succ_comm | lia |].
        exists b, j. split; [done|]. split; [lia|]. split; [done|]. intros i Hij. destruct (decide (i = k)) as [->|]; [lia|]. apply Hi. lia.
    + exists true, k. split; [done|]. split; [lia|]. split; [done | lia].
Qed.

Lemma wrap64_seq a n : 0 <= a -> a + n <= 2 ^ 63 -> map (fun i => wrap64 (a + i)) (seqZ 0 n) = seqZ a n.
Proof.
  intros Ha Hn. replace (seqZ a n) with (map (fun i => a + i) (seqZ 0 n)).
  - apply map_ext_in. intros i Hi. apply list_elem_of_In, elem_of_seqZ in Hi. apply wrap64_id. unfold_i64. lia.
  - etransitivity; [apply fmap_add_seqZ|]. f_equal. lia.
Qed.

(** The batches put all the values in, in order, none larger than asked for. *)
Lemma batch_calls_spec fuel events batch sent :
  0 < batch -> 0 <= sent <= events -> events <= 2 ^ 63 -> (Z.to_nat (events - sent) < fuel)%nat ->
  exists calls, batch_calls fuel events batch sent = Some calls /\ concat (map snd calls) = seqZ sent (events - sent) /\
    Forall (fun c => 0 < c.1 <= batch /\ Z.of_nat (length c.2) = c.1) calls.
Proof.
  intros Hb. revert sent. induction fuel as [|fuel IH]; intros sent Hs He Hf; [lia|]. cbn [batch_calls].
  destruct (Z.ltb_spec sent events) as [Hlt|Hge].
  - cbv zeta. set (n := Z.min (events - sent) batch). destruct (IH (sent + n)) as (calls & Hc & Hv & Hl); [lia..|]. rewrite Hc.
    eexists. split; [reflexivity|]. cbn [map snd concat fst]. rewrite Hv, wrap64_seq by lia. split.
    + replace (events - sent) with (n + (events - (sent + n))) by lia. rewrite seqZ_app by lia. done.
    + constructor; [|done]. cbn [fst snd]. split; [lia|]. rewrite length_seqZ. lia.
  - exists []. split; [done|]. split; [|constructor]. by replace (events - sent) with 0 by lia.
Qed.

(** The producers share the values out, as many as the row says. *)
Lemma mpsc_values_spec events producers : 0 < producers -> 0 <= events <= 2 ^ 63 ->
  concat (map (mpsc_values events producers) (seqZ 0 producers)) = seqZ 0 (mpsc_total events producers).
Proof.
  intros Hp He. unfold mpsc_total, mpsc_values. set (per := events / producers).
  assert (Hper : 0 <= per /\ per * producers <= events).
  { split; [apply Z.div_pos; lia|]. rewrite Z.mul_comm. apply Z.mul_div_le. lia. }
  enough (H : forall n, 0 <= n <= producers ->
    concat (map (fun p => map (fun i => wrap64 (p * per + i)) (seqZ 0 per)) (seqZ 0 n)) = seqZ 0 (per * n)) by (apply H; lia).
  intros n Hn. rewrite <- (Z2Nat.id n) in * by lia. generalize dependent (Z.to_nat n). clear n. intros m Hm.
  induction m as [|m IH]; [by rewrite Z.mul_0_r|]. rewrite Nat2Z.inj_succ in *.
  replace (Z.succ (Z.of_nat m)) with (Z.of_nat m + 1) by lia. rewrite seqZ_app, map_app, concat_app, IH by lia.
  change (seqZ (0 + Z.of_nat m) 1) with [0 + Z.of_nat m]. cbn [map concat]. rewrite app_nil_r, wrap64_seq by nia.
  replace (per * (Z.of_nat m + 1)) with (per * Z.of_nat m + per) by lia. rewrite seqZ_app by nia.
  f_equal. f_equal. lia.
Qed.
