(* ===== verification/PipelineBreakdown.v ===== *)
(** * PipelineBreakdown: src/bin/pipeline_breakdown.rs

    The same three additions run as one, two or three pipeline stages.  The
    last stage collects its sums and adds them, batch by batch, to two counters
    that the main thread reads.  The shared memory passes through one state
    after each atomic action of the consumer; the main thread's loads each see
    one of these states. *)
From Stdlib Require Import Ascii.
From S2P Require Import Prelude Effects Errors Text Float64 CommandLine.

Definition DEFAULT_TIMEOUT_SECS : Z := 300.

(** ** Events *)

Record ComparisonEvent : Type := mkComparisonEvent {
  value : Z;
  stage1_value : Z;
  stage2_value : Z;
  stage3_value : Z
}.

(** The same fields, aligned to 64 bytes. *)
Record ComparisonPadded64Event : Type := mkComparisonPadded64Event {
  padded_value : Z;
  padded_stage1_value : Z;
  padded_stage2_value : Z;
  padded_stage3_value : Z
}.

(** The trait: each stage gives the event after it and its result. *)
Class PipelineEvent (E : Type) : Type := {
  event_default : E;
  populate_input : E -> Z -> E;
  apply_stage1 : E -> E * Z;
  apply_stage2 : E -> E * Z;
  apply_stage3 : E -> E * Z
}.

Definition comparison_event : PipelineEvent ComparisonEvent := {|
  event_default := mkComparisonEvent 0 0 0 0;
  populate_input _ v := mkComparisonEvent v 0 0 0;
  apply_stage1 e := let v := e.(value) +! 1 in (mkComparisonEvent e.(value) v e.(stage2_value) e.(stage3_value), v);
  apply_stage2 e := let v := e.(stage1_value) +! 3 in (mkComparisonEvent e.(value) e.(stage1_value) v e.(stage3_value), v);
  apply_stage3 e := let v := e.(stage2_value) +! 7 in (mkComparisonEvent e.(value) e.(stage1_value) e.(stage2_value) v, v)
|}.
#[export] Existing Instance comparison_event.

Definition padded64_event : PipelineEvent ComparisonPadded64Event := {|
  event_default := mkComparisonPadded64Event 0 0 0 0;
  populate_input _ v := mkComparisonPadded64Event v 0 0 0;
  apply_stage1 e := let v := e.(padded_value) +! 1 in
    (mkComparisonPadded64Event e.(padded_value) v e.(padded_stage2_value) e.(padded_stage3_value), v);
  apply_stage2 e := let v := e.(padded_stage1_value) +! 3 in
    (mkComparisonPadded64Event e.(padded_value) e.(padded_stage1_value) v e.(padded_stage3_value), v);
  apply_stage3 e := let v := e.(padded_stage2_value) +! 7 in
    (mkComparisonPadded64Event e.(padded_value) e.(padded_stage1_value) e.(padded_stage2_value) v, v)
|}.
#[export] Existing Instance padded64_event.

(** ** Options *)

Inductive PhaseKind : Type := SingleStage | TwoStage | ThreeStage.
Inductive Mode : Type := AllModes | Single | Two | Three.
Inductive EventPadding : Type := NoPadding | Pad64.
Inductive WaitStrategyKind : Type := BusySpin | Yielding.
Inductive RoundPhase : Type := Warmup | Measured.

#[export] Instance PhaseKind_eq_dec : EqDecision PhaseKind.
Proof. solve_decision. Defined.

Definition mode_parse (v : string) : result Mode string :=
  if String.eqb v "all" then Ok AllModes else
  if String.eqb v "single-stage" then Ok Single else
  if String.eqb v "two-stage" then Ok Two else
  if String.eqb v "three-stage" then Ok Three else Err ("unsupported mode: " +:+ v).

Definition mode_as_str (m : Mode) : string :=
  match m with AllModes => "all" | Single => "single-stage" | Two => "two-stage" | Three => "three-stage" end.

Definition phases (m : Mode) : list PhaseKind :=
  match m with
  | AllModes => [SingleStage; TwoStage; ThreeStage]
  | Single => [SingleStage]
  | Two => [TwoStage]
  | Three => [ThreeStage]
  end.

Definition phase_as_str (p : PhaseKind) : string :=
  match p with SingleStage => "single_stage" | TwoStage => "two_stage" | ThreeStage => "three_stage" end.
Definition stage_count (p : PhaseKind) : Z := match p with SingleStage => 1 | TwoStage => 2 | ThreeStage => 3 end.

Definition padding_parse (v : string) : result EventPadding string :=
  if String.eqb v "none" then Ok NoPadding else
  if String.eqb v "64" then Ok Pad64 else Err ("unsupported event padding: " +:+ v).
Definition padding_as_str (p : EventPadding) : string := match p with NoPadding => "none" | Pad64 => "64" end.
Definition event_size_bytes (p : EventPadding) : Z := match p with NoPadding => 32 | Pad64 => 64 end.

Definition wait_parse (v : string) : result WaitStrategyKind string :=
  if String.eqb v "busy-spin" then Ok BusySpin else
  if String.eqb v "yielding" then Ok Yielding else Err ("unsupported wait strategy: " +:+ v).
Definition wait_as_str (w : WaitStrategyKind) : string := match w with BusySpin => "busy-spin" | Yielding => "yielding" end.
Definition round_phase_as_str (p : RoundPhase) : string := match p with Warmup => "warmup" | Measured => "measured" end.

(** [CliConfig]; [ResolvedConfig] has the same fields. *)
Record CliConfig : Type := mkCliConfig {
  mode : Mode;
  wait_strategy : WaitStrategyKind;
  event_padding : EventPadding;
  events_total : Z;
  buffer_size : Z;
  warmup_rounds : Z;
  measured_rounds : Z;
  timeout_secs : Z;
  output : option string
}.
Definition ResolvedConfig : Type := CliConfig.

(** [parse_u64] and [parse_usize] *)
Definition parse_u64 (v : string) : result Z string :=
  match parse_uint u64_max v with Ok n => Ok n | Err e => Err ("invalid u64 value " +:+ v +:+ ": " +:+ parse_int_error e) end.
Definition parse_usize (v : string) : result Z string :=
  match parse_uint usize_max v with Ok n => Ok n | Err e => Err ("invalid usize value " +:+ v +:+ ": " +:+ parse_int_error e) end.

Definition cli_default : CliConfig := mkCliConfig AllModes Yielding NoPadding 20000000 8192 3 5 DEFAULT_TIMEOUT_SECS None.

Definition flag_of (a : string) : Flag CliConfig :=
  if String.eqb a "--mode" then Value "missing value for --mode" (assign mode_parse (fun x c =>
    mkCliConfig x c.(wait_strategy) c.(event_padding) c.(events_total) c.(buffer_size) c.(warmup_rounds) c.(measured_rounds) c.(timeout_secs) c.(output))) else
  if String.eqb a "--wait-strategy" then Value "missing value for --wait-strategy" (assign wait_parse (fun x c =>
    mkCliConfig c.(mode) x c.(event_padding) c.(events_total) c.(buffer_size) c.(warmup_rounds) c.(measured_rounds) c.(timeout_secs) c.(output))) else
  if String.eqb a "--event-padding" then Value "missing value for --event-padding" (assign padding_parse (fun x c =>
    mkCliConfig c.(mode) c.(wait_strategy) x c.(events_total) c.(buffer_size) c.(warmup_rounds) c.(measured_rounds) c.(timeout_secs) c.(output))) else
  if String.eqb a "--events-total" then Value "missing value for --events-total" (assign parse_u64 (fun x c =>
    mkCliConfig c.(mode) c.(wait_strategy) c.(event_padding) x c.(buffer_size) c.(warmup_rounds) c.(measured_rounds) c.(timeout_secs) c.(output))) else
  if String.eqb a "--buffer-size" then Value "missing value for --buffer-size" (assign parse_usize (fun x c =>
    mkCliConfig c.(mode) c.(wait_strategy) c.(event_padding) c.(events_total) x c.(warmup_rounds) c.(measured_rounds) c.(timeout_secs) c.(output))) else
  if String.eqb a "--warmup-rounds" then Value "missing value for --warmup-rounds" (assign parse_usize (fun x c =>
    mkCliConfig c.(mode) c.(wait_strategy) c.(event_padding) c.(events_total) c.(buffer_size) x c.(measured_rounds) c.(timeout_secs) c.(output))) else
  if String.eqb a "--measured-rounds" then Value "missing value for --measured-rounds" (assign parse_usize (fun x c =>
    mkCliConfig c.(mode) c.(wait_strategy) c.(event_padding) c.(events_total) c.(buffer_size) c.(warmup_rounds) x c.(timeout_secs) c.(output))) else
  if String.eqb a "--timeout-secs" then Value "missing value for --timeout-secs" (assign parse_u64 (fun x c =>
    mkCliConfig c.(mode) c.(wait_strategy) c.(event_padding) c.(events_total) c.(buffer_size) c.(warmup_rounds) c.(measured_rounds) x c.(output))) else
  if String.eqb a "--output" then Value "missing value for --output" (assign (fun v => Ok (Some v)) (fun x c =>
    mkCliConfig c.(mode) c.(wait_strategy) c.(event_padding) c.(events_total) c.(buffer_size) c.(warmup_rounds) c.(measured_rounds) c.(timeout_secs) x)) else
  if String.eqb a "--help" || String.eqb a "-h" then HelpFlag else Refused ("unsupported argument: " +:+ a).

(** [CliConfig::from_args] *)
Definition from_args (args : list string) : parsed CliConfig := parse_loop flag_of args cli_default.

(** [ResolvedConfig::try_from] *)
Definition try_from (v : CliConfig) : result ResolvedConfig string :=
  match first_error [
    (v.(events_total) =? 0, "events_total must be > 0");
    ((v.(buffer_size) =? 0) || negb (is_power_of_two v.(buffer_size)),
      "buffer size must be a non-zero power of two, got " +:+ show_uint v.(buffer_size));
    (v.(measured_rounds) =? 0, "measured_rounds must be > 0")]
  with
  | Some e => Err e
  | None => Ok v
  end.

(** ** Handlers *)

(** The counters the last stage shares with the main thread. *)
Record Shared : Type := mkShared { processed : Z; checksum : Z }.

(** What the last stage has not added to them yet. *)
Record Pending : Type := mkPending { pending_processed : Z; pending_checksum : Z }.

(** [flush]: the shared memory after each of its two atomic actions, the count
    first. *)
Definition flush (p : Pending) (s : Shared) : Pending * list Shared :=
  if p.(pending_processed) =? 0 then (p, []) else
  let s1 := mkShared (as_u64 (s.(processed) + p.(pending_processed))) s.(checksum) in
  let s2 := mkShared s1.(processed) (s1.(checksum) +! p.(pending_checksum)) in
  (mkPending 0 0, [s1; s2]).

(** The end of each final [on_event]. *)
Definition accumulate (v : Z) (end_of_batch : bool) (p : Pending) (s : Shared) : Pending * list Shared :=
  let p := mkPending (as_u64 (p.(pending_processed) + 1)) (p.(pending_checksum) +! v) in
  if end_of_batch then flush p s else (p, []).

Section Handlers.
Context {E : Type} `{PipelineEvent E}.

(** [Stage1PassHandler::on_event], [Stage2PassHandler::on_event] *)
Definition stage1_on_event (e : E) : E := fst (apply_stage1 e).
Definition stage2_on_event (e : E) : E := fst (apply_stage2 e).

(** The final handlers of one, two and three stages. *)
Definition stage123_on_event (e : E) (end_of_batch : bool) (p : Pending) (s : Shared) : E * (Pending * list Shared) :=
  let e := fst (apply_stage1 e) in
  let e := fst (apply_stage2 e) in
  let '(e, v) := apply_stage3 e in (e, accumulate v end_of_batch p s).
Definition stage23_on_event (e : E) (end_of_batch : bool) (p : Pending) (s : Shared) : E * (Pending * list Shared) :=
  let e := fst (apply_stage2 e) in
  let '(e, v) := apply_stage3 e in (e, accumulate v end_of_batch p s).
Definition stage3_on_event (e : E) (end_of_batch : bool) (p : Pending) (s : Shared) : E * (Pending * list Shared) :=
  let '(e, v) := apply_stage3 e in (e, accumulate v end_of_batch p s).

(** The event of a value as the last stage of a phase gets it, and that
    stage. *)
Definition upstream (phase : PhaseKind) (v : Z) : E :=
  let e := populate_input event_default (wrap64 v) in
  match phase with
  | SingleStage => e
  | TwoStage => stage1_on_event e
  | ThreeStage => stage2_on_event (stage1_on_event e)
  end.
Definition final_on_event (phase : PhaseKind) : E -> bool -> Pending -> Shared -> E * (Pending * list Shared) :=
  match phase with SingleStage => stage123_on_event | TwoStage => stage23_on_event | ThreeStage => stage3_on_event end.

(** The last stage handles the values from [v] on: what is pending and all
    states the shared memory passes through, the latest last.
    [end_of_batch] cuts the sequences into batches. *)
Fixpoint consumer_run (phase : PhaseKind) (end_of_batch : Z -> bool) (n : nat) (v : Z) (p : Pending) (s : Shared) (history : list Shared) :
    Pending * Shared * list Shared :=
  match n with
  | O => (p, s, history)
  | S n =>
      let '(_, (p, states)) := final_on_event phase (upstream phase v) (end_of_batch v) p s in
      consumer_run phase end_of_batch n (v + 1) p (List.last states s) (history ++ states)
  end.
End Handlers.

(** ** Rounds *)

(** [arithmetic_checksum] and [pipeline_checksum] *)
Definition arithmetic_checksum (count : Z) : Z :=
  let sum := Z.min (count * Z.max 0 (count - 1)) (2 ^ 128 - 1) / 2 in wrap64 (as_u64 sum).
Definition pipeline_checksum (count : Z) (phase : PhaseKind) : Z :=
  let per_event_offset := match phase with SingleStage | TwoStage | ThreeStage => 11 end in
  arithmetic_checksum count +! wrap64 (wrap64 count * per_event_offset).

Definition ops_per_sec_of (events_total elapsed_ns : Z) : f64 :=
  if elapsed_ns =? 0 then f64_zero else f64_div (of_Z events_total) (f64_div (of_Z elapsed_ns) (of_Z 1000000000)).

(** [wait_for_counter]: [counter k] is what the load number [k] gives, and
    [elapsed k] the time before it; on success, the number of the next load. *)
Fixpoint wait_for_counter (fuel : nat) (counter elapsed : nat -> Z) (expected : Z) (label : string) (timeout_secs : Z) (k : nat) :
    option (result nat string) :=
  match fuel with
  | O => None
  | S fuel =>
      if counter k <? expected then
        if timeout_secs * 1000000000 <? elapsed k then
          Some (Err ("timed out waiting for " +:+ label +:+ ": expected >= " +:+ show_uint expected +:+ ", got " +:+ show_uint (counter (S k))))
        else wait_for_counter fuel counter elapsed expected label timeout_secs (S k)
      else Some (Ok (S k))
  end.

Record RoundRecord : Type := mkRoundRecord {
  round_index : Z;
  phase : RoundPhase;
  elapsed_ns : Z;
  ops_per_sec : f64;
  events_expected : Z;
  events_processed : Z;
  checksum_expected : Z;
  checksum_observed : Z;
  valid : bool
}.

(** What the main thread observes in a round: the loads of the readiness
    counter, the shared counters at its loads of them, the clock. *)
Record RoundEnv : Type := mkRoundEnv {
  env_ready : nat -> Z;
  env_shared : nat -> Shared;
  env_clock : nat -> Z;
  env_elapsed : Z
}.

(** The body of the loop of [run_phase]. *)
Definition run_round (fuel : nat) (cfg : ResolvedConfig) (kind : PhaseKind) (round : Z) (env : RoundEnv) : option (result RoundRecord string) :=
  let expected := pipeline_checksum cfg.(events_total) kind in
  match wait_for_counter fuel env.(env_ready) env.(env_clock) (stage_count kind) "pipeline stages ready" cfg.(timeout_secs) 0 with
  | None => None
  | Some (Err e) => Some (Err e)
  | Some (Ok _) =>
      match wait_for_counter fuel (fun k => (env.(env_shared) k).(processed)) env.(env_clock) cfg.(events_total) "pipeline completion" cfg.(timeout_secs) 0 with
      | None => None
      | Some (Err e) => Some (Err e)
      | Some (Ok k) =>
          let events_processed := (env.(env_shared) k).(processed) in
          let checksum_observed := (env.(env_shared) (k + 1)).(checksum) in
          let valid := ((env.(env_shared) (k + 2)).(processed) =? cfg.(events_total)) &&
                       ((env.(env_shared) (k + 3)).(checksum) =? expected) in
          Some (Ok (mkRoundRecord (round + 1) (if round <? cfg.(warmup_rounds) then Warmup else Measured) env.(env_elapsed)
                      (ops_per_sec_of cfg.(events_total) env.(env_elapsed)) cfg.(events_total) events_processed expected
                      checksum_observed valid))
      end
  end.

(** The rounds of a phase. *)
Fixpoint run_rounds (fuel : nat) (cfg : ResolvedConfig) (kind : PhaseKind) (env : Z -> RoundEnv) (rounds : list Z) :
    option (result (list RoundRecord) string) :=
  match rounds with
  | [] => Some (Ok [])
  | round :: rest =>
      match run_round fuel cfg kind round (env round) with
      | None => None
      | Some (Err e) => Some (Err e)
      | Some (Ok r) =>
          match run_rounds fuel cfg kind env rest with
          | Some (Ok rs) => Some (Ok (r :: rs))
          | other => other
          end
      end
  end.

Record PhaseSummary : Type := mkPhaseSummary {
  valid_all : bool;
  median_ops_per_sec : f64;
  mean_ops_per_sec : f64;
  min_ops_per_sec : f64;
  max_ops_per_sec : f64;
  stddev_ops_per_sec : f64;
  cv : f64
}.

(** [summarize_runs]: indexing past the list panics. *)
Definition summarize_runs (runs : list RoundRecord) : option PhaseSummary :=
  let measured := map ops_per_sec (List.filter (fun r => match r.(phase) with Measured => true | Warmup => false end) runs) in
  let valid_all := forallb valid runs in
  match measured with
  | [] => Some (mkPhaseSummary valid_all f64_zero f64_zero f64_zero f64_zero f64_zero f64_zero)
  | _ =>
      let sorted := f64_sort_by f64_total_cmp measured in
      let len := length sorted in
      let median :=
        if Nat.even len then
          match sorted !! (len / 2 - 1)%nat, sorted !! (len / 2)%nat with
          | Some lower, Some upper => Some (f64_midpoint lower upper)
          | _, _ => None
          end
        else sorted !! (len / 2)%nat in
      match median, sorted !! 0%nat, sorted !! (len - 1)%nat with
      | Some median, Some min, Some max =>
          let n := of_Z (Z.of_nat (length measured)) in
          let mean := f64_div (f64_sum measured) n in
          let square x := let delta := f64_sub x mean in f64_mul delta delta in
          let variance := f64_div (f64_sum (map square measured)) n in
          let stddev := f64_sqrt variance in
          let cv := if f64_eq mean f64_zero then f64_zero else f64_div stddev mean in
          Some (mkPhaseSummary valid_all median mean min max stddev cv)
      | _, _, _ => None
      end
  end.

Record PhaseResult : Type := mkPhaseResult { res_phase : PhaseKind; runs : list RoundRecord; summary : PhaseSummary }.

(** [run_phase]; the outer [None] is fuel, a panic is [Some None]. *)
Definition run_phase (fuel : nat) (cfg : ResolvedConfig) (env : Z -> RoundEnv) (kind : PhaseKind) : option (option (result PhaseResult string)) :=
  match run_rounds fuel cfg kind env (seqZ 0 (as_u64 (cfg.(warmup_rounds) + cfg.(measured_rounds)))) with
  | None => None
  | Some (Err e) => Some (Some (Err e))
  | Some (Ok rs) => Some (match summarize_runs rs with Some sm => Some (Ok (mkPhaseResult kind rs sm)) | None => None end)
  end.

(** [run_with_wait_strategy_typed]: the phases in order, to the first error. *)
Fixpoint run_phases (fuel : nat) (cfg : ResolvedConfig) (env : PhaseKind -> Z -> RoundEnv) (kinds : list PhaseKind) :
    option (option (result (list PhaseResult) string)) :=
  match kinds with
  | [] => Some (Some (Ok []))
  | kind :: rest =>
      match run_phase fuel cfg (env kind) kind with
      | Some (Some (Ok r)) =>
          match run_phases fuel cfg env rest with
          | Some (Some (Ok rs)) => Some (Some (Ok (r :: rs)))
          | other => other
          end
      | Some (Some (Err e)) => Some (Some (Err e))
      | Some None => Some None
      | None => None
      end
  end.

(** [phase_delta_ns] *)
Definition phase_delta_ns (phases : list PhaseResult) (lower upper : PhaseKind) : option f64 :=
  let median k := match List.find (fun r => bool_decide (r.(res_phase) = k)) phases with Some r => Some r.(summary).(median_ops_per_sec) | None => None end in
  match median lower, median upper with
  | Some l, Some u =>
      if f64_eq l f64_zero || f64_eq u f64_zero then None
      else Some (f64_sub (f64_div (of_Z 1000000000) u) (f64_div (of_Z 1000000000) l))
  | _, _ => None
  end.

(** [run_main] after the command line; [file] is the error of writing the
    output file, if it could not be written.  An invalid round makes it fail. *)
Definition run_main (fuel : nat) (cfg : ResolvedConfig) (file : option string) (env : PhaseKind -> Z -> RoundEnv) : option (option (result unit string)) :=
  match run_phases fuel cfg env (phases cfg.(mode)) with
  | None => None
  | Some None => Some None
  | Some (Some (Err e)) => Some (Some (Err e))
  | Some (Some (Ok rs)) =>
      match (if is_some cfg.(output) then file else None) with
      | Some e => Some (Some (Err e))
      | None =>
          if forallb (fun r => r.(summary).(valid_all)) rs then Some (Some (Ok tt))
          else Some (Some (Err "one or more pipeline breakdown phases failed correctness validation"))
      end
  end.
