(* ===== verification/PipelineBreakdownSpec.v ===== *)
(** * PipelineBreakdownSpec: the theorems on [PipelineBreakdown]: what the last
    stage leaves in the shared counters, and what the main thread's verdict on
    a round is worth. *)
From Stdlib Require Import Ascii.
From S2P Require Import Prelude Effects Errors Text Float64 CommandLine Checksums PipelineBreakdown.

(** ** What the event types promise *)

(** The three stages add eleven to the value an event was published with. *)
Class LawfulPipelineEvent (E : Type) `{PipelineEvent E} : Prop :=
  adds_eleven : forall v, as_u64 (snd (apply_stage3 (stage2_on_event (stage1_on_event (populate_input event_default v))))) = as_u64 (v + 11).

#[export] Instance comparison_lawful : LawfulPipelineEvent ComparisonEvent.
Proof. exact three_steps. Qed.
#[export] Instance padded64_lawful : LawfulPipelineEvent ComparisonPadded64Event.
Proof. exact three_steps. Qed.

(** ** The expected checksum *)

Lemma pipeline_spec count kind :
  0 <= count <= u64_max -> pipeline_checksum count kind = wrap64 (total (map (fun v => v + 11) (seqZ 0 count))).
Proof.
  intros Hc. pose proof (total_seqZ (Z.to_nat count)) as Ht. rewrite Z2Nat.id in Ht by lia.
  unfold pipeline_checksum, arithmetic_checksum. rewrite total_map_add, length_seqZ, Z2Nat.id by lia.
  assert (Hsq : 0 <= count * (count - 1) <= 2 ^ 128 - 1 \/ count = 0) by (change u64_max with (2 ^ 64 - 1) in Hc; nia).
  replace (count * Z.max 0 (count - 1)) with (count * (count - 1)) by nia. rewrite Z.min_l by nia. rewrite <- Ht, Z.div_mul by done.
  rewrite wrap_as_u64. replace (match kind with SingleStage | TwoStage | ThreeStage => 11 end) with 11 by (by destruct kind).
  rewrite wrap_wrap_l, wrap_wrap_r. destruct (wrap_shift count) as [k ->].
  rewrite <- wrap_as_u64, <- (wrap_as_u64 (_ + 11 * count)), <- (as_u64_shift (_ + 11 * count) (11 * k)). do 2 f_equal. lia.
Qed.

(** ** The last stage *)

Section LastStage.
Context {E : Type} `{LawfulPipelineEvent E}.
Variable kind : PhaseKind.
Variable end_of_batch : Z -> bool.

(** What the last stage adds for the value [v]. *)
Definition result_of (v : Z) : Z :=
  snd (apply_stage3 (stage2_on_event (stage1_on_event (populate_input (E := E) event_default (wrap64 v))))).

(** In every phase the last stage collects the same result. *)
Lemma final_spec v b p s : snd (final_on_event (E := E) kind (upstream kind v) b p s) = accumulate (result_of v) b p s.
Proof.
  unfold result_of. destruct kind; cbn [final_on_event upstream]; unfold stage123_on_event, stage23_on_event, stage3_on_event, stage2_on_event, stage1_on_event;
    by destruct (apply_stage3 _).
Qed.

Lemma result_u64 v : as_u64 (result_of v) = as_u64 (v + 11).
Proof. unfold result_of. by rewrite adds_eleven, <- as_u64_wrap, wrap_wrap_l, as_u64_wrap. Qed.

Definition last_step (v : Z) (st : Pending * Shared * list Shared) : Pending * Shared * list Shared :=
  let '(p, s, history) := st in
  let '(p, states) := accumulate (result_of v) (end_of_batch v) p s in (p, List.last states s, history ++ states).

Lemma consumer_run_snoc n : forall v p s history,
  consumer_run (E := E) kind end_of_batch (S n) v p s history = last_step (v + Z.of_nat n) (consumer_run (E := E) kind end_of_batch n v p s history).
Proof.
  induction n as [|n IH]; intros v p s history.
  - cbn [consumer_run]. rewrite Z.add_0_r. pose proof (final_spec v (end_of_batch v) p s) as Hf. unfold last_step.
    destruct (final_on_event _ _ _ _ _) as [e [p' states]]. cbn [snd] in Hf. by rewrite <- Hf.
  - cbn [consumer_run]. cbn [consumer_run] in IH. destruct (final_on_event _ _ _ _ _) as [e [p' states]]. rewrite IH.
    f_equal. lia.
Qed.

(** After the values below [v]: every one is counted and its result is in a
    sum, flushed or pending; the count has only grown. *)
Definition conserved (v : Z) (st : Pending * Shared * list Shared) : Prop :=
  let '(p, s, history) := st in
  0 <= p.(pending_processed) /\ 0 <= s.(processed) /\ s.(processed) + p.(pending_processed) = v /\
  as_u64 (s.(checksum) + p.(pending_checksum)) = as_u64 (total (map (fun v => v + 11) (seqZ 0 v))) /\
  s.(checksum) = wrap64 s.(checksum) /\
  Forall (fun s' => s'.(processed) <= s.(processed)) history.

Lemma collect_u64 v a b x :
  0 <= v -> as_u64 (a + b) = as_u64 (total (map (fun v => v + 11) (seqZ 0 v))) -> as_u64 x = as_u64 (v + 11) ->
  as_u64 (a + wrap64 (b + x)) = as_u64 (total (map (fun v => v + 11) (seqZ 0 (v + 1)))).
Proof.
  intros Hv Hab Hx. rewrite seqZ_app, map_app, total_app by lia. rewrite (seqZ_cons _ 1), (seqZ_nil _ (Z.pred 1)) by lia.
  cbn [map]. rewrite total_cons. change (total []) with 0.
  rewrite <- (as_u64_add a), as_u64_wrap, as_u64_add, Z.add_assoc, <- (as_u64_add (a + b)), Hab, Hx, as_u64_add. f_equal. lia.
Qed.

Lemma last_step_conserved v st :
  0 <= v < u64_max -> conserved v st -> conserved (v + 1) (last_step v st).
Proof.
  unfold u64_max. intros Hv. destruct st as [[p s] history]. unfold last_step, conserved, accumulate. intros (Hp & Hs & Hc & Hsum & Hw & Hall).
  assert (Hp1 : as_u64 (pending_processed p + 1) = pending_processed p + 1) by (apply as_u64_small; i64_lia).
  rewrite Hp1. assert (Hcoll := collect_u64 v _ _ _ ltac:(lia) Hsum (result_u64 v)).
  destruct (end_of_batch v).
  - unfold flush. cbn [pending_processed pending_checksum]. destruct (Z.eqb_spec (pending_processed p + 1) 0); [lia|]. cbn [List.last processed checksum pending_processed pending_checksum].
    rewrite (as_u64_small (processed s + _)) by i64_lia. split_and!; try lia.
    + by rewrite Z.add_0_r, as_u64_wrap.
    + by rewrite wrap_idem.
    + apply Forall_app. split; [eapply Forall_impl; [exact Hall|]; cbn; lia | repeat constructor; cbn; lia].
  - cbn [List.last pending_processed pending_checksum]. rewrite app_nil_r. split_and!; try done; lia.
Qed.

Lemma consumer_run_conserved n :
  Z.of_nat n <= u64_max -> conserved (Z.of_nat n) (consumer_run (E := E) kind end_of_batch n 0 (mkPending 0 0) (mkShared 0 0) [mkShared 0 0]).
Proof.
  induction n as [|n IH]; intros Hn; [cbn; split_and!; try done; by repeat constructor|].
  rewrite consumer_run_snoc, Z.add_0_l. replace (Z.of_nat (S n)) with (Z.of_nat n + 1) by lia. apply last_step_conserved; [lia | apply IH; lia].
Qed.

(** All states of the shared memory in a round of [n] values. *)
Definition round_history (n : Z) : list Shared :=
  snd (consumer_run (E := E) kind end_of_batch (Z.to_nat n) 0 (mkPending 0 0) (mkShared 0 0) [mkShared 0 0]).

Definition start : Pending * Shared * list Shared := (mkPending 0 0, mkShared 0 0, [mkShared 0 0]).

(** A flush leaves nothing pending. *)
Lemma flushed v st :
  0 <= v < u64_max -> conserved v st -> end_of_batch v = true -> fst (fst (last_step v st)) = mkPending 0 0.
Proof.
  unfold u64_max. intros Hv. destruct st as [[p s] history]. intros (Hp & Hs & Hc & _) Hb. unfold last_step, accumulate, flush. rewrite Hb. cbn [pending_processed].
  rewrite (as_u64_small (_ + 1)) by i64_lia. destruct (Z.eqb_spec (pending_processed p + 1) 0); [lia | done].
Qed.

(** The last two states are those of the last flush: before it the count is
    not complete; between its two actions the count is, but not the sum. *)
Lemma history_spec n :
  0 < n <= u64_max -> end_of_batch (n - 1) = true ->
  exists earlier partial pending,
    round_history n = earlier ++ [mkShared n partial; mkShared n (pipeline_checksum n kind)] /\
    Forall (fun s => s.(processed) < n) earlier /\ pipeline_checksum n kind = partial +! pending /\
    (n = 1 \/ end_of_batch (n - 2) = true -> as_u64 pending = as_u64 (n + 10)).
Proof.
  intros Hn Hb. unfold round_history. fold start. destruct (Z.to_nat n) as [|m] eqn:Hm; [lia|]. assert (Hnm : n = Z.of_nat m + 1) by lia. subst n.
  pose proof (consumer_run_conserved (S m) ltac:(lia)) as Hend. pose proof (consumer_run_conserved m ltac:(lia)) as Hbefore.
  assert (Hfl : Z.of_nat m + 1 = 1 \/ end_of_batch (Z.of_nat m + 1 - 2) = true -> fst (fst (consumer_run (E := E) kind end_of_batch m 0 (mkPending 0 0) (mkShared 0 0) [mkShared 0 0])) = mkPending 0 0).
  { intros Hor. destruct m as [|m]; [done|]. rewrite consumer_run_snoc. apply flushed; [lia | apply consumer_run_conserved; lia |].
    destruct Hor as [?|Hor]; [lia|]. by replace (0 + Z.of_nat m) with (Z.of_nat (S m) + 1 - 2) by lia. }
  fold start in *. rewrite consumer_run_snoc in *. rewrite Z.add_0_l in *.
  destruct (consumer_run _ _ m _ _ _ _) as [[p s] history]. cbn [fst snd] in Hfl. clear Hm.
  rewrite Z.add_simpl_r in Hb. unfold last_step, accumulate, flush in Hend |- *. rewrite Hb in *. cbn [pending_processed pending_checksum] in *.
  destruct Hbefore as (Hp & Hs & Hc & Hsum & Hw & Hall). unfold u64_max in Hn. rewrite (as_u64_small (pending_processed p + 1)) in * by i64_lia.
  destruct (Z.eqb_spec (pending_processed p + 1) 0); [lia|]. cbn [List.last processed checksum snd pending_processed pending_checksum] in *.
  destruct Hend as (_ & _ & Hcount & Hsums & _). rewrite Z.add_0_r in Hcount, Hsums.
  rewrite (as_u64_small (processed s + _)) in * by i64_lia.
  assert (Hfinal : pipeline_checksum (Z.of_nat m + 1) kind = checksum s +! (pending_checksum p +! result_of (Z.of_nat m))).
  { rewrite pipeline_spec by (unfold u64_max; lia). rewrite <- (wrap_as_u64 (total _)). replace (Z.of_nat m + 1) with (Z.of_nat (S m)) by lia.
    rewrite <- Hsums, wrap_as_u64. apply wrap_idem. }
  exists history, (checksum s), (pending_checksum p +! result_of (Z.of_nat m)). split_and!.
  - rewrite Hfinal. by replace (processed s + (pending_processed p + 1)) with (Z.of_nat m + 1) by lia.
  - eapply Forall_impl; [exact Hall|]. cbn. lia.
  - done.
  - intros ->%Hfl. cbn [pending_checksum]. rewrite as_u64_wrap, Z.add_0_l, result_u64. f_equal. lia.
Qed.
End LastStage.

(** ** The main thread's verdict *)

(** The main thread's loads see states of the shared memory in their order;
    [position k] is where the load [k] happens. *)
Definition observes (history : list Shared) (loads : nat -> Shared) (position : nat -> nat) : Prop :=
  (forall k, history !! position k = Some (loads k)) /\ (forall j k, (j <= k)%nat -> (position j <= position k)%nat).

Lemma wait_for_counter_ok fuel counter elapsed expected label t : forall k0 k,
  wait_for_counter fuel counter elapsed expected label t k0 = Some (Ok k) -> exists j, k = S j /\ expected <= counter j.
Proof.
  induction fuel as [|fuel IH]; intros k0 k; cbn; [done|]. destruct (Z.ltb_spec (counter k0) expected).
  - destruct (_ <? _); [done|]. apply IH.
  - intros [= <-]. eauto.
Qed.

Section Loads.
Context {E : Type} `{LawfulPipelineEvent E}.
Variables (kind : PhaseKind) (eob : Z -> bool) (n : Z) (loads : nat -> Shared) (position : nat -> nat).
Hypothesis Hn : 0 < n <= u64_max.
Hypothesis Hb : eob (n - 1) = true.
Hypothesis Hobs : observes (round_history (E := E) kind eob n) loads position.
Notation partial_at := (length (round_history (E := E) kind eob n) - 2)%nat.

(** A load that sees the whole count happens after the first action of the
    last flush. *)
Lemma complete_load k : n <= (loads k).(processed) -> (partial_at <= position k)%nat.
Proof.
  intros Hk. destruct (history_spec (E := E) kind eob n Hn Hb) as (earlier & partial & pending & Hh & Hall & _).
  destruct Hobs as [Hat _]. specialize (Hat k). rewrite Hh in *. rewrite length_app. cbn [length]. rewrite lookup_app in Hat.
  destruct (earlier !! position k) as [s|] eqn:He; [|apply lookup_ge_None in He; lia].
  injection Hat as ->. rewrite Forall_lookup in Hall. specialize (Hall _ _ He). lia.
Qed.

(** And then it sees one of the last two states. *)
Lemma late_load k :
  (partial_at <= position k)%nat ->
  (loads k).(processed) = n /\ (position k <> partial_at -> (loads k).(checksum) = pipeline_checksum n kind).
Proof.
  intros Hk. destruct (history_spec (E := E) kind eob n Hn Hb) as (earlier & partial & pending & Hh & _).
  destruct Hobs as [Hat _]. specialize (Hat k). rewrite Hh in *. rewrite length_app in *. cbn [length] in *. rewrite lookup_app_r in Hat by lia.
  destruct (position k - length earlier)%nat as [|[|i]] eqn:Hi; cbn in Hat; try done; injection Hat as <-; cbn; split; try done; lia.
Qed.
End Loads.

(** C33: Whatever the batches, a round that comes to a verdict has counted every
    event, and the verdict is "valid" with the expected checksum if no load of
    the main thread falls between the two actions of the last flush. *)
Theorem breakdown_verdict {E} `{LawfulPipelineEvent E} kind eob fuel cfg round env position r :
  0 < cfg.(events_total) <= u64_max -> eob (cfg.(events_total) - 1) = true ->
  observes (round_history (E := E) kind eob cfg.(events_total)) env.(env_shared) position ->
  run_round fuel cfg kind round env = Some (Ok r) ->
  r.(events_processed) = r.(events_expected) /\ r.(events_expected) = cfg.(events_total) /\
  ((forall k, position k <> (length (round_history (E := E) kind eob cfg.(events_total)) - 2)%nat) ->
   r.(valid) = true /\ r.(checksum_observed) = wrap64 (total (map (fun v => v + 11) (seqZ 0 cfg.(events_total))))).
Proof.
  intros Hn Hb Hobs. unfold run_round. destruct (wait_for_counter _ _ _ _ _ _ _) as [[k0|]|]; [|done..].
  destruct (wait_for_counter _ (fun k => processed _) _ _ _ _ _) as [[k|]|] eqn:Hw; [|done..]. intros [= <-]. cbn.
  apply wait_for_counter_ok in Hw as (j & -> & Hj).
  pose proof (complete_load kind eob _ _ _ Hn Hb Hobs j Hj) as Hpos.
  assert (Hload := fun k Hk => late_load kind eob _ _ _ Hn Hb Hobs k (Nat.le_trans _ _ _ Hpos (proj2 Hobs j k Hk))).
  split_and!; [apply Hload; lia | done|]. intros Hgap. rewrite <- (pipeline_spec _ kind) by lia.
  destruct (Hload (S j)), (Hload (S j + 1)%nat), (Hload (S j + 2)%nat), (Hload (S j + 3)%nat); try lia.
  split; [apply andb_true_iff; split; apply Z.eqb_eq|]; auto.
Qed.

(** C34: The count is added before the sum: with batches of one event, the main
    thread can make all its loads between the two actions of the last flush,
    and then declares a round invalid in which every event has been handled,
    as the later loads show. *)
Theorem breakdown_race {E} `{LawfulPipelineEvent E} kind fuel cfg round :
  0 < cfg.(events_total) <= i64_max ->
  exists env position r,
    observes (round_history (E := E) kind (fun _ => true) cfg.(events_total)) env.(env_shared) position /\
    (exists k, (env.(env_shared) k).(processed) = cfg.(events_total) /\ (env.(env_shared) k).(checksum) = pipeline_checksum cfg.(events_total) kind) /\
    run_round (S fuel) cfg kind round env = Some (Ok r) /\ r.(events_processed) = cfg.(events_total) /\ r.(valid) = false.
Proof.
  intros Hn. set (n := events_total cfg) in *.
  destruct (history_spec (E := E) kind (fun _ => true) n) as (earlier & partial & pending & Hh & _ & Hsum & Hpend); [unfold u64_max; i64_lia | done|].
  rewrite Hh. specialize (Hpend (or_intror eq_refl)).
  set (position k := if (k <=? 4)%nat then length earlier else S (length earlier)).
  set (loads k := if (k <=? 4)%nat then mkShared n partial else mkShared n (pipeline_checksum n kind)).
  exists (mkRoundEnv (fun _ => stage_count kind) loads (fun _ => 0) 0), position.
  eexists. split_and!.
  - split; intros k; unfold position, loads; cbn.
    + destruct (Nat.leb_spec k 4); rewrite lookup_app_r by lia; [by rewrite Nat.sub_diag | by replace (S _ - _)%nat with 1%nat by lia].
    + intros k' Hk. destruct (Nat.leb_spec k 4), (Nat.leb_spec k' 4); lia.
  - exists 5%nat. done.
  - unfold run_round. cbn [wait_for_counter env_ready env_clock env_shared]. rewrite Z.ltb_irrefl. unfold loads. cbn [Nat.leb processed].
    fold n. rewrite Z.ltb_irrefl. done.
  - done.
  - cbn. fold n. rewrite Z.eqb_refl. apply Z.eqb_neq. intros Heq. rewrite Hsum in Heq.
    assert (Hz : as_u64 partial = as_u64 (partial + (n + 10))).
    { rewrite Heq at 1. by rewrite as_u64_wrap, <- as_u64_add, Hpend, as_u64_add. }
    rewrite <- (Z.add_0_r partial) in Hz at 1.
    assert (Hm : (n + 10) mod two64 = 0).
    { apply (f_equal wrap64) in Hz. rewrite !wrap_as_u64 in Hz. symmetry in Hz. apply wrap_eq in Hz. rewrite <- Hz. f_equal. lia. }
    rewrite Z.mod_small in Hm by i64_lia. i64_lia.
Qed.

(** ** Reports *)

(** The statistics never index past the sorted rates. *)
Lemma summarize_runs_total rs : exists sm, summarize_runs rs = Some sm /\ sm.(valid_all) = forallb valid rs.
Proof.
  unfold summarize_runs. destruct (map _ _) as [|x l]; [by eexists|]. set (sorted := f64_sort_by _ _).
  assert (Hlen : (0 < length sorted)%nat) by (unfold sorted; rewrite length_sort_by; cbn; lia).
  assert (Hat : forall i, (i < length sorted)%nat -> exists v : f64, sorted !! i = Some v) by (intros i Hi; by apply lookup_lt_is_Some_2).
  assert (Hhalf : (length sorted / 2 < length sorted)%nat) by (apply Nat.div_lt; lia).
  destruct (Hat (length sorted / 2)%nat) as [upper Hu]; [done|]. destruct (Hat (length sorted / 2 - 1)%nat) as [lower Hl]; [lia|].
  destruct (Hat 0%nat) as [low Hlow]; [done|]. destruct (Hat (length sorted - 1)%nat) as [high Hhigh]; [lia|].
  rewrite Hu, Hl, Hlow, Hhigh. destruct (Nat.even _); by eexists.
Qed.

Lemma run_phases_ok fuel cfg env kinds rs :
  run_phases fuel cfg env kinds = Some (Some (Ok rs)) ->
  Forall2 (fun kind r => run_rounds fuel cfg kind (env kind) (seqZ 0 (as_u64 (cfg.(warmup_rounds) + cfg.(measured_rounds)))) = Some (Ok r.(runs)) /\
             r.(summary).(valid_all) = forallb valid r.(runs)) kinds rs.
Proof.
  revert rs. induction kinds as [|kind kinds IH]; intros rs; cbn [run_phases]; [intros [= <-]; constructor|].
  unfold run_phase. destruct (run_rounds _ _ _ _ _) as [[rounds|]|] eqn:Hr; [|done..].
  destruct (summarize_runs_total rounds) as (sm & -> & Hsm). destruct (run_phases _ _ _ kinds) as [[[rest|]|]|]; try done.
  intros [= <-]. constructor; [done | by apply IH].
Qed.

Lemma run_rounds_ok fuel cfg kind env rounds rs :
  run_rounds fuel cfg kind env rounds = Some (Ok rs) -> Forall2 (fun i r => run_round fuel cfg kind i (env i) = Some (Ok r)) rounds rs.
Proof.
  revert rs. induction rounds as [|i rounds IH]; intros rs; cbn [run_rounds]; [intros [= <-]; constructor|].
  destruct (run_round _ _ _ i _) as [[r|]|] eqn:Hr; [|done..]. destruct (run_rounds _ _ _ _ rounds) as [[rest|]|]; try done.
  intros [= <-]. constructor; [done | by apply IH].
Qed.

(** The tool succeeds only if every round of every phase of the mode was
    counted and summed in full, and it never panics. *)
Theorem breakdown_success fuel cfg file env :
  cfg.(warmup_rounds) + cfg.(measured_rounds) <= u64_max -> 0 <= cfg.(warmup_rounds) -> 0 <= cfg.(measured_rounds) -> 0 <= cfg.(events_total) <= u64_max ->
  run_main fuel cfg file env <> Some None /\
  (run_main fuel cfg file env = Some (Some (Ok tt)) ->
   forall kind i, kind ∈ phases cfg.(mode) -> 0 <= i < cfg.(warmup_rounds) + cfg.(measured_rounds) ->
     exists k, ((env kind i).(env_shared) k).(processed) = cfg.(events_total) /\
       ((env kind i).(env_shared) (S k)).(checksum) = wrap64 (total (map (fun v => v + 11) (seqZ 0 cfg.(events_total))))).
Proof.
  intros Hfit Hw Hm He. split.
  - unfold run_main. assert (Hp : forall kinds, run_phases fuel cfg env kinds <> Some None).
    { induction kinds as [|kind kinds IH]; cbn [run_phases]; [done|]. unfold run_phase. destruct (run_rounds _ _ _ _ _) as [[rounds|]|]; try done.
      destruct (summarize_runs_total rounds) as (sm & -> & _). destruct (run_phases _ _ _ kinds) as [[[|]|]|]; done. }
    destruct (run_phases _ _ _ _) as [[[rs|]|]|] eqn:Hr; try done; [|by apply Hp in Hr]. destruct (if is_some _ then _ else _); [done|].
    by destruct (forallb _ rs).
  - unfold run_main. destruct (run_phases _ _ _ _) as [[[rs|]|]|] eqn:Hr; try done. destruct (if is_some _ then _ else _); [done|].
    destruct (forallb _ rs) eqn:Hv; [|done]. intros _ kind i Hkind Hi. apply run_phases_ok in Hr.
    apply list_elem_of_lookup in Hkind as [n Hn]. destruct (Forall2_lookup_l _ _ _ n kind Hr Hn) as (res & Hres & Hrounds & Hvalid).
    rewrite forallb_forall in Hv. rewrite Hv in Hvalid by (apply list_elem_of_In; by eapply list_elem_of_lookup_2).
    rewrite as_u64_small in Hrounds by (unfold u64_ones, u64_max in *; lia). apply run_rounds_ok in Hrounds.
    destruct (Forall2_lookup_l _ _ _ (Z.to_nat i) i Hrounds) as (r & Hr1 & Hround); [apply lookup_seqZ; lia|].
    symmetry in Hvalid. rewrite forallb_forall in Hvalid. specialize (Hvalid r ltac:(apply list_elem_of_In; by eapply list_elem_of_lookup_2)).
    unfold run_round in Hround. destruct (wait_for_counter _ _ _ _ _ _ _) as [[k0|]|]; [|done..].
    destruct (wait_for_counter _ (fun k => processed _) _ _ _ _ _) as [[k|]|]; [|done..]. injection Hround as <-. cbn in Hvalid.
    apply andb_true_iff in Hvalid as [H1%Z.eqb_eq H2%Z.eqb_eq]. exists (k + 2)%nat. rewrite pipeline_spec in H2 by done.
    split; [done|]. by replace (S (k + 2)) with (k + 3)%nat by lia.
Qed.
