(* ===== verification/PipelineReport.v ===== *)
(** * PipelineReport: the report of src/bin/pipeline_breakdown.rs

    The result of all phases and the JSON text [render_json] makes of it,
    compared with the value it stands for. *)
From S2P Require Import Prelude Effects Errors Text Float64 Json CommandLine PipelineBreakdown.

(** [BreakdownResult] *)
Record BreakdownResult : Type := mkBreakdownResult {
  bd_mode : Mode;
  bd_wait_strategy : WaitStrategyKind;
  bd_event_padding : EventPadding;
  bd_event_size_bytes : Z;
  bd_events_total : Z;
  bd_buffer_size : Z;
  bd_warmup_rounds : Z;
  bd_measured_rounds : Z;
  bd_phases : list PhaseResult;
  single_to_two_delta_ns_per_event : option f64;
  two_to_three_delta_ns_per_event : option f64
}.

(** What [run_with_wait_strategy_typed] returns once the phases are run. *)
Definition breakdown_result (cfg : ResolvedConfig) (rs : list PhaseResult) : BreakdownResult :=
  mkBreakdownResult cfg.(mode) cfg.(wait_strategy) cfg.(event_padding) (event_size_bytes cfg.(event_padding)) cfg.(events_total)
    cfg.(buffer_size) cfg.(warmup_rounds) cfg.(measured_rounds) rs
    (phase_delta_ns rs SingleStage TwoStage) (phase_delta_ns rs TwoStage ThreeStage).

(** ** Writing a field *)

Definition write_json_field (indent : nat) (key value : string) (trailing : bool) : string := field indent key (quoted value) trailing.
Definition write_json_number (indent : nat) (key : string) (value : Z) (trailing : bool) : string := field indent key (show_int value) trailing.
Definition write_json_number_u128 (indent : nat) (key : string) (value : Z) (trailing : bool) : string := field indent key (show_int value) trailing.
Definition write_json_i64 (indent : nat) (key : string) (value : Z) (trailing : bool) : string := field indent key (show_int value) trailing.
Definition write_json_float (indent : nat) (key : string) (value : f64) (trailing : bool) : string := field indent key (show_fixed 6 value) trailing.
Definition write_json_bool (indent : nat) (key : string) (value : bool) (trailing : bool) : string := field indent key (show_bool value) trailing.
Definition write_optional_float (indent : nat) (key : string) (value : option f64) (trailing : bool) : string :=
  match value with
  | Some value => field indent key (show_fixed 6 value) trailing
  | None => field indent key "null" trailing
  end.

(** ** The report *)

Definition render_run (run : RoundRecord) : string :=
  cat ["        {"; nl;
       write_json_number 10 "round_index" run.(round_index) true;
       write_json_field 10 "phase" (round_phase_as_str run.(phase)) true;
       write_json_number_u128 10 "elapsed_ns" run.(elapsed_ns) true;
       write_json_float 10 "ops_per_sec" run.(ops_per_sec) true;
       write_json_number 10 "events_expected" run.(events_expected) true;
       write_json_number 10 "events_processed" run.(events_processed) true;
       write_json_i64 10 "checksum_expected" run.(checksum_expected) true;
       write_json_i64 10 "checksum_observed" run.(checksum_observed) true;
       write_json_bool 10 "valid" run.(valid) false;
       "        }"].

Definition render_summary (s : PhaseSummary) : string :=
  cat ["{"; nl;
       write_json_bool 8 "valid_all" s.(valid_all) true;
       write_json_float 8 "median_ops_per_sec" s.(median_ops_per_sec) true;
       write_json_float 8 "mean_ops_per_sec" s.(mean_ops_per_sec) true;
       write_json_float 8 "min_ops_per_sec" s.(min_ops_per_sec) true;
       write_json_float 8 "max_ops_per_sec" s.(max_ops_per_sec) true;
       write_json_float 8 "stddev_ops_per_sec" s.(stddev_ops_per_sec) true;
       write_json_float 8 "cv" s.(cv) false;
       "      }"; nl].

Definition render_phase (p : PhaseResult) : string :=
  cat ["    {"; nl;
       write_json_field 6 "phase" (phase_as_str p.(res_phase)) true;
       write_json_number 6 "stage_count" (stage_count p.(res_phase)) true;
       spaces 6; quoted "runs"; ": ["; nl;
       each render_run (cat [","; nl]) nl p.(runs);
       "      ],"; nl;
       spaces 6; quoted "summary"; ": "; render_summary p.(summary);
       "    }"].

Definition render_json (r : BreakdownResult) : string :=
  cat ["{"; nl;
       write_json_field 2 "tool" "pipeline_breakdown" true;
       write_json_field 2 "mode" (mode_as_str r.(bd_mode)) true;
       write_json_field 2 "wait_strategy" (wait_as_str r.(bd_wait_strategy)) true;
       write_json_field 2 "event_padding" (padding_as_str r.(bd_event_padding)) true;
       write_json_number 2 "event_size_bytes" r.(bd_event_size_bytes) true;
       write_json_number 2 "events_total" r.(bd_events_total) true;
       write_json_number 2 "buffer_size" r.(bd_buffer_size) true;
       write_json_number 2 "warmup_rounds" r.(bd_warmup_rounds) true;
       write_json_number 2 "measured_rounds" r.(bd_measured_rounds) true;
       write_optional_float 2 "single_to_two_delta_ns_per_event" r.(single_to_two_delta_ns_per_event) true;
       write_optional_float 2 "two_to_three_delta_ns_per_event" r.(two_to_three_delta_ns_per_event) true;
       spaces 2; quoted "phases"; ": ["; nl;
       each render_phase (cat [","; nl]) nl r.(bd_phases);
       "  ]"; nl;
       "}"; nl].

(** ** The value it stands for *)

Definition run_value (run : RoundRecord) : option json :=
  obj [("round_index", integer run.(round_index)); ("phase", text (round_phase_as_str run.(phase)));
       ("elapsed_ns", integer run.(elapsed_ns)); ("ops_per_sec", decimal 6 run.(ops_per_sec));
       ("events_expected", integer run.(events_expected)); ("events_processed", integer run.(events_processed));
       ("checksum_expected", integer run.(checksum_expected)); ("checksum_observed", integer run.(checksum_observed));
       ("valid", truth run.(valid))].

Definition summary_value (s : PhaseSummary) : option json :=
  obj [("valid_all", truth s.(valid_all)); ("median_ops_per_sec", decimal 6 s.(median_ops_per_sec));
       ("mean_ops_per_sec", decimal 6 s.(mean_ops_per_sec)); ("min_ops_per_sec", decimal 6 s.(min_ops_per_sec));
       ("max_ops_per_sec", decimal 6 s.(max_ops_per_sec)); ("stddev_ops_per_sec", decimal 6 s.(stddev_ops_per_sec));
       ("cv", decimal 6 s.(cv))].

Definition phase_value (p : PhaseResult) : option json :=
  obj [("phase", text (phase_as_str p.(res_phase))); ("stage_count", integer (stage_count p.(res_phase)));
       ("runs", arr (map run_value p.(runs))); ("summary", summary_value p.(summary))].

Definition optional_decimal (x : option f64) : option json := match x with Some x => decimal 6 x | None => Some JNull end.

Definition report_value (r : BreakdownResult) : option json :=
  obj [("tool", text "pipeline_breakdown"); ("mode", text (mode_as_str r.(bd_mode)));
       ("wait_strategy", text (wait_as_str r.(bd_wait_strategy))); ("event_padding", text (padding_as_str r.(bd_event_padding)));
       ("event_size_bytes", integer r.(bd_event_size_bytes)); ("events_total", integer r.(bd_events_total));
       ("buffer_size", integer r.(bd_buffer_size)); ("warmup_rounds", integer r.(bd_warmup_rounds));
       ("measured_rounds", integer r.(bd_measured_rounds));
       ("single_to_two_delta_ns_per_event", optional_decimal r.(single_to_two_delta_ns_per_event));
       ("two_to_three_delta_ns_per_event", optional_decimal r.(two_to_three_delta_ns_per_event));
       ("phases", arr (map phase_value r.(bd_phases)))].

(** ** The text is JSON *)

Ltac fields :=
  unfold write_json_field, write_json_number, write_json_number_u128, write_json_i64, write_json_float, write_json_bool.

Lemma lexes_pipeline_run run : lexes (render_run run) (toks (run_value run)).
Proof. unfold render_run, run_value. fields. lex_report. Qed.

Lemma lexes_pipeline_summary s : lexes (render_summary s) (toks (summary_value s)).
Proof. unfold render_summary, summary_value. fields. lex_report. Qed.

#[local] Hint Resolve lexes_pipeline_run lexes_pipeline_summary : lex.

Lemma lexes_pipeline_phase p : lexes (render_phase p) (toks (phase_value p)).
Proof. unfold render_phase, phase_value. fields. lex_report. Qed.

#[local] Hint Resolve lexes_pipeline_phase : lex.

Lemma lexes_optional_float n k x (trailing : bool) : unescaped k = true ->
  lexes (write_optional_float n k x trailing)
    (app_opt (Some [TStr k; Colon]) (app_opt (toks (optional_decimal x)) (Some (if trailing then [Comma] else [])))).
Proof. intros Hk. destruct x; apply lexes_field; [done | apply value_decimal; lia | done | apply value_null]. Qed.

#[local] Hint Resolve lexes_optional_float : lex.

(** The report is a JSON text exactly if every number in it is finite,
    and then it reads back as the result it was made of: every field under its
    key, the phases and their runs in order, every [f64] to six decimals. *)
Theorem pipeline_report_reads_back r : parse_json (render_json r) = report_value r.
Proof. apply parse_json_lexes. unfold render_json, report_value. fields. lex_report. Qed.
