(* ===== verification/UnicastBreakdown.v ===== *)
(** * UnicastBreakdown: src/bin/unicast_breakdown.rs

    The phases of a unicast publication measured one by one, directly on the
    single-producer sequencer and the ring buffer: the claims alone, with the
    writes, with the publications, and with a consumer thread of its own behind
    a sequence barrier.  A program of the main thread or of the consumer acts on
    the [World] of the library. *)
From Stdlib Require Import Ascii.
From stdpp Require Import pretty.
From S2P Require Import Prelude Effects Errors RingBuffer World Sequence Single Waiting WaitStrategy Barrier ConsumerEngine Core.
From S2P Require Import Text Float64 CommandLine.

Definition DEFAULT_TIMEOUT_SECS : Z := 300.

(** ** Events *)

Record MicroEvent : Type := mkMicroEvent { micro_value : Z }.

Record ComparisonPayloadEvent : Type := mkComparisonPayloadEvent {
  cmp_value : Z; cmp_stage1_value : Z; cmp_stage2_value : Z; cmp_stage3_value : Z
}.
(** The same fields, aligned to 64 and 128 bytes. *)
Record ComparisonPadded64Event : Type := mkComparisonPadded64Event {
  pad64_value : Z; pad64_stage1_value : Z; pad64_stage2_value : Z; pad64_stage3_value : Z
}.
Record ComparisonPadded128Event : Type := mkComparisonPadded128Event {
  pad128_value : Z; pad128_stage1_value : Z; pad128_stage2_value : Z; pad128_stage3_value : Z
}.

(** What the four copies of the consumer and of the publishing loop do with
    their event type. *)
Class Payload (E : Type) : Type := {
  payload_default : E;
  populate : E -> Z -> E;
  payload_value : E -> Z
}.

Definition micro_payload : Payload MicroEvent := {|
  payload_default := mkMicroEvent 0;
  populate _ v := mkMicroEvent v;
  payload_value := micro_value
|}.
#[export] Existing Instance micro_payload.

(** [populate_comparison_event] and its two copies *)
Definition comparison_payload : Payload ComparisonPayloadEvent := {|
  payload_default := mkComparisonPayloadEvent 0 0 0 0;
  populate _ v := mkComparisonPayloadEvent v 0 0 0;
  payload_value := cmp_value
|}.
#[export] Existing Instance comparison_payload.
Definition padded64_payload : Payload ComparisonPadded64Event := {|
  payload_default := mkComparisonPadded64Event 0 0 0 0;
  populate _ v := mkComparisonPadded64Event v 0 0 0;
  payload_value := pad64_value
|}.
#[export] Existing Instance padded64_payload.
Definition padded128_payload : Payload ComparisonPadded128Event := {|
  payload_default := mkComparisonPadded128Event 0 0 0 0;
  populate _ v := mkComparisonPadded128Event v 0 0 0;
  payload_value := pad128_value
|}.
#[export] Existing Instance padded128_payload.

(** ** Options *)

Inductive EventLayout : Type := Minimal | Comparison | ComparisonPadded64 | ComparisonPadded128.
Inductive WaitStrategyKind : Type := BusySpin | Yielding.
Inductive Mode : Type := AllModes | ModeBaseline | ModeClaimOnly | ModeClaimWrite | ModeClaimWritePublish | ModeEndToEnd.
Inductive PhaseKind : Type := Baseline | ClaimOnly | ClaimWrite | ClaimWritePublish | EndToEnd.
Inductive RoundPhase : Type := Warmup | Measured.

#[export] Instance EventLayout_eq_dec : EqDecision EventLayout.
Proof. solve_decision. Defined.
#[export] Instance Mode_eq_dec : EqDecision Mode.
Proof. solve_decision. Defined.
#[export] Instance PhaseKind_eq_dec : EqDecision PhaseKind.
Proof. solve_decision. Defined.

Definition layout_parse (v : string) : result EventLayout string :=
  if String.eqb v "minimal" then Ok Minimal else
  if String.eqb v "comparison" then Ok Comparison else
  if String.eqb v "comparison-padded64" then Ok ComparisonPadded64 else
  if String.eqb v "comparison-padded128" then Ok ComparisonPadded128 else Err ("unsupported event layout: " +:+ v).
Definition layout_as_str (l : EventLayout) : string :=
  match l with
  | Minimal => "minimal"
  | Comparison => "comparison"
  | ComparisonPadded64 => "comparison-padded64"
  | ComparisonPadded128 => "comparison-padded128"
  end.
Definition event_size_bytes (l : EventLayout) : Z :=
  match l with Minimal => 8 | Comparison => 32 | ComparisonPadded64 => 64 | ComparisonPadded128 => 128 end.

Definition wait_parse (v : string) : result WaitStrategyKind string :=
  if String.eqb v "busy-spin" then Ok BusySpin else
  if String.eqb v "yielding" then Ok Yielding else Err ("unsupported wait strategy: " +:+ v).
Definition wait_as_str (w : WaitStrategyKind) : string := match w with BusySpin => "busy-spin" | Yielding => "yielding" end.

Definition mode_parse (v : string) : result Mode string :=
  if String.eqb v "all" then Ok AllModes else
  if String.eqb v "baseline" then Ok ModeBaseline else
  if String.eqb v "claim-only" then Ok ModeClaimOnly else
  if String.eqb v "claim-write" then Ok ModeClaimWrite else
  if String.eqb v "claim-write-publish" then Ok ModeClaimWritePublish else
  if String.eqb v "end-to-end" then Ok ModeEndToEnd else Err ("unsupported mode: " +:+ v).
Definition mode_as_str (m : Mode) : string :=
  match m with
  | AllModes => "all"
  | ModeBaseline => "baseline"
  | ModeClaimOnly => "claim-only"
  | ModeClaimWrite => "claim-write"
  | ModeClaimWritePublish => "claim-write-publish"
  | ModeEndToEnd => "end-to-end"
  end.
Definition phases (m : Mode) : list PhaseKind :=
  match m with
  | AllModes => [Baseline; ClaimOnly; ClaimWrite; ClaimWritePublish; EndToEnd]
  | ModeBaseline => [Baseline]
  | ModeClaimOnly => [ClaimOnly]
  | ModeClaimWrite => [ClaimWrite]
  | ModeClaimWritePublish => [ClaimWritePublish]
  | ModeEndToEnd => [EndToEnd]
  end.
Definition phase_as_str (p : PhaseKind) : string :=
  match p with
  | Baseline => "baseline"
  | ClaimOnly => "claim_only"
  | ClaimWrite => "claim_write"
  | ClaimWritePublish => "claim_write_publish"
  | EndToEnd => "end_to_end"
  end.
Definition round_phase_as_str (p : RoundPhase) : string := match p with Warmup => "warmup" | Measured => "measured" end.

Record CliConfig : Type := mkCliConfig {
  cli_mode : Mode;
  cli_wait_strategy : WaitStrategyKind;
  cli_event_layout : EventLayout;
  cli_events_total : Z;
  cli_buffer_size : option Z;
  cli_allow_wrap : bool;
  cli_warmup_rounds : Z;
  cli_measured_rounds : Z;
  cli_timeout_secs : Z;
  cli_output : option string
}.

Record ResolvedConfig : Type := mkResolvedConfig {
  mode : Mode;
  wait_kind : WaitStrategyKind;
  event_layout : EventLayout;
  events_total : Z;
  buffer_size : Z;
  allow_wrap : bool;
  warmup_rounds : Z;
  measured_rounds : Z;
  timeout_secs : Z;
  output : option string
}.

Definition cli_default : CliConfig := mkCliConfig AllModes Yielding Minimal 20000000 None false 3 5 DEFAULT_TIMEOUT_SECS None.

(** [parse_u64] and [parse_usize] *)
Definition parse_u64 (v : string) : result Z string :=
  match parse_uint u64_max v with Ok n => Ok n | Err e => Err ("failed to parse integer '" +:+ v +:+ "': " +:+ parse_int_error e) end.
Definition parse_usize (v : string) : result Z string :=
  match parse_uint usize_max v with Ok n => Ok n | Err e => Err ("failed to parse integer '" +:+ v +:+ "': " +:+ parse_int_error e) end.

(** Assignments to the local variables. *)
Definition set_mode x (c : CliConfig) : CliConfig :=
  mkCliConfig x c.(cli_wait_strategy) c.(cli_event_layout) c.(cli_events_total) c.(cli_buffer_size) c.(cli_allow_wrap)
    c.(cli_warmup_rounds) c.(cli_measured_rounds) c.(cli_timeout_secs) c.(cli_output).
Definition set_wait x (c : CliConfig) : CliConfig :=
  mkCliConfig c.(cli_mode) x c.(cli_event_layout) c.(cli_events_total) c.(cli_buffer_size) c.(cli_allow_wrap)
    c.(cli_warmup_rounds) c.(cli_measured_rounds) c.(cli_timeout_secs) c.(cli_output).
Definition set_layout x (c : CliConfig) : CliConfig :=
  mkCliConfig c.(cli_mode) c.(cli_wait_strategy) x c.(cli_events_total) c.(cli_buffer_size) c.(cli_allow_wrap)
    c.(cli_warmup_rounds) c.(cli_measured_rounds) c.(cli_timeout_secs) c.(cli_output).
Definition set_events x (c : CliConfig) : CliConfig :=
  mkCliConfig c.(cli_mode) c.(cli_wait_strategy) c.(cli_event_layout) x c.(cli_buffer_size) c.(cli_allow_wrap)
    c.(cli_warmup_rounds) c.(cli_measured_rounds) c.(cli_timeout_secs) c.(cli_output).
Definition set_buffer x (c : CliConfig) : CliConfig :=
  mkCliConfig c.(cli_mode) c.(cli_wait_strategy) c.(cli_event_layout) c.(cli_events_total) (Some x) c.(cli_allow_wrap)
    c.(cli_warmup_rounds) c.(cli_measured_rounds) c.(cli_timeout_secs) c.(cli_output).
Definition set_allow_wrap (c : CliConfig) : CliConfig :=
  mkCliConfig c.(cli_mode) c.(cli_wait_strategy) c.(cli_event_layout) c.(cli_events_total) c.(cli_buffer_size) true
    c.(cli_warmup_rounds) c.(cli_measured_rounds) c.(cli_timeout_secs) c.(cli_output).
Definition set_warmup x (c : CliConfig) : CliConfig :=
  mkCliConfig c.(cli_mode) c.(cli_wait_strategy) c.(cli_event_layout) c.(cli_events_total) c.(cli_buffer_size) c.(cli_allow_wrap)
    x c.(cli_measured_rounds) c.(cli_timeout_secs) c.(cli_output).
Definition set_measured x (c : CliConfig) : CliConfig :=
  mkCliConfig c.(cli_mode) c.(cli_wait_strategy) c.(cli_event_layout) c.(cli_events_total) c.(cli_buffer_size) c.(cli_allow_wrap)
    c.(cli_warmup_rounds) x c.(cli_timeout_secs) c.(cli_output).
Definition set_timeout x (c : CliConfig) : CliConfig :=
  mkCliConfig c.(cli_mode) c.(cli_wait_strategy) c.(cli_event_layout) c.(cli_events_total) c.(cli_buffer_size) c.(cli_allow_wrap)
    c.(cli_warmup_rounds) c.(cli_measured_rounds) x c.(cli_output).
Definition set_output x (c : CliConfig) : CliConfig :=
  mkCliConfig c.(cli_mode) c.(cli_wait_strategy) c.(cli_event_layout) c.(cli_events_total) c.(cli_buffer_size) c.(cli_allow_wrap)
    c.(cli_warmup_rounds) c.(cli_measured_rounds) c.(cli_timeout_secs) (Some x).

Definition flag_of (a : string) : Flag CliConfig :=
  if String.eqb a "--mode" then Value "missing value for --mode" (assign mode_parse set_mode) else
  if String.eqb a "--wait-strategy" then Value "missing value for --wait-strategy" (assign wait_parse set_wait) else
  if String.eqb a "--event-layout" then Value "missing value for --event-layout" (assign layout_parse set_layout) else
  if String.eqb a "--events-total" then Value "missing value for --events-total" (assign parse_u64 set_events) else
  if String.eqb a "--buffer-size" then Value "missing value for --buffer-size" (assign parse_usize set_buffer) else
  if String.eqb a "--allow-wrap" then Switch set_allow_wrap else
  if String.eqb a "--warmup-rounds" then Value "missing value for --warmup-rounds" (assign parse_usize set_warmup) else
  if String.eqb a "--measured-rounds" then Value "missing value for --measured-rounds" (assign parse_usize set_measured) else
  if String.eqb a "--timeout-secs" then Value "missing value for --timeout-secs" (assign parse_u64 set_timeout) else
  if String.eqb a "--output" then Value "missing value for --output" (assign (fun v => Ok v) set_output) else
  if String.eqb a "--help" || String.eqb a "-h" then HelpFlag else Refused ("unsupported argument: " +:+ a).

(** [CliConfig::from_args] *)
Definition from_args (args : list string) : parsed CliConfig := parse_loop flag_of args cli_default.

(** [u64::checked_next_power_of_two] *)
Definition checked_next_power_of_two (n : Z) : option Z :=
  let p := 2 ^ Z.log2_up n in if p <? two64 then Some p else None.

(** [ResolvedConfig::try_from] *)
Definition try_from (v : CliConfig) : result ResolvedConfig string :=
  match first_error [
    (v.(cli_events_total) =? 0, "events_total must be > 0");
    (bool_decide (v.(cli_event_layout) <> Minimal) && bool_decide (v.(cli_mode) <> ModeEndToEnd),
      "non-minimal event layouts are only supported with --mode end-to-end");
    (v.(cli_measured_rounds) =? 0, "measured_rounds must be > 0")]
  with
  | Some e => Err e
  | None =>
      match checked_next_power_of_two v.(cli_events_total) with
      | None => Err "events_total too large to round up to power of two"
      | Some default_buffer =>
          let buffer_size := or_default default_buffer v.(cli_buffer_size) in
          match first_error [
            ((buffer_size =? 0) || negb (is_power_of_two buffer_size), "buffer size must be a non-zero power of two, got " +:+ show_uint buffer_size);
            ((buffer_size <? v.(cli_events_total)) && negb (v.(cli_allow_wrap) && bool_decide (v.(cli_mode) = ModeEndToEnd)),
              "buffer size must be >= events_total for no-wrap diagnostics unless --allow-wrap is set with --mode end-to-end; got buffer_size="
              +:+ show_uint buffer_size +:+ ", events_total=" +:+ show_uint v.(cli_events_total))]
          with
          | Some e => Err e
          | None =>
              Ok (mkResolvedConfig v.(cli_mode) v.(cli_wait_strategy) v.(cli_event_layout) v.(cli_events_total) buffer_size v.(cli_allow_wrap)
                    v.(cli_warmup_rounds) v.(cli_measured_rounds) v.(cli_timeout_secs) v.(cli_output))
          end
      end
  end.

(** ** Rounds *)

Record RoundRecord : Type := mkRoundRecord {
  round_index : Z;
  phase : RoundPhase;
  elapsed_ns : Z;
  ops_per_sec : f64;
  events_expected : option Z;
  events_observed : option Z;
  checksum_expected : option Z;
  checksum_observed : option Z;
  last_sequence_expected : option Z;
  last_sequence_observed : option Z;
  valid : bool
}.

(** [arithmetic_checksum]: the product wraps before it is halved. *)
Definition arithmetic_checksum (events_total : Z) : Z := Z.quot (wrap64 (wrap64 (events_total - 1) * wrap64 events_total)) 2.

Definition ops_per_sec_of (events_total elapsed_ns : Z) : f64 :=
  if elapsed_ns =? 0 then f64_zero else f64_div (of_Z events_total) (f64_div (of_Z elapsed_ns) (of_Z 1000000000)).

(** The derived [Debug] of [DisruptorError]. *)
Definition debug_error (e : DisruptorError) : string :=
  match e with
  | BufferFull => "BufferFull"
  | InvalidSequence s => "InvalidSequence(" +:+ pretty s +:+ ")"
  | InvalidBufferSize n => "InvalidBufferSize(" +:+ pretty n +:+ ")"
  | Timeout => "Timeout"
  | Shutdown => "Shutdown"
  | InsufficientCapacity => "InsufficientCapacity"
  | Alert => "Alert"
  | AlreadyRunning => "AlreadyRunning"
  | ShutdownError msg => "ShutdownError(" +:+ debug_str msg +:+ ")"
  | Poisoned => "Poisoned"
  | ConcurrentClaimDriver => "ConcurrentClaimDriver"
  | ReentrantPublish => "ReentrantPublish"
  end.

(** [x.map_err(|error| format!("{message}: {error:?}"))] *)
Definition map_err {A} (message : string) (r : result A DisruptorError) : result A string :=
  match r with Ok a => Ok a | Err e => Err (message +:+ ": " +:+ debug_error e) end.

Section Direct.
Context {E : Type} `{Payload E}.
Abbreviation W := (World E).

(** The addresses of the objects a round creates. *)
Record Addresses : Type := mkAddresses {
  at_cursor : loc; at_consumer : loc; at_alerted : loc; at_shutdown : loc; at_ready : loc;
  at_processed : loc; at_checksum : loc; at_thread : loc
}.

(** [DirectConsumerRuntime] and its three copies: the ring buffer and the
    sequencer are those of the world. *)
Record DirectConsumerRuntime : Type := mkRuntime {
  barrier : ProcessingSequenceBarrier;
  consumer_sequence : loc;
  shutdown_flag : loc;
  processed : loc;
  checksum : loc;
  ready : loc;
  consumer_handle : loc
}.

(** [RingBuffer::new] with the default factory. *)
Definition new_ring (message : string) (size : Z) : M W (result unit string) :=
  match map_err message (RingBuffer.new size (fun _ => payload_default)) with
  | Ok rb => let* _ := write (upd_ring (fun _ => rb)) in ret (Ok tt)
  | Err e => ret (Err e)
  end.

(** [DirectConsumerRuntime::new] *)
Definition direct_new (name : string) (at_ : Addresses) (size : Z) (ws : WaitStrategy) (spawns : bool) : M W (result DirectConsumerRuntime string) :=
  let? _ := new_ring ("failed to create " +:+ name +:+ "ring buffer") size in
  let* _ := Single.new size ws at_.(at_cursor) in
  let* _ := Sequence.new_with_initial_value at_.(at_consumer) in
  let* _ := Single.add_gating_sequences [at_.(at_consumer)] in
  let* c := Single.get_cursor in
  let* b := Barrier.new c ws [] World.Single at_.(at_alerted) in
  let* _ := write (set_flag at_.(at_shutdown) false) in
  let* _ := write (set_seq at_.(at_processed) 0) in
  let* _ := write (set_seq at_.(at_checksum) 0) in
  let* _ := write (set_flag at_.(at_ready) false) in
  if spawns then
    let* _ := store (set_thread at_.(at_thread) ThreadRunning) in
    ret (Ok (mkRuntime b at_.(at_consumer) at_.(at_shutdown) at_.(at_processed) at_.(at_checksum) at_.(at_ready) at_.(at_thread)))
  else panic "consumer thread spawn must succeed".

(** The inner loop of the consumer: the events from [next] on. *)
Fixpoint sum_batch (n : nat) (next local_checksum local_processed : Z) : M W (Z * Z * Z) :=
  match n with
  | O => ret (next, local_checksum, local_processed)
  | S n =>
      let* event := event_at next in
      sum_batch n (next +! 1) (local_checksum +! payload_value event) (as_u64 (local_processed + 1))
  end.

(** [fetch_add] on the two counters *)
Definition add_checksum (l : loc) (v : Z) : M W unit := store (fun w => set_seq l (seq_at w l +! v) w).
Definition add_processed (l : loc) (v : Z) : M W unit := store (fun w => set_seq l (as_u64 (seq_at w l + v)) w).

(** The consumer's turn of the loop. *)
Definition consumer_step (name : string) (rt : DirectConsumerRuntime) (fuel : nat) (next_sequence : Z) : M W (Z + result unit string) :=
  let* r := wait_for_with_shutdown fuel rt.(barrier) next_sequence rt.(shutdown_flag) in
  match r with
  | Ok available_sequence =>
      if available_sequence <? next_sequence then ret (inl next_sequence) else
      let* (next_sequence, local_checksum, local_processed) :=
        sum_batch (Z.to_nat (available_sequence - next_sequence + 1)) next_sequence 0 0 in
      let* _ := add_checksum rt.(checksum) local_checksum in
      let* _ := add_processed rt.(processed) local_processed in
      let* _ := Sequence.set rt.(consumer_sequence) available_sequence in
      ret (inl next_sequence)
  | Err Alert =>
      let* s := load (fun w => flag_at w rt.(shutdown_flag)) in
      if s then ret (inr (Ok tt)) else ret (inl next_sequence)
  | Err error =>
      let* s := load (fun w => flag_at w rt.(shutdown_flag)) in
      if s then ret (inr (Ok tt))
      else ret (inr (Err (name +:+ "consumer wait failed at sequence " +:+ pretty next_sequence +:+ ": " +:+ debug_error error)))
  end.

(** [spawn_direct_consumer]: what the thread runs. *)
Definition direct_consumer (name : string) (rt : DirectConsumerRuntime) (fuel : nat) : M W (result unit string) :=
  let* _ := store (set_flag rt.(ready) true) in
  loop fuel (consumer_step name rt fuel) 0.

(** [DirectConsumerRuntime::shutdown]; the exit of the consumer thread carries
    its error message as that of a [ShutdownError]. *)
Definition direct_shutdown (name : string) (rt : DirectConsumerRuntime) (fuel : nat) : M W (result unit string) :=
  let* _ := store (set_flag rt.(shutdown_flag) true) in
  let* _ := Barrier.alert rt.(barrier) in
  let* r := Core.join fuel rt.(consumer_handle) in
  match r with
  | ExitPanic _ => ret (Err ((if String.eqb name "" then "direct " else name) +:+ "consumer thread panicked"))
  | ExitErr e => ret (Err (match e with ShutdownError msg => msg | _ => error_to_string pretty e end))
  | ExitOk => let* _ := Single.remove_gating_sequence fuel rt.(consumer_sequence) in ret (Ok tt)
  end.

(** ** The main thread *)

(** The loop over the values from [value] on: claim, and what is done with the
    claimed sequence; the last sequence claimed. *)
Fixpoint claim_each (fuel : nat) (message : string) (step : Z -> Z -> M W unit) (n : nat) (value last : Z) : M W (result Z string) :=
  match n with
  | O => ret (Ok last)
  | S n =>
      let* r := Single.next fuel in
      match map_err message r with
      | Err e => ret (Err e)
      | Ok sequence =>
          let* _ := step value sequence in
          claim_each fuel message step n (value + 1) sequence
      end
  end.

(** Writing the claimed slot, and publishing it. *)
Definition write_value (value sequence : Z) : M W unit :=
  let* event := event_at sequence in write_event sequence (populate event (wrap64 value)).
Definition write_and_publish (value sequence : Z) : M W unit :=
  let* _ := write_value value sequence in Single.publish sequence.

(** [checksum_ring_buffer] *)
Fixpoint checksum_ring (n : nat) (sequence sum : Z) : M W Z :=
  match n with
  | O => ret sum
  | S n =>
      let* event := event_at (wrap64 sequence) in
      checksum_ring n (sequence + 1) (sum +! payload_value event)
  end.

Definition last_expected (cfg : ResolvedConfig) : Z := wrap64 cfg.(events_total) -! 1.

(** [run_claim_only] *)
Definition run_claim_only (cfg : ResolvedConfig) (ws : WaitStrategy) (cursor : loc) (fuel : nat) (round_index : Z) (round_phase : RoundPhase) :
    M W (result RoundRecord string) :=
  let* _ := Single.new cfg.(buffer_size) ws cursor in
  let* start := now in
  let? last_sequence := claim_each fuel "claim-only next failed" (fun _ _ => ret tt) (Z.to_nat cfg.(events_total)) 0 (-1) in
  let* elapsed := elapsed start in
  let expected := last_expected cfg in
  ret (Ok (mkRoundRecord round_index round_phase elapsed (ops_per_sec_of cfg.(events_total) elapsed) (Some cfg.(events_total))
             (Some cfg.(events_total)) None None (Some expected) (Some last_sequence) (last_sequence =? expected))).

(** [run_claim_write] *)
Definition run_claim_write (cfg : ResolvedConfig) (ws : WaitStrategy) (cursor : loc) (fuel : nat) (round_index : Z) (round_phase : RoundPhase) :
    M W (result RoundRecord string) :=
  let? _ := new_ring "claim-write ring buffer failed" cfg.(buffer_size) in
  let* _ := Single.new cfg.(buffer_size) ws cursor in
  let* start := now in
  let? _ := claim_each fuel "claim-write next failed" write_value (Z.to_nat cfg.(events_total)) 0 (-1) in
  let* elapsed := elapsed start in
  let* checksum := checksum_ring (Z.to_nat cfg.(events_total)) 0 0 in
  let expected := arithmetic_checksum cfg.(events_total) in
  let* c := Single.get_cursor in
  let* last := Sequence.get c in
  ret (Ok (mkRoundRecord round_index round_phase elapsed (ops_per_sec_of cfg.(events_total) elapsed) (Some cfg.(events_total))
             (Some cfg.(events_total)) (Some expected) (Some checksum) (Some (last_expected cfg)) (Some last) (checksum =? expected))).

(** [run_claim_write_publish] *)
Definition run_claim_write_publish (cfg : ResolvedConfig) (ws : WaitStrategy) (cursor : loc) (fuel : nat) (round_index : Z) (round_phase : RoundPhase) :
    M W (result RoundRecord string) :=
  let? _ := new_ring "claim-write-publish ring buffer failed" cfg.(buffer_size) in
  let* _ := Single.new cfg.(buffer_size) ws cursor in
  let* start := now in
  let? _ := claim_each fuel "claim-write-publish next failed" write_and_publish (Z.to_nat cfg.(events_total)) 0 (-1) in
  let* elapsed := elapsed start in
  let* checksum := checksum_ring (Z.to_nat cfg.(events_total)) 0 0 in
  let expected := arithmetic_checksum cfg.(events_total) in
  let* c := Single.get_cursor in
  let* last := Sequence.get c in
  ret (Ok (mkRoundRecord round_index round_phase elapsed (ops_per_sec_of cfg.(events_total) elapsed) (Some cfg.(events_total))
             (Some cfg.(events_total)) (Some expected) (Some checksum) (Some (last_expected cfg)) (Some last)
             ((checksum =? expected) && (last =? last_expected cfg)))).

(** [wait_for_ready] and [wait_for_processed] *)
Definition wait_for_ready (fuel : nat) (ready : loc) (timeout_secs : Z) : M W (result unit string) :=
  let* deadline := deadline_after (timeout_secs * 1000000000) in
  loop fuel (fun _ : unit =>
    let* r := load (fun w => flag_at w ready) in
    if r then ret (inr (Ok tt)) else
    let* t := now in
    if deadline <=? t then ret (inr (Err "consumer did not become ready before timeout")) else
    let* _ := pause YieldNow in ret (inl tt)) tt.
Definition wait_for_processed (fuel : nat) (processed : loc) (expected timeout_secs : Z) : M W (result unit string) :=
  let* deadline := deadline_after (timeout_secs * 1000000000) in
  loop fuel (fun _ : unit =>
    let* p := Sequence.get processed in
    if p =? expected then ret (inr (Ok tt)) else
    let* t := now in
    if deadline <=? t then
      let* p := Sequence.get processed in
      ret (inr (Err ("timed out waiting for processed count: expected " +:+ show_uint expected +:+ ", observed " +:+ show_uint p)))
    else let* _ := pause YieldNow in ret (inl tt)) tt.

(** The closure of [run_end_to_end_minimal] and of its three copies. *)
Definition end_to_end_body (name : string) (cfg : ResolvedConfig) (rt : DirectConsumerRuntime) (fuel : nat) (round_index : Z) (round_phase : RoundPhase) :
    M W (result RoundRecord string) :=
  let? _ := wait_for_ready fuel rt.(ready) cfg.(timeout_secs) in
  let* start := now in
  let? _ := claim_each fuel (name +:+ "end-to-end next failed") write_and_publish (Z.to_nat cfg.(events_total)) 0 (-1) in
  let? _ := wait_for_processed fuel rt.(processed) cfg.(events_total) cfg.(timeout_secs) in
  let* elapsed := elapsed start in
  let expected := arithmetic_checksum cfg.(events_total) in
  let* processed := Sequence.get rt.(processed) in
  let* checksum := Sequence.get rt.(checksum) in
  let* c := Single.get_cursor in
  let* last := Sequence.get c in
  ret (Ok (mkRoundRecord round_index round_phase elapsed (ops_per_sec_of cfg.(events_total) elapsed) (Some cfg.(events_total))
             (Some processed) (Some expected) (Some checksum) (Some (last_expected cfg)) (Some last)
             ((processed =? cfg.(events_total)) && (checksum =? expected)))).

(** [run_end_to_end_minimal]: the runtime is shut down in any case, and the
    error of the round comes first. *)
Definition run_end_to_end (name : string) (cfg : ResolvedConfig) (ws : WaitStrategy) (at_ : Addresses) (spawns : bool) (fuel : nat)
    (round_index : Z) (round_phase : RoundPhase) : M W (result RoundRecord string) :=
  let? rt := direct_new name at_ cfg.(buffer_size) ws spawns in
  let* run_result := end_to_end_body name cfg rt fuel round_index round_phase in
  let* shutdown_result := direct_shutdown name rt fuel in
  match run_result, shutdown_result with
  | Err e, _ => ret (Err e)
  | _, Err e => ret (Err e)
  | Ok r, Ok tt => ret (Ok r)
  end.
End Direct.

(** *** The four copies

    One per event layout, each with its own messages. *)

Definition minimal_new := direct_new (E := MicroEvent) "".
Definition comparison_new := direct_new (E := ComparisonPayloadEvent) "comparison ".
Definition padded64_new := direct_new (E := ComparisonPadded64Event) "padded comparison ".
Definition padded128_new := direct_new (E := ComparisonPadded128Event) "padded-128 comparison ".

Definition spawn_direct_consumer := direct_consumer (E := MicroEvent) "".
Definition spawn_direct_comparison_consumer := direct_consumer (E := ComparisonPayloadEvent) "comparison ".
Definition spawn_direct_padded_comparison_consumer := direct_consumer (E := ComparisonPadded64Event) "padded comparison ".
Definition spawn_direct_padded128_comparison_consumer := direct_consumer (E := ComparisonPadded128Event) "padded-128 comparison ".

Definition run_end_to_end_minimal := run_end_to_end (E := MicroEvent) "".
Definition run_end_to_end_comparison := run_end_to_end (E := ComparisonPayloadEvent) "comparison ".
Definition run_end_to_end_comparison_padded64 := run_end_to_end (E := ComparisonPadded64Event) "padded comparison ".
Definition run_end_to_end_comparison_padded128 := run_end_to_end (E := ComparisonPadded128Event) "padded-128 comparison ".

(** ** Phases and reports *)

(** The loop of [run_baseline]. *)
Fixpoint baseline_sum (n : nat) (value checksum : Z) : Z :=
  match n with
  | O => checksum
  | S n => baseline_sum n (value + 1) (checksum +! wrap64 value)
  end.

(** [run_baseline] *)
Definition run_baseline (cfg : ResolvedConfig) (round_index : Z) (round_phase : RoundPhase) : M (World MicroEvent) (result RoundRecord string) :=
  let expected := arithmetic_checksum cfg.(events_total) in
  let* start := now in
  let checksum := baseline_sum (Z.to_nat cfg.(events_total)) 0 0 in
  let* elapsed := elapsed start in
  ret (Ok (mkRoundRecord round_index round_phase elapsed (ops_per_sec_of cfg.(events_total) elapsed) (Some cfg.(events_total))
             (Some cfg.(events_total)) (Some expected) (Some checksum) None None (checksum =? expected))).

(** How a program ends. *)
Inductive ended (A : Type) : Type := Returned (a : A) | PanicsWith (msg : string) | NoFuel.
Arguments Returned {A} a.
Arguments PanicsWith {A} msg.
Arguments NoFuel {A}.

Definition launch {E A} (m : M (World E) A) (e : env (World E)) (w : World E) : ended A :=
  match m e 0%nat w with
  | Done a _ _ => Returned a
  | Panicked msg _ _ => PanicsWith msg
  | OutOfFuel => NoFuel
  end.

(** The memory a round starts from, what the other threads do to it, whether
    the system gives the consumer thread, and the addresses. *)
Record System : Type := mkSystem {
  sys_world : forall E, World E;
  sys_env : forall E, env (World E);
  sys_spawns : bool;
  sys_at : Addresses
}.

Definition strategy_of (k : WaitStrategyKind) : WaitStrategy :=
  match k with BusySpin => BusySpinWaitStrategy | Yielding => YieldingWaitStrategy end.

(** [run_phase_with], with the dispatch of [run_end_to_end] *)
Definition run_phase_with (fuel : nat) (cfg : ResolvedConfig) (kind : PhaseKind) (sys : System) (round_index : Z) (round_phase : RoundPhase) :
    ended (result RoundRecord string) :=
  let ws := strategy_of cfg.(wait_kind) in
  let cursor := sys.(sys_at).(at_cursor) in
  let go E (m : M (World E) (result RoundRecord string)) := launch m (sys.(sys_env) E) (sys.(sys_world) E) in
  match kind with
  | Baseline => go MicroEvent (run_baseline cfg round_index round_phase)
  | ClaimOnly => go MicroEvent (run_claim_only cfg ws cursor fuel round_index round_phase)
  | ClaimWrite => go MicroEvent (run_claim_write cfg ws cursor fuel round_index round_phase)
  | ClaimWritePublish => go MicroEvent (run_claim_write_publish cfg ws cursor fuel round_index round_phase)
  | EndToEnd =>
      match cfg.(event_layout) with
      | Minimal => go _ (run_end_to_end_minimal cfg ws sys.(sys_at) sys.(sys_spawns) fuel round_index round_phase)
      | Comparison => go _ (run_end_to_end_comparison cfg ws sys.(sys_at) sys.(sys_spawns) fuel round_index round_phase)
      | ComparisonPadded64 => go _ (run_end_to_end_comparison_padded64 cfg ws sys.(sys_at) sys.(sys_spawns) fuel round_index round_phase)
      | ComparisonPadded128 => go _ (run_end_to_end_comparison_padded128 cfg ws sys.(sys_at) sys.(sys_spawns) fuel round_index round_phase)
      end
  end.

Record PhaseSummary : Type := mkPhaseSummary {
  valid_all : bool;
  median_ops_per_sec : f64;
  mean_ops_per_sec : f64;
  min_ops_per_sec : f64;
  max_ops_per_sec : f64;
  stddev_ops_per_sec : f64;
  cv : f64
}.

(** [partial_cmp(right).unwrap_or(Ordering::Equal)] *)
Definition partial_or_equal (a b : f64) : comparison := match SpecFloat.SFcompare a b with Some c => c | None => Eq end.

Definition or_zero_f64 (o : option f64) : f64 := match o with Some x => x | None => f64_zero end.

(** [summarize]: indexing past the list panics. *)
Definition summarize (runs : list RoundRecord) : option PhaseSummary :=
  let measured := f64_sort_by partial_or_equal
    (map ops_per_sec (List.filter (fun r => match r.(phase) with Measured => true | Warmup => false end) runs)) in
  let len := length measured in
  let n := of_Z (Z.of_nat len) in
  let median :=
    if (len =? 0)%nat then Some f64_zero
    else if Nat.odd len then measured !! (len / 2)%nat
    else match measured !! (len / 2 - 1)%nat, measured !! (len / 2)%nat with
         | Some lower, Some upper => Some (f64_midpoint lower upper)
         | _, _ => None
         end in
  match median with
  | None => None
  | Some median =>
      let mean := if (len =? 0)%nat then f64_zero else f64_div (f64_sum measured) n in
      let square x := let delta := f64_sub x mean in f64_mul delta delta in
      let variance := if (len <=? 1)%nat then f64_zero else f64_div (f64_sum (map square measured)) n in
      let stddev := f64_sqrt variance in
      let cv := if f64_eq mean f64_zero then f64_zero else f64_div stddev mean in
      Some (mkPhaseSummary (forallb valid runs) median mean (or_zero_f64 (measured !! 0%nat)) (or_zero_f64 (measured !! (len - 1)%nat)) stddev cv)
  end.

Record PhaseResult : Type := mkPhaseResult { res_phase : PhaseKind; runs : list RoundRecord; summary : PhaseSummary }.

(** The loop of [run_phase]. *)
Fixpoint run_rounds (fuel : nat) (cfg : ResolvedConfig) (kind : PhaseKind) (sys : Z -> System) (rounds : list Z) : ended (result (list RoundRecord) string) :=
  match rounds with
  | [] => Returned (Ok [])
  | round :: rest =>
      match run_phase_with fuel cfg kind (sys round) (round + 1) (if round <? cfg.(warmup_rounds) then Warmup else Measured) with
      | Returned (Ok r) =>
          match run_rounds fuel cfg kind sys rest with
          | Returned (Ok rs) => Returned (Ok (r :: rs))
          | other => other
          end
      | Returned (Err e) => Returned (Err e)
      | PanicsWith msg => PanicsWith msg
      | NoFuel => NoFuel
      end
  end.

(** [run_phase] *)
Definition run_phase (fuel : nat) (cfg : ResolvedConfig) (sys : Z -> System) (kind : PhaseKind) : ended (result PhaseResult string) :=
  match run_rounds fuel cfg kind sys (seqZ 0 (as_u64 (cfg.(warmup_rounds) + cfg.(measured_rounds)))) with
  | Returned (Ok rs) =>
      match summarize rs with
      | Some sm => Returned (Ok (mkPhaseResult kind rs sm))
      | None => PanicsWith "index out of bounds"
      end
  | Returned (Err e) => Returned (Err e)
  | PanicsWith msg => PanicsWith msg
  | NoFuel => NoFuel
  end.

(** The loop of [run_breakdown]. *)
Fixpoint run_phases (fuel : nat) (cfg : ResolvedConfig) (sys : PhaseKind -> Z -> System) (kinds : list PhaseKind) : ended (result (list PhaseResult) string) :=
  match kinds with
  | [] => Returned (Ok [])
  | kind :: rest =>
      match run_phase fuel cfg (sys kind) kind with
      | Returned (Ok r) =>
          match run_phases fuel cfg sys rest with
          | Returned (Ok rs) => Returned (Ok (r :: rs))
          | other => other
          end
      | Returned (Err e) => Returned (Err e)
      | PanicsWith msg => PanicsWith msg
      | NoFuel => NoFuel
      end
  end.

Record BreakdownResult : Type := mkBreakdownResult {
  bd_config : ResolvedConfig;
  bd_event_size_bytes : Z;
  estimated_ring_bytes : Z;
  bd_phases : list PhaseResult;
  publish_vs_end_to_end : option (f64 * f64)
}.

(** [run_breakdown]; the last field pairs the ratio and the difference in
    nanoseconds per event. *)
Definition run_breakdown (fuel : nat) (cfg : ResolvedConfig) (sys : PhaseKind -> Z -> System) : ended (result BreakdownResult string) :=
  match run_phases fuel cfg sys (phases cfg.(mode)) with
  | Returned (Ok rs) =>
      let median k := match List.find (fun r => bool_decide (r.(res_phase) = k)) rs with Some r => Some r.(summary).(median_ops_per_sec) | None => None end in
      let compare :=
        match median ClaimWritePublish, median EndToEnd with
        | Some publish, Some end_to_end =>
            if f64_lt f64_zero end_to_end && f64_lt f64_zero publish then
              Some (f64_div publish end_to_end, f64_sub (f64_div (of_Z 1000000000) end_to_end) (f64_div (of_Z 1000000000) publish))
            else None
        | _, _ => None
        end in
      let size := event_size_bytes cfg.(event_layout) in
      Returned (Ok (mkBreakdownResult cfg size (as_u64 (cfg.(buffer_size) * size)) rs compare))
  | Returned (Err e) => Returned (Err e)
  | PanicsWith msg => PanicsWith msg
  | NoFuel => NoFuel
  end.

(** [run_main] after the command line; [file] is the error of writing the
    output file, if it could not be written. *)
Definition run_main (fuel : nat) (cfg : ResolvedConfig) (file : option string) (sys : PhaseKind -> Z -> System) : ended (result unit string) :=
  match run_breakdown fuel cfg sys with
  | Returned (Ok _) => Returned (match (if is_some cfg.(output) then file else None) with Some e => Err e | None => Ok tt end)
  | Returned (Err e) => Returned (Err e)
  | PanicsWith msg => PanicsWith msg
  | NoFuel => NoFuel
  end.
