(* ===== verification/UnicastBreakdownSpec.v ===== *)
(** * UnicastBreakdownSpec: the theorems on [UnicastBreakdown]: which rounds its
    expected checksum is right for, what the phases on one thread compute, and
    what the consumer thread hands to the main thread. *)
From Stdlib Require Import Ascii.
From S2P Require Import Prelude Effects Errors RingBuffer World Sequence Single Multi Availability Sequencer Waiting WaitStrategy Barrier ConsumerEngine Core.
From S2P Require Import Delivery Text Float64 CommandLine Checksums UnicastBreakdown.

(** ** The expected checksum *)

Definition exact_checksum (n : Z) : Z := wrap64 (total (seqZ 0 n)).

Lemma total_below n : 0 <= n -> total (seqZ 0 n) * 2 = n * (n - 1).
Proof. intros Hn. pose proof (total_seqZ (Z.to_nat n)) as H. by rewrite Z2Nat.id in H by done. Qed.

(** The product fits: the checksum is right. *)
Lemma arithmetic_fits n : 0 < n <= i64_max -> n * (n - 1) < two63 -> arithmetic_checksum n = exact_checksum n.
Proof.
  intros Hn Hfit. unfold arithmetic_checksum, exact_checksum. pose proof (total_below n ltac:(lia)) as Ht.
  rewrite (wrap64_id (n - 1)), (wrap64_id n) by i64_lia. rewrite (wrap64_id (_ * _)) by (i64_lia || (unfold_i64; nia)).
  replace ((n - 1) * n) with (total (seqZ 0 n) * 2) by lia. rewrite Z.quot_mul by done. symmetry. apply wrap64_id. unfold_i64; nia.
Qed.

(** It does not fit and wraps once: the checksum is off by 2^63. *)
Lemma arithmetic_wraps n : 0 < n -> two63 <= n * (n - 1) < two63 + two64 -> arithmetic_checksum n <> exact_checksum n.
Proof.
  intros Hn Hwrap. unfold arithmetic_checksum, exact_checksum. pose proof (total_below n ltac:(lia)) as Ht.
  assert (Hsmall : n <= 10000000000) by (unfold two63, two64 in Hwrap; nia).
  rewrite (wrap64_id (n - 1)), (wrap64_id n) by i64_lia.
  assert (Hp : wrap64 ((n - 1) * n) = n * (n - 1) - two64).
  { unfold wrap64. rewrite <- (Z_mod_plus_full _ (-1)), Z.mod_small by (unfold two63, two64 in *; lia). lia. }
  rewrite Hp, <- Ht. replace (total (seqZ 0 n) * 2 - two64) with ((total (seqZ 0 n) - two63) * 2) by (unfold two63, two64; lia).
  rewrite Z.quot_mul by done. intros Heq. apply (f_equal wrap64) in Heq. rewrite wrap_idem in Heq. apply wrap_eq in Heq.
  replace (total (seqZ 0 n) - two63 - total (seqZ 0 n)) with (- two63) in Heq by lia. by vm_compute in Heq.
Qed.

Lemma baseline_sum_spec n value sum :
  baseline_sum n value (wrap64 sum) = wrap64 (sum + total (seqZ value (Z.of_nat n))).
Proof.
  revert value sum. induction n as [|n IH]; intros value sum; cbn [baseline_sum]; [by rewrite Z.add_0_r|].
  rewrite (wrap_wrap_l sum), (wrap_wrap_r sum), IH, (seqZ_cons value) by lia. rewrite total_cons, <- (Z.add_1_r value).
  replace (Z.pred (Z.of_nat (S n))) with (Z.of_nat n) by lia. f_equal. lia.
Qed.

(** ** A sequencer and a ring buffer of one's own *)

(** The copies of the event type: what is written is read back. *)
Class LawfulPayload (E : Type) `{Payload E} : Prop := payload_populate : forall e v, payload_value (populate e v) = v.

#[export] Instance micro_lawful : LawfulPayload MicroEvent. Proof. done. Qed.
#[export] Instance comparison_lawful : LawfulPayload ComparisonPayloadEvent. Proof. done. Qed.
#[export] Instance padded64_lawful : LawfulPayload ComparisonPadded64Event. Proof. done. Qed.
#[export] Instance padded128_lawful : LawfulPayload ComparisonPadded128Event. Proof. done. Qed.

Section Own.
Context {E : Type} `{LawfulPayload E}.
Abbreviation W := (World E).
Implicit Types w : W.
Variables (N : Z) (cursor_at : loc).
Hypothesis HN : 1 <= N <= 4611686018427387904.

(** Nobody else has the sequencer, the ring buffer or the sequences. *)
Record local_rely w w' : Prop := {
  lr_single : w_single w' = w_single w;
  lr_ring : w_ring w' = w_ring w;
  lr_seqs : w_seqs w' = w_seqs w
}.

(** An open sequencer without consumers, which has claimed up to [v];
    [locked] says whether a claim is under way. *)
Record own (locked : bool) (v : Z) w : Prop := {
  own_bsz : sp_buffer_size_i64 (w_single w) = N;
  own_cursor : sp_cursor (w_single w) = cursor_at;
  own_next : sp_next_value (w_single w) = v;
  own_cached : -1 <= sp_cached_value (w_single w) <= v;
  own_lock : sp_claim_lock (w_single w) = locked;
  own_open : sp_closed (w_single w) = false /\ sp_poisoned (w_single w) = false;
  own_gating : sp_gating_sequences (w_single w) = [];
  own_signal : sp_needs_signal (w_single w) = false
}.

Lemma own_rely l v w w' : own l v w -> local_rely w w' -> own l v w'.
Proof. intros [] [Hs _ _]. by constructor; rewrite Hs. Qed.

Lemma seq_rely w w' l : local_rely w w' -> seq_at w' l = seq_at w l.
Proof. intros [_ _ Hq]. unfold seq_at. by rewrite Hq. Qed.

(** What a claim leaves as it is. *)
Definition claimed v w (r : result Z DisruptorError) w' : Prop :=
  r = Ok (v + 1) /\ own false (v + 1) w' /\ w_ring w' = w_ring w /\
  (seq_at w' cursor_at = seq_at w cursor_at \/ seq_at w' cursor_at = v).

Lemma own_set_cursor l v u w : own l v w -> own l v (set_seq cursor_at u w).
Proof. intros []. by constructor. Qed.

Lemma twp_state_ok (e : env W) l v k w :
  respects local_rely e -> own l v w ->
  twp e Single.claim_state_error (fun r _ w' => r = None /\ local_rely w w') k w.
Proof.
  intros He Hw. assert (Hr1 := He k w). assert (Hr2 := He (S k) (e k w)). unfold Single.claim_state_error. twp_steps.
  rewrite (lr_single _ _ Hr1), (proj1 (own_open _ _ _ Hw)). twp_steps.
  rewrite (lr_single _ _ Hr2), (lr_single _ _ Hr1), (proj2 (own_open _ _ _ Hw)). twp_steps. split; [done|].
  destruct Hr1, Hr2. by constructor; etrans.
Qed.

(** Without consumers, the wait for capacity ends at its first look. *)
Lemma twp_capacity (e : env W) fuel l v k w :
  respects local_rely e -> own l v w -> v < i64_max -> -1 <= v ->
  twp e (Single.capacity_wait (S fuel) v (v + 1 - N)) (fun r _ w' => r = Ok v /\ local_rely w w') k w.
Proof.
  intros He Hw Hv Hv'. assert (Hr := He k w). unfold Single.capacity_wait. cbn [loop]. unfold Single.gating_minimum. twp_steps.
  rewrite (lr_single _ _ Hr), (own_gating _ _ _ Hw). cbn [Sequence.get_minimum_sequence_with_default Sequence.minimum_loop]. twp_steps.
  destruct (Z.ltb_spec v (v + 1 - N)); [lia|]. by twp_steps.
Qed.

Lemma twp_inner (e : env W) fuel v k w :
  respects local_rely e -> own true v w -> -1 <= v < i64_max ->
  twp e (Single.next_n_inner (S fuel) 1) (fun r _ w' => r = Ok (v + 1) /\ own true (v + 1) w' /\ w_ring w' = w_ring w /\
    (seq_at w' cursor_at = seq_at w cursor_at \/ seq_at w' cursor_at = v)) k w.
Proof.
  intros He Hw Hv. unfold Single.next_n_inner, Single.next_value, Single.buffer_size_i64, Single.cached_value, Single.cursor,
    Single.set_next_value, Single.set_cached_value, Sequence.set_volatile. twp_steps.
  rewrite (own_next _ _ _ Hw), (own_bsz _ _ _ Hw). pose proof (own_cached _ _ _ Hw) as Hc. nowrap.
  destruct (_ || _); twp_steps.
  - rewrite (own_cursor _ _ _ Hw). set (w1 := set_seq cursor_at v (e k w)). assert (Hw1 : own true v w1) by (apply own_set_cursor; eapply own_rely; [exact Hw | apply He]).
    eapply twp_mono; [by apply (twp_capacity e fuel true v); [| | lia..]|]. intros r k2 w2 [-> Hr2]. twp_steps.
    pose proof (own_rely _ _ _ _ Hw1 Hr2) as []. split_and!; [done | constructor; cbn; (done || lia) | |].
    + cbn. rewrite (lr_ring _ _ Hr2). apply (lr_ring _ _ (He k w)).
    + right. change (seq_at w2 cursor_at = v). rewrite (seq_rely _ _ _ Hr2). apply seq_at_set_eq.
  - destruct Hw. split_and!; [done | constructor; cbn; (done || lia) | done | by left].
Qed.

Lemma twp_next (e : env W) fuel v k w :
  respects local_rely e -> own false v w -> -1 <= v < i64_max ->
  twp e (Single.next (S fuel)) (fun r _ w' => claimed v w r w') k w.
Proof.
  intros He Hw Hv. unfold Single.next, Single.next_n, Single.buffer_size_i64. twp_steps. rewrite (own_bsz _ _ _ Hw).
  cbn [Z.ltb Z.compare Pos.compare Pos.compare_cont]. destruct (Z.ltb_spec N 1); [lia|]. cbn [orb]. twp_steps.
  eapply twp_mono; [by apply (twp_state_ok e false v)|]. intros err k1 w1 [-> Hr1]. pose proof (own_rely _ _ _ _ Hw Hr1) as Hw1.
  unfold Single.acquire_claim. twp_steps. cbn [fst snd]. set (w2 := e k1 w1). assert (Hr2 : local_rely w1 w2) by apply He.
  pose proof (own_rely _ _ _ _ Hw1 Hr2) as Hw2. rewrite (own_lock _ _ _ Hw2). twp_steps.
  eapply twp_mono; [apply (twp_inner e fuel v); [done | | done]; destruct Hw2; by constructor|].
  intros r k3 w3 (-> & Hw3 & Hring & Hcur). unfold Single.release_claim. twp_steps. set (w4 := e k3 w3). assert (Hr4 : local_rely w3 w4) by apply He.
  pose proof (own_rely _ _ _ _ Hw3 Hr4) as []. split_and!; [done | by constructor | |].
  - cbn. rewrite (lr_ring _ _ Hr4), Hring. cbn. rewrite (lr_ring _ _ Hr2). apply Hr1.
  - change (seq_at (upd_single (sp_set_lock false) w4) cursor_at) with (seq_at w4 cursor_at). rewrite (seq_rely _ _ _ Hr4).
    change (seq_at (upd_single (sp_set_lock true) w2) cursor_at) with (seq_at w2 cursor_at) in Hcur.
    by rewrite (seq_rely _ _ _ Hr2), (seq_rely _ _ _ Hr1) in Hcur.
Qed.

(** ** The publishing loops *)

(** What a loop keeps: a claim for [m] leaves it, the step makes it true of the
    next sequence. *)
Definition kept_by_claims (I : Z -> W -> Prop) : Prop :=
  forall m w w', I m w -> w_ring w' = w_ring w -> (seq_at w' cursor_at = seq_at w cursor_at \/ seq_at w' cursor_at = m - 1) -> I m w'.

Lemma twp_claim_each (e : env W) fuel message step (I : Z -> W -> Prop) top : 
  respects local_rely e -> kept_by_claims I -> top <= i64_max ->
  (forall m k w, 0 <= m < top -> own false m w -> I m w -> twp e (step m m) (fun _ _ w' => own false m w' /\ I (m + 1) w') k w) ->
  forall n i k w, 0 <= i -> i + Z.of_nat n = top -> own false (i - 1) w -> I i w ->
  twp e (claim_each (S fuel) message step n i (i - 1)) (fun r _ w' => r = Ok (top - 1) /\ own false (top - 1) w' /\ I top w') k w.
Proof.
  intros He Hkept Hmax Hstep n. induction n as [|n IH]; intros i k w Hi Htop Hw HI; cbn [claim_each].
  - twp_steps. replace top with i by lia. done.
  - apply twp_bind. eapply twp_mono; [apply (twp_next e fuel (i - 1)); [done | done | lia]|].
    intros r k1 w1 (-> & Hw1 & Hring & Hcur). replace (i - 1 + 1) with i in * by lia. cbn [map_err]. apply twp_bind.
    eapply twp_mono; [apply Hstep; [lia | done | by eapply Hkept]|]. intros [] k2 w2 [Hw2 HI2].
    replace i with (i + 1 - 1) at 2 by lia. apply IH; [lia | lia | by replace (i + 1 - 1) with i by lia | done].
Qed.

(** The slots of the values below [m] hold them. *)
Definition filled (m : Z) w : Prop :=
  RingBuffer.wf (w_ring w) /\ RingBuffer.buffer_size (w_ring w) = N /\
  forall s, 0 <= s < m -> exists ev, RingBuffer.get (w_ring w) s = Some ev /\ payload_value ev = s.
Definition filled_published (m : Z) w : Prop := filled m w /\ (0 < m -> seq_at w cursor_at = m - 1).

Lemma filled_kept : kept_by_claims filled.
Proof. intros m w w' Hf Hr _. unfold filled. by rewrite Hr. Qed.

Lemma filled_published_kept : kept_by_claims filled_published.
Proof. intros m w w' [Hf Hc] Hr Hor. split; [by eapply filled_kept; eauto|]. intros Hm. specialize (Hc Hm). lia. Qed.

Lemma own_ring l v rb w : own l v w -> own l v (upd_ring (fun _ => rb) w).
Proof. intros []. by constructor. Qed.

Lemma twp_write_value (e : env W) m k w :
  0 <= m < N -> own false m w -> filled m w ->
  twp e (write_value m m) (fun _ _ w' => own false m w' /\ filled (m + 1) w' /\ w_seqs w' = w_seqs w) k w.
Proof.
  intros Hm Hw (Hwf & Hsz & Hall). unfold write_value, event_at, write_event. twp_steps.
  destruct (get_some (w_ring w) m Hwf) as [ev ->]. twp_steps.
  destruct (set_frame (w_ring w) m (populate ev (wrap64 m)) Hwf) as (rb' & -> & Hwf' & Hsz' & Hget & Hfr). twp_steps.
  split_and!; [by apply own_ring | | done]. split_and!; cbn; [done | lia |]. intros s Hs. destruct (Z.eq_dec s m) as [->|Hne].
  - exists (populate ev (wrap64 m)). split; [done|]. rewrite payload_populate. nowrap. done.
  - rewrite Hfr by lia. apply Hall. lia.
Qed.

Lemma twp_write_and_publish (e : env W) m k w :
  respects local_rely e -> 0 <= m < N -> own false m w -> filled_published m w ->
  twp e (write_and_publish m m) (fun _ _ w' => own false m w' /\ filled_published (m + 1) w') k w.
Proof.
  intros He Hm Hw [Hf _]. unfold write_and_publish. apply twp_bind. eapply twp_mono; [by apply twp_write_value|].
  intros [] k1 w1 (Hw1 & Hf1 & _). unfold Single.publish, Single.cursor, Sequence.set. twp_steps. rewrite (own_cursor _ _ _ Hw1).
  set (w2 := set_seq cursor_at m (e k1 w1)). assert (Hr : local_rely w1 (e k1 w1)) by apply He.
  assert (Hw2 : own false m w2) by (apply own_set_cursor; by eapply own_rely).
  rewrite (own_signal _ _ _ Hw2). twp_steps. split; [done|]. split.
  - unfold filled, w2. cbn. by rewrite (lr_ring _ _ Hr).
  - intros _. unfold w2. rewrite seq_at_set_eq. lia.
Qed.

(** Reading the values back. *)
Lemma twp_checksum_ring (e : env W) m w : filled m w -> m <= i64_max -> forall n s sum k, 0 <= s -> s + Z.of_nat n <= m ->
  twp e (checksum_ring n s (wrap64 sum)) (fun r _ w' => r = wrap64 (sum + total (seqZ s (Z.of_nat n))) /\ w' = w) k w.
Proof.
  intros (Hwf & Hsz & Hall) Hm n. induction n as [|n IH]; intros s sum k Hs Hn; cbn [checksum_ring].
  - twp_steps. by rewrite Z.add_0_r.
  - unfold event_at. nowrap. twp_steps. destruct (Hall s ltac:(lia)) as (ev & -> & Hev). twp_steps. rewrite Hev, wrap_wrap_l.
    eapply twp_mono; [apply IH; lia|]. intros r k' w' [-> ->]. split; [|done].
    rewrite (seqZ_cons s) by lia. rewrite total_cons, <- (Z.add_1_r s). replace (Z.pred (Z.of_nat (S n))) with (Z.of_nat n) by lia. f_equal. lia.
Qed.

(** ** The phases on one thread *)

Lemma twp_new_ring (e : env W) message k w :
  is_power_of_two N = true ->
  twp e (new_ring message N) (fun r _ w' => r = Ok tt /\ filled 0 w') k w.
Proof.
  intros Hp. unfold new_ring, RingBuffer.new. pose proof (ring_new_spec N (fun _ => payload_default (E := E)) RingBuffer.PadNone ltac:(i64_lia)) as Hring.
  destruct (RingBuffer.new_with_padding _ _ _) as [rb|err]; cbn [map_err].
  - destruct Hring as (_ & Hwf & Hsz & _). twp_steps. split; [done|]. split_and!; [done | done | lia].
  - exfalso. destruct Hring as [_ Hno]. apply is_power_of_two_spec in Hp as (j & Hj & Heq).
    apply (Hno j); [split; [done|] | done]. apply (Z.pow_le_mono_r_iff 2); [lia..|]. change (2 ^ 62) with 4611686018427387904. lia.
Qed.

Lemma twp_new (e : env W) ws k w (m : Z) :
  needs_signal ws = false -> filled m w ->
  twp e (Single.new N ws cursor_at) (fun _ _ w' => own false (-1) w' /\ filled m w') k w.
Proof.
  intros Hws Hf. unfold Single.new, i64_try_from, Sequence.new_with_initial_value, Sequence.new. destruct (Z.leb_spec N i64_max); [|i64_lia].
  twp_steps. split; [|done]. constructor; cbn; (done || lia).
Qed.

Lemma filled_rely m w w' : filled m w -> local_rely w w' -> filled m w'.
Proof. intros Hf Hr. unfold filled. by rewrite (lr_ring _ _ Hr). Qed.

Variables (cfg : ResolvedConfig) (e : env W) (fuel : nat) (ws : WaitStrategy) (ri : Z) (rp : RoundPhase).
Hypothesis He : respects local_rely e.
Hypothesis Hws : needs_signal ws = false.
Hypothesis Hsize : cfg.(buffer_size) = N.
Hypothesis Hpow : is_power_of_two N = true.
Hypothesis Hn : 0 < cfg.(events_total) <= N.

(** A program and its result in all worlds. *)
Definition reports (m : M W (result RoundRecord string)) (P : RoundRecord -> Prop) : Prop :=
  forall k w, twp e m (fun r _ _ => exists rec, r = Ok rec /\ P rec) k w.

Definition exact_round (rec : RoundRecord) : Prop :=
  rec.(checksum_observed) = Some (exact_checksum cfg.(events_total)) /\
  rec.(valid) = (exact_checksum cfg.(events_total) =? arithmetic_checksum cfg.(events_total)).

Lemma claim_only_reports :
  reports (run_claim_only cfg ws cursor_at (S fuel) ri rp) (fun rec => rec.(last_sequence_observed) = Some (cfg.(events_total) - 1) /\ rec.(valid) = true).
Proof.
  intros k w. unfold run_claim_only. rewrite Hsize. unfold Single.new, i64_try_from, Sequence.new_with_initial_value, Sequence.new.
  destruct (Z.leb_spec N i64_max); [|i64_lia]. unfold now, elapsed. twp_steps. set (w1 := upd_single _ _).
  assert (Hw1 : own false (0 - 1) w1) by (constructor; cbn; (done || lia)).
  eapply twp_mono; [apply (twp_claim_each e fuel _ _ (fun _ _ => True) cfg.(events_total)) with (n := Z.to_nat cfg.(events_total)) (i := 0)|].
  all: try done; try i64_lia.
  { by eapply own_rely. }
  intros r k2 w2 (-> & _). unfold now. twp_steps. eexists. split; [done|]. cbn. split; [done|]. apply Z.eqb_eq. unfold last_expected. nowrap. done.
Qed.

(** What [run_claim_write] and [run_claim_write_publish] share: the loop over a
    fresh ring buffer and sequencer, and the checksum of the ring. *)
Lemma twp_filled_round message message' step (I : Z -> W -> Prop) (rest : Z -> Z -> M W (result RoundRecord string)) P :
  kept_by_claims I -> (forall w, filled 0 w -> I 0 w) -> (forall m w w', I m w -> local_rely w w' -> I m w') -> (forall m w, I m w -> filled m w) ->
  (forall m k w, 0 <= m < N -> own false m w -> I m w -> twp e (step m m) (fun _ _ w' => own false m w' /\ I (m + 1) w') k w) ->
  (forall elapsed k w, own false (cfg.(events_total) - 1) w -> I cfg.(events_total) w ->
     twp e (rest elapsed (exact_checksum cfg.(events_total))) (fun r _ _ => exists rec, r = Ok rec /\ P rec) k w) ->
  reports (let? _ := new_ring message cfg.(buffer_size) in
           let* _ := Single.new cfg.(buffer_size) ws cursor_at in
           let* start := now in
           let? _ := claim_each (S fuel) message' step (Z.to_nat cfg.(events_total)) 0 (-1) in
           let* elapsed := elapsed start in
           let* checksum := checksum_ring (Z.to_nat cfg.(events_total)) 0 0 in
           rest elapsed checksum) P.
Proof.
  intros Hkept Hzero Hrely Hfilled Hstep Hrest k w. rewrite Hsize. apply twp_try. eapply twp_mono; [by apply twp_new_ring|].
  intros r k1 w1 [-> Hf1]. apply twp_bind. eapply twp_mono; [by apply twp_new|]. intros [] k2 w2 [Hw2 Hf2]. unfold now at 1. twp_steps.
  assert (Hr2 := He k2 w2). eapply twp_mono.
  { apply (twp_claim_each e fuel _ step I cfg.(events_total)) with (n := Z.to_nat cfg.(events_total)) (i := 0); try done; try i64_lia.
    - intros m k' w' Hm. apply Hstep. lia.
    - by eapply own_rely.
    - eapply Hrely; [by apply Hzero | done]. }
  intros r k3 w3 (-> & Hw3 & HI3). unfold elapsed, now. twp_steps. set (w4 := e k3 w3). assert (Hr4 : local_rely w3 w4) by apply He.
  eapply twp_mono; [apply (twp_checksum_ring e cfg.(events_total) w4 ltac:(by eapply Hfilled, Hrely) ltac:(i64_lia) (Z.to_nat cfg.(events_total)) 0 0); lia|].
  intros sum k5 w5 [-> ->]. rewrite Z.add_0_l, Z2Nat.id by lia. apply Hrest; [by eapply own_rely | by eapply Hrely].
Qed.

Lemma claim_write_reports : reports (run_claim_write cfg ws cursor_at (S fuel) ri rp) exact_round.
Proof.
  unfold run_claim_write. apply (twp_filled_round _ _ write_value filled).
  - apply filled_kept.
  - done.
  - apply filled_rely.
  - done.
  - intros m k w Hm Hw Hf. eapply twp_mono; [by apply twp_write_value|]. by intros [] k' w' (? & ? & _).
  - intros elapsed k w Hw Hf. unfold Single.get_cursor, Single.cursor, Sequence.get. twp_steps. eexists. split; [done|]. done.
Qed.

Lemma claim_write_publish_reports :
  reports (run_claim_write_publish cfg ws cursor_at (S fuel) ri rp)
    (fun rec => exact_round rec /\ rec.(last_sequence_observed) = Some (cfg.(events_total) - 1)).
Proof.
  unfold run_claim_write_publish. apply (twp_filled_round _ _ write_and_publish filled_published).
  - apply filled_published_kept.
  - intros w Hf. split; [done | lia].
  - intros m w w' [Hf Hc] Hr. split; [by eapply filled_rely|]. intros Hm. rewrite (seq_rely _ _ _ Hr). auto.
  - by intros m w [].
  - intros m k w. by apply twp_write_and_publish.
  - intros elapsed k w Hw [Hf Hc]. unfold Single.get_cursor, Single.cursor, Sequence.get. twp_steps. eexists. split; [done|].
    rewrite (own_cursor _ _ _ Hw), (seq_rely _ _ _ (He k w)), Hc by lia. split; [split; [done|]|done]. cbn. unfold last_expected. nowrap.
    by rewrite Z.eqb_refl, andb_true_r.
Qed.
End Own.

Lemma baseline_reports cfg (e : env (World MicroEvent)) ri rp :
  0 < cfg.(events_total) -> reports e (run_baseline cfg ri rp) (exact_round cfg).
Proof.
  intros Hn k w. unfold run_baseline, now, elapsed. twp_steps. eexists. split; [done|].
  assert (Hs : baseline_sum (Z.to_nat (events_total cfg)) 0 0 = exact_checksum (events_total cfg)).
  { change 0 with (wrap64 0) at 2. rewrite baseline_sum_spec, Z.add_0_l, Z2Nat.id by lia. done. }
  rewrite Hs. done.
Qed.

Lemma launch_reports {E} (e : env (World E)) m P w : reports e m P -> exists rec, launch m e w = Returned (Ok rec) /\ P rec.
Proof.
  intros Hm. specialize (Hm 0%nat w). unfold launch, twp in *. destruct (m e 0%nat w) as [r k' w'| |]; [|done..].
  destruct Hm as (rec & -> & HP). eauto.
Qed.

Lemma try_from_ok cli cfg :
  try_from cli = Ok cfg ->
  cfg.(events_total) <> 0 /\ is_power_of_two cfg.(buffer_size) = true /\ (cfg.(mode) <> ModeEndToEnd -> cfg.(events_total) <= cfg.(buffer_size)).
Proof.
  unfold try_from. destruct (first_error _) eqn:H1; [done|]. destruct (checked_next_power_of_two _) as [d|]; [|done].
  destruct (first_error [_; _]) eqn:H2; [done|]. intros [= <-]. cbn [events_total buffer_size mode].
  apply first_error_none in H1, H2. repeat (apply Forall_cons in H1 as [? H1]; apply Forall_cons in H2 as [? H2] || apply Forall_cons in H1 as [? H1]).
  cbn [fst] in *. apply orb_false_iff in H0 as [_ H0%negb_false_iff]. split_and!; [lia | done |]. intros Hm.
  rewrite (bool_decide_eq_false_2 (cli_mode cli = ModeEndToEnd)), andb_false_r, andb_true_r in H4 by done. lia.
Qed.

(** C36: The phases on one thread always report a round, with the exact sum of the
    values and the last sequence they should have; the round counts as valid
    if the expected checksum is right, that is as long as n (n - 1) fits in 63
    bits, and as invalid when the product wraps around once (from
    3,037,000,501 events on), although nothing was lost. *)
Theorem direct_phases_verdict cli cfg kind sys ri rp fuel :
  try_from cli = Ok cfg -> kind <> EndToEnd -> kind ∈ phases cfg.(mode) -> 0 <= cfg.(events_total) -> cfg.(buffer_size) <= 4611686018427387904 ->
  respects local_rely (sys.(sys_env) MicroEvent) ->
  exists rec, run_phase_with (S fuel) cfg kind sys ri rp = Returned (Ok rec) /\
    (kind <> ClaimOnly -> rec.(checksum_observed) = Some (exact_checksum cfg.(events_total))) /\
    (kind = ClaimOnly \/ kind = ClaimWritePublish -> rec.(last_sequence_observed) = Some (cfg.(events_total) - 1)) /\
    (cfg.(events_total) * (cfg.(events_total) - 1) < two63 -> rec.(valid) = true) /\
    (kind <> ClaimOnly -> two63 <= cfg.(events_total) * (cfg.(events_total) - 1) < two63 + two64 -> rec.(valid) = false).
Proof.
  intros Hcfg Hk Hin Hev Hbuf He. destruct (try_from_ok _ _ Hcfg) as (Hne & Hpow & Hfit).
  assert (Hn : 0 < cfg.(events_total) <= cfg.(buffer_size)).
  { split; [lia|]. apply Hfit. intros Hm. rewrite Hm in Hin. cbn in Hin. apply list_elem_of_singleton in Hin. congruence. }
  assert (Hverdict : forall rec, exact_round cfg rec ->
    (kind <> ClaimOnly -> rec.(checksum_observed) = Some (exact_checksum cfg.(events_total))) /\
    (cfg.(events_total) * (cfg.(events_total) - 1) < two63 -> rec.(valid) = true) /\
    (kind <> ClaimOnly -> two63 <= cfg.(events_total) * (cfg.(events_total) - 1) < two63 + two64 -> rec.(valid) = false)).
  { intros rec [Hsum Hv]. split_and!; [done | |]; rewrite Hv.
    - intros Hsmall. apply Z.eqb_eq. symmetry. apply arithmetic_fits; [i64_lia | done].
    - intros _ Hlarge. apply Z.eqb_neq. intros Heq. by apply (arithmetic_wraps cfg.(events_total)); [lia | done |]. }
  assert (Hws : forall wk, needs_signal (strategy_of wk) = false) by (by intros []).
  unfold run_phase_with. destruct kind; [| | | |done].
  - destruct (launch_reports _ _ _ (sys.(sys_world) MicroEvent) (baseline_reports cfg (sys.(sys_env) MicroEvent) ri rp ltac:(lia))) as (rec & -> & Hr).
    exists rec. destruct (Hverdict rec Hr) as (H1 & H2 & H3). split_and!; try done. by intros [].
  - edestruct (launch_reports (sys.(sys_env) MicroEvent)) as (rec & -> & Hr).
    { apply claim_only_reports with (N := cfg.(buffer_size)); try done. lia. }
    destruct Hr as [Hl Hr]. exists rec. split_and!; done.
  - edestruct (launch_reports (sys.(sys_env) MicroEvent)) as (rec & -> & Hr).
    { apply claim_write_reports with (N := cfg.(buffer_size)); try done. lia. }
    exists rec. destruct (Hverdict rec Hr) as (H1 & H2 & H3). split_and!; try done. by intros [].
  - edestruct (launch_reports (sys.(sys_env) MicroEvent)) as (rec & -> & Hr).
    { apply claim_write_publish_reports with (N := cfg.(buffer_size)); try done. lia. }
    destruct Hr as [Hr Hl]. exists rec. destruct (Hverdict rec Hr) as (H1 & H2 & H3). by split_and!.
Qed.
