(* ===== verification/UnicastConsumer.v ===== *)
(** * UnicastConsumer: the theorem on the consumer thread of
    [UnicastBreakdown]: what it leaves in the shared counters, and what the
    others can see of them on the way. *)
From S2P Require Import Prelude Effects Errors RingBuffer World Sequence Single Multi Availability Sequencer Waiting WaitStrategy Barrier ConsumerEngine Core.
From S2P Require Import Delivery Checksums UnicastBreakdown.

Section Consumer.
Context {E : Type} `{Payload E} (val : Z -> E) (name : string) (rt : DirectConsumerRuntime) (seen : loc).
Abbreviation W := (World E).
Implicit Types w : W.
Notation b := (barrier rt).
Notation cs := (consumer_sequence rt).

(** The objects of the runtime are different, and the counters are not among
    the sequences of the barrier. *)
Record separate : Prop := {
  sp_counters : processed rt <> checksum rt;
  sp_processed : processed rt <> cs /\ processed rt <> cursor b /\ processed rt ∉ dependent_sequences b;
  sp_checksum : checksum rt <> cs /\ checksum rt <> cursor b /\ checksum rt ∉ dependent_sequences b;
  sp_seen : seen <> ready rt
}.

(** The sum of the values below [n]. *)
Definition sum_below (n : Z) : Z := total (map (fun q => payload_value (val q)) (seqZ 0 n)).

(** The counters are consistent: the sum covers at least the events that are
    counted, and only events that are published. *)
Definition consistent w : Prop :=
  exists p c, 0 <= p <= c /\ c <= seq_at w (cursor b) + 1 /\
    seq_at w (processed rt) = as_u64 p /\ seq_at w (checksum rt) = wrap64 (sum_below c).

(** What the other threads do: they publish, they leave the counters alone, and
    one of them raises the flag [seen] if it finds the counters inconsistent. *)
Record watch_rely w w' : Prop := {
  wa_engine : engine_rely val b cs unconstrained w w';
  wa_processed : seq_at w' (processed rt) = seq_at w (processed rt);
  wa_checksum : seq_at w' (checksum rt) = seq_at w (checksum rt);
  wa_seen : consistent w -> flag_at w' seen = flag_at w seen
}.

Lemma consistent_rely w w' : consistent w -> watch_rely w w' -> consistent w'.
Proof.
  intros (p & c & Hp & Hc & H1 & H2) Hr. exists p, c. pose proof (vr_mono _ _ _ _ (er_view _ _ _ _ _ _ (wa_engine _ _ Hr)) (cursor b)).
  rewrite (wa_processed _ _ Hr), (wa_checksum _ _ Hr). split_and!; (done || lia).
Qed.

#[global] Instance watch_rely_preorder : PreOrder watch_rely.
Proof.
  split; [intros w; by constructor|]. intros w1 w2 w3 H1 H2. pose proof (fun Hc => consistent_rely _ _ Hc H1) as H3. destruct H1, H2.
  constructor; [by etrans | by etrans | by etrans |]. intros Hc. rewrite wa_seen1, wa_seen0 by auto. done.
Qed.

#[global] Instance watch_rely_wait : WaitRely watch_rely.
Proof.
  constructor; [apply _ | intros w w' l Hr; apply (wr_mono _ _ l (wa_engine _ _ Hr)) | intros w w' Hr; apply (wr_clock _ _ (wa_engine _ _ Hr)) |].
  intros w d Hd. constructor; try done. by apply wr_sleep.
Qed.

(** A counter's new value leaves the consumer's state as it is. *)
Lemma eng_inv_counter N next l v w :
  l <> cs -> l <> cursor b -> l ∉ dependent_sequences b -> eng_inv val b cs unconstrained N next w -> eng_inv val b cs unconstrained N next (set_seq l v w).
Proof.
  intros H1 H2 H3 Hi. pose proof Hi as [Hok HN Hrs Hwf Hn Hd _ Hc]. pose proof Hok as [Hof Hvwf Hdeps Hlap Hmax].
  assert (Hf : front cs (set_seq l v w) = front cs w) by (unfold front; by rewrite seq_at_set_ne).
  assert (Hcv : seq_at (set_seq l v w) (cursor b) = seq_at w (cursor b)) by (by apply seq_at_set_ne).
  assert (Hbs : Sequencer.buffer_size (sequencer b) (set_seq l v w) = Sequencer.buffer_size (sequencer b) w) by (by destruct (sequencer b)).
  assert (Hpub : forall q, published (sequencer b) (set_seq l v w) q <-> published (sequencer b) w q).
  { intros q. destruct Hof as [Hcur _]. unfold published. destruct (sequencer b); [|done]. cbn in Hcur |- *.
    rewrite seq_at_set_ne; [done|]. intros ->. by apply H2. }
  constructor; rewrite ?Hf; try done.
  - constructor; rewrite ?Hcv, ?Hbs; try done.
    intros Hne. destruct (Hdeps Hne) as (d & Hd1 & Hd2). exists d. split; [done|]. rewrite seq_at_set_ne; [done|]. by intros ->.
  - intros q Hq Hw Hp. apply Hd; [done | | eapply available_back; [apply Hpub | | exact Hp]; intros d Hin; apply seq_at_set_ne; by intros ->]. unfold in_window in *. by rewrite Hf, Hbs in Hw.
Qed.

Lemma eng_inv_later N next next' w : eng_inv val b cs unconstrained N next w -> next <= next' -> eng_inv val b cs unconstrained N next' w.
Proof. intros [] Hle. constructor; try done; [lia|]. intros q Hq. apply ei_data. lia. Qed.

(** The inner loop reads the published events and touches nothing. *)
Lemma wp_sum_batch R N w n : forall next sum cnt,
  eng_inv val b cs unconstrained N next w -> next + Z.of_nat n <= i64_max ->
  (forall q, next <= q < next + Z.of_nat n -> in_window b cs w q /\ available b w q) ->
  wp R (sum_batch n next (wrap64 sum) (as_u64 cnt))
    (fun r w' => r = (next + Z.of_nat n, wrap64 (sum + total (map (fun q => payload_value (val q)) (seqZ next (Z.of_nat n)))), as_u64 (cnt + Z.of_nat n)) /\ w' = w) w.
Proof.
  induction n as [|n IH]; intros next sum cnt Hi Hmax Hq; cbn [sum_batch].
  - apply wp_ret. rewrite !Z.add_0_r. done.
  - destruct (Hq next ltac:(lia)) as [Hw Hp]. apply wp_bind. eapply wp_event_at; [exact Hi | done | done |].
    pose proof (ei_next _ _ _ _ _ _ _ Hi). pose proof (proj1 Hw). nowrap. rewrite wrap_wrap_l.
    assert (Hcnt : as_u64 (as_u64 cnt + 1) = as_u64 (cnt + 1)) by (unfold as_u64; by rewrite Zplus_mod_idemp_l).
    rewrite Hcnt. eapply wp_mono; [apply IH; [eapply eng_inv_later; [exact Hi | lia] | lia | intros q Hr; apply Hq; lia]|].
    intros r w' [-> ->]. split; [|done]. rewrite (seqZ_cons next) by lia. cbn [map]. rewrite total_cons, <- (Z.add_1_r next).
    replace (Z.pred (Z.of_nat (S n))) with (Z.of_nat n) by lia. f_equal; [f_equal; [lia | f_equal; lia] | f_equal; lia].
Qed.

Lemma sum_below_app n m : 0 <= n -> 0 <= m -> sum_below (n + m) = sum_below n + total (map (fun q => payload_value (val q)) (seqZ n m)).
Proof. intros. unfold sum_below. rewrite seqZ_app, map_app, total_app by lia. by rewrite Z.add_0_l. Qed.

(** Between two turns everything released is counted and summed. *)
Definition turn_inv (N next : Z) w : Prop :=
  eng_inv val b cs unconstrained N next w /\ front cs w = next /\ next <= seq_at w (cursor b) + 1 /\
  seq_at w (processed rt) = as_u64 next /\ seq_at w (checksum rt) = wrap64 (sum_below next) /\ flag_at w seen = false.

Lemma turn_consistent N next w : turn_inv N next w -> consistent w.
Proof. intros (Hi & _ & Hc & Hp & Hs & _). exists next, next. pose proof (ei_next _ _ _ _ _ _ _ Hi). split_and!; (done || lia). Qed.

Lemma turn_inv_rely N next w w' : turn_inv N next w -> watch_rely w w' -> turn_inv N next w'.
Proof.
  intros Ht Hr. pose proof (turn_consistent _ _ _ Ht) as Hcon. destruct Ht as (Hi & Hf & Hc & Hp & Hs & Hfl). pose proof (wa_engine _ _ Hr) as He.
  pose proof (vr_mono _ _ _ _ (er_view _ _ _ _ _ _ He) (cursor b)). split_and!.
  - by eapply eng_inv_rely.
  - by rewrite (er_front _ _ _ _ _ _ He).
  - lia.
  - by rewrite (wa_processed _ _ Hr).
  - by rewrite (wa_checksum _ _ Hr).
  - by rewrite (wa_seen _ _ Hr).
Qed.

Context (Hsep : separate) (Hws : durations_ok (wait_strategy b)).

Lemma wp_turn_wait fuel N next w :
  turn_inv N next w -> (Z.to_nat N < fuel)%nat ->
  wp watch_rely (wait_for_with_shutdown fuel b next (shutdown_flag rt))
    (fun r w' => turn_inv N next w' /\ match r with Ok v => readable b next v w' | Err _ => True end) w.
Proof.
  intros Ht Hfuel. pose proof Ht as (Hi & Hf & _). pose proof (ei_next _ _ _ _ _ _ _ Hi). pose proof (ei_ok _ _ _ _ _ _ _ Hi) as Hok. rewrite Hf in Hok.
  eapply wp_mono; [apply (wp_stop_wait_for watch_rely (fun w => front cs w = next) b next next fuel (External (shutdown_flag rt)))|]; try done; [lia | | |].
  - intros x y Hx Hr. pose proof (wa_engine _ _ Hr) as He. rewrite (er_front _ _ _ _ _ _ He). split; [done|]. rewrite <- Hx. apply (er_barrier _ _ _ _ _ _ He).
  - by rewrite (ei_size _ _ _ _ _ _ _ Hi).
  - intros r w' [Hr Hpost]. split; [by eapply turn_inv_rely | done].
Qed.

(** Half-way through the hand-over of the batch up to [v]. *)
Definition handing N next v p c w : Prop :=
  eng_inv val b cs unconstrained N (v + 1) w /\ front cs w = next /\ next <= v < next + N /\ v <= seq_at w (cursor b) /\
  (forall q, next <= q <= v -> available b w q) /\
  0 <= p <= c /\ c <= v + 1 /\ seq_at w (processed rt) = as_u64 p /\ seq_at w (checksum rt) = wrap64 (sum_below c) /\ flag_at w seen = false.

Lemma handing_rely N next v p c w w' : handing N next v p c w -> watch_rely w w' -> handing N next v p c w'.
Proof.
  intros (Hi & Hf & Hv & Hcur & Hpub & Hp & Hc & H1 & H2 & H3) Hr. pose proof (wa_engine _ _ Hr) as He.
  pose proof (vr_mono _ _ _ _ (er_view _ _ _ _ _ _ He) (cursor b)). split_and!; try (done || lia).
  - by eapply eng_inv_rely.
  - by rewrite (er_front _ _ _ _ _ _ He).
  - intros q Hq. apply (er_available _ _ _ _ _ _ _ He); [unfold in_window; rewrite Hf, (ei_size _ _ _ _ _ _ _ Hi); lia | auto].
  - by rewrite (wa_processed _ _ Hr).
  - by rewrite (wa_checksum _ _ Hr).
  - rewrite (wa_seen _ _ Hr); [done|]. exists p, c. split_and!; (done || lia).
Qed.

(** A store to one of the counters. *)
Lemma handing_set N next v p c p' c' l x w :
  handing N next v p c w -> l <> cs -> l <> cursor b -> l ∉ dependent_sequences b -> 0 <= p' <= c' -> c' <= v + 1 ->
  seq_at (set_seq l x w) (processed rt) = as_u64 p' -> seq_at (set_seq l x w) (checksum rt) = wrap64 (sum_below c') ->
  handing N next v p' c' (set_seq l x w).
Proof.
  intros (Hi & Hf & Hv & Hcur & Hpub & Hp & Hc & H1 & H2 & H3) Hl1 Hl2 Hl3 Hp' Hc' H1' H2'.
  assert (Hcv : seq_at (set_seq l x w) (cursor b) = seq_at w (cursor b)) by (by apply seq_at_set_ne).
  split_and!; try (done || lia).
  - by apply eng_inv_counter.
  - unfold front. by rewrite seq_at_set_ne.
  - intros q Hq. destruct (bo_of _ _ _ (ei_ok _ _ _ _ _ _ _ Hi)) as [Hcl _].
    apply (available_back b (set_seq l x w) w); [| |by apply Hpub].
    + unfold published. destruct (sequencer b); [|done]. cbn in Hcl |- *. rewrite seq_at_set_ne; [done|]. intros ->. by apply Hl2.
    + intros d Hin. symmetry. apply seq_at_set_ne. by intros ->.
Qed.

(** The three stores that hand a batch over: the sum, the count, the release. *)
Lemma wp_hand_over N next v w :
  handing N next v next next w ->
  wp watch_rely
    (let* _ := add_checksum (checksum rt) (wrap64 (sum_below (v + 1) - sum_below next)) in
     let* _ := add_processed (processed rt) (as_u64 (v + 1 - next)) in
     let* _ := Sequence.set cs v in ret (inl (v + 1) : Z + result unit string))
    (fun r w' => r = inl (v + 1) /\ turn_inv N (v + 1) w') w.
Proof.
  intros Hh. unfold add_checksum, add_processed, Sequence.set. destruct Hsep as [Hne (P1 & P2 & P3) (C1 & C2 & C3) _].
  apply wp_bind, wp_store. intros w1 Hr1. pose proof (handing_rely _ _ _ _ _ _ _ Hh Hr1) as Hh1. pose proof Hh1 as (_ & _ & Hv & _ & _ & Hp & _ & Hp1 & Hc1 & _).
  assert (Hh2 : handing N next v next (v + 1) (set_seq (checksum rt) (seq_at w1 (checksum rt) +! wrap64 (sum_below (v + 1) - sum_below next)) w1)).
  { eapply handing_set; [exact Hh1 | done | done | done | lia | lia | |].
    - by rewrite seq_at_set_ne by done.
    - rewrite seq_at_set_eq, Hc1, wrap_wrap_l, wrap_wrap_r. f_equal. lia. }
  apply wp_bind, wp_store. intros w3 Hr3. pose proof (handing_rely _ _ _ _ _ _ _ Hh2 Hr3) as Hh3. pose proof Hh3 as (_ & _ & _ & _ & _ & _ & _ & Hp3 & Hc3 & _).
  assert (Hh4 : handing N next v (v + 1) (v + 1) (set_seq (processed rt) (as_u64 (seq_at w3 (processed rt) + as_u64 (v + 1 - next))) w3)).
  { eapply handing_set; [exact Hh3 | done | done | done | lia | lia | |].
    - rewrite seq_at_set_eq, Hp3, as_u64_add. f_equal. lia.
    - by rewrite seq_at_set_ne by done. }
  apply wp_bind, wp_store. intros w5 Hr5. pose proof (handing_rely _ _ _ _ _ _ _ Hh4 Hr5) as (Hi & Hf & Hv5 & Hcur & Hpub & _ & _ & Hp5 & Hc5 & Hfl).
  apply wp_ret. split; [done|]. split_and!.
  - apply (eng_inv_release val b cs unconstrained); [done | lia | lia | rewrite Hf; done].
  - unfold front. rewrite seq_at_set_eq. lia.
  - rewrite seq_at_set_ne by (intros Heq; by apply (proj1 (ei_cs _ _ _ _ _ _ _ Hi))). lia.
  - by rewrite seq_at_set_ne by done.
  - by rewrite seq_at_set_ne by done.
  - done.
Qed.

Lemma wp_consumer_step fuel N next w :
  turn_inv N next w -> (Z.to_nat N < fuel)%nat ->
  wp watch_rely (consumer_step name rt fuel next)
    (fun r w' => match r with inl next' => turn_inv N next' w' | inr _ => exists n, turn_inv N n w' end) w.
Proof.
  intros Ht Hfuel. unfold consumer_step. apply wp_bind. eapply wp_mono; [by apply wp_turn_wait|].
  intros r w1 [Ht1 Hrd]. destruct r as [v|err].
  - pose proof Ht1 as (Hi & Hf & Hc & Hp & Hs & Hfl). destruct (Z.ltb_spec v next); [by apply wp_ret|].
    destruct (readable_window val b cs unconstrained N next v w1 Hi Hf Hrd) as [Hlap Hmax]. pose proof Hrd as (_ & _ & Hreach & Hpub).
    pose proof (reached_cursor b _ v w1 (ei_ok _ _ _ _ _ _ _ Hi) Hreach) as Hcur. pose proof (ei_next _ _ _ _ _ _ _ Hi) as Hn. pose proof (ei_size _ _ _ _ _ _ _ Hi) as HN.
    assert (Hav : forall q, next <= q <= v -> available b w1 q) by (intros q Hq; apply (available_of b w1 q v); [apply Hpub | | ]; done || lia).
    apply wp_bind. eapply wp_mono.
    { apply (wp_sum_batch _ N w1 (Z.to_nat (v - next + 1)) next 0 0); [done | i64_lia |].
      intros q Hq. split; [unfold in_window; rewrite Hf, HN; lia | apply Hav; lia]. }
    intros r w2 [-> ->]. rewrite Z2Nat.id, !Z.add_0_l by lia. replace (next + (v - next + 1)) with (v + 1) by lia.
    replace (v - next + 1) with (v + 1 - next) by lia. pose proof (sum_below_app next (v + 1 - next) ltac:(lia) ltac:(lia)) as Hsum.
    replace (next + (v + 1 - next)) with (v + 1) in Hsum by lia.
    replace (total _) with (sum_below (v + 1) - sum_below next) by lia.
    eapply wp_mono; [apply (wp_hand_over N next v)|].
    + split_and!; (done || lia || idtac). eapply eng_inv_later; [exact Hi | lia].
    + by intros r w3 [-> Ht3].
  - destruct err; apply wp_bind, wp_load; intros w2 Hr2; pose proof (turn_inv_rely _ _ _ _ Ht1 Hr2) as Ht2;
      (destruct (flag_at w2 (shutdown_flag rt)); apply wp_ret; eauto).
Qed.

(** C35: The consumer thread, against producers that keep to their part and an
    observer that raises a flag when it finds the counters inconsistent: when
    it returns, the count and the sum are those of exactly the sequences it has
    released, each taken once, and the flag is never raised.  What is consistent is enough for the main thread: once it
    reads the whole count, the sum is the sum of all values. *)
Theorem direct_consumer_consistent fuel N w :
  eng_inv val b cs unconstrained N 0 w -> seq_at w cs = -1 -> -1 <= seq_at w (cursor b) -> seq_at w (processed rt) = 0 -> seq_at w (checksum rt) = 0 ->
  flag_at w seen = false -> (Z.to_nat N < fuel)%nat ->
  wp watch_rely (direct_consumer name rt fuel)
    (fun _ w' => flag_at w' seen = false /\ exists n, 0 <= n /\ seq_at w' cs = n - 1 /\
       seq_at w' (processed rt) = as_u64 n /\ seq_at w' (checksum rt) = wrap64 (sum_below n)) w /\
  (forall w' n, consistent w' -> seq_at w' (cursor b) < n <= u64_ones -> seq_at w' (processed rt) = n -> seq_at w' (checksum rt) = wrap64 (sum_below n)).
Proof.
  intros Hi Hcs Hcur Hp Hc Hfl Hfuel. split.
  - assert (Ht : turn_inv N 0 w) by (split_and!; (done || lia || (unfold front; lia))).
    unfold direct_consumer. apply wp_bind, wp_store. intros w1 Hr1. pose proof (turn_inv_rely _ _ _ _ Ht Hr1) as (Hi1 & Hf1 & Hc1 & Hp1 & Hs1 & Hfl1).
    eapply wp_mono; [apply (wp_loop watch_rely (fun n w' => turn_inv N n w') _ (fun _ w' => exists n, turn_inv N n w'))|].
    + intros n w2 Ht2. by apply wp_consumer_step.
    + split_and!; try done. { destruct Hi1 as [[Hof Hvwf Hdeps Hlap Hmax] ? ? ? ? ? ?]. by constructor. }
      rewrite flag_at_set_ne; [done | by apply not_eq_sym, (sp_seen Hsep)].
    + intros r w2 (n & Hi2 & Hf2 & _ & Hp2 & Hs2 & Hfl2). split; [done|]. exists n. pose proof (ei_next _ _ _ _ _ _ _ Hi2). unfold front in Hf2. split_and!; (done || lia).
  - intros w' n (p & c & Hpc & Hcc & Hpr & Hch) Hn Heq. rewrite Hpr in Heq. rewrite as_u64_small in Heq by lia. rewrite Hch. repeat f_equal. lia.
Qed.
End Consumer.
