(* ===== verification/UnicastReport.v ===== *)
(** * UnicastReport: the report of src/bin/unicast_breakdown.rs

    The JSON text [render_json] makes of the result of all phases, compared
    with the value it stands for. *)
From S2P Require Import Prelude Effects Errors Text Float64 Json CommandLine UnicastBreakdown.

(** ** Writing a field *)

Definition push_kv (indent : nat) (key value : string) (trailing_comma : bool) : string := field indent key (quoted value) trailing_comma.
Definition push_kv_number (indent : nat) (key : string) (value : Z) (trailing_comma : bool) : string := field indent key (show_int value) trailing_comma.
Definition push_kv_float (indent : nat) (key : string) (value : f64) (trailing_comma : bool) : string := field indent key (show_fixed 6 value) trailing_comma.
Definition push_kv_bool (indent : nat) (key : string) (value : bool) (trailing_comma : bool) : string := field indent key (show_bool value) trailing_comma.
Definition push_null (indent : nat) (key : string) (trailing_comma : bool) : string := field indent key "null" trailing_comma.

Definition push_opt_u64 (indent : nat) (key : string) (value : option Z) (trailing_comma : bool) : string :=
  match value with
  | Some value => push_kv_number indent key value trailing_comma
  | None => push_null indent key trailing_comma
  end.
Definition push_opt_i64 (indent : nat) (key : string) (value : option Z) (trailing_comma : bool) : string :=
  match value with
  | Some value => push_kv_number indent key value trailing_comma
  | None => push_null indent key trailing_comma
  end.

(** ** The report *)

Definition render_run (run : RoundRecord) : string :=
  cat ["        {"; nl;
       push_kv_number 10 "round_index" run.(round_index) true;
       push_kv 10 "phase" (round_phase_as_str run.(phase)) true;
       push_kv_number 10 "elapsed_ns" run.(elapsed_ns) true;
       push_kv_float 10 "ops_per_sec" run.(ops_per_sec) true;
       push_opt_u64 10 "events_expected" run.(events_expected) true;
       push_opt_u64 10 "events_observed" run.(events_observed) true;
       push_opt_i64 10 "checksum_expected" run.(checksum_expected) true;
       push_opt_i64 10 "checksum_observed" run.(checksum_observed) true;
       push_opt_i64 10 "last_sequence_expected" run.(last_sequence_expected) true;
       push_opt_i64 10 "last_sequence_observed" run.(last_sequence_observed) true;
       push_kv_bool 10 "valid" run.(valid) false;
       "        }"].

Definition render_summary (s : PhaseSummary) : string :=
  cat ["{"; nl;
       push_kv_bool 8 "valid_all" s.(valid_all) true;
       push_kv_float 8 "median_ops_per_sec" s.(median_ops_per_sec) true;
       push_kv_float 8 "mean_ops_per_sec" s.(mean_ops_per_sec) true;
       push_kv_float 8 "min_ops_per_sec" s.(min_ops_per_sec) true;
       push_kv_float 8 "max_ops_per_sec" s.(max_ops_per_sec) true;
       push_kv_float 8 "stddev_ops_per_sec" s.(stddev_ops_per_sec) true;
       push_kv_float 8 "cv" s.(cv) false;
       "      }"; nl].

Definition render_phase (p : PhaseResult) : string :=
  cat ["    {"; nl;
       push_kv 6 "phase" (phase_as_str p.(res_phase)) true;
       spaces 6; quoted "runs"; ": ["; nl;
       each render_run (cat [","; nl]) nl p.(runs);
       "      ],"; nl;
       spaces 6; quoted "summary"; ": "; render_summary p.(summary);
       "    }"].

(** The two comparisons are left out together. *)
Definition render_comparison (c : option (f64 * f64)) : string :=
  match c with
  | Some (ratio, delta) =>
      cat [push_kv_float 2 "publish_vs_end_to_end_ratio" ratio true;
           push_kv_float 2 "publish_vs_end_to_end_delta_ns_per_event" delta true]
  | None => ""
  end.

Definition render_json (r : BreakdownResult) : string :=
  let cfg := r.(bd_config) in
  cat ["{"; nl;
       push_kv 2 "mode" (mode_as_str cfg.(mode)) true;
       push_kv 2 "wait_strategy" (wait_as_str cfg.(wait_kind)) true;
       push_kv 2 "event_layout" (layout_as_str cfg.(event_layout)) true;
       push_kv_number 2 "events_total" cfg.(events_total) true;
       push_kv_number 2 "buffer_size" cfg.(buffer_size) true;
       push_kv_bool 2 "allow_wrap" cfg.(allow_wrap) true;
       push_kv_number 2 "event_size_bytes" r.(bd_event_size_bytes) true;
       push_kv_number 2 "estimated_ring_bytes" r.(estimated_ring_bytes) true;
       render_comparison r.(publish_vs_end_to_end);
       spaces 2; quoted "phases"; ": ["; nl;
       each render_phase (cat [","; nl]) nl r.(bd_phases);
       "  ]"; nl;
       "}"; nl].

(** ** The value it stands for *)

Definition optional_integer (x : option Z) : option json := match x with Some x => integer x | None => Some JNull end.

Definition run_value (run : RoundRecord) : option json :=
  obj [("round_index", integer run.(round_index)); ("phase", text (round_phase_as_str run.(phase)));
       ("elapsed_ns", integer run.(elapsed_ns)); ("ops_per_sec", decimal 6 run.(ops_per_sec));
       ("events_expected", optional_integer run.(events_expected)); ("events_observed", optional_integer run.(events_observed));
       ("checksum_expected", optional_integer run.(checksum_expected)); ("checksum_observed", optional_integer run.(checksum_observed));
       ("last_sequence_expected", optional_integer run.(last_sequence_expected));
       ("last_sequence_observed", optional_integer run.(last_sequence_observed)); ("valid", truth run.(valid))].

Definition summary_value (s : PhaseSummary) : option json :=
  obj [("valid_all", truth s.(valid_all)); ("median_ops_per_sec", decimal 6 s.(median_ops_per_sec));
       ("mean_ops_per_sec", decimal 6 s.(mean_ops_per_sec)); ("min_ops_per_sec", decimal 6 s.(min_ops_per_sec));
       ("max_ops_per_sec", decimal 6 s.(max_ops_per_sec)); ("stddev_ops_per_sec", decimal 6 s.(stddev_ops_per_sec));
       ("cv", decimal 6 s.(cv))].

Definition phase_value (p : PhaseResult) : option json :=
  obj [("phase", text (phase_as_str p.(res_phase))); ("runs", arr (map run_value p.(runs))); ("summary", summary_value p.(summary))].

Definition comparison_members (c : option (f64 * f64)) : list (string * option json) :=
  match c with
  | Some (ratio, delta) =>
      [("publish_vs_end_to_end_ratio", decimal 6 ratio); ("publish_vs_end_to_end_delta_ns_per_event", decimal 6 delta)]
  | None => []
  end.

Definition report_value (r : BreakdownResult) : option json :=
  let cfg := r.(bd_config) in
  obj ([("mode", text (mode_as_str cfg.(mode))); ("wait_strategy", text (wait_as_str cfg.(wait_kind)));
        ("event_layout", text (layout_as_str cfg.(event_layout))); ("events_total", integer cfg.(events_total));
        ("buffer_size", integer cfg.(buffer_size)); ("allow_wrap", truth cfg.(allow_wrap));
        ("event_size_bytes", integer r.(bd_event_size_bytes)); ("estimated_ring_bytes", integer r.(estimated_ring_bytes))] ++
       comparison_members r.(publish_vs_end_to_end) ++
       [("phases", arr (map phase_value r.(bd_phases)))]).

(** ** The text is JSON *)

Ltac fields := unfold push_kv, push_kv_number, push_kv_float, push_kv_bool, push_null.

Lemma lexes_push_opt_u64 n k x (trailing : bool) : unescaped k = true ->
  lexes (push_opt_u64 n k x trailing)
    (app_opt (Some [TStr k; Colon]) (app_opt (toks (optional_integer x)) (Some (if trailing then [Comma] else [])))).
Proof. intros Hk. destruct x; apply lexes_field; [done | apply value_integer | done | apply value_null]. Qed.

Lemma lexes_push_opt_i64 n k x (trailing : bool) : unescaped k = true ->
  lexes (push_opt_i64 n k x trailing)
    (app_opt (Some [TStr k; Colon]) (app_opt (toks (optional_integer x)) (Some (if trailing then [Comma] else [])))).
Proof. apply lexes_push_opt_u64. Qed.

#[local] Hint Resolve lexes_push_opt_u64 lexes_push_opt_i64 : lex.

Lemma lexes_unicast_run run : lexes (render_run run) (toks (run_value run)).
Proof. unfold render_run, run_value. fields. lex_report. Qed.

Lemma lexes_unicast_summary s : lexes (render_summary s) (toks (summary_value s)).
Proof. unfold render_summary, summary_value. fields. lex_report. Qed.

#[local] Hint Resolve lexes_unicast_run lexes_unicast_summary : lex.

Lemma lexes_unicast_phase p : lexes (render_phase p) (toks (phase_value p)).
Proof. unfold render_phase, phase_value. fields. lex_report. Qed.

#[local] Hint Resolve lexes_unicast_phase : lex.

(** The report is a JSON text exactly if every number in it is finite,
    and then it reads back as the result it was made of: the configuration, the
    comparison if there is one, and the phases with their runs in order. *)
Theorem unicast_report_reads_back r : parse_json (render_json r) = report_value r.
Proof.
  apply parse_json_lexes. unfold render_json, report_value, comparison_members, render_comparison. fields.
  destruct r.(publish_vs_end_to_end) as [[ratio delta]|]; cbv zeta; cbn [app]; lex_report.
Qed.
