(* ===== verification/Witnesses.v ===== *)
(** * Witnesses: the theorems at concrete pipelines

    Every theorem with hypotheses is applied here to a concrete state in which
    they hold: small rings, one producer or two, one consumer. *)
From S2P Require Import Prelude Effects Errors RingBuffer World Sequence Gating Single Multi Availability.
From S2P Require Import MultiClaim Sequencer Waiting WaitStrategy Strategies Parking Barrier ConsumerEngine Delivery Progress WorkerPool Workers.
From S2P Require Import Producer ProducerSpec MultiPublish EndToEnd Chain Poller.

(** ** A pipeline of four slots: cursor at 1, one consumer at 2, alert flag 3,
    shutdown flag 4. *)

Definition ex_single (lock closed : bool) : SingleProducerSequencer :=
  mkSingle 4 4 BusySpinWaitStrategy false 1 [2%positive] (-1) (-1) lock false closed None.

Definition ex_multi : MultiProducerSequencer :=
  mkMulti 4 4 BusySpinWaitStrategy false 1 [2%positive] [] 3 2 (-1) [-1; -1; -1; -1] false false None.

Definition ex_multi64 : MultiProducerSequencer :=
  mkMulti 64 64 BusySpinWaitStrategy false 1 [2%positive] [u64_ones] 63 6 (-1) [] false false None.

Definition ex_ring : RingBuffer nat := mkRingBuffer (StInline [0; 0; 0; 0]%nat) 3.

Definition ex_world_of (lock closed : bool) (m : MultiProducerSequencer) : World nat :=
  mkWorld {[1%positive := -1; 2%positive := -1]} {[3%positive := false; 4%positive := false]} 0
    (mkBlockingState false 0) (ex_single lock closed) m ex_ring ∅.

Definition ex_world : World nat := ex_world_of false false ex_multi.
Definition ex_world64 : World nat := ex_world_of false false ex_multi64.

Lemma ex_ring_wf : RingBuffer.wf ex_ring.
Proof. exists 2. split_and!; [lia | lia | reflexivity | reflexivity]. Defined.

Lemma ex_inv lock closed m : Single.inv (ex_world_of lock closed m).
Proof.
  constructor; cbn; try lia; [split; [lia | done] | |].
  - intros l ->%list_elem_of_singleton. done.
  - intros ?%list_elem_of_singleton. done.
Defined.

Lemma ex_multi_wf : mp_wf ex_multi.
Proof. constructor; [exists 2; split_and!; done || lia | done | done | done]. Defined.

Lemma ex_multi64_wf : mp_wf ex_multi64.
Proof. constructor; [exists 6; split_and!; done || lia | done | done | done]. Defined.

Lemma ex_multi_rep : rep ex_multi 0 ∅.
Proof.
  intros q Hq. change (slots ex_multi) with 4 in Hq. rewrite bool_decide_eq_false_2 by set_solver.
  assert (q = 0 \/ q = 1 \/ q = 2 \/ q = 3) as [-> | [-> | [-> | ->]]] by lia; reflexivity.
Defined.

Lemma ex_minv m : m = ex_multi \/ m = ex_multi64 -> minv (ex_world_of false false m).
Proof.
  intros [-> | ->]; (constructor; cbn; [lia | done | |]); try (intros l ->%list_elem_of_singleton; done);
    intros ?%list_elem_of_singleton; done.
Defined.

(** An environment of the rely: nobody moves. *)
Lemma idle_respects {S} (R : S -> S -> Prop) : (forall s, R s s) -> respects R idle.
Proof. intros H k s. apply H. Defined.

(** ** Ring buffer *)

Lemma get_in_bounds_witness : is_Some (RingBuffer.get ex_ring (-7)).
Proof. exact (get_in_bounds ex_ring (-7) ex_ring_wf). Defined.

Lemma set_get_witness :
  exists rb', RingBuffer.set ex_ring 6 42%nat = Some rb' /\ RingBuffer.get rb' 6 = Some 42%nat /\
    RingBuffer.get rb' 5 = RingBuffer.get ex_ring 5.
Proof.
  destruct (set_get ex_ring 6 42%nat ex_ring_wf) as (rb' & H1 & _ & _ & H2 & H3). exists rb'.
  split_and!; [exact H1 | exact H2 | apply H3; [lia | vm_compute; reflexivity]].
Defined.

(** ** Single producer *)

Lemma cap_next_n_safe_witness :
  wp claim_rely (cap_next_n 5 2)
    (fun r w' => if bool_decide (1 <= 2 <= 4) then claim_post ex_world 2 r w'
                 else r = Err (InvalidSequence 2) /\ w' = ex_world) ex_world.
Proof. apply (cap_next_n_safe 5 2 ex_world); [apply ex_inv | cbn; i64_lia]. Defined.

Lemma next_n_safe_witness : wp claim_rely (Single.next_n 5 2) (fun r w' => claim_post ex_world 2 r w') ex_world.
Proof. apply (next_n_safe 5 2 ex_world); [apply ex_inv | cbn; lia | cbn; i64_lia]. Defined.

(** An environment in which the consumers have caught up with [v]. *)
Definition raise (c : loc) (v : Z) (l : loc) (m : gmap loc Z) : gmap loc Z :=
  if decide (l = c) then m else <[l := Z.max (m !!! l) v]> m.

Definition catch_up {T} (v : Z) (w : World T) : World T :=
  upd_seqs (fun m => foldr (raise (sp_cursor (w_single w)) v) m (sp_gating_sequences (w_single w))) w.

Lemma raise_one c v x (m : gmap loc Z) l :
  m !!! l <= raise c v x m !!! l /\ raise c v x m !!! c = m !!! c /\ (x <> c -> v <= raise c v x m !!! x).
Proof.
  unfold raise. case_decide as Hx; [split_and!; [done | done | done]|]. split_and!.
  - destruct (decide (x = l)) as [->|]; [rewrite lookup_total_insert_eq; lia | by rewrite lookup_total_insert_ne].
  - by rewrite lookup_total_insert_ne.
  - intros _. rewrite lookup_total_insert_eq. lia.
Qed.

Lemma raise_all c v ls (m : gmap loc Z) l :
  m !!! l <= foldr (raise c v) m ls !!! l /\ foldr (raise c v) m ls !!! c = m !!! c /\
  (l ∈ ls -> l <> c -> v <= foldr (raise c v) m ls !!! l).
Proof.
  induction ls as [|x ls (IH1 & IH2 & IH3)]; [split_and!; [done | done | set_solver]|].
  cbn [foldr]. destruct (raise_one c v x (foldr (raise c v) m ls) l) as (H1 & H2 & H3).
  split_and!; [lia | congruence|]. intros [->|Hl]%elem_of_cons Hc; [by apply H3 | specialize (IH3 Hl Hc); lia].
Qed.

Lemma catch_up_respects {T} v : respects claim_rely (fun _ (w : World T) => catch_up v w).
Proof.
  intros k w. constructor; cbn; try done.
  - intros l. apply (raise_all (sp_cursor (w_single w)) v).
  - apply (raise_all (sp_cursor (w_single w)) v _ _ 1%positive).
Qed.

Lemma catch_up_gating {T} v (w : World T) l :
  Single.inv w -> l ∈ sp_gating_sequences (w_single w) -> v <= seq_at (catch_up v w) l.
Proof.
  intros Hi Hl. apply (raise_all (sp_cursor (w_single w)) v _ _ l); [done|]. intros ->. by apply (inv_cursor _ Hi).
Qed.

(** ** Multi producer *)

Lemma store_refines_set_witness :
  is_available_internal (foldl store_step ex_multi [OpPublish 0; OpRelease; OpPublish 4]) 4 = true.
Proof.
  rewrite (store_refines_set ex_multi [OpPublish 0; OpRelease; OpPublish 4] 4 ex_multi_wf ex_multi_rep).
  - apply bool_decide_eq_true_2. cbn. set_solver.
  - cbn. change (slots ex_multi) with 4. split_and!; (lia || set_solver).
  - cbn. change (slots ex_multi) with 4. lia.
Defined.

Lemma highest_published_contiguous_witness :
  exists k' w', Multi.get_highest_published_sequence 5 0 3 idle 0%nat ex_world64 =
    Done (contiguous (is_available_internal (w_multi w')) 0 4) k' w'.
Proof.
  apply (highest_published_contiguous idle 5 0 3 0%nat ex_world64); [apply ex_multi64_wf | | lia | i64_lia | lia].
  apply idle_respects. intros w. by split.
Defined.

Lemma publish_range_total_witness :
  exists k' w', Multi.publish_range 5 0 3 idle 0%nat ex_world64 = Done tt k' w' /\
    forall q, 0 <= q <= 3 -> is_available_internal (w_multi w') q = true.
Proof.
  apply (publish_range_total idle 5 0 3 0%nat ex_world64); [apply ex_multi64_wf | | lia | i64_lia | done | | lia].
  - apply idle_respects. intros w. by split_and!.
  - intros q Hq. assert (q = 0 \/ q = 1 \/ q = 2 \/ q = 3) as [-> | [-> | [-> | ->]]] by lia; reflexivity.
Defined.


(** Producers that rest, and consumers that catch up with a claim of 2. *)
Definition mcatch_up (w : World nat) : World nat :=
  upd_seqs (fun m => foldr (raise (mp_cursor (w_multi w)) (MultiClaim.cursor_value w + 2 - mp_buffer_size_i64 (w_multi w))) m
                       (mp_gating_sequences (w_multi w))) w.

Lemma mcatch_up_respects : respects mclaim_rely (fun _ => mcatch_up).
Proof.
  intros k w. assert (Hc : MultiClaim.cursor_value (mcatch_up w) = MultiClaim.cursor_value w)
    by (unfold MultiClaim.cursor_value, seq_at, mcatch_up; cbn; by apply (raise_all _ _ _ _ 1%positive)).
  constructor; try done.
  - intros l. apply (raise_all (mp_cursor (w_multi w))).
  - intros []. constructor; [done | by rewrite Hc | | done]. intros l Hl. etrans; [by apply minv_cached|].
    apply (raise_all (mp_cursor (w_multi w))).
  - by rewrite Hc.
Defined.

Lemma multi_next_n_live_witness :
  exists r k' w', Multi.next_n 1 2 (fun _ => mcatch_up) 0%nat ex_world = Done r k' w' /\ mclaim_post ex_world 2 r w'.
Proof.
  apply (multi_next_n_live (fun _ => mcatch_up) 2 0 mcatch_up_respects ex_world);
    [apply ex_minv; by left | apply Z.leb_le; reflexivity | cbn; lia |].
  left. intros j w _ Hn. assert (Hc : MultiClaim.cursor_value (mcatch_up w) = MultiClaim.cursor_value w)
    by (unfold MultiClaim.cursor_value, seq_at, mcatch_up; cbn; by apply (raise_all _ _ _ _ 1%positive)).
  split; [done|]. intros l Hl. rewrite Hc.
  destruct (decide (l = mp_cursor (w_multi w))) as [->|Hne].
  - change (seq_at (mcatch_up w) (mp_cursor (w_multi w))) with (MultiClaim.cursor_value (mcatch_up w)). rewrite Hc. cbn. lia.
  - by apply (raise_all (mp_cursor (w_multi w))).
Defined.

(** ** Terminal states *)

Lemma terminal_claims_witness :
  exists k1 w1 k2 w2,
    Sequencer.next_n (dispatch World.Single) 1 2 idle 0%nat (ex_world_of false true ex_multi) = Done (Err Shutdown) k1 w1 /\
    Sequencer.try_next_n (dispatch World.Single) 2 idle 0%nat (ex_world_of false true ex_multi) = Done None k2 w2.
Proof.
  apply (terminal_claims World.Single idle true 1 2 0%nat (ex_world_of false true ex_multi)); [done | done | cbn; lia | lia].
Defined.

(** ** Waits *)

(** Sequences and the clock move forward. *)
Definition forward (w w' : World nat) : Prop :=
  (forall l, seq_at w l <= seq_at w' l) /\ w_clock w <= w_clock w'.

#[global] Instance forward_wait : WaitRely forward.
Proof.
  constructor.
  - split; [by split|]. intros x y z [H1 H2] [H3 H4]. split; [intros l; specialize (H1 l); specialize (H3 l); lia | lia].
  - by intros w w' l [H _].
  - by intros w w' [_ H].
  - intros w d Hd. split; [done | cbn; lia].
Qed.

Lemma wait_contracts_witness :
  let ws := SleepingWaitStrategy 5 in
  wp forward (wait_for_with_alert 9 ws 0 1 [] (Flag 3)) (wait_post forward 0 1 [] (alert_only ws (Flag 3)) ex_world) ex_world /\
  wp forward (wait_for_with_timeout_and_alert 9 ws 0 1 [] 10 (Flag 3))
    (wait_post forward 0 1 [] (alert_or_timeout ws (Flag 3) ex_world 10) ex_world) ex_world /\
  wp forward (wait_for_with_shutdown_and_alert 9 ws 0 1 [] 4 (Flag 3))
    (wait_post forward 0 1 [] (alert_or_shutdown ws (Flag 3) 4) ex_world) ex_world.
Proof.
  apply (wait_contracts forward (SleepingWaitStrategy 5) 0 1 [] (Flag 3) ltac:(cbn; lia) 9 10 4 ex_world). lia.
Defined.

Lemma polling_wait_returns_witness :
  exists r k' w', wait_for_with_alert 3 YieldingWaitStrategy 0 1 [] (Flag 3)
      (fun _ w => set_seq 1 (Z.max (seq_at w 1) 0) w) 0%nat ex_world = Done r k' w' /\
    match r with
    | Ok v => 0 <= v /\ reached 1 [] v w'
    | Err err => err = Alert /\ alert_value (Flag 3) w' = true
    end.
Proof.
  apply (polling_wait_returns forward (fun _ w => set_seq 1 (Z.max (seq_at w 1) 0) w) YieldingWaitStrategy 0 1 [] (Flag 3) 0 3 0%nat ex_world);
    [done | done | | left | lia].
  - intros k w. split; [|done]. intros l. destruct (decide (l = 1%positive)) as [->|];
      [rewrite seq_at_set_eq; lia | by rewrite seq_at_set_ne].
  - intros j w _. unfold reached. cbn [map fold_right]. rewrite ?seq_at_set_eq. lia.
Defined.

(** A strategy of an application: it naps for the number of its misses. *)
Inductive Napping : Type := mkNapping.

#[local] Instance napping_simple : SimpleWait (T := nat) Napping := {
  backoff _ := pause (Sleep 1);
  backoff_with_miss _ miss := let* _ := pause (Sleep (Z.max 0 miss)) in ret (miss + 1)
}.

Lemma adapter_waits_safe_witness :
  let ws := SimpleWaitStrategyAdapter BusySpin in
  let ad := mkAdapter mkNapping in let fl := Flag 3 in
  wp forward (wait_with_alert 9 ad 0 1 [] fl) (wait_post forward 0 1 [] (alert_only ws fl) ex_world) ex_world /\
  wp forward (wait_with_timeout 9 ad 0 1 [] 5 fl) (wait_post forward 0 1 [] (alert_or_timeout ws fl ex_world 5) ex_world) ex_world /\
  wp forward (wait_with_shutdown 9 ad 0 1 [] 4 fl) (wait_post forward 0 1 [] (alert_or_shutdown ws fl 4) ex_world) ex_world.
Proof.
  apply (adapter_waits_safe forward mkNapping); [|lia].
  intros miss w. apply wp_bind, (wp_pause forward); [intros d [= <-]; lia|]. intros w' Hw. by apply wp_ret.
Defined.

(** ** Parking: the producer has moved the cursor and not yet notified. *)

Definition ex_parked : state :=
  mkState 0 false None WParked (Parking.upd (fun _ => SIdle) 0 SChanged).

Lemma no_lost_wakeup_witness : exists s', rtc (Parking.step 0) ex_parked s' /\ waiter s' = WNotified.
Proof.
  apply (no_lost_wakeup 0 ex_parked).
  - exists (mkState (-1) false None WStart (fun _ => SIdle)). split; [done|].
    eapply rtc_l; [apply (step_first_check 0 (-1) false None)|]. cbn.
    eapply rtc_l; [apply (step_lock 0 (-1) false)|]. eapply rtc_l; [apply (step_while 0 (-1) false)|]. cbn.
    eapply rtc_l; [apply (step_check_alert 0 (-1) false)|]. cbn.
    eapply rtc_l; [apply (step_park 0 (-1) false)|].
    eapply rtc_l; [apply (step_move_cursor 0 (-1) 0 false None WParked (fun _ => SIdle) 0); [done | lia]|]. apply rtc_refl.
  - done.
  - by left.
Defined.

(** ** Barrier and consumer *)

Definition ex_barrier (sq : SequencerEnum) : ProcessingSequenceBarrier :=
  mkBarrier 1 BusySpinWaitStrategy [] 3 sq (match sq with World.Multi => true | World.Single => false end).

Lemma ex_barrier_ok sq : barrier_ok (ex_barrier sq) 0 ex_world.
Proof.
  constructor; [by destruct sq | destruct sq; [done | apply ex_multi_wf] | done | |]; destruct sq; apply Z.ltb_lt; reflexivity.
Defined.

Lemma barrier_waits_safe_witness :
  let b := ex_barrier World.Multi in let R := barrier_rely b 0 in
  wp R (Barrier.wait_for 5 b 0) (barrier_post R b 0 (barrier_alert b) ex_world) ex_world.
Proof.
  apply (barrier_waits_safe (ex_barrier World.Multi) 0 5 10 4 ex_world); [done | lia | lia | apply ex_barrier_ok | cbn; lia].
Defined.

Definition ex_handler : EventHandler nat nat :=
  mkHandler nat nat (fun h event _ _ => ((h + event)%nat, event, Returns (Ok tt))) (fun h _ _ => (h, Returns (Ok tt)))
    (fun h => (h, Returns (Ok tt))) (fun h => (h, Returns (Ok tt))) (fun h _ => (h, Returns (Ok tt))).

Lemma ex_eng_inv val : eng_inv val (ex_barrier World.Single) 2 unconstrained 4 (front 2 ex_world) ex_world.
Proof.
  constructor.
  - apply (ex_barrier_ok World.Single).
  - done.
  - done.
  - apply ex_ring_wf.
  - done.
  - intros q Hq _ Hp. exfalso. destruct Hp as [Hp _]. vm_compute in Hq, Hp. by destruct q.
  - done.
  - split; [done | set_solver].
Defined.

Lemma sequential_delivery_witness :
  wp (engine_rely (fun _ => 7%nat) (ex_barrier World.Single) 2 unconstrained)
    (run_sequential_batch_loop_impl (logged None ex_handler) None (ex_barrier World.Single) 2 (External 4)
       (mkContext "c" None) 9 (0%nat, []))
    (fun '(_, log) w' => consumed (fun _ => 7%nat) (ex_barrier World.Single) 2 (-1) [] log w') ex_world.
Proof.
  apply (sequential_delivery (fun _ => 7%nat) (ex_barrier World.Single) 2 unconstrained ex_handler None (External 4) (mkContext "c" None)
    ltac:(constructor; intros; by eexists) ltac:(by intros ?) I 9 4 0%nat ex_world); [apply ex_eng_inv | done | cbn; lia].
Defined.

(** Somebody raises the shutdown flag at action 20 of the schedule. *)
Definition ex_shutdown : env (World nat) := fun j w => if (j <? 20)%nat then w else set_flag 4 true w.

Lemma ex_shutdown_respects : respects (engine_rely (fun _ => 7%nat) (ex_barrier World.Single) 2 unconstrained) ex_shutdown.
Proof.
  intros j w. unfold ex_shutdown. destruct (j <? 20)%nat; [done|]. constructor; try done.
  constructor; [by constructor | done|]. intros []. by constructor.
Defined.

Lemma sequential_loop_stops_witness :
  exists h' log k' w',
    run_sequential_batch_loop_impl (logged None ex_handler) None (ex_barrier World.Single) 2 (External 4)
      (mkContext "c" None) 30 (0%nat, []) ex_shutdown 0%nat ex_world = Done (h', log) k' w' /\
    consumed (fun _ => 7%nat) (ex_barrier World.Single) 2 (-1) [] log w'.
Proof.
  apply (sequential_loop_stops (fun _ => 7%nat) (ex_barrier World.Single) 2 unconstrained ex_handler None (External 4) (mkContext "c" None)
    ltac:(constructor; intros; by eexists) ltac:(by intros ?) I ltac:(done) ex_shutdown ex_shutdown_respects 20
    ltac:(intros j w Hj; unfold ex_shutdown; destruct (Nat.ltb_spec j 20); [lia | apply flag_at_set_eq]) 30 4 0%nat ex_world);
    [apply ex_eng_inv | done | cbn; lia | lia].
Defined.

(** ** Worker pool: two workers, the first has handled sequence 0. *)

Definition ex_pool : pool :=
  mkPool 0 (upd (fun _ => -1) 0%nat 0) (upd (upd (upd (upd (upd (fun _ => Looping) 0%nat (Loaded (-1))) 0%nat (Advertised (-1))) 0%nat (Claimed 0)) 0%nat (Handled 0)) 0%nat Looping) [0].

Lemma pool_exactly_once_witness : NoDup (handled ex_pool).
Proof.
  apply (pool_exactly_once 2 ltac:(lia) ex_pool).
  exists (mkPool (-1) (fun _ => -1) (fun _ => Looping) []). split; [done|].
  eapply rtc_l; [apply (step_load 2 (-1) (fun _ => -1) (fun _ => Looping) [] 0%nat); [lia | done]|].
  eapply rtc_l; [eapply (step_advertise 2 _ _ _ _ 0%nat); [lia | apply upd_eq]|]. cbn.
  eapply rtc_l; [eapply (step_cas_won 2 _ _ _ _ 0%nat); [lia | apply upd_eq]|]. cbn.
  eapply rtc_l; [eapply (step_handle 2 _ _ _ _ 0%nat); [lia | apply upd_eq]|].
  eapply rtc_l; [eapply (step_release 2 _ _ _ _ 0%nat); [lia | apply upd_eq]|]. apply rtc_refl.
Defined.

(** The producer calls six times before the consumer's action 3 (two calls find
    the ring full) and twice before action 20; the flag is up from action 60. *)
Definition ex_values (q : Z) : nat := Z.to_nat (100 + q).

Definition ex_calls (k : nat) : nat := if (k =? 3)%nat then 6 else if (k =? 20)%nat then 2 else 0.

Definition ex_end_to_end : M (World nat) (nat * list (Z * nat * bool)) :=
  run_sequential_batch_loop_impl (logged None ex_handler) None (ex_barrier World.Single) 2 (External 4)
    (mkContext "c" None) 90 (0%nat, []).

Lemma end_to_end_witness :
  exists h' log k' w',
    ex_end_to_end (producing ex_values "p" 2 ex_calls 4 60) 0%nat ex_world = Done (h', log) k' w' /\
    consumed ex_values (ex_barrier World.Single) 2 (-1) [] log w'.
Proof.
  apply (end_to_end ex_values "p" (ex_barrier World.Single) 2 eq_refl ex_handler None (mkContext "c" None)
    ltac:(constructor; intros; by eexists) ltac:(by intros ?) I ltac:(done) ex_calls 4 60 90 4 0%nat ex_world);
    [apply ex_eng_inv | done | cbn; lia | lia].
Defined.

Example end_to_end_run :
  match ex_end_to_end (producing ex_values "p" 2 ex_calls 4 60) 0%nat ex_world with
  | Done (_, log) _ w' => log = map (fun q => (q, ex_values q, false)) [0; 1; 2; 3; 4; 5] /\ seq_at w' 1 = 5 /\ seq_at w' 2 = 5
  | _ => False
  end.
Proof. vm_compute. done. Qed.

(** ** Two stages, at 11 and 12, in front of the consumer at 2. *)

Definition ex_stage (deps : list loc) (l : loc) (f : Z -> nat -> nat) : Stage nat :=
  mkStage (mkBarrier 1 BusySpinWaitStrategy deps 3 World.Single false) l f (External 4) (mkContext "s" None) 9.

Definition ex_stages : list (Stage nat) :=
  [ex_stage [] 11 (fun _ x => (2 * x)%nat); ex_stage [11%positive] 12 (fun q x => (x + Z.to_nat q)%nat)].

Definition ex_last : ProcessingSequenceBarrier := mkBarrier 1 BusySpinWaitStrategy [12%positive] 3 World.Single false.

Definition ex_chain_world : World nat := set_seq 12 (-1) (set_seq 11 (-1) ex_world).

Lemma ex_chain_wf : chain_wf ex_last 2 ex_stages 4.
Proof.
  constructor; try done.
  - unfold locs. cbn. repeat (apply NoDup_cons; split; [set_solver|]). apply NoDup_nil. done.
  - intros [|[|k]] st [= <-]; constructor; (done || (cbn; lia)).
Defined.

Lemma ex_chain_J : J ex_values ex_last 2 ex_stages 4 ex_chain_world.
Proof.
  split_and!.
  - constructor; [|exact ex_ring_wf | done | done | done].
    constructor; cbn; try lia; [split; [lia | done] | |].
    + intros l ->%list_elem_of_singleton. vm_compute. discriminate.
    + intros ?%list_elem_of_singleton. done.
  - apply (bool_decide_unpack _). vm_compute. done.
  - intros [|[|k]] q Hk Hq; [| |cbn in Hk; lia]; change (-1 < q <= -1) in Hq; lia.
Defined.

(** The producer, the stages and the consumer take turns; the ring is full after
    four calls, until the consumer has released. *)
Definition ex_script (k : nat) : list Turn :=
  if (k =? 3)%nat then [StageTurn 0; ProducerCall; ProducerCall; StageTurn 0; StageTurn 1; ProducerCall; ProducerCall; ProducerCall; StageTurn 0]
  else if (k =? 20)%nat then [StageTurn 1; ProducerCall; StageTurn 0]
  else if (k =? 40)%nat then [StageTurn 1; StageTurn 0; ProducerCall] else [].

Definition ex_chain_loop : M (World nat) (nat * list (Z * nat * bool)) :=
  run_sequential_batch_loop_impl (logged None ex_handler) None ex_last 2 (External 4) (mkContext "c" None) 90 (0%nat, []).

Lemma chain_end_to_end_witness :
  exists h' log k' w',
    ex_chain_loop (chained ex_values "p" ex_last 2 ex_stages 4 ex_script 4 60) 0%nat ex_chain_world = Done (h', log) k' w' /\
    consumed (made ex_values ex_stages 2) ex_last 2 (-1) [] log w'.
Proof.
  apply (chain_end_to_end ex_values "p" ex_last 2 ex_stages 4 ex_chain_wf ex_handler None (mkContext "c" None)
    ltac:(constructor; intros; by eexists) ltac:(by intros ?) I ltac:(done) ex_script 4 60 90 0%nat ex_chain_world);
    [apply ex_chain_J | | cbn; lia | lia].
  intros q Hq. change (-1 < q <= -1) in Hq. lia.
Defined.

Example chain_run :
  match ex_chain_loop (chained ex_values "p" ex_last 2 ex_stages 4 ex_script 4 60) 0%nat ex_chain_world with
  | Done (_, log) _ w' => log = map (fun q => (q, (2 * ex_values q + Z.to_nat q)%nat, false)) [0; 1; 2; 3; 4] /\ map (seq_at w') [1; 11; 12; 2]%positive = [5; 4; 4; 4]
  | _ => False
  end.
Proof. vm_compute. done. Qed.

(** ** One of two workers: its sequence at 2, the other's at 11, the work cursor at 10. *)

Definition ex_workers (j : nat) : loc := match j with O => 2%positive | _ => 11%positive end.

Definition ex_pool_world : World nat := set_seq 10 (-1) (set_seq 11 (-1) ex_world).

Definition ex_idle_pool : pool := mkPool (-1) (fun _ => -1) (fun _ => Looping) [].

Lemma ex_pool_layout : pool_layout (ex_barrier World.Single) 10 2 ex_workers 0.
Proof.
  constructor; [lia | | | split; [done | set_solver] | split; [done | set_solver]].
  - intros [|[|j]] Hj He; [done | done | lia].
  - intros [|[|j]] Hj; done.
Defined.

Lemma ex_pool_rel : pool_rel (fun _ => 7%nat) (ex_barrier World.Single) 10 2 ex_workers 0 ex_idle_pool ex_pool_world.
Proof.
  constructor.
  - exists ex_idle_pool. split; [done | apply rtc_refl].
  - reflexivity.
  - intros [|j] Hj; reflexivity.
  - intros c []%not_elem_of_nil.
  - intros q Hq _ _. exfalso. vm_compute in Hq. by destruct q, Hq.
Defined.

Lemma ex_own_inv : own_inv (ex_barrier World.Single) 2 ex_workers 0 4 ex_pool_world.
Proof.
  constructor; [|done | done | apply ex_ring_wf | done | done].
  constructor; [done | done | done | by apply Z.ltb_lt; reflexivity | by apply Z.ltb_lt; reflexivity].
Defined.

Lemma worker_loop_refines_witness :
  wp (work_rely (fun _ => 7%nat) (ex_barrier World.Single) 10 2 ex_workers 0)
    (run_work_processor_loop_impl (logged None ex_handler) (ex_barrier World.Single) 2 10 (External 4)
       (mkContext "worker" None) 9 (0%nat, []))
    (fun '(_, log) w' => worker_done (fun _ => 7%nat) (ex_barrier World.Single) 10 2 ex_workers 0 4 ex_idle_pool log w') ex_pool_world.
Proof.
  apply (worker_loop_refines (fun _ => 7%nat) (ex_barrier World.Single) 10 2 ex_workers 0 ex_pool_layout ex_handler (External 4)
    (mkContext "worker" None) ltac:(constructor; intros; by eexists) I 9 4 0%nat ex_idle_pool ex_pool_world);
    [apply ex_pool_rel | done | apply ex_own_inv | cbn; lia].
Defined.

Lemma ex_shutdown_work : respects (work_rely (fun _ => 7%nat) (ex_barrier World.Single) 10 2 ex_workers 0) ex_shutdown.
Proof.
  intros j w. unfold ex_shutdown. destruct (j <? 20)%nat; [done|]. constructor; try done.
  - constructor; [by constructor | done|]. intros []. by constructor.
  - intros p []. exists p. split; [done|]. by constructor.
Defined.

Lemma worker_loop_stops_witness :
  exists h' log k' w',
    run_work_processor_loop_impl (logged None ex_handler) (ex_barrier World.Single) 2 10 (External 4)
      (mkContext "worker" None) 30 (0%nat, []) ex_shutdown 0%nat ex_pool_world = Done (h', log) k' w' /\
    worker_done (fun _ => 7%nat) (ex_barrier World.Single) 10 2 ex_workers 0 4 ex_idle_pool log w'.
Proof.
  apply (worker_loop_stops (fun _ => 7%nat) (ex_barrier World.Single) 10 2 ex_workers 0 ex_pool_layout ex_handler (External 4)
    (mkContext "worker" None) ltac:(constructor; intros; by eexists) I ltac:(done) ex_shutdown ex_shutdown_work 20
    ltac:(intros j w Hj; unfold ex_shutdown; destruct (Nat.ltb_spec j 20); [lia | apply flag_at_set_eq]) 30 4 0%nat ex_idle_pool ex_pool_world);
    [apply ex_pool_rel | done | apply ex_own_inv | cbn; lia | lia].
Defined.

(** ** Producers *)

Definition ex_update : Producer.update nat := fun n => ((n + 42)%nat, None).


Lemma unique_publish_returns_witness :
  exists r k' w', Producer.publish "p" 1 Producer.new_unique ex_update (fun _ w => catch_up (-4) w) 0%nat ex_world = Done r k' w' /\
    match r with
    | Ok s => s = 0 /\ publication ex_update s ex_world w'
    | Err e => (e = Shutdown \/ e = Poisoned) /\ sp_next_value (w_single w') = -1
    end.
Proof.
  apply (unique_publish_returns "p" (fun _ w => catch_up (-4) w) 0 ex_update ex_world);
    [apply ex_inv | apply ex_ring_wf | done | done | done | |].
  - intros k w. constructor; [apply (catch_up_respects (-4) k w) | done | done].
  - left. intros k w _ Hi l Hl. by apply catch_up_gating.
Defined.

Lemma publish_panic_poisons_witness :
  exists k' w', Producer.publish "p" 5 (Producer.new World.Multi) (fun n : nat => (n, Some "boom")) idle 0%nat ex_world =
      Panicked "boom" k' w' /\
    poisoned World.Multi w' = true /\ is_Some (failure World.Multi w') /\ ~ published World.Multi w' 0.
Proof.
  eapply (publish_panic_poisons "p" idle 5 (Producer.new World.Multi) (fun n : nat => (n, Some "boom")) "boom" 0);
    [| vm_compute; reflexivity | | | done].
  - apply idle_respects. by constructor.
  - apply ex_ring_wf.
  - by vm_compute.
Defined.

Lemma try_publish_terminal_witness :
  exists err k' w', Producer.try_publish "p" (Producer.new World.Single) ex_update idle 0%nat (ex_world_of false true ex_multi) =
      Done (Err err) k' w' /\ is_terminal err = true /\ is_transient err = false.
Proof.
  apply (try_publish_terminal "p" idle (Producer.new World.Single) ex_update true 0%nat (ex_world_of false true ex_multi));
    [done | done | done | cbn; lia].
Defined.

(** ** Pollers *)

(** A multi-producer producer: it claims 0, or 0 and 1, in the ring of four. *)
Definition ex_claimed (high : Z) : World nat := set_seq 1 high ex_world.

Definition ex_shared_producer : SimpleProducer := Producer.new World.Multi.

Lemma ex_unpublished high q : 0 <= q <= 1 -> slot_value (w_multi (ex_claimed high)) q = unpublished_value (w_multi (ex_claimed high)) q.
Proof. intros Hq. assert (q = 0 \/ q = 1) as [-> | ->] by lia; reflexivity. Defined.

Lemma multi_publish_exposes_witness :
  exists k' w', Producer.publish "main" 5 ex_shared_producer ex_update idle 0%nat ex_world = Done (Ok 0) k' w' /\
    is_available_internal (w_multi w') 0 = true /\
    exists event, RingBuffer.get (w_ring (ex_claimed 0)) 0 = Some event /\ RingBuffer.get (w_ring w') 0 = Some (fst (ex_update event)).
Proof.
  apply (multi_publish_exposes "main" idle 5 ex_shared_producer ex_update 0 0 5 ex_world (ex_claimed 0));
    [done | vm_compute; reflexivity | apply idle_respects; by constructor | split; [lia | apply Z.ltb_lt; reflexivity] | apply ex_multi_wf | apply ex_ring_wf
    | apply ex_unpublished; lia | done].
Defined.

Definition ex_batch : batch_update nat := mkBatchUpdate nat 1 (fun q n => (n + 7)%nat) None.

Lemma multi_batch_publish_exposes_witness :
  exists k' w', Producer.batch_publish "main" 5 ex_shared_producer 2 ex_batch idle 0%nat ex_world = Done (Ok 1) k' w' /\
    forall q, 0 <= q <= 1 -> is_available_internal (w_multi w') q = true /\
      RingBuffer.get (w_ring w') q = batch_slot ex_batch 0 q (RingBuffer.get (w_ring (ex_claimed 1)) q).
Proof.
  apply (multi_batch_publish_exposes "main" idle 5 ex_shared_producer 2 ex_batch 1 0 5 ex_world (ex_claimed 1));
    [done | split; apply Z.leb_le; reflexivity | apply Z.leb_le; reflexivity | vm_compute; reflexivity | apply idle_respects; by constructor | lia
    | apply Z.ltb_lt; reflexivity | apply ex_multi_wf | apply ex_ring_wf | apply Z.leb_le; reflexivity | apply Z.leb_le; reflexivity
    | apply ex_unpublished | done | cbn; lia].
Defined.

Definition ex_poller : EventPoller := mkPoller (ex_barrier World.Single) 2 0 4.

Lemma drop_commits_taken_prefix_witness :
  exists k' w', drop_batch ex_poller (snd (take_n 2 (mkBatch 0 0 2 false))) idle 0%nat ex_world =
    Done (mkPoller (ex_barrier World.Single) 2 2 4) k' w' /\ seq_at w' 2 = 1.
Proof.
  assert (Hf : fresh_batch ex_poller (mkBatch 0 0 2 false)) by (split_and!; cbn; done || i64_lia).
  destruct (drop_commits_taken_prefix 2 ex_poller (mkBatch 0 0 2 false) 0%nat ex_world Hf eq_refl) as [_ H]. exact H.
Defined.

Lemma poll_safe_witness :
  exists r k' w', poll 5 ex_poller idle 0%nat ex_world = Done r k' w' /\
    match r with
    | Ok bt => fresh_batch ex_poller bt /\ from bt <= to bt /\ readable (ex_barrier World.Single) 0 (to bt) w'
    | Err Idle => True
    | Err PollShutdown => flag_at w' 4 = true \/ flag_at w' 3 = true
    end.
Proof.
  destruct (poll_safe idle 5 ex_poller 0%nat ex_world) as (r & k' & w' & H1 & _ & H2);
    [by apply idle_respects | done | apply ex_barrier_ok | cbn; lia | by exists r, k', w'].
Defined.

