(* ===== verification/RuntimeWitnesses.v ===== *)
(** * RuntimeWitnesses: the theorems about threads, processors, builders and
    facades at concrete pipelines

    The pipeline of [Witnesses] with one consumer thread at 10, a processor
    with running flag 5, startup flag 6 and handler mutex 7, a publish mutex 8
    and a per-thread claim flag 9. *)
From S2P Require Import Prelude Effects Errors RingBuffer World Sequence Gating Single Multi Availability.
From S2P Require Import Sequencer Waiting WaitStrategy Barrier ConsumerEngine Delivery Threads Core Processor Builder.
From S2P Require Import Producer Handle Pipeline Dsl DslSpec DslProgress ThreadManagement Elegant Witnesses.

(** ** Builder runtime *)

Definition ex_core : DisruptorCore := mkCore World.Single true [mkConsumer (Some 10%positive) "c"] 4 [2%positive].

Lemma ex_core_wf : core_wf ex_core.
Proof. intros Hc. discriminate Hc. Defined.

Lemma consumer_thread_exit_witness :
  accounted (ex_barrier World.Single) (External 4) idle
    (start_consumer_thread (fun _ => None) None (ex_barrier World.Single) "c" 0
       (start_mutable_consumer 5 ex_handler (ex_barrier World.Single) 2 "c" 0 Sequential 4 0%nat)) 0%nat ex_world.
Proof.
  apply (consumer_thread_exit (ex_barrier World.Single) 4 I idle 5 ex_handler (fun (f : nat) _ _ _ => (f, Returns (Ok tt)))
    (fun _ => None) None 2 "c" 0 Sequential 0%nat 0%nat 0%nat ex_world). by apply idle_respects.
Defined.

Lemma shutdown_spec_witness :
  wpx (core_rely World.Single 4) (shutdown_with_timeout 9 ex_core (Some 5))
    (fun rc w' => closed World.Single w' = true /\ stopped ex_core w' rc.2 /\ drain_outcome ex_core (Some 5) ex_world rc.1 w')
    (left_running ex_core (Some 5) ex_world) ex_world.
Proof. exact (shutdown_spec 9 ex_core (Some 5) ex_world ex_core_wf). Defined.

(** [Duration::MAX]. *)
Definition duration_max : Z := (2 ^ 64 - 1) * 1000000000 + 999999999.

(** A shutdown with that timeout panics, with claims closed and the consumer not told. *)
Example ex_shutdown_overflow :
  match shutdown_with_timeout 9 ex_core (Some duration_max) idle 0%nat ex_world with
  | Panicked msg _ w' => msg = overflow_message /\ closed World.Single w' = true /\ flag_at w' 4 = false
  | _ => False
  end.
Proof. vm_compute. by split_and!. Qed.

(** Time passes, and the consumer stops when told. *)
Definition ex_obeying : env (World nat) := fun _ w =>
  upd_clock (Z.add 1) (if flag_at w 4 then set_thread 10 (ThreadFinished ExitOk) w else w).

Lemma ex_obeying_respects : respects (core_rely World.Single 4) ex_obeying.
Proof.
  intros j w. unfold ex_obeying. destruct (flag_at w 4) eqn:Hf; (split; [|done]); constructor; cbn; try done; try lia.
  intros l [x Hx]. unfold finished, thread_at in *. cbn in *.
  destruct (decide (l = 10%positive)) as [->|]; [rewrite lookup_total_insert_eq | rewrite lookup_total_insert_ne by done]; eauto.
Defined.

Lemma shutdown_returns_witness :
  match shutdown_with_timeout 4 ex_core (Some 1) ex_obeying 0%nat ex_world with
  | Done (r, core') _ w' =>
      closed World.Single w' = true /\ stopped ex_core w' core' /\ drain_outcome ex_core (Some 1) ex_world r w'
  | _ => False
  end.
Proof.
  assert (H := shutdown_returns ex_core ex_obeying 0 4 1 0%nat ex_world ex_core_wf ex_obeying_respects).
  destruct (shutdown_with_timeout 4 ex_core (Some 1) ex_obeying 0%nat ex_world) as [[r core'] k' w'|msg k' w'|] eqn:Hrun;
    [| vm_compute in Hrun; discriminate Hrun | vm_compute in Hrun; discriminate Hrun].
  apply H; [| | lia | lia | cbn; lia | cbn; lia].
  - intros j w. unfold ex_obeying. destruct (flag_at w 4); cbn; lia.
  - intros j w c l _ Ht [= ->]%list_elem_of_singleton [= <-]. exists ExitOk. unfold ex_obeying.
    change (flag_at w 4 = true) in Ht. rewrite Ht. apply lookup_total_insert_eq.
Defined.

(** ** Builder *)

Definition ex_chain : list (Call nat) := [Builder.handle_events_with 7%nat; also_partition_with 8%nat; and_then; fan_out_events_with 9%nat].

Definition ex_shared : SharedBuilderState nat :=
  match calls (NoConsumers, shared_new 4 BusySpinWaitStrategy) ex_chain with
  | Some (Ok (_, s)) => s
  | _ => shared_new 4 BusySpinWaitStrategy
  end.

Lemma builder_chain_typed_witness : builder_inv (HasConsumers, ex_shared) /\ Builder.size ex_shared = 4.
Proof. exact (builder_chain_typed 4 BusySpinWaitStrategy ex_chain (HasConsumers, ex_shared) eq_refl). Defined.

Definition ex_alloc : Allocator :=
  mkAllocator 1 4 (fun i => Pos.of_succ_nat (10 + i)) (fun i => Pos.of_succ_nat (20 + i))
    (fun i => Pos.of_succ_nat (30 + i)) (fun i => Pos.of_succ_nat (40 + i)).

Lemma build_spec_witness :
  exists core started k' w',
    create_disruptor_core ex_alloc (fun _ => true) 4 (fun i => i) BusySpinWaitStrategy (bs_consumers ex_shared) true PadNone
      idle 0%nat ex_world = Done (core, started) k' w' /\
    length started = 3%nat /\ core_gating core = [13%positive] /\ gating World.Multi w' = [13%positive].
Proof.
  destruct (build_spec ex_alloc (fun _ => true) (fun _ => eq_refl) ltac:(intros x y H; cbn in H; lia) idle true 2
    BusySpinWaitStrategy (fun i => i) ex_chain ex_shared 0%nat ex_world eq_refl ltac:(lia)
    ltac:(apply idle_respects; by split)) as (core & started & k' & w' & H1 & _ & _ & H2 & H3 & H4 & _).
  exists core, started, k', w'. split_and!; [exact H1 | exact H2 | exact H3 | rewrite H4; exact H3].
Defined.

(** ** Handle *)

Definition ex_handle : DisruptorHandle := handle_new ex_core.

Lemma ex_handle_wf : handle_wf ex_handle ex_world.
Proof. constructor; [exact ex_core_wf | reflexivity | intros H; discriminate H]. Defined.

Lemma handle_lifecycle_witness :
  wpx (core_rely World.Single 4) (stop_with SDrop 9 ex_handle)
    (fun h' w' => closed World.Single w' = true /\ consumer_count h' = 0%nat /\
       (is_shutdown ex_handle = false -> down ex_handle h' w') /\ handle_wf h' w' /\ inert (T := nat) "p" h')
    (fun msg w' => is_shutdown ex_handle = false /\ left_running ex_core (Some 2000000000) ex_world msg w') ex_world.
Proof. exact (handle_lifecycle "p" SDrop 9 ex_handle ex_world ex_handle_wf). Defined.

(** ** Pipeline *)

Definition ex_builder : ProducerBuilder nat nat := mkBuilder (fun i => i) true (HasConsumers, ex_shared).

Definition ex_build : M (World nat) (DisruptorHandle * list (Started nat)) :=
  default (panic "") (Pipeline.build ex_alloc (fun _ => true) ex_builder).

(** The handle it gives, and an environment in which time passes and its three
    consumers stop when told. *)
Definition ex_built : DisruptorHandle :=
  match ex_build idle 0%nat ex_world with Done (h, _) _ _ => h | _ => ex_handle end.

Definition ex_all_obey : env (World nat) := fun _ w =>
  upd_clock (Z.add 1) (if flag_at w 4 then
    set_thread 21 (ThreadFinished ExitOk) (set_thread 22 (ThreadFinished ExitOk) (set_thread 23 (ThreadFinished ExitOk) w)) else w).

Lemma ex_all_obey_respects : respects (core_rely World.Multi 4) ex_all_obey.
Proof.
  intros j w. unfold ex_all_obey. destruct (flag_at w 4) eqn:Hf; (split; [|done]); constructor; cbn; try done; try lia.
  intros l [x Hx]. unfold finished, thread_at in *. cbn in *.
  do 3 (rewrite lookup_total_insert; case_decide; [eauto|]). eauto.
Defined.

Lemma ex_all_obey_obeys : obeys (handle_core ex_built) ex_all_obey 0.
Proof.
  assert (Hcs : consumers (handle_core ex_built) =
    [mkConsumer (Some 21%positive) "disruptor-consumer"; mkConsumer (Some 22%positive) "disruptor-consumer";
     mkConsumer (Some 23%positive) "disruptor-fanout"]) by (vm_compute; reflexivity).
  intros j w c l _ Ht. rewrite Hcs. assert (Hf : flag_at w 4 = true) by exact Ht. exists ExitOk. unfold ex_all_obey. rewrite Hf.
  repeat (match goal with H : _ ∈ _ :: _ |- _ => apply elem_of_cons in H as [->|H] end); try (by apply not_elem_of_nil in H);
    injection H0 as <-; unfold thread_at; cbn; by rewrite !lookup_total_insert.
Defined.

Lemma pipeline_life_witness :
  exists started k' w', ex_build idle 0%nat ex_world = Done (ex_built, started) k' w' /\
    consumer_count ex_built = 3%nat /\ Pipeline.create_producer ex_built = Some (Producer.new World.Multi) /\
    match shutdown_timeout 4 ex_built 1 ex_all_obey 0%nat w' with
    | Done (r, h') _ w2 => finished_life "p" World.Multi ex_built h' w2 /\ drain_outcome (handle_core ex_built) (Some 1) w' r w2
    | Panicked msg _ w2 => left_running (handle_core ex_built) (Some 1) w' msg w2
    | NoFuel => False
    end.
Proof.
  destruct (pipeline_life ex_alloc (fun _ => true) "p" (fun _ => eq_refl) ltac:(intros x y H; cbn in H; lia) idle true 2
    (fun i => i) BusySpinWaitStrategy ex_chain ex_builder ex_build 0%nat ex_world eq_refl eq_refl ltac:(lia)
    ltac:(apply idle_respects; by split)) as (h & started & k' & w' & H1 & Hb & _ & _ & Htimed).
  assert (Hh : ex_built = h) by (unfold ex_built; by rewrite H1). rewrite <- Hh in *.
  exists started, k', w'. split_and!; [exact H1 | exact (bt_consumers _ _ _ _ Hb) | exact (bt_create _ _ _ _ Hb) |].
  apply (Htimed ex_all_obey 0%nat 4%nat 1 0%nat);
    [apply ex_all_obey_respects | | apply ex_all_obey_obeys | lia | lia | cbn; lia | cbn; lia].
  intros j x. unfold ex_all_obey. destruct (flag_at x 4); cbn; lia.
Defined.

Lemma into_producer_keeps_claims_witness :
  wp (claims_rely World.Single 4) (into_producer 9 ex_handle)
    (fun p w' => p = Producer.new_unique /\ closed World.Single w' = false /\
       joined [mkConsumer (Some 10%positive) "c"] w' /\ (forall s, s ∈ [2%positive] -> s ∉ gating World.Single w')) ex_world.
Proof. exact (into_producer_keeps_claims 9 ex_handle ex_world ex_handle_wf). Defined.

Lemma unique_producer_linear_witness :
  let ps := [Producer.new_unique; Producer.new World.Single] in
  (length (filter (fun p => unique_claim p = true) ps) <= 1)%nat.
Proof.
  destruct (unique_producer_linear ex_core (take_initial_producer ex_core).2 [Producer.new_unique; Producer.new World.Single]) as [H _];
    [reflexivity | | exact H].
  eapply rtc_l; [apply (mint_initial ex_core [])|]. eapply rtc_l; [|apply rtc_refl].
  exact (mint_create (take_initial_producer ex_core).2 [Producer.new_unique]).
Defined.

(** ** Processor *)

Definition ex_proc : BatchEventProcessor nat := mkProcessor (ex_barrier World.Single) DefaultExceptionHandler 2 5 6 7.

Lemma ex_proc_wf : processor_wf ex_proc.
Proof. by constructor. Defined.

Lemma processor_exit_witness :
  match run ex_handler (fun _ h => h) "p" 3 ex_proc 0%nat idle 0%nat (set_flag 5 true ex_world) with
  | Done (Err err, _) _ w' => err = AlreadyRunning /\ w' = set_flag 5 true ex_world
  | _ => False
  end.
Proof.
  destruct (processor_exit ex_handler (fun _ h => h) "p" ex_proc ex_proc_wf I idle 3 0%nat 0%nat (set_flag 5 true ex_world)
    ltac:(by apply idle_respects)) as [_ H].
  destruct (run _ _ _ _ _ _ idle 0%nat _) as [[[|err] h'] k' w'| |] eqn:E; try (vm_compute in E; discriminate E).
  destruct H as (H1 & _ & _ & _ & H2). by split.
Defined.

Lemma probe_delivers_witness :
  wp (engine_rely (fun _ => 7%nat) (ex_barrier World.Single) 2 unconstrained)
    (try_run_once (Delivery.logged (Some DefaultExceptionHandler) ex_handler) (fun _ h => h) "p" 9 ex_proc (0%nat, []))
    (fun rh w' => probed (fun _ => 7%nat) ex_proc (-1) rh.1 rh.2.2 w') ex_world /\
  claim_settled ex_proc 0%nat idle 0%nat ex_world (try_run_once ex_handler (fun _ h => h) "p" 9 ex_proc 0%nat idle 0%nat ex_world).
Proof.
  destruct (probe_delivers (fun _ => 7%nat) ex_handler (fun _ h => h) "p" ex_proc
    ltac:(constructor; intros; by eexists) ltac:(intros x ? ? ? [= <-]; by eexists) ltac:(done) 9 4 0%nat ex_world) as [H1 H2];
    [apply ex_eng_inv | done | cbn; lia | split; [exact H1 | apply H2]].
Defined.

(** ** Facade *)

Definition ex_dsl (is_started : bool) : Disruptor nat :=
  mkDisruptor World.Single 4 [ex_proc] (if is_started then [(10%positive, "badbatch-processor-0")] else []) is_started 4 8.

Lemma ex_dsl_wf b : dsl_wf (ex_dsl b).
Proof. intros p ->%list_elem_of_singleton. done. Defined.

Lemma dsl_shutdown_spec_witness :
  wpx (dsl_rely (ex_dsl true)) (dsl_shutdown (fun _ => "") 9 (ex_dsl true) (Some 5)) (fun '(r, d') w' =>
    d' = with_threads [] false (ex_dsl true) /\ closed World.Single w' = true /\
    (forall h, h ∈ thread_handles (ex_dsl true) -> finished w' h.1) /\ shutdown_outcome (ex_dsl true) (Some 5) ex_world r w')
    (dsl_left_running (ex_dsl true) (Some 5) ex_world) ex_world.
Proof. exact (dsl_shutdown_spec (fun _ => "") 9 (ex_dsl true) (Some 5) ex_world (ex_dsl_wf true)). Defined.

(** With [Duration::MAX] it panics, and the processor keeps its running flag. *)
Example ex_dsl_shutdown_overflow :
  match dsl_shutdown (fun _ => "") 9 (ex_dsl true) (Some duration_max) idle 0%nat (set_flag 5 true ex_world) with
  | Panicked msg _ w' => msg = overflow_message /\ closed World.Single w' = true /\ flag_at w' 5 = true
  | _ => False
  end.
Proof. vm_compute. by split_and!. Qed.

(** Time passes, and the thread of the processor ends once the processor has been halted. *)
Definition ex_heeding : env (World nat) := fun _ w =>
  upd_clock (Z.add 1)
    (if flag_at w 4 && negb (flag_at w 5) && flag_at w 3 then
       match thread_at w 10 with
       | ThreadRunning => set_thread 10 (ThreadFinished ExitOk) w
       | ThreadFinished _ => w
       end
     else w).

Lemma ex_heeding_respects : respects (halt_rely (ex_dsl true)) ex_heeding.
Proof.
  intros j w. unfold ex_heeding. destruct (flag_at w 4 && negb (flag_at w 5) && flag_at w 3), (thread_at w 10) eqn:Ht.
  all: split; [split; [split; [constructor; cbn; try done; try lia|done]|]|by intros _ p _].
  1: intros l [x Hx]; unfold finished.
  2: intros l x Hx.
  3-5: by apply exits_stay_eq.
  all: unfold thread_at in *; cbn in *; destruct (decide (l = 10%positive)) as [->|]; [congruence|];
    rewrite lookup_total_insert_ne by done; eauto.
Defined.

Lemma dsl_shutdown_returns_witness :
  match dsl_shutdown (fun _ => "") 4 (ex_dsl true) (Some 1) ex_heeding 0%nat ex_world with
  | Done (r, d') _ w' =>
      d' = with_threads [] false (ex_dsl true) /\ closed World.Single w' = true /\
      (forall h, h ∈ thread_handles (ex_dsl true) -> finished w' h.1) /\ shutdown_outcome (ex_dsl true) (Some 1) ex_world r w'
  | _ => False
  end.
Proof.
  assert (H := dsl_shutdown_returns (fun _ => "") (ex_dsl true) ex_heeding 0 4 1 0%nat ex_world).
  destruct (dsl_shutdown (fun _ => "") 4 (ex_dsl true) (Some 1) ex_heeding 0%nat ex_world) as [[r d'] k' w'|msg k' w'|] eqn:Hrun;
    [| vm_compute in Hrun; discriminate Hrun | vm_compute in Hrun; discriminate Hrun].
  apply H; [| apply ex_heeding_respects | | | lia | lia | cbn; lia | done].
  - split; [apply ex_dsl_wf|]. by intros p q ->%list_elem_of_singleton ->%list_elem_of_singleton.
  - intros j w. unfold ex_heeding. destruct (flag_at w 4 && negb (flag_at w 5) && flag_at w 3); [destruct (thread_at w 10)|]; cbn; lia.
  - intros j w _ [Ht Ha] h ->%list_elem_of_singleton. destruct (Ha ex_proc ltac:(by apply list_elem_of_singleton)) as [H1 H2].
    change (flag_at w 4 = true) in Ht. change (flag_at w 5 = false) in H1. change (flag_at w 3 = true) in H2.
    unfold ex_heeding. rewrite Ht, H1, H2. cbn [andb negb fst].
    destruct (thread_at w 10) as [|x] eqn:Hx; [exists ExitOk; apply lookup_total_insert_eq | by exists x].
Defined.

Lemma start_spec_witness :
  wp (start_rely (ex_dsl true)) (start (fun _ => "") 9 Pos.of_succ_nat (fun _ => true) (ex_dsl true))
    (fun '(r, d') w' => r = Err AlreadyRunning /\ d' = ex_dsl true /\ w' = ex_world) ex_world.
Proof. exact (start_spec (fun _ => "") 9 Pos.of_succ_nat (fun _ => true) (ex_dsl true) ex_world (fun _ => eq_refl) (ex_dsl_wf true)). Defined.

(** After a first run, startup flag 6 is up. *)
Lemma restart_does_not_wait_witness :
  exists d' k' w', start (fun _ => "") 9 Pos.of_succ_nat (fun _ => true) (ex_dsl false) idle 0%nat (set_flag 6 true ex_world) =
      Done (Ok tt, d') k' w' /\ started d' = true /\
    forall l, l <> 4%positive -> flag_at w' l = flag_at (set_flag 6 true ex_world) l.
Proof.
  apply (restart_does_not_wait (fun _ => "") 9 Pos.of_succ_nat (fun _ => true) (ex_dsl false) 0%nat (set_flag 6 true ex_world));
    [done | done | done | lia | |]; intros p ->%list_elem_of_singleton; done.
Defined.

Lemma publish_event_guarded_witness :
  publish_event "p" 9 5 (ex_dsl true) (fun n _ => (S n, None)) idle 0%nat (set_flag 9 true ex_world) =
    Done (Err ReentrantPublish) 0%nat (set_flag 9 true ex_world).
Proof.
  apply (publish_event_guarded "p" 9 5 (ex_dsl true) (fun n _ => (S n, None)) idle 0%nat (set_flag 9 true ex_world)
    eq_refl ltac:(discriminate)).
Defined.

Definition ex_unbuilt : Disruptor nat := mkDisruptor World.Single 4 [] [] false 4 8.

Definition ex_unbuilt_world : World nat := upd_single (sp_set_gating []) ex_world.

Lemma chain_topology_witness :
  exists b k' w',
    (let* b := handle_events_with_exception_handler ex_unbuilt DefaultExceptionHandler (mkProcessorAlloc 20 21 22 23 24) in
     then_all b [mkProcessorAlloc 30 31 32 33 34]) idle 0%nat ex_unbuilt_world = Done b k' w' /\
    chain_inv World.Single 1 [mkProcessorAlloc 20 21 22 23 24; mkProcessorAlloc 30 31 32 33 34] (build b) b.2 w'.
Proof.
  apply (chain_topology idle ex_unbuilt DefaultExceptionHandler (mkProcessorAlloc 20 21 22 23 24) [mkProcessorAlloc 30 31 32 33 34]
    0%nat ex_unbuilt_world); [by apply idle_respects | done | done |].
  constructor; [set_solver | apply NoDup_singleton].
Defined.

(** ** Elegant consumer *)

Definition ex_elegant : ElegantConsumer := mkElegant (Some (mkManaged (Some 10%positive) "elegant-consumer")) 2 4 5.

Lemma elegant_loop_spec_witness :
  match consumer_loop 30 (logged (fun (h : nat) (event : nat) _ _ => ((h + event)%nat, None))) BusySpin 2 4 5
          (option_map (sequencer_poison_hook "c") (Some World.Single)) (0%nat, []) ex_shutdown 0%nat ex_world with
  | Done (_, log) _ w' => flag_at w' 4 = true /\ exists n, log = calls_upto n /\ seq_at w' 2 = Z.of_nat n - 1
  | Panicked _ _ w' => panicked_down ex_elegant (Some World.Single) w'
  | NoFuel => True
  end.
Proof.
  apply (elegant_loop_spec "c" (fun (h : nat) (event : nat) _ _ => ((h + event)%nat, None)) BusySpin ex_elegant (Some World.Single)
    30 0%nat ex_shutdown 0%nat ex_world); [done | | i64_lia | apply ex_ring_wf | done].
  intros j w. unfold ex_shutdown. destruct (j <? 20)%nat; [done|]. constructor; try done.
  - intros _. apply flag_at_set_eq.
  - intros H. by rewrite flag_at_set_ne.
Defined.

Lemma elegant_life_witness :
  exists l k' w',
    new_with_sequencer_poison "c" None true 10 2 4 5 30 (logged (fun (h : nat) (event : nat) _ _ => ((h + event)%nat, None)))
      (0%nat, []) BusySpin World.Single idle 0%nat ex_world = Done (Ok l) k' w' /\
    fresh_consumer (launched l) w' /\
    match run_thread l ex_shutdown 0%nat w' with
    | Done (_, log) _ w2 => flag_at w2 4 = true /\ exists n, log = calls_upto n /\ seq_at w2 2 = Z.of_nat n - 1
    | Panicked _ _ w2 => panicked_down (launched l) (Some World.Single) w2
    | NoFuel => False
    end.
Proof.
  destruct (elegant_life "c" (fun (h : nat) (event : nat) _ _ => ((h + event)%nat, None)) BusySpin None 10 2 4 5 (Some World.Single)
    30 0%nat idle 0%nat ex_world ltac:(done) ltac:(by intros j w) ltac:(i64_lia)) as (l & k' & w' & Hl & Hc & _ & Hfr & Hrun).
  exists l, k', w'. split; [exact Hl|]. split; [exact Hfr|].
  assert (Hext : respects (elegant_rely (launched l)) ex_shutdown).
  { rewrite Hc. intros j w. unfold ex_shutdown. destruct (j <? 20)%nat; [done|]. constructor; try done.
    - intros _. apply flag_at_set_eq.
    - intros H. by rewrite flag_at_set_ne. }
  assert (Hring : w_ring w' = w_ring ex_world)
    by exact (eq_sym (f_equal (fun r => match r with Done _ _ x => w_ring x | _ => w_ring ex_world end) Hl)).
  specialize (Hrun ex_shutdown 0%nat w' Hext ltac:(reflexivity) ltac:(rewrite Hring; apply ex_ring_wf)).
  destruct (run_thread l ex_shutdown 0%nat w') as [[h' log] k2 w2| |]; [exact Hrun | exact Hrun|].
  apply Hrun. exists 20%nat. split; [lia|]. intros j x Hj. unfold ex_shutdown. destruct (Nat.ltb_spec j 20); [lia|]. apply flag_at_set_eq.
Defined.

(** On that run the handler has been called five times, although the cursor
    has never moved. *)
Example ex_elegant_unpublished :
  match consumer_loop 30 (logged (fun (h : nat) (event : nat) _ _ => ((h + event)%nat, None))) BusySpin 2 4 5 None
          (0%nat, []) ex_shutdown 0%nat ex_world with
  | Done (_, log) _ w' => log = calls_upto 5 /\ seq_at w' 1 = -1
  | _ => False
  end.
Proof. vm_compute. split; reflexivity. Qed.
