(* ===== verification/TailWitnesses.v ===== *)
(** * TailWitnesses: the theorems on the tail-latency harness applied to a
    measurement of 300,000 events at 1,000 per second, and to the numbers of
    the harness's own tests. *)
From stdpp Require Import sorting.
From S2P Require Import Prelude Effects Errors Text Float64 Json CommandLine TailWorkload TailWorkloadSpec TailArgs TailArgsSpec TailReport TailReportSpec TailJson.

(** Underscores are not allowed in the injection durations. *)
Definition measure_args : list string :=
  ["--rate"; "1_000"; "--samples-output"; "s.csv"; "--cpu-list"; "2,3"; "--events-total"; "300_000";
   "--handler-mode"; "allocating"; "--retention-window"; "1_024"; "--inject-sleep-us-by-load"; "50000"].

Definition measure_cfg : Config :=
  mkConfig Allocating (Some 1024) BusySpin NoPad 65536 300000 100000 (Some 1000) [50; 70; 90] 100000000 2000000000 false None None
    [2; 3] None (Some "s.csv") 300000000000 [50000000] 25.

Lemma measure_parsed : parse_args measure_args = Parsed (Ok measure_cfg).
Proof. vm_compute. reflexivity. Qed.

Lemma parse_args_valid_witness :
  parse_args measure_args = Parsed (Ok measure_cfg) /\ config_valid measure_cfg /\ handler_mode_parse "allocating" = Ok Allocating.
Proof.
  split; [exact measure_parsed|]. destruct (parse_args_valid measure_args measure_cfg measure_parsed) as (H1 & H2 & _).
  split; [exact H1 | exact H2].
Defined.

Lemma parse_cpu_list_roundtrip_witness :
  parse_cpu_list "2,3" = Ok [2; 3] /\ parse_cpu_list "2,2" = Err "cpu-list must contain unique CPU IDs".
Proof.
  split.
  - pose proof (proj1 (parse_cpu_list_roundtrip [2; 3] ltac:(repeat constructor; unfold usize_max, two64; lia))) as H. vm_compute in H |- *. exact H.
  - vm_compute. reflexivity.
Defined.

Definition two_samples : list LatencySample := [mkLatencySample 1 100 150 50; mkLatencySample 0 0 20 20].

Lemma compute_stats_spec_witness :
  compute_stats (reverse two_samples) = compute_stats two_samples /\
  exists st, compute_stats two_samples = Some st /\ st.(max) = of_Z 50 /\ stats_of [50; 20] st.
Proof.
  destruct (compute_stats_spec two_samples (reverse two_samples)) as (H1 & st & H2 & H3).
  - repeat constructor; unfold u64_max, two64; cbn; lia.
  - unfold usize_max, two64. cbn. lia.
  - apply Permutation_swap.
  - split; [exact H1|]. exists st. split; [exact H2|]. split; [|exact H3].
    vm_compute in H2. injection H2 as <-. vm_compute. reflexivity.
Defined.



Definition calibration_cfg : Config :=
  mkConfig AllocationFree None BusySpin NoPad 64 1000000 1 None [50; 70; 90] 2 1000000 true None None [] None None 300000000000 [] 25.

Lemma calibration_parsed :
  parse_args ["--calibrate-only"; "--calibration-events"; "2"; "--calibration-duration-ms"; "1"; "--warmup-events"; "1"; "--buffer-size"; "64"] =
  Parsed (Ok calibration_cfg).
Proof. vm_compute. reflexivity. Qed.

Definition calibration_env : CalibrationEnv :=
  mkCalibrationEnv true false false (fun _ => None) (fun _ => true) (fun n => n) (fun k => Z.of_nat k * 10) 1000.

Lemma calibration_ends_witness :
  exists n, 0 <= n <= 2 /\ calibrate_max_rate_with_workload 3 calibration_cfg calibration_env = Some (Ok (f64_div (of_Z n) (as_secs_f64 1000))).
Proof.
  pose proof (calibration_ends 3 calibration_cfg calibration_env (parse_args_ok _ _ calibration_parsed) ltac:(cbn; lia)) as H.
  destruct (calibrate_max_rate_with_workload 3 calibration_cfg calibration_env) as [[r|e]|] eqn:Hc.
  - destruct H as (n & Hn & -> & _). exists n. split; [exact Hn | reflexivity].
  - vm_compute in Hc. discriminate.
  - vm_compute in Hc. discriminate.
Defined.

(** *** A whole measurement *)

Definition measure_tls : Tls := mkTls false 0 0 0 0.
Definition measure_cells : Cells := mkCells measure_tls 0 0 None 0 0 None false.
Definition measure_tick (_ : nat) : Z := 1.
Definition measure_elapsed (_ : nat) : Z := 1000000000000.
Definition accept (_ : Z) : option string := None.
Definition pin_always (_ : Z) : bool := true.

(** The sink after a consumer has handled what the schedule publishes. *)
Definition outcome_of (published : option (result (option Z * option Z * list (LatencyEvent * nat)) string)) : result (option HandlerOutcome) string :=
  match published with
  | Some (Ok (_, _, events)) =>
      match run_load_w measure_tick pin_always (Some [3]) measure_cfg (Some 50000000) measure_cells 0 (map fst events) with
      | Some c' => Ok c'.(outcome_sink)
      | None => Err "panic"
      end
  | _ => Err "no events"
  end.

Definition measure_env : RunEnv :=
  mkRunEnv true false false 0 (Ok 5) 0 0 measure_elapsed accept true 300000
    (outcome_of (publish_loop (Z.to_nat measure_cfg.(events_total)) 1 measure_elapsed accept 1000 0 0 None None [])).

Lemma faithful_run_valid_witness :
  match run_load_with_workload 1 measure_cfg 1000 (of_Z 100000) (of_Z 100000) (Some 50000000) measure_env with
  | Some (Ok load) =>
      map smp_sequence load.(res_samples) = seqZ 100000 200000 /\ load.(workload_valid) = true /\
      is_some load.(pause_check) = true /\
      load.(valid_run) = load.(rate_valid) && match load.(pause_check) with Some p => pause_is_valid p | None => true end
  | Some (Err e) =>
      exists d ob st, Some 50000000 = Some d /\ validate_injected_pause d 1000 (of_Z 100000) st ob (299999 * NANOS / 1000) = Err e
  | None => False
  end.
Proof.
  apply (faithful_run_valid 1 measure_cfg 1000 (of_Z 100000) (of_Z 100000) (Some 50000000) measure_env measure_tick pin_always (Some [3]) measure_cells).
  - split; try reflexivity; try (cbn; lia).
    + exact (parse_args_ok _ _ measure_parsed).
    + vm_compute. discriminate.
    + vm_compute. discriminate.
    + intros k. unfold measure_tick. lia.
    + intros d [= <-]. lia.
  - lia.
  - vm_compute. discriminate.
  - split; try reflexivity; try (split; reflexivity).
    + exists (mkClockAnchor 0 5 0), 5. split; reflexivity.
    + intros i k Hi. exists 0%nat. split; [lia|]. unfold measure_env, env_elapsed, measure_elapsed.
      cbn [events_total measure_cfg] in Hi. apply Z.div_le_upper_bound; unfold NANOS; lia.
  - intros fs ls events c' Hloop Hrun. unfold measure_env, env_outcome.
    unfold measure_env, env_elapsed, env_publish, env_epoch in Hloop, Hrun. rewrite Hloop. unfold outcome_of. rewrite Hrun. reflexivity.
Defined.

(** The report of a load of two samples. *)
Definition small_load : LoadResult :=
  mkLoadResult 50 1000 (of_Z 100000) f64_half (of_Z 999) true true true 5 1 None two_samples
    (mkWorkloadStats (mkAllocationCounters 0 0 0 0) 0 0 0).
Definition build : BuildProvenance := mkBuildProvenance "0123456789abcdef0123456789abcdef01234567" (Some false).

Lemma tail_report_reads_back_witness :
  exists measured out,
    write_result measure_cfg false (Some (of_Z 100000)) (of_Z 100000) [small_load] build = Some out /\
    map fst measured = [small_load] /\
    parse_json out = report_value measure_cfg false (Some (of_Z 100000)) (of_Z 100000) [small_load] build measured /\
    is_Some (parse_json out).
Proof.
  destruct (write_result measure_cfg false (Some (of_Z 100000)) (of_Z 100000) [small_load] build) as [out|] eqn:Hout; [|vm_compute in Hout; discriminate].
  destruct (tail_report_reads_back measure_cfg false (Some (of_Z 100000)) (of_Z 100000) [small_load] build out) as (measured & Hm & Hfst & Hp);
    [reflexivity | exact Hout|].
  exists measured, out. split; [reflexivity|]. split; [exact Hfst|]. split; [exact Hp|]. rewrite Hp.
  vm_compute in Hm. injection Hm as <-. vm_compute. eexists. reflexivity.
Defined.
