(* ===== verification/HarnessWitnesses.v ===== *)
(** * HarnessWitnesses: the theorems on the throughput harness applied to
    rounds of six events. *)
From Stdlib Require Import Ascii.
From S2P Require Import Prelude Effects Errors Text Float64 Json CommandLine RingBuffer Checksums H2h H2hSpec H2hReport.

Definition mpsc_args : list string :=
  ["--scenario"; "mpsc_batch"; "--events-total"; "6"; "--batch-size"; "2"; "--buffer-size"; "8"; "--warmup-rounds"; "1"; "--measured-rounds"; "2"].

Definition mpsc_cfg : Config :=
  mkConfig MpscBatch BusySpin NoPad 8 6 2 1 2 "standalone" "standalone" 0 None None None None "badbatch-builder" None 300000000000 [] ValueMode.

Lemma mpsc_parsed : parse_args mpsc_args = Parsed (Ok mpsc_cfg).
Proof. vm_compute. reflexivity. Qed.

(** Three producers of two events each, their batches interleaved. *)
Definition arrived : list Z := [2; 4; 0].
Definition arrived_later : list Z := [1; 5].

Lemma checksum_exact_witness :
  exists h' sum,
    terminal_run (mkTerminalHandler 6 5 0 TerminalValue ValueMode []) (mkCounters 0 0 1) 0 (map fresh (arrived ++ 3 :: arrived_later)) =
      Some (h', mkCounters 6 sum 1) /\
    wrap64 sum = expected_checksum mpsc_cfg.
Proof.
  destruct (checksum_exact mpsc_cfg (mkTerminalHandler 6 5 0 TerminalValue ValueMode []) (mkCounters 0 0 1) arrived 3 arrived_later 3
              (map fresh (arrived ++ 3 :: arrived_later))) as ((h' & sum & Hrun & Hsum) & _).
  - vm_compute. split; [reflexivity | discriminate].
  - reflexivity.
  - vm_compute. discriminate.
  - reflexivity.
  - apply NoDup_Permutation; [by apply (bool_decide_unpack _) | apply NoDup_seqZ |].
    intros x. rewrite elem_of_seqZ. cbn [events_total mpsc_cfg]. unfold arrived, arrived_later. cbn [app]. rewrite !elem_of_cons, elem_of_nil. lia.
  - vm_compute. split; [discriminate | reflexivity].
  - cbn. repeat constructor.
  - exists h', sum. split; [exact Hrun | by apply Hsum].
Defined.

Lemma publishes_all_witness :
  exists bss,
    mapM (fun id => batches 7 2 (fst (producer_range mpsc_cfg id)) (snd (producer_range mpsc_cfg id))) (seqZ 0 3) = Some bss /\
    concat (map (@concat ComparisonEvent) bss) = map fresh [0; 1; 2; 3; 4; 5].
Proof.
  destruct (publishes_all mpsc_cfg 7) as (_ & bss & H1 & H2 & _); [vm_compute; discriminate | vm_compute; split; [discriminate | reflexivity] | reflexivity |].
  exists bss. split; [exact H1 | exact H2].
Defined.

Definition good_round (_ : Z) : RoundEnv := mkRoundEnv true false true false false true 6 1000 15.

Lemma h2h_exit_zero_witness :
  main_exit mpsc_cfg false true good_round = Some 0 /\ config_valid mpsc_cfg /\
  wrap64 (good_round 2).(env_checksum) = expected_checksum mpsc_cfg.
Proof.
  assert (H0 : main_exit mpsc_cfg false true good_round = Some 0) by (vm_compute; reflexivity).
  destruct (h2h_exit_zero mpsc_args mpsc_cfg false true good_round mpsc_parsed ltac:(vm_compute; discriminate) H0) as (Hv & _ & Hr).
  split; [exact H0|]. split; [exact Hv|]. apply (Hr 2). cbn. lia.
Defined.

(** The report of three rounds. *)
Definition clean_tree : Git := mkGit "0123abc" false.

Lemma h2h_report_reads_back_witness :
  exists rounds summary out,
    run_rounds mpsc_cfg good_round = Ok rounds /\ length rounds = 3%nat /\ summarize rounds 1 = Some summary /\
    write_result mpsc_cfg clean_tree false rounds summary = Some out /\
    parse_json out = report_value mpsc_cfg clean_tree false rounds summary [] /\ is_Some (parse_json out).
Proof.
  destruct (run_rounds mpsc_cfg good_round) as [rounds|] eqn:Hr; [|vm_compute in Hr; discriminate].
  assert (Hrounds : rounds = match run_rounds mpsc_cfg good_round with Ok r => r | Err _ => [] end) by (rewrite Hr; reflexivity).
  vm_compute in Hrounds. destruct (summarize rounds 1) as [summary|] eqn:Hs; [|rewrite Hrounds in Hs; vm_compute in Hs; discriminate].
  destruct (write_result mpsc_cfg clean_tree false rounds summary) as [out|] eqn:Hout; [|discriminate].
  exists rounds, summary, out.
  destruct (h2h_report_reads_back mpsc_cfg clean_tree false good_round rounds summary out) as (roles & Hroles & Hp); [reflexivity | exact Hr | exact Hout|].
  injection Hroles as <-. split; [reflexivity|]. split; [rewrite Hrounds; reflexivity|]. split; [exact Hs|]. split; [exact Hout|]. split; [exact Hp|].
  rewrite Hp. rewrite Hrounds in Hs |- *. vm_compute in Hs. injection Hs as <-. vm_compute. eexists. reflexivity.
Defined.
