(* ===== verification/BreakdownWitnesses.v ===== *)
(** * BreakdownWitnesses: the theorems on the pipeline breakdown applied to a
    round of five events in batches of two. *)
From Stdlib Require Import Ascii.
From S2P Require Import Prelude Effects Errors Text Float64 CommandLine Checksums PipelineBreakdown PipelineBreakdownSpec.

Definition cfg : ResolvedConfig := mkCliConfig Two Yielding NoPadding 5 8 0 1 300 None.

(** Batches of two: the last one has one event. *)
Definition by_two (v : Z) : bool := Z.odd v || (v =? 4).

(** The loads find one state after the other. *)
Definition history : list Shared := round_history (E := ComparisonEvent) TwoStage by_two 5.
Definition position (k : nat) : nat := if (k <=? 3)%nat then k else 6%nat.
Definition observed : RoundEnv := mkRoundEnv (fun _ => 2) (fun k => List.nth (position k) history (mkShared 0 0)) (fun _ => 0) 100.

Lemma breakdown_verdict_witness :
  exists r, run_round 9 cfg TwoStage 0 observed = Some (Ok r) /\ r.(valid) = true /\ r.(checksum_observed) = 65.
Proof.
  destruct (run_round 9 cfg TwoStage 0 observed) as [[r|e]|] eqn:Hr; [|vm_compute in Hr; discriminate..].
  destruct (breakdown_verdict (E := ComparisonEvent) TwoStage by_two 9 cfg 0 observed position r) as (_ & _ & Hv).
  - vm_compute. split; [reflexivity | discriminate].
  - reflexivity.
  - split.
    + intros k. unfold observed, env_shared. change (round_history _ _ _) with history. unfold position. destruct (Nat.leb_spec k 3).
      * destruct k as [|[|[|[|k]]]]; try lia; vm_compute; reflexivity.
      * vm_compute. reflexivity.
    + intros j k Hjk. unfold position. destruct (Nat.leb_spec j 3), (Nat.leb_spec k 3); lia.
  - exact Hr.
  - exists r. split; [reflexivity|]. apply Hv. intros k. unfold position. destruct (Nat.leb_spec k 3); vm_compute length; lia.
Defined.

Lemma breakdown_race_witness :
  exists env r, run_round 1 cfg TwoStage 0 env = Some (Ok r) /\ r.(events_processed) = 5 /\ r.(valid) = false.
Proof.
  destruct (breakdown_race (E := ComparisonPadded64Event) TwoStage 0 cfg 0 ltac:(vm_compute; split; [reflexivity | discriminate])) as (env & position & r & _ & _ & H1 & H2 & H3).
  exists env, r. split; [exact H1|]. split; [exact H2 | exact H3].
Defined.
