(* ===== verification/UnicastWitnesses.v ===== *)
(** * UnicastWitnesses: the theorems on the unicast breakdown applied to short
    rounds, and to a round of four thousand million values. *)
From Stdlib Require Import Ascii.
From S2P Require Import Prelude Effects Errors RingBuffer World Sequence Single Multi Availability Sequencer Waiting WaitStrategy Barrier ConsumerEngine Core.
From S2P Require Import Delivery Text Float64 CommandLine Checksums UnicastBreakdown UnicastBreakdownSpec UnicastConsumer.

Definition addresses : Addresses := mkAddresses 1 2 3 4 7 5 6 9.

(** Empty memory, nobody else, and a clock that ticks. *)
Definition blank (E : Type) : World E :=
  mkWorld ∅ ∅ 0 (mkBlockingState false 0) (mkSingle 1 1 BusySpinWaitStrategy false 1 [] (-1) (-1) false false false None)
    (mkMulti 1 1 BusySpinWaitStrategy false 1 [] [] 0 0 (-1) [-1] false false None) (mkRingBuffer (StInline []) 0) ∅.
Definition ticking (E : Type) : env (World E) := fun _ w => upd_clock (Z.add 1) w.
Definition alone : System := mkSystem blank ticking true addresses.

Definition short_cli : CliConfig := mkCliConfig ModeClaimWritePublish BusySpin Minimal 5 None false 0 1 300 None.
Definition short_cfg : ResolvedConfig := mkResolvedConfig ModeClaimWritePublish BusySpin Minimal 5 8 false 0 1 300 None.

(** Four thousand million values: the product of the checksum wraps once. *)
Definition long_cli : CliConfig := mkCliConfig ModeBaseline BusySpin Minimal 4000000000 None false 0 1 300 None.
Definition long_cfg : ResolvedConfig := mkResolvedConfig ModeBaseline BusySpin Minimal 4000000000 4294967296 false 0 1 300 None.

Lemma direct_phases_verdict_witness :
  (exists rec, run_phase_with 1 short_cfg ClaimWritePublish alone 1 Measured = Returned (Ok rec) /\ rec.(valid) = true /\
     rec.(checksum_observed) = Some (exact_checksum 5) /\ rec.(last_sequence_observed) = Some 4) /\
  exists rec, run_phase_with 1 long_cfg Baseline alone 1 Measured = Returned (Ok rec) /\ rec.(valid) = false.
Proof.
  assert (Hlocal : respects local_rely (ticking MicroEvent)) by (intros k w; constructor; reflexivity).
  split.
  - destruct (direct_phases_verdict short_cli short_cfg ClaimWritePublish alone 1 Measured 0) as (rec & H1 & H2 & H3 & H4 & _);
      [reflexivity | discriminate | left | discriminate | discriminate | exact Hlocal |].
    exists rec. split; [exact H1|]. split; [apply H4; reflexivity|]. split; [apply H2; discriminate | apply H3; right; reflexivity].
  - destruct (direct_phases_verdict long_cli long_cfg Baseline alone 1 Measured 0) as (rec & H1 & _ & _ & _ & H5);
      [reflexivity | discriminate | left | discriminate | discriminate | exact Hlocal |].
    exists rec. split; [exact H1|]. apply H5; [discriminate | split; [discriminate | reflexivity]].
Defined.

(** The consumer on a ring of four slots, watched by flag 8. *)
Definition value_at (q : Z) : MicroEvent := mkMicroEvent q.
Definition runtime : DirectConsumerRuntime := mkRuntime (mkBarrier 1 BusySpinWaitStrategy [] 3 World.Single false) 2 4 5 6 7 9.
Definition start : World MicroEvent :=
  mkWorld {[1%positive := -1; 2%positive := -1; 5%positive := 0; 6%positive := 0]} {[3%positive := false; 4%positive := false; 7%positive := false; 8%positive := false]} 0
    (mkBlockingState false 0) (mkSingle 4 4 BusySpinWaitStrategy false 1 [2%positive] (-1) (-1) false false false None)
    (mkMulti 4 4 BusySpinWaitStrategy false 1 [] [] 3 2 (-1) [-1; -1; -1; -1] false false None)
    (mkRingBuffer (StInline [mkMicroEvent 0; mkMicroEvent 0; mkMicroEvent 0; mkMicroEvent 0]) 3) ∅.

Lemma runtime_separate : separate runtime 8.
Proof. constructor; cbn; try discriminate; (split; [discriminate | split; [discriminate | set_solver]]). Defined.

Lemma start_inv : eng_inv value_at (barrier runtime) (consumer_sequence runtime) unconstrained 4 0 start.
Proof.
  constructor.
  - constructor; [by split | done | done | |]; apply Z.ltb_lt; reflexivity.
  - done.
  - done.
  - exists 2. done.
  - vm_compute. split; discriminate.
  - intros q Hq _ Hp. exfalso. destruct Hp as [Hp _]. vm_compute in Hq, Hp. by destruct q.
  - done.
  - split; [done | set_solver].
Defined.

Lemma direct_consumer_consistent_witness :
  wp (watch_rely value_at runtime 8) (direct_consumer "" runtime 5)
    (fun _ w' => flag_at w' 8 = false /\ exists n, 0 <= n /\ seq_at w' 2 = n - 1 /\
       seq_at w' 5 = as_u64 n /\ seq_at w' 6 = wrap64 (sum_below value_at n)) start.
Proof.
  apply (direct_consumer_consistent value_at "" runtime 8 runtime_separate I 5 4 start start_inv); try reflexivity; cbn; lia.
Defined.
